(** * ComfyUI Audio Visualizer: a shallow embedding of web/audio_visualizer.js

    The development follows the class [AudioVisualizer] of
    [web/audio_visualizer.js].  The visualizer object ([this]) and the part of
    the browser it talks to (audio elements, Web Audio nodes, the animation
    frame queue, the 2D canvas) are explicit state; every method is a
    computation in a small state-and-completion monad that keeps the
    source's [try]/[catch] and early [return] structure. *)

From Stdlib Require Import ZArith QArith Qround Qabs Qpower List String Ascii DecimalString.
From Stdlib Require Import Bool Lia Lqa.
From stdpp Require Import gmap strings.
Import ListNotations.

Local Open Scope Z_scope.

(** ** JavaScript numbers

    A JavaScript number is NaN, an infinity or a finite value.  Finite values
    are kept as exact rationals, normalised by [Qred]; the sign of zero is not
    tracked, and the rounding of binary64 arithmetic is applied where the
    outcome turns on it, in the size of a background image ([binary64]
    below).  The operators below are the ones the visualizer applies. *)

Inductive Number : Type :=
| NaN
| NegInfinity
| Infinity
| Fin (q : Q).

Definition num (z : Z) : Number := Fin (inject_Z z).

Definition Qsgn (q : Q) : comparison := (q ?= 0)%Q.

Definition num_compare (a b : Number) : option comparison :=
  match a, b with
  | NaN, _ | _, NaN => None
  | NegInfinity, NegInfinity => Some Eq
  | NegInfinity, _ => Some Lt
  | _, NegInfinity => Some Gt
  | Infinity, Infinity => Some Eq
  | Infinity, _ => Some Gt
  | _, Infinity => Some Lt
  | Fin x, Fin y => Some (x ?= y)%Q
  end.

(** [a < b], [a > b], [a >= b] and [a === b] on numbers; every comparison
    with NaN is false. *)
Definition num_lt (a b : Number) : bool :=
  match num_compare a b with Some Lt => true | _ => false end.
Definition num_gt (a b : Number) : bool := num_lt b a.
Definition num_ge (a b : Number) : bool :=
  match num_compare a b with Some Gt | Some Eq => true | _ => false end.
Definition num_strict_eq (a b : Number) : bool :=
  match num_compare a b with Some Eq => true | _ => false end.

Definition num_neg (a : Number) : Number :=
  match a with
  | NaN => NaN
  | NegInfinity => Infinity
  | Infinity => NegInfinity
  | Fin q => Fin (Qred (- q))
  end.

Definition num_add (a b : Number) : Number :=
  match a, b with
  | NaN, _ | _, NaN => NaN
  | Infinity, NegInfinity | NegInfinity, Infinity => NaN
  | Infinity, _ | _, Infinity => Infinity
  | NegInfinity, _ | _, NegInfinity => NegInfinity
  | Fin x, Fin y => Fin (Qred (x + y))
  end.

Definition num_sub (a b : Number) : Number := num_add a (num_neg b).

(** The sign rule shared by [*] and [/] when an infinity is involved. *)
Definition inf_of_sign (s : comparison) : Number :=
  match s with
  | Gt => Infinity
  | Lt => NegInfinity
  | Eq => NaN
  end.

Definition num_sign (a : Number) : comparison :=
  match a with
  | NaN => Eq
  | NegInfinity => Lt
  | Infinity => Gt
  | Fin q => Qsgn q
  end.

Definition sign_mul (s t : comparison) : comparison :=
  match s, t with
  | Eq, _ | _, Eq => Eq
  | Gt, Gt | Lt, Lt => Gt
  | _, _ => Lt
  end.

Definition num_mul (a b : Number) : Number :=
  match a, b with
  | NaN, _ | _, NaN => NaN
  | Fin x, Fin y => Fin (Qred (x * y))
  | _, _ => inf_of_sign (sign_mul (num_sign a) (num_sign b))
  end.

Definition num_div (a b : Number) : Number :=
  match a, b with
  | NaN, _ | _, NaN => NaN
  | Fin x, Fin y =>
      match Qsgn y with
      | Eq => inf_of_sign (Qsgn x)
      | _ => Fin (Qred (x / y))
      end
  | Fin _, _ => num 0
  | _, Fin y =>
      match Qsgn y with
      | Lt => inf_of_sign (sign_mul (num_sign a) Lt)
      | _ => a
      end
  | _, _ => NaN
  end.

(** [Math.min] and [Math.max] of two numbers: NaN as soon as one is. *)
Definition Math_min (a b : Number) : Number :=
  match num_compare a b with
  | None => NaN
  | Some Gt => b
  | Some _ => a
  end.

Definition Math_max (a b : Number) : Number :=
  match num_compare a b with
  | None => NaN
  | Some Lt => b
  | Some _ => a
  end.

(** [Math.floor]. *)
Definition Math_floor (a : Number) : Number :=
  match a with
  | Fin q => num (Qfloor q)
  | _ => a
  end.

(** Same number, finite values up to equality of rationals. *)
Definition num_equiv (a b : Number) : Prop :=
  match a, b with
  | NaN, NaN | NegInfinity, NegInfinity | Infinity, Infinity => True
  | Fin x, Fin y => (x == y)%Q
  | _, _ => False
  end.

Definition is_finite (a : Number) : bool :=
  match a with Fin _ => true | _ => false end.

(** ** JavaScript values handed to a setter

    The value kinds whose conversions need no text parsing: [undefined],
    [null], booleans, numbers and an ordinary object such as [{}] (its
    primitive value is the string "[object Object]", hence NaN as a number). *)

Inductive JsValue : Type :=
| JUndefined
| JNull
| JBoolean (b : bool)
| JNumber (n : Number)
| JObject.

Definition ToBoolean (v : JsValue) : bool :=
  match v with
  | JUndefined | JNull => false
  | JBoolean b => b
  | JNumber NaN => false
  | JNumber (Fin q) => negb (Qeq_bool q 0)
  | JNumber _ => true
  | JObject => true
  end.

Definition ToNumber (v : JsValue) : Number :=
  match v with
  | JUndefined => NaN
  | JNull => num 0
  | JBoolean true => num 1
  | JBoolean false => num 0
  | JNumber n => n
  | JObject => NaN
  end.

(** [a || b]. *)
Definition js_or (a b : JsValue) : JsValue := if ToBoolean a then a else b.

(** ** The browser objects the visualizer touches *)

(** DOM exceptions and [TypeError], as thrown by the calls modelled below. *)
Inductive Exn : Type :=
| TypeError
| InvalidStateError
| InvalidAccessError
| IndexSizeError
| SyntaxError.

(** [VISUALIZATION_MODES]; a mode string outside the enumeration is kept as
    [OtherMode]. *)
Inductive Mode : Type :=
| WAVE
| BARS
| CIRCULAR
| OtherMode (s : string).

(** An [<audio>] element.  [_audioVisualizerSource] is the property the
    visualizer adds to the element; [mediaSource] is the browser's own record of
    the MediaElementAudioSourceNode capturing the element; [createCalls] counts
    the calls of [createMediaElementSource] on it; [loadeddataOnce] counts the
    pending [{ once: true }] listeners registered by [connectToAudioElement];
    [onloadeddata] tells whether [loadAudio] installed its handler. *)
Record AudioElement : Type := mkAudioElement {
  paused : bool;
  readyState : Z;
  src : string;
  currentTime : Q;
  _audioVisualizerSource : option nat;
  mediaSource : option nat;
  createCalls : nat;
  loadeddataOnce : nat;
  onloadeddata : bool
}.

Inductive ContextState : Type :=
| suspended
| running
| closed.

(** A MediaElementAudioSourceNode: the context that made it, the element it
    captures and the analysers it feeds. *)
Record SourceNode : Type := mkSourceNode {
  sn_context : nat;
  sn_element : nat;
  sn_outputs : list nat
}.

Record AnalyserNode : Type := mkAnalyserNode {
  an_id : nat;
  an_context : nat;
  fftSize : Z;
  smoothingTimeConstant : Q;
  an_toDestination : bool
}.

Definition frequencyBinCount (a : AnalyserNode) : Z := fftSize a / 2.

Record Canvas : Type := mkCanvas {
  cv_width : Z;
  cv_height : Z
}.

(** Colours, fill styles and the calls made on the 2D context.  A point that
    the source computes as [(cx + Math.cos(a) * r, cy + Math.sin(a) * r)] is
    kept in that polar form, with the angle [a] counted in turns (a multiple of
    [2 * Math.PI]). *)
Inductive Color : Type :=
| Css (s : string)
| HexRgba (hex : string) (alpha : Number).

Record Gradient : Type := mkGradient {
  gr_geometry : list Number;
  gr_stops : list (Number * Color)
}.

Inductive Style : Type :=
| Solid (c : Color)
| Grad (g : Gradient).

Inductive Point : Type :=
| Cart (x y : Number)
| Polar (cx cy : Number) (turns : Q) (r : Number).

Inductive CanvasOp : Type :=
| SetFillStyle (s : Style)
| SetStrokeStyle (s : Style)
| SetLineWidth (w : Number)
| SetGlobalAlpha (a : Number)
| Save
| Restore
| FillRect (x y w h : Number)
| DrawImage (x y w h : Number)
| BeginPath
| MoveTo (p : Point)
| LineTo (p : Point)
| Stroke
| Arc (x y r : Number) (from_turns to_turns : Q)
| Fill
| SetFont (s : string)
| SetTextAlign (s : string)
| SetTextBaseline (s : string)
| FillText (text : string) (x y : Number).

Record Config : Type := mkConfig {
  mode : Mode;
  cfg_fftSize : Z;
  primaryColor : string;
  secondaryColor : string;
  backgroundColor : string
}.

(** The fields of an [AudioVisualizer] instance.  [ctx] tells whether
    [this.ctx] holds a 2D context; [node_properties_opacity] is
    [this.node.properties[this.opacityStorageKey]], and likewise for the mode
    and the enabled flag. *)
Record Visualizer : Type := mkVisualizer {
  canvas : option Canvas;
  ctx : bool;
  audioContext : option nat;
  analyser : option AnalyserNode;
  audioElement : option nat;
  source : option nat;
  animationFrameId : option Z;
  isInitialized : bool;
  isOfficialNode : bool;
  config : Config;
  backgroundOpacity : Number;
  backgroundImageCanvas : option Canvas;
  visualizerEnabled : bool;
  node_properties_mode : option Mode;
  node_properties_opacity : option Number;
  node_properties_enabled : option bool
}.

(** Pending [setTimeout] callbacks, each with the element its closure holds:
    the retry of [connectToAudioElement] and the [checkSrc] poll of
    [handleAudioChange]. *)
Inductive Timer : Type :=
| InitTimer (e : nat)
| CheckSrcTimer (e : nat).

(** The imported [app] object, as far as [getAudioUrl] uses it. *)
Record App : Type := mkApp {
  getRandParam : option string;
  apiURL : option (string -> string)
}.

(** The browser side.  [frames] are the pending animation frame requests whose
    callback is [() => this.draw()]; [rect] is what
    [canvas.getBoundingClientRect()] returns; [timeDomain] and [frequency] are
    the analyser's current byte data; [drawn] lists the canvas calls made so
    far; [audioUIWidget] is the element of the node's "audioUI" widget when it
    is an AUDIO element; [newContextState] is the state a new AudioContext
    starts in (autoplay policy); [parsesColor] tells which strings the
    browser's CSS parser accepts as a colour; [emptySrcAttribute] are the audio
    elements that have a [src] content attribute whose value is empty. *)
Record World : Type := mkWorld {
  elements : gmap nat AudioElement;
  contexts : gmap nat ContextState;
  sources : gmap nat SourceNode;
  nextId : nat;
  audioSupported : bool;
  newContextState : ContextState;
  frames : list Z;
  frameCounter : Z;
  timers : list Timer;
  rect : Q * Q;
  timeDomain : nat -> Z;
  frequency : nat -> Z;
  drawn : list CanvasOp;
  audioUIWidget : option nat;
  app : App;
  Date_now : Z;
  parsesColor : string -> bool;
  emptySrcAttribute : gset nat
}.

Record State : Type := mkState {
  this : Visualizer;
  world : World
}.

(** *** Field updates *)

Definition set_paused (x : bool) (el : AudioElement) : AudioElement :=
  mkAudioElement
    x (readyState el) (src el) (currentTime el) (_audioVisualizerSource el) (mediaSource
    el) (createCalls el) (loadeddataOnce el) (onloadeddata el).

Definition set_src (x : string) (el : AudioElement) : AudioElement :=
  mkAudioElement
    (paused el) (readyState el) x (currentTime el) (_audioVisualizerSource el)
    (mediaSource el) (createCalls el) (loadeddataOnce el) (onloadeddata el).

Definition set_audioVisualizerSource (x : option nat) (el : AudioElement) : AudioElement :=
  mkAudioElement
    (paused el) (readyState el) (src el) (currentTime el) x (mediaSource el)
    (createCalls el) (loadeddataOnce el) (onloadeddata el).

Definition set_mediaSource (x : option nat) (el : AudioElement) : AudioElement :=
  mkAudioElement
    (paused el) (readyState el) (src el) (currentTime el) (_audioVisualizerSource el) x
    (createCalls el) (loadeddataOnce el) (onloadeddata el).

Definition set_createCalls (x : nat) (el : AudioElement) : AudioElement :=
  mkAudioElement
    (paused el) (readyState el) (src el) (currentTime el) (_audioVisualizerSource el)
    (mediaSource el) x (loadeddataOnce el) (onloadeddata el).

Definition set_loadeddataOnce (x : nat) (el : AudioElement) : AudioElement :=
  mkAudioElement
    (paused el) (readyState el) (src el) (currentTime el) (_audioVisualizerSource el)
    (mediaSource el) (createCalls el) x (onloadeddata el).

Definition set_onloadeddata (x : bool) (el : AudioElement) : AudioElement :=
  mkAudioElement
    (paused el) (readyState el) (src el) (currentTime el) (_audioVisualizerSource el)
    (mediaSource el) (createCalls el) (loadeddataOnce el) x.

Definition set_canvas (x : option Canvas) (v : Visualizer) : Visualizer :=
  mkVisualizer
    x (ctx v) (audioContext v) (analyser v) (audioElement v) (source v)
    (animationFrameId v) (isInitialized v) (isOfficialNode v) (config v)
    (backgroundOpacity v) (backgroundImageCanvas v) (visualizerEnabled v)
    (node_properties_mode v) (node_properties_opacity v) (node_properties_enabled v).

Definition set_audioContext (x : option nat) (v : Visualizer) : Visualizer :=
  mkVisualizer
    (canvas v) (ctx v) x (analyser v) (audioElement v) (source v) (animationFrameId v)
    (isInitialized v) (isOfficialNode v) (config v) (backgroundOpacity v)
    (backgroundImageCanvas v) (visualizerEnabled v) (node_properties_mode v)
    (node_properties_opacity v) (node_properties_enabled v).

Definition set_analyser (x : option AnalyserNode) (v : Visualizer) : Visualizer :=
  mkVisualizer
    (canvas v) (ctx v) (audioContext v) x (audioElement v) (source v) (animationFrameId
    v) (isInitialized v) (isOfficialNode v) (config v) (backgroundOpacity v)
    (backgroundImageCanvas v) (visualizerEnabled v) (node_properties_mode v)
    (node_properties_opacity v) (node_properties_enabled v).

Definition set_audioElement (x : option nat) (v : Visualizer) : Visualizer :=
  mkVisualizer
    (canvas v) (ctx v) (audioContext v) (analyser v) x (source v) (animationFrameId v)
    (isInitialized v) (isOfficialNode v) (config v) (backgroundOpacity v)
    (backgroundImageCanvas v) (visualizerEnabled v) (node_properties_mode v)
    (node_properties_opacity v) (node_properties_enabled v).

Definition set_source (x : option nat) (v : Visualizer) : Visualizer :=
  mkVisualizer
    (canvas v) (ctx v) (audioContext v) (analyser v) (audioElement v) x
    (animationFrameId v) (isInitialized v) (isOfficialNode v) (config v)
    (backgroundOpacity v) (backgroundImageCanvas v) (visualizerEnabled v)
    (node_properties_mode v) (node_properties_opacity v) (node_properties_enabled v).

Definition set_animationFrameId (x : option Z) (v : Visualizer) : Visualizer :=
  mkVisualizer
    (canvas v) (ctx v) (audioContext v) (analyser v) (audioElement v) (source v) x
    (isInitialized v) (isOfficialNode v) (config v) (backgroundOpacity v)
    (backgroundImageCanvas v) (visualizerEnabled v) (node_properties_mode v)
    (node_properties_opacity v) (node_properties_enabled v).

Definition set_isInitialized (x : bool) (v : Visualizer) : Visualizer :=
  mkVisualizer
    (canvas v) (ctx v) (audioContext v) (analyser v) (audioElement v) (source v)
    (animationFrameId v) x (isOfficialNode v) (config v) (backgroundOpacity v)
    (backgroundImageCanvas v) (visualizerEnabled v) (node_properties_mode v)
    (node_properties_opacity v) (node_properties_enabled v).

Definition set_config (x : Config) (v : Visualizer) : Visualizer :=
  mkVisualizer
    (canvas v) (ctx v) (audioContext v) (analyser v) (audioElement v) (source v)
    (animationFrameId v) (isInitialized v) (isOfficialNode v) x (backgroundOpacity v)
    (backgroundImageCanvas v) (visualizerEnabled v) (node_properties_mode v)
    (node_properties_opacity v) (node_properties_enabled v).

Definition set_backgroundOpacity (x : Number) (v : Visualizer) : Visualizer :=
  mkVisualizer
    (canvas v) (ctx v) (audioContext v) (analyser v) (audioElement v) (source v)
    (animationFrameId v) (isInitialized v) (isOfficialNode v) (config v) x
    (backgroundImageCanvas v) (visualizerEnabled v) (node_properties_mode v)
    (node_properties_opacity v) (node_properties_enabled v).

Definition set_backgroundImageCanvas (x : option Canvas) (v : Visualizer) : Visualizer :=
  mkVisualizer
    (canvas v) (ctx v) (audioContext v) (analyser v) (audioElement v) (source v)
    (animationFrameId v) (isInitialized v) (isOfficialNode v) (config v)
    (backgroundOpacity v) x (visualizerEnabled v) (node_properties_mode v)
    (node_properties_opacity v) (node_properties_enabled v).

Definition set_visualizerEnabled (x : bool) (v : Visualizer) : Visualizer :=
  mkVisualizer
    (canvas v) (ctx v) (audioContext v) (analyser v) (audioElement v) (source v)
    (animationFrameId v) (isInitialized v) (isOfficialNode v) (config v)
    (backgroundOpacity v) (backgroundImageCanvas v) x (node_properties_mode v)
    (node_properties_opacity v) (node_properties_enabled v).

Definition set_node_properties_mode (x : option Mode) (v : Visualizer) : Visualizer :=
  mkVisualizer
    (canvas v) (ctx v) (audioContext v) (analyser v) (audioElement v) (source v)
    (animationFrameId v) (isInitialized v) (isOfficialNode v) (config v)
    (backgroundOpacity v) (backgroundImageCanvas v) (visualizerEnabled v) x
    (node_properties_opacity v) (node_properties_enabled v).

Definition set_node_properties_opacity (x : option Number) (v : Visualizer) : Visualizer :=
  mkVisualizer
    (canvas v) (ctx v) (audioContext v) (analyser v) (audioElement v) (source v)
    (animationFrameId v) (isInitialized v) (isOfficialNode v) (config v)
    (backgroundOpacity v) (backgroundImageCanvas v) (visualizerEnabled v)
    (node_properties_mode v) x (node_properties_enabled v).

Definition set_node_properties_enabled (x : option bool) (v : Visualizer) : Visualizer :=
  mkVisualizer
    (canvas v) (ctx v) (audioContext v) (analyser v) (audioElement v) (source v)
    (animationFrameId v) (isInitialized v) (isOfficialNode v) (config v)
    (backgroundOpacity v) (backgroundImageCanvas v) (visualizerEnabled v)
    (node_properties_mode v) (node_properties_opacity v) x.

Definition set_ctx (x : bool) (v : Visualizer) : Visualizer :=
  mkVisualizer
    (canvas v) x (audioContext v) (analyser v) (audioElement v) (source v)
    (animationFrameId v) (isInitialized v) (isOfficialNode v) (config v)
    (backgroundOpacity v) (backgroundImageCanvas v) (visualizerEnabled v)
    (node_properties_mode v) (node_properties_opacity v) (node_properties_enabled v).

Definition set_elements (x : gmap nat AudioElement) (w : World) : World :=
  mkWorld
    x (contexts w) (sources w) (nextId w) (audioSupported w) (newContextState w) (frames
    w) (frameCounter w) (timers w) (rect w) (timeDomain w) (frequency w) (drawn w)
    (audioUIWidget w) (app w) (Date_now w)
    (parsesColor w) (emptySrcAttribute w).

Definition set_contexts (x : gmap nat ContextState) (w : World) : World :=
  mkWorld
    (elements w) x (sources w) (nextId w) (audioSupported w) (newContextState w) (frames
    w) (frameCounter w) (timers w) (rect w) (timeDomain w) (frequency w) (drawn w)
    (audioUIWidget w) (app w) (Date_now w)
    (parsesColor w) (emptySrcAttribute w).

Definition set_sources (x : gmap nat SourceNode) (w : World) : World :=
  mkWorld
    (elements w) (contexts w) x (nextId w) (audioSupported w) (newContextState w)
    (frames w) (frameCounter w) (timers w) (rect w) (timeDomain w) (frequency w) (drawn
    w) (audioUIWidget w) (app w) (Date_now w)
    (parsesColor w) (emptySrcAttribute w).

Definition set_nextId (x : nat) (w : World) : World :=
  mkWorld
    (elements w) (contexts w) (sources w) x (audioSupported w) (newContextState w)
    (frames w) (frameCounter w) (timers w) (rect w) (timeDomain w) (frequency w) (drawn
    w) (audioUIWidget w) (app w) (Date_now w)
    (parsesColor w) (emptySrcAttribute w).

Definition set_frames (x : list Z) (w : World) : World :=
  mkWorld
    (elements w) (contexts w) (sources w) (nextId w) (audioSupported w) (newContextState
    w) x (frameCounter w) (timers w) (rect w) (timeDomain w) (frequency w) (drawn w)
    (audioUIWidget w) (app w) (Date_now w)
    (parsesColor w) (emptySrcAttribute w).

Definition set_frameCounter (x : Z) (w : World) : World :=
  mkWorld
    (elements w) (contexts w) (sources w) (nextId w) (audioSupported w) (newContextState
    w) (frames w) x (timers w) (rect w) (timeDomain w) (frequency w) (drawn w)
    (audioUIWidget w) (app w) (Date_now w)
    (parsesColor w) (emptySrcAttribute w).

Definition set_timers (x : list Timer) (w : World) : World :=
  mkWorld
    (elements w) (contexts w) (sources w) (nextId w) (audioSupported w) (newContextState
    w) (frames w) (frameCounter w) x (rect w) (timeDomain w) (frequency w) (drawn w)
    (audioUIWidget w) (app w) (Date_now w)
    (parsesColor w) (emptySrcAttribute w).

Definition set_drawn (x : list CanvasOp) (w : World) : World :=
  mkWorld
    (elements w) (contexts w) (sources w) (nextId w) (audioSupported w) (newContextState
    w) (frames w) (frameCounter w) (timers w) (rect w) (timeDomain w) (frequency w) x
    (audioUIWidget w) (app w) (Date_now w)
    (parsesColor w) (emptySrcAttribute w).

Definition set_emptySrcAttribute (x : gset nat) (w : World) : World :=
  mkWorld
    (elements w) (contexts w) (sources w) (nextId w) (audioSupported w) (newContextState
    w) (frames w) (frameCounter w) (timers w) (rect w) (timeDomain w) (frequency w)
    (drawn w) (audioUIWidget w) (app w) (Date_now w)
    (parsesColor w) x.

(** ** Computations: state, exceptions and early return *)

Inductive Completion (A : Type) : Type :=
| Normal (a : A)
| Return
| Throw (e : Exn).

Arguments Normal {A} a.
Arguments Return {A}.
Arguments Throw {A} e.

Definition JS (A : Type) : Type := State -> Completion A * State.

Definition ret {A : Type} (a : A) : JS A := fun s => (Normal a, s).

Definition bind {A B : Type} (m : JS A) (f : A -> JS B) : JS B :=
  fun s =>
    match m s with
    | (Normal a, s') => f a s'
    | (Return, s') => (Return, s')
    | (Throw e, s') => (Throw e, s')
    end.

Notation "x <- m ;; k" := (bind m (fun x => k))
  (at level 100, m at next level, right associativity).
Notation "m ;;; k" := (bind m (fun _ => k))
  (at level 100, right associativity).

Definition throw {A : Type} (e : Exn) : JS A := fun s => (Throw e, s).

(** [return;] *)
Definition return_ {A : Type} : JS A := fun s => (Return, s).

(** [try { body } catch (e) { handler }] *)
Definition try_catch {A : Type} (body : JS A) (handler : Exn -> JS A) : JS A :=
  fun s =>
    match body s with
    | (Throw e, s') => handler e s'
    | r => r
    end.

(** The body of a function: an early [return] ends it normally. *)
Definition function_body (m : JS unit) : JS unit :=
  fun s =>
    match m s with
    | (Return, s') => (Normal tt, s')
    | r => r
    end.

Definition gets {A : Type} (f : State -> A) : JS A := fun s => (Normal (f s), s).

Definition modify_this (f : Visualizer -> Visualizer) : JS unit :=
  fun s => (Normal tt, mkState (f (this s)) (world s)).

Definition modify_world (f : World -> World) : JS unit :=
  fun s => (Normal tt, mkState (this s) (f (world s))).

Definition when (b : bool) (m : JS unit) : JS unit := if b then m else ret tt.

(** The state a computation ends in, however it completes. *)
Definition exec {A : Type} (m : JS A) (s : State) : State := snd (m s).
Definition completion {A : Type} (m : JS A) (s : State) : Completion A := fst (m s).

(** ** Colours

    [hexToRgba] reads the three channels of a colour written ["#rrggbb"] with
    [slice] and [parseInt(_, 16)].  Colour strings are ASCII text, where the
    bytes of the string are its UTF-16 code units. *)

(** An index given to [slice], brought into the string: a negative index
    counts from the end. *)
Definition slice_index (i len : Z) : Z :=
  if i <? 0 then Z.max (len + i) 0 else Z.min i len.

(** [s.slice(from, to)] *)
Definition js_slice (s : string) (from to : Z) : string :=
  let len := Z.of_nat (String.length s) in
  let a := slice_index from len in
  let b := slice_index to len in
  String.substring (Z.to_nat a) (Z.to_nat (Z.max (b - a) 0)) s.

(** White space and line terminators of ASCII, which [parseInt] skips. *)
Definition is_white_space (c : ascii) : bool :=
  existsb (N.eqb (N_of_ascii c)) [9; 10; 11; 12; 13; 32]%N.

Fixpoint trim_start (s : string) : string :=
  match s with
  | EmptyString => EmptyString
  | String c s' => if is_white_space c then trim_start s' else s
  end.

(** The value of a digit in radix 16. *)
Definition hex_value (c : ascii) : option Z :=
  let n := Z.of_N (N_of_ascii c) in
  if (48 <=? n) && (n <=? 57) then Some (n - 48)
  else if (97 <=? n) && (n <=? 102) then Some (n - 87)
  else if (65 <=? n) && (n <=? 70) then Some (n - 55)
  else None.

(** The value of the longest prefix made of digits; nothing when it is
    empty. *)
Fixpoint parse_hex_digits (s : string) (acc : option Z) : option Z :=
  match s with
  | EmptyString => acc
  | String c s' =>
      match hex_value c with
      | Some d => parse_hex_digits s' (Some (16 * default 0 acc + d))
      | None => acc
      end
  end.

(** [parseInt(s, 16)]: leading white space, a sign and a ["0x"] prefix are
    skipped; NaN when no digit follows. *)
Definition parseInt_16 (s : string) : Number :=
  let s1 := trim_start s in
  let '(sign, s2) :=
    match s1 with
    | String "-" r => (-1, r)
    | String "+" r => (1, r)
    | _ => (1, s1)
    end in
  let s3 :=
    match s2 with
    | String "0" (String "x" r) | String "0" (String "X" r) => r
    | _ => s2
    end in
  match parse_hex_digits s3 None with
  | Some n => num (sign * n)
  | None => NaN
  end.

(** The channels [r], [g] and [b] that [hexToRgba(hex, alpha)] writes in its
    result [rgba(r, g, b, alpha)]. *)
Definition hexToRgba_channels (hex : string) : Number * Number * Number :=
  (parseInt_16 (js_slice hex 1 3),
   parseInt_16 (js_slice hex 3 5),
   parseInt_16 (js_slice hex 5 7)).

(** Whether the browser can parse a colour given to [addColorStop].  A
    string of the configuration is parsed by the browser's CSS parser, which
    knows the keyword [transparent]; the result [rgba(r, g, b, alpha)] of
    [hexToRgba] is a colour when its four numbers are: a channel that
    [parseInt] could not read is printed as [NaN], which is not a number of
    CSS. *)
Definition color_parses (w : World) (c : Color) : bool :=
  match c with
  | Css s => String.eqb s "transparent" || parsesColor w s
  | HexRgba hex alpha =>
      let '(r, g, b) := hexToRgba_channels hex in
      is_finite r && is_finite g && is_finite b && is_finite alpha
  end.

(** ** Canvas calls *)

(** A method call on [this.ctx]: a [TypeError] when [this.ctx] is null,
    otherwise the call is recorded. *)
Definition ctx_call (op : CanvasOp) : JS unit :=
  fun s =>
    if ctx (this s)
    then (Normal tt, mkState (this s) (set_drawn (drawn (world s) ++ [op]) (world s)))
    else (Throw TypeError, s).

(** Several calls in a row. *)
Fixpoint ctx_calls (ops : list CanvasOp) : JS unit :=
  match ops with
  | [] => ret tt
  | op :: ops' => ctx_call op;;; ctx_calls ops'
  end.

(** [ctx.createLinearGradient] and [ctx.createRadialGradient] throw a
    [TypeError] on a non-finite argument, the radial one an [IndexSizeError] on
    a negative radius. *)
Definition createLinearGradient (x0 y0 x1 y1 : Number) : JS Gradient :=
  fun s =>
    if negb (ctx (this s)) then (Throw TypeError, s)
    else if negb (forallb is_finite [x0; y0; x1; y1]) then (Throw TypeError, s)
    else (Normal (mkGradient [x0; y0; x1; y1] []), s).

Definition createRadialGradient (x0 y0 r0 x1 y1 r1 : Number) : JS Gradient :=
  fun s =>
    if negb (ctx (this s)) then (Throw TypeError, s)
    else if negb (forallb is_finite [x0; y0; r0; x1; y1; r1]) then (Throw TypeError, s)
    else if num_lt r0 (num 0) || num_lt r1 (num 0) then (Throw IndexSizeError, s)
    else (Normal (mkGradient [x0; y0; r0; x1; y1; r1] []), s).

(** A gradient with one more colour stop. *)
Definition with_stop (offset : Number) (c : Color) (g : Gradient) : Gradient :=
  mkGradient (gr_geometry g) (gr_stops g ++ [(offset, c)]).

(** [gradient.addColorStop(offset, color)]: a [TypeError] on an offset that
    is not finite, an [IndexSizeError] on an offset outside [0, 1] and a
    [SyntaxError] on a colour that cannot be parsed. *)
Definition addColorStop (offset : Number) (c : Color) (g : Gradient) : JS Gradient :=
  fun s =>
    if negb (is_finite offset) then (Throw TypeError, s)
    else if num_lt offset (num 0) || num_gt offset (num 1) then (Throw IndexSizeError, s)
    else if color_parses (world s) c then (Normal (with_stop offset c g), s)
    else (Throw SyntaxError, s).

(** [ctx.arc(x, y, r, 0, 2 * Math.PI)]: an [IndexSizeError] on a negative
    radius. *)
Definition ctx_arc (x y r : Number) (from_turns to_turns : Q) : JS unit :=
  if num_lt r (num 0)
  then (fun s => if ctx (this s) then (Throw IndexSizeError, s) else (Throw TypeError, s))
  else ctx_call (Arc x y r from_turns to_turns).

(** [hexToRgba(hex, alpha)]: the colour string is kept as its two arguments. *)
Definition hexToRgba (hex : string) (alpha : Number) : Color := HexRgba hex alpha.

(** ** Typed arrays and the analyser's data *)

Definition new_Uint8Array (n : Z) : list Z := repeat 0 (Z.to_nat n).

(** [dataArray[i]] used as a number: [undefined], hence NaN, out of range. *)
Definition byte_at (dataArray : list Z) (i : Z) : Number :=
  if i <? 0 then NaN
  else match nth_error dataArray (Z.to_nat i) with
       | Some b => num b
       | None => NaN
       end.

(** The analyser copies its current data over the start of the array: at most
    [n] values, and no more than the array holds. *)
Definition fill_bytes (data : nat -> Z) (n : nat) (dataArray : list Z) : list Z :=
  List.map (fun i => data i mod 256) (seq 0 (Nat.min n (length dataArray)))
    ++ skipn n dataArray.

Definition getByteTimeDomainData (dataArray : list Z) : JS (list Z) :=
  fun s =>
    match analyser (this s) with
    | None => (Throw TypeError, s)
    | Some a =>
        (Normal (fill_bytes (timeDomain (world s)) (Z.to_nat (fftSize a)) dataArray), s)
    end.

Definition getByteFrequencyData (dataArray : list Z) : JS (list Z) :=
  fun s =>
    match analyser (this s) with
    | None => (Throw TypeError, s)
    | Some a =>
        (Normal (fill_bytes (frequency (world s))
                   (Z.to_nat (frequencyBinCount a)) dataArray), s)
    end.

(** ** Background *)

Definition setBackgroundOpacity_value (value : JsValue) : Number :=
  Math_max (num 0) (Math_min (Fin (1 # 2)) (ToNumber (js_or value (JNumber (num 0))))).

Definition updateModeMenu : JS unit := ret tt.

Definition setBackgroundOpacity (value : JsValue) : JS unit :=
  modify_this (set_backgroundOpacity (setBackgroundOpacity_value value));;;
  official <- gets (fun s => isOfficialNode (this s));;
  (if official : bool
   then modify_this (fun v => set_node_properties_opacity (Some (backgroundOpacity v)) v)
   else ret tt);;;
  updateModeMenu.

Definition image_overlay_alpha (opacity : Number) : Number :=
  Math_max (num 0) (Math_min (num 1) (num_add opacity (Fin (1 # 20)))).

Definition renderBackground (WIDTH HEIGHT : Number) : JS unit :=
  bg <- gets (fun s => backgroundColor (config (this s)));;
  ctx_call (SetFillStyle (Solid (Css bg)));;;
  ctx_call (FillRect (num 0) (num 0) WIDTH HEIGHT);;;
  image <- gets (fun s => backgroundImageCanvas (this s));;
  opacity <- gets (fun s => backgroundOpacity (this s));;
  match image with
  | Some _ =>
      ctx_call Save;;;
      ctx_call (SetGlobalAlpha (image_overlay_alpha opacity));;;
      ctx_call (DrawImage (num 0) (num 0) WIDTH HEIGHT);;;
      ctx_call Restore
  | None =>
      if num_gt opacity (num 0)
      then
        ctx_call Save;;;
        ctx_call (SetGlobalAlpha opacity);;;
        primary <- gets (fun s => primaryColor (config (this s)));;
        secondary <- gets (fun s => secondaryColor (config (this s)));;
        radial <- createRadialGradient
                    (num_mul WIDTH (Fin (3 # 10))) (num_mul HEIGHT (Fin (3 # 10))) (num 0)
                    (num_mul WIDTH (Fin (3 # 10))) (num_mul HEIGHT (Fin (3 # 10)))
                    (Math_max WIDTH HEIGHT);;
        radial <- addColorStop (num 0) (hexToRgba primary (Fin (35 # 100))) radial;;
        radial <- addColorStop (num 1) (Css "transparent") radial;;
        ctx_call (SetFillStyle (Grad radial));;;
        ctx_call (FillRect (num 0) (num 0) WIDTH HEIGHT);;;
        gradient <- createLinearGradient (num 0) (num 0) WIDTH HEIGHT;;
        gradient <- addColorStop (num 0) (hexToRgba secondary (Fin (15 # 100))) gradient;;
        gradient <- addColorStop (num 1) (Css "transparent") gradient;;
        ctx_call (SetFillStyle (Grad gradient));;;
        ctx_call (FillRect (num 0) (num 0) WIDTH HEIGHT);;;
        ctx_call Restore
      else ret tt
  end.

(** ** The three renderers *)

Fixpoint drawWave_main (remaining : nat) (i : Z) (x : Number)
    (dataArray : list Z) (HEIGHT sliceWidth : Number) : JS unit :=
  match remaining with
  | O => ret tt
  | S remaining' =>
      let v := num_div (byte_at dataArray i) (num 128) in
      let y := num_div (num_mul v HEIGHT) (num 2) in
      (if i =? 0 then ctx_call (MoveTo (Cart x y)) else ctx_call (LineTo (Cart x y)));;;
      drawWave_main remaining' (i + 1) (num_add x sliceWidth) dataArray HEIGHT sliceWidth
  end.

Fixpoint drawWave_aux (remaining : nat) (i : Z) (x : Number)
    (dataArray : list Z) (HEIGHT sliceWidth : Number) : JS unit :=
  match remaining with
  | O => ret tt
  | S remaining' =>
      let v := num_div (byte_at dataArray i) (num 128) in
      let y := num_add (num_div (num_mul v HEIGHT) (num 2)) (num 5) in
      (if i =? 0 then ctx_call (MoveTo (Cart x y)) else ctx_call (LineTo (Cart x y)));;;
      drawWave_aux remaining' (i + 5) (num_add x (num_mul sliceWidth (num 5)))
        dataArray HEIGHT sliceWidth
  end.

(** The number of rounds of [for (let i = 0; i < n; i += k)]. *)
Definition rounds (n k : Z) : nat := Z.to_nat ((n + k - 1) / k).

Definition drawWave (dataArray : list Z) (WIDTH HEIGHT : Number) (bufferLength : Z)
  : JS unit :=
  dataArray <- getByteTimeDomainData dataArray;;
  primary <- gets (fun s => primaryColor (config (this s)));;
  secondary <- gets (fun s => secondaryColor (config (this s)));;
  ctx_call (SetLineWidth (num 2));;;
  ctx_call (SetStrokeStyle (Solid (Css primary)));;;
  ctx_call BeginPath;;;
  let sliceWidth := num_div WIDTH (num bufferLength) in
  drawWave_main (rounds bufferLength 1) 0 (num 0) dataArray HEIGHT sliceWidth;;;
  ctx_call (LineTo (Cart WIDTH (num_div HEIGHT (num 2))));;;
  ctx_call Stroke;;;
  ctx_call (SetLineWidth (num 1));;;
  ctx_call (SetStrokeStyle (Solid (Css secondary)));;;
  ctx_call BeginPath;;;
  drawWave_aux (rounds bufferLength 5) 0 (num 0) dataArray HEIGHT sliceWidth;;;
  ctx_call Stroke.

Fixpoint drawBars_loop (remaining : nat) (i : Z) (x : Number)
    (dataArray : list Z) (WIDTH HEIGHT barWidth : Number)
    (primary secondary : string) : JS unit :=
  match remaining with
  | O => ret tt
  | S remaining' =>
      let barHeight := num_mul (num_div (byte_at dataArray i) (num 255)) HEIGHT in
      gradient <- createLinearGradient (num 0) HEIGHT (num 0) (num_sub HEIGHT barHeight);;
      gradient <- addColorStop (num 0) (Css secondary) gradient;;
      gradient <- addColorStop (num 1) (Css primary) gradient;;
      ctx_call (SetFillStyle (Grad gradient));;;
      ctx_call (FillRect x (num_sub HEIGHT barHeight) barWidth barHeight);;;
      let x' := num_add x (num_add barWidth (num 1)) in
      if num_gt x' WIDTH then ret tt
      else drawBars_loop remaining' (i + 1) x' dataArray WIDTH HEIGHT barWidth
             primary secondary
  end.

Definition drawBars (dataArray : list Z) (WIDTH HEIGHT : Number) (bufferLength : Z)
  : JS unit :=
  dataArray <- getByteFrequencyData dataArray;;
  primary <- gets (fun s => primaryColor (config (this s)));;
  secondary <- gets (fun s => secondaryColor (config (this s)));;
  let barWidth := num_mul (num_div WIDTH (num bufferLength)) (Fin (5 # 2)) in
  drawBars_loop (rounds bufferLength 1) 0 (num 0) dataArray WIDTH HEIGHT barWidth
    primary secondary.

Definition barsToDraw : Z := 180.

(** [Math.floor(bufferLength / barsToDraw)] on integers. *)
Definition circular_step (bufferLength : Z) : Z := bufferLength / barsToDraw.

(** The index read at round [i] of the circular renderer. *)
Definition circular_index (bufferLength i : Z) : Z := i * circular_step bufferLength.

(** The calls of one round of the circular renderer. *)
Definition drawCircular_bar (i : Z)
    (dataArray : list Z) (WIDTH HEIGHT centerX centerY radius : Number)
    (step : Z) (primary secondary : string) : list CanvasOp :=
  let value := byte_at dataArray (i * step) in
  let barHeight :=
    num_mul (num_div value (num 255)) (num_div (Math_min WIDTH HEIGHT) (num 3)) in
  let angle := (inject_Z i / inject_Z barsToDraw)%Q in
  let p1 := Polar centerX centerY angle radius in
  let p2 := Polar centerX centerY angle (num_add radius barHeight) in
  let p3 := Polar centerX centerY angle
              (num_sub radius (num_mul barHeight (Fin (3 # 10)))) in
  [ SetStrokeStyle (Solid (Css primary)); SetLineWidth (num 2); BeginPath;
    MoveTo p1; LineTo p2; Stroke;
    SetStrokeStyle (Solid (Css secondary)); BeginPath;
    MoveTo p1; LineTo p3; Stroke ].

Fixpoint drawCircular_loop (remaining : nat) (i : Z)
    (dataArray : list Z) (WIDTH HEIGHT centerX centerY radius : Number)
    (step : Z) (primary secondary : string) : JS unit :=
  match remaining with
  | O => ret tt
  | S remaining' =>
      ctx_calls (drawCircular_bar i dataArray WIDTH HEIGHT centerX centerY radius
                   step primary secondary);;;
      drawCircular_loop remaining' (i + 1) dataArray WIDTH HEIGHT centerX centerY radius
        step primary secondary
  end.

Definition drawCircular (dataArray : list Z) (WIDTH HEIGHT : Number) (bufferLength : Z)
  : JS unit :=
  dataArray <- getByteFrequencyData dataArray;;
  primary <- gets (fun s => primaryColor (config (this s)));;
  secondary <- gets (fun s => secondaryColor (config (this s)));;
  let centerX := num_div WIDTH (num 2) in
  let centerY := num_div HEIGHT (num 2) in
  let radius := num_div (Math_min WIDTH HEIGHT) (num 4) in
  ctx_call BeginPath;;;
  ctx_arc centerX centerY (num_sub radius (num 10)) 0 1;;;
  ctx_call (SetFillStyle (Solid (hexToRgba secondary (Fin (2 # 10)))));;;
  ctx_call Fill;;;
  drawCircular_loop (rounds barsToDraw 1) 0 dataArray WIDTH HEIGHT centerX centerY radius
    (circular_step bufferLength) primary secondary.

(** ** The animation frame queue *)

(** [requestAnimationFrame(() => this.draw())]: handles are positive and
    never reused. *)
Definition requestAnimationFrame : JS Z :=
  fun s =>
    let id := frameCounter (world s) + 1 in
    (Normal id,
     mkState (this s)
       (set_frameCounter id (set_frames (frames (world s) ++ [id]) (world s)))).

Definition cancelAnimationFrame (id : Z) : JS unit :=
  modify_world (fun w => set_frames (List.filter (fun j => negb (j =? id)) (frames w)) w).

(** Truth value of [this.animationFrameId]. *)
Definition handle_truthy (h : option Z) : bool :=
  match h with
  | Some id => negb (id =? 0)
  | None => false
  end.

Definition stopVisualization : JS unit :=
  h <- gets (fun s => animationFrameId (this s));;
  match h with
  | Some id =>
      if negb (id =? 0)
      then cancelAnimationFrame id;;; modify_this (set_animationFrameId None)
      else ret tt
  | None => ret tt
  end.

(** ** The render tick *)

(** Assigning a number to [canvas.width] or [canvas.height]: the value is
    truncated to an unsigned 32-bit integer, and the default size is taken
    when it exceeds 2147483647. *)
Definition to_dimension (n : Number) (default : Z) : Z :=
  match n with
  | Fin q =>
      let z := (if Qle_bool 0 q then Qfloor q else Qceiling q) mod 4294967296 in
      if z <=? 2147483647 then z else default
  | _ => 0
  end.

(** Truth value of an object reference. *)
Definition non_null {A : Type} (o : option A) : bool :=
  match o with
  | Some _ => true
  | None => false
  end.

Definition Mode_eqb (a b : Mode) : bool :=
  match a, b with
  | WAVE, WAVE | BARS, BARS | CIRCULAR, CIRCULAR => true
  | OtherMode x, OtherMode y => String.eqb x y
  | _, _ => false
  end.

(** [new Uint8Array(bufferLength)] as [draw] allocates it. *)
Definition draw_dataArray (a : AnalyserNode) : list Z :=
  new_Uint8Array (frequencyBinCount a).

(** The part of [draw] that follows the resize: background, renderer and the
    next frame request. *)
Definition draw_frame (a : AnalyserNode) (c : Canvas) : JS unit :=
  let WIDTH := num (cv_width c) in
  let HEIGHT := num (cv_height c) in
  let bufferLength := frequencyBinCount a in
  let dataArray := draw_dataArray a in
  renderBackground WIDTH HEIGHT;;;
  m <- gets (fun s => mode (config (this s)));;
  match m with
  | WAVE => drawWave dataArray WIDTH HEIGHT bufferLength
  | BARS => drawBars dataArray WIDTH HEIGHT bufferLength
  | CIRCULAR => drawCircular dataArray WIDTH HEIGHT bufferLength
  | OtherMode _ => ret tt
  end;;;
  id <- requestAnimationFrame;;
  modify_this (set_animationFrameId (Some id)).

Definition draw : JS unit :=
  function_body (
    has_ctx <- gets (fun s => ctx (this s));;
    an <- gets (fun s => analyser (this s));;
    cv <- gets (fun s => canvas (this s));;
    match an, cv with
    | Some a, Some c =>
        (if has_ctx : bool then ret tt else return_);;;
        r <- gets (fun s => rect (world s));;
        c' <- (if negb (Qle_bool (fst r) 0) && negb (Qle_bool (snd r) 0)
               then
                 if negb (Qeq_bool (inject_Z (cv_width c)) (fst r))
                    || negb (Qeq_bool (inject_Z (cv_height c)) (snd r))
                 then
                   let resized :=
                     mkCanvas (to_dimension (Fin (fst r)) 300)
                       (to_dimension (Math_max (num 200) (Fin (snd r))) 150) in
                   modify_this (set_canvas (Some resized));;;
                   ret resized
                 else ret c
               else ret c);;
        draw_frame a c'
    | _, _ => return_
    end).

Definition startVisualization : JS unit :=
  function_body (
    init <- gets (fun s => isInitialized (this s));;
    an <- gets (fun s => analyser (this s));;
    has_ctx <- gets (fun s => ctx (this s));;
    (if negb init || negb (non_null an) || negb has_ctx then return_ else ret tt);;;
    stopVisualization;;;
    draw).

Definition drawPlaceholder (text : string) : JS unit :=
  function_body (
    has_ctx <- gets (fun s => ctx (this s));;
    cv <- gets (fun s => canvas (this s));;
    match cv with
    | Some c =>
        (if has_ctx : bool then ret tt else return_);;;
        let WIDTH := num (cv_width c) in
        let HEIGHT := num (cv_height c) in
        renderBackground WIDTH HEIGHT;;;
        ctx_call (SetFillStyle (Solid (Css "#666")));;;
        ctx_call (SetFont "14px Arial");;;
        ctx_call (SetTextAlign "center");;;
        ctx_call (SetTextBaseline "middle");;;
        ctx_call (FillText text (num_div WIDTH (num 2)) (num_div HEIGHT (num 2)))
    | None => return_
    end).

(** ** Audio elements and Web Audio nodes *)

(** Reading a property of the element object. *)
Definition element (e : nat) : JS AudioElement :=
  fun s =>
    match elements (world s) !! e with
    | Some el => (Normal el, s)
    | None => (Throw TypeError, s)
    end.

Definition update_element (e : nat) (f : AudioElement -> AudioElement) : JS unit :=
  fun s =>
    match elements (world s) !! e with
    | Some el =>
        (Normal tt, mkState (this s)
           (set_elements (<[e := f el]> (elements (world s))) (world s)))
    | None => (Throw TypeError, s)
    end.

(** The [src] field of an element is the value of its [src] content
    attribute.  Reading [element.src] gives that value resolved against the
    address of the document: the empty string only when the element has no
    such attribute, and the address of the document itself, which is not
    empty, when the attribute is there with an empty value. *)
Definition with_src_attribute (e : nat) (value : string) (w : World) : World :=
  set_emptySrcAttribute
    (match value with
     | EmptyString => {[ e ]} ∪ emptySrcAttribute w
     | _ => emptySrcAttribute w ∖ {[ e ]}
     end) w.

(** [element.src = value] *)
Definition element_set_src (e : nat) (value : string) : JS unit :=
  update_element e (set_src value);;;
  modify_world (with_src_attribute e value).

(** Truth value of [element.src]. *)
Definition src_truthy (e : nat) (el : AudioElement) (w : World) : bool :=
  negb (String.eqb (src el) "") || bool_decide (e ∈ emptySrcAttribute w).

Definition context_state (c : nat) : JS ContextState :=
  gets (fun s => default closed (contexts (world s) !! c)).

Definition is_closed (st : ContextState) : bool :=
  match st with closed => true | _ => false end.
Definition is_suspended (st : ContextState) : bool :=
  match st with suspended => true | _ => false end.

(** [audioContext.close()]; the promise it returns is not awaited. *)
Definition context_close (c : nat) : JS unit :=
  modify_world (fun w => set_contexts (<[c := closed]> (contexts w)) w).

(** [audioContext.resume()]: the state changes later, if the browser lets it. *)
Definition context_resume (c : nat) : JS unit := ret tt.

(** [new (window.AudioContext || window.webkitAudioContext)()]. *)
Definition new_AudioContext : JS nat :=
  fun s =>
    let w := world s in
    if audioSupported w
    then (Normal (nextId w),
          mkState (this s)
            (set_nextId (S (nextId w))
               (set_contexts (<[nextId w := newContextState w]> (contexts w)) w)))
    else (Throw TypeError, s).

Definition createAnalyser (c : nat) : JS AnalyserNode :=
  fun s =>
    let w := world s in
    (Normal (mkAnalyserNode (nextId w) c 2048 (8 # 10) false),
     mkState (this s) (set_nextId (S (nextId w)) w)).

Definition is_power_of_two (z : Z) : bool := (0 <? z) && (Z.land z (z - 1) =? 0).

(** The sizes an AnalyserNode accepts. *)
Definition analyser_accepts (z : Z) : bool :=
  is_power_of_two z && (32 <=? z) && (z <=? 32768).

(** [this.analyser.fftSize = z] *)
Definition analyser_set_fftSize (z : Z) : JS unit :=
  an <- gets (fun s => analyser (this s));;
  match an with
  | None => throw TypeError
  | Some a =>
      if analyser_accepts z
      then modify_this (set_analyser (Some
             (mkAnalyserNode (an_id a) (an_context a) z (smoothingTimeConstant a)
                (an_toDestination a))))
      else throw IndexSizeError
  end.

Definition analyser_set_smoothingTimeConstant (q : Q) : JS unit :=
  an <- gets (fun s => analyser (this s));;
  match an with
  | None => throw TypeError
  | Some a =>
      modify_this (set_analyser (Some
        (mkAnalyserNode (an_id a) (an_context a) (fftSize a) q (an_toDestination a))))
  end.

(** [this.audioContext.createMediaElementSource(audioElement)]: the browser
    refuses an element that already has a source node. *)
Definition createMediaElementSource (e : nat) : JS nat :=
  ac <- gets (fun s => audioContext (this s));;
  match ac with
  | None => throw TypeError
  | Some c =>
      el <- element e;;
      update_element e (set_createCalls (S (createCalls el)));;;
      match mediaSource el with
      | Some _ => throw InvalidStateError
      | None =>
          id <- gets (fun s => nextId (world s));;
          modify_world (fun w =>
            set_nextId (S id) (set_sources (<[id := mkSourceNode c e []]> (sources w)) w));;;
          update_element e (set_mediaSource (Some id));;;
          ret id
      end
  end.

(** [this.source.disconnect()] *)
Definition source_disconnect : JS unit :=
  src <- gets (fun s => source (this s));;
  match src with
  | None => throw TypeError
  | Some id =>
      modify_world (fun w =>
        match sources w !! id with
        | Some n =>
            set_sources (<[id := mkSourceNode (sn_context n) (sn_element n) []]> (sources w)) w
        | None => w
        end)
  end.

(** [this.source.connect(this.analyser)]: an [InvalidAccessError] when the
    two nodes belong to different contexts. *)
Definition source_connect_analyser : JS unit :=
  src <- gets (fun s => source (this s));;
  an <- gets (fun s => analyser (this s));;
  match src, an with
  | Some id, Some a =>
      n <- gets (fun s => sources (world s) !! id);;
      match n with
      | Some n =>
          if Nat.eqb (sn_context n) (an_context a)
          then modify_world (fun w =>
                 set_sources (<[id := mkSourceNode (sn_context n) (sn_element n)
                                         (sn_outputs n ++ [an_id a])]> (sources w)) w)
          else throw InvalidAccessError
      | None => throw TypeError
      end
  | _, _ => throw TypeError
  end.

(** [this.analyser.connect(this.audioContext.destination)] *)
Definition analyser_connect_destination : JS unit :=
  an <- gets (fun s => analyser (this s));;
  ac <- gets (fun s => audioContext (this s));;
  match an, ac with
  | Some a, Some _ =>
      modify_this (set_analyser (Some
        (mkAnalyserNode (an_id a) (an_context a) (fftSize a) (smoothingTimeConstant a) true)))
  | _, _ => throw TypeError
  end.

(** ** Teardown *)

Definition cleanup : JS unit :=
  stopVisualization;;;
  src <- gets (fun s => source (this s));;
  (match src with
   | Some _ =>
       try_catch source_disconnect (fun _ => ret tt);;;
       modify_this (set_source None)
   | None => ret tt
   end);;;
  ac <- gets (fun s => audioContext (this s));;
  (match ac with
   | Some c =>
       st <- context_state c;;
       if negb (is_closed st)
       then context_close c;;; modify_this (set_audioContext None)
       else ret tt
   | None => ret tt
   end);;;
  modify_this (set_analyser None);;;
  modify_this (set_isInitialized false);;;
  official <- gets (fun s => isOfficialNode (this s));;
  if official : bool
  then modify_this (set_audioElement None)
  else
    cur <- gets (fun s => audioElement (this s));;
    match cur with
    | Some e =>
        try_catch (update_element e (set_paused true)) (fun _ => ret tt);;;
        element_set_src e "";;;
        modify_this (set_audioElement None)
    | None => ret tt
    end.

Definition destroy : JS unit := cleanup.

(** ** Attaching to an audio element *)

(** [e.message]: the browser's wording is not tracked, the name stands for it. *)
Definition message (e : Exn) : string :=
  match e with
  | TypeError => "TypeError"
  | InvalidStateError => "InvalidStateError"
  | InvalidAccessError => "InvalidAccessError"
  | IndexSizeError => "IndexSizeError"
  | SyntaxError => "SyntaxError"
  end.

(** The closure [initContext] of [connectToAudioElement(audioElement)];
    [target] is the [audioElement] it captures. *)
Definition initContext (target : nat) : JS unit :=
  function_body (
    try_catch (
      ac <- gets (fun s => audioContext (this s));;
      (match ac with
       | Some c =>
           st <- context_state c;;
           when (negb (is_closed st)) (context_close c)
       | None => ret tt
       end);;;
      c <- new_AudioContext;;
      modify_this (set_audioContext (Some c));;;
      st <- context_state c;;
      when (is_suspended st) (context_resume c);;;
      a <- createAnalyser c;;
      modify_this (set_analyser (Some a));;;
      size <- gets (fun s => cfg_fftSize (config (this s)));;
      analyser_set_fftSize size;;;
      analyser_set_smoothingTimeConstant (85 # 100);;;
      try_catch (
        el <- element target;;
        (match _audioVisualizerSource el with
         | None =>
             id <- createMediaElementSource target;;
             modify_this (set_source (Some id));;;
             update_element target (set_audioVisualizerSource (Some id));;;
             source_connect_analyser;;;
             analyser_connect_destination
         | Some id =>
             modify_this (set_source (Some id));;;
             try_catch source_disconnect (fun _ => ret tt);;;
             source_connect_analyser;;;
             analyser_connect_destination
         end);;;
        st <- context_state c;;
        when (is_suspended st) (context_resume c)
      ) (fun e =>
        el <- element target;;
        match _audioVisualizerSource el with
        | Some id =>
            try_catch (
              modify_this (set_source (Some id));;;
              source_disconnect;;;
              source_connect_analyser;;;
              analyser_connect_destination
            ) (fun e2 =>
              drawPlaceholder "无法连接到音频源";;;
              return_)
        | None =>
            drawPlaceholder ("无法连接到音频源: " +:+ message e);;;
            return_
        end);;;
      modify_this (set_isInitialized true);;;
      el <- element target;;
      when (negb (paused el)) startVisualization
    ) (fun e =>
      drawPlaceholder ("浏览器不支持音频分析: " +:+ message e))).

Definition same_element (a : option nat) (e : nat) : bool :=
  match a with
  | Some x => Nat.eqb x e
  | None => false
  end.

Definition connectToAudioElement (target : option nat) : JS unit :=
  function_body (
    enabled <- gets (fun s => visualizerEnabled (this s));;
    (if enabled : bool then ret tt else return_);;;
    match target with
    | None => return_
    | Some e =>
        cur <- gets (fun s => audioElement (this s));;
        init <- gets (fun s => isInitialized (this s));;
        (if same_element cur e && init
         then
           h <- gets (fun s => animationFrameId (this s));;
           when (negb (handle_truthy h)) startVisualization;;;
           return_
         else ret tt);;;
        when (negb (same_element cur e)) cleanup;;;
        modify_this (set_audioElement (Some e));;;
        el <- element e;;
        if 2 <=? readyState el
        then initContext e
        else
          update_element e (fun el => set_loadeddataOnce (S (loadeddataOnce el)) el);;;
          when (negb (paused el))
            (modify_world (fun w => set_timers (timers w ++ [InitTimer e]) w))
    end).

(** The callback of the timer set by [connectToAudioElement]. *)
Definition initTimer_callback (e : nat) : JS unit :=
  init <- gets (fun s => isInitialized (this s));;
  el <- element e;;
  when (negb init && (1 <=? readyState el)) (initContext e).

Definition initAudioContext (target : nat) : JS unit :=
  connectToAudioElement (Some target).

(** ** Settings *)

Definition set_mode (m : Mode) (c : Config) : Config :=
  mkConfig m (cfg_fftSize c) (primaryColor c) (secondaryColor c) (backgroundColor c).

Definition setMode (m : Mode) : JS unit :=
  function_body (
    cur <- gets (fun s => mode (config (this s)));;
    (if Mode_eqb cur m then return_ else ret tt);;;
    modify_this (fun v => set_config (set_mode m (config v)) v);;;
    official <- gets (fun s => isOfficialNode (this s));;
    (if official : bool
     then modify_this (set_node_properties_mode (Some m));;; updateModeMenu
     else ret tt);;;
    init <- gets (fun s => isInitialized (this s));;
    when init startVisualization).

Definition setEnabled (enabled : bool) : JS unit :=
  modify_this (set_visualizerEnabled enabled);;;
  official <- gets (fun s => isOfficialNode (this s));;
  (if official : bool
   then modify_this (set_node_properties_enabled (Some enabled))
   else ret tt);;;
  updateModeMenu;;;
  if negb enabled
  then cleanup
  else if official : bool
  then
    ui <- gets (fun s => audioUIWidget (world s));;
    match ui with
    | Some e =>
        el <- element e;;
        when (negb (paused el)) (connectToAudioElement (Some e))
    | None => ret tt
    end
  else ret tt.

(** [setBackgroundImage]: the argument is the scaled canvas ([preScaledCanvas]
    or the one decoded from the data URL), or nothing to clear the image. *)
Definition setBackgroundImage (image : option Canvas) : JS unit :=
  modify_this (set_backgroundImageCanvas image);;;
  updateModeMenu.

(** The callbacks installed by [setupParameterWidgets]. *)
Definition fftWidget_callback (value : Z) : JS unit :=
  modify_this (fun v =>
    set_config (mkConfig (mode (config v)) value (primaryColor (config v))
                  (secondaryColor (config v)) (backgroundColor (config v))) v);;;
  an <- gets (fun s => analyser (this s));;
  when (non_null an) (analyser_set_fftSize value).

Definition or_default (value default : string) : string :=
  match value with
  | EmptyString => default
  | _ => value
  end.

Definition primaryWidget_callback (value : string) : JS unit :=
  modify_this (fun v =>
    set_config (mkConfig (mode (config v)) (cfg_fftSize (config v))
                  (or_default value "#8b5cf6")
                  (secondaryColor (config v)) (backgroundColor (config v))) v).

Definition secondaryWidget_callback (value : string) : JS unit :=
  modify_this (fun v =>
    set_config (mkConfig (mode (config v)) (cfg_fftSize (config v))
                  (primaryColor (config v))
                  (or_default value "#3b82f6") (backgroundColor (config v))) v).

Definition bgWidget_callback (value : string) : JS unit :=
  modify_this (fun v =>
    set_config (mkConfig (mode (config v)) (cfg_fftSize (config v))
                  (primaryColor (config v)) (secondaryColor (config v))
                  (or_default value "#09090b")) v).

(** The listeners of [setupOfficialAudioUI]. *)
Definition onPlay (target : nat) : JS unit :=
  function_body (
    enabled <- gets (fun s => visualizerEnabled (this s));;
    (if enabled : bool then ret tt else return_);;;
    connectToAudioElement (Some target)).

Definition onStop : JS unit :=
  function_body (
    enabled <- gets (fun s => visualizerEnabled (this s));;
    (if enabled : bool then ret tt else return_);;;
    stopVisualization).

(** ** Audio URLs

    Strings are byte strings holding the UTF-8 encoding of the JavaScript
    text; positions count bytes.  The byte of ["/"] occurs in such a string
    only where the text has a slash. *)

Fixpoint lastIndexOf_from (c : ascii) (s : string) (i found : Z) : Z :=
  match s with
  | EmptyString => found
  | String a s' => lastIndexOf_from c s' (i + 1) (if Ascii.eqb a c then i else found)
  end.

(** [s.lastIndexOf(c)] for a one-character pattern: [-1] when absent. *)
Definition lastIndexOf (s : string) (c : ascii) : Z := lastIndexOf_from c s 0 (-1).

(** [s.substring(from, to)]: both ends are clamped to the string and swapped
    when out of order. *)
Definition js_substring (s : string) (from to : Z) : string :=
  let len := Z.of_nat (String.length s) in
  let a := Z.max 0 (Z.min from len) in
  let b := Z.max 0 (Z.min to len) in
  String.substring (Z.to_nat (Z.min a b)) (Z.to_nat (Z.max a b - Z.min a b)) s.

(** [s.substring(from)] *)
Definition js_substring_from (s : string) (from : Z) : string :=
  js_substring s from (Z.of_nat (String.length s)).

Definition slash : ascii := "/"%char.

(** The first half of [getAudioUrl]: the file name and the subfolder. *)
Definition getAudioUrl_parts (audioValue : string) : string * string :=
  let folderSeparator := lastIndexOf audioValue slash in
  if folderSeparator =? -1
  then (audioValue, EmptyString)
  else (js_substring_from audioValue (folderSeparator + 1),
        js_substring audioValue 0 folderSeparator).

Definition hex_digit (n : N) : ascii :=
  match n with
  | 0 => "0" | 1 => "1" | 2 => "2" | 3 => "3" | 4 => "4" | 5 => "5" | 6 => "6"
  | 7 => "7" | 8 => "8" | 9 => "9" | 10 => "A" | 11 => "B" | 12 => "C"
  | 13 => "D" | 14 => "E" | _ => "F"
  end%N%char.

(** The characters [encodeURIComponent] leaves as they are. *)
Definition uri_unreserved (c : ascii) : bool :=
  let n := N_of_ascii c in
  ((65 <=? n) && (n <=? 90) || (97 <=? n) && (n <=? 122) || (48 <=? n) && (n <=? 57)
   || existsb (Ascii.eqb c) ["-"; "_"; "."; "!"; "~"; "*"; "'"; "("; ")"]%char)%N.

Fixpoint encodeURIComponent (s : string) : string :=
  match s with
  | EmptyString => EmptyString
  | String c s' =>
      if uri_unreserved c
      then String c (encodeURIComponent s')
      else String "%" (String (hex_digit (N_of_ascii c / 16))
             (String (hex_digit (N_of_ascii c mod 16)) (encodeURIComponent s')))
  end.

Definition join_amp (l : list string) : string := String.concat "&" l.

Definition getAudioUrl (audioValue : string) : JS (option string) :=
  try_catch (
    let (filename, subfolder) := getAudioUrl_parts audioValue in
    let type := "input" in
    a <- gets (fun s => app (world s));;
    now <- gets (fun s => Date_now (world s));;
    let params := join_amp [
      "filename=" +:+ encodeURIComponent filename;
      "type=" +:+ type;
      "subfolder=" +:+ encodeURIComponent subfolder;
      match getRandParam a with
      | Some r => js_substring_from r 1
      | None => "t=" +:+ DecimalString.NilZero.string_of_int (Z.to_int now)
      end ] in
    let resourceUrl := "/view?" +:+ params in
    match apiURL a with
    | Some f => ret (Some (f resourceUrl))
    | None => ret (Some resourceUrl)
    end
  ) (fun _ => ret None).

(** ** Loading audio *)

(** [new Audio(audioUrl)] with the [onloadeddata] handler of [loadAudio]. *)
Definition new_Audio (audioUrl : string) : JS nat :=
  fun s =>
    let w := world s in
    (Normal (nextId w),
     mkState (this s)
       (with_src_attribute (nextId w) audioUrl
          (set_nextId (S (nextId w))
             (set_elements
                (<[nextId w := mkAudioElement true 0 audioUrl 0 None None 0 0 true]>
                   (elements w)) w)))).

Definition loadAudio (audioUrl : string) : JS unit :=
  function_body (
    official <- gets (fun s => isOfficialNode (this s));;
    (if official : bool then return_ else ret tt);;;
    cleanup;;;
    ui <- gets (fun s => audioUIWidget (world s));;
    match ui with
    | Some e => connectToAudioElement (Some e);;; return_
    | None =>
        audio <- new_Audio audioUrl;;
        modify_this (set_audioElement (Some audio))
    end).

(** The poll [checkSrc] of [handleAudioChange]. *)
Definition checkSrc (e : nat) : JS unit :=
  el <- element e;;
  has_src <- gets (fun s => src_truthy e el (world s));;
  if has_src : bool
  then connectToAudioElement (Some e)
  else modify_world (fun w => set_timers (timers w ++ [CheckSrcTimer e]) w).

Definition handleAudioChange (audioValue : option string) : JS unit :=
  function_body (
    match audioValue with
    | None | Some EmptyString =>
        cleanup;;;
        drawPlaceholder "请加载音频文件";;;
        return_
    | Some value =>
        ui <- gets (fun s => audioUIWidget (world s));;
        match ui with
        | Some e => checkSrc e;;; return_
        | None =>
            audioUrl <- getAudioUrl value;;
            match audioUrl with
            | None | Some EmptyString => drawPlaceholder "无法加载音频文件";;; return_
            | Some url => loadAudio url
            end
        end
    end).

(** ** Construction *)

Definition constructor (official : bool) (saved_mode : option Mode)
    (saved_opacity : option Number) (saved_enabled : option bool) : Visualizer :=
  mkVisualizer None false None None None None None false official
    (mkConfig
       (if official
        then match saved_mode with
             | None | Some (OtherMode EmptyString) => BARS
             | Some m => m
             end
        else WAVE)
       2048 "#8b5cf6" "#3b82f6" "#09090b")
    (if official then default (Fin (2 # 10)) saved_opacity else num 0)
    None
    (default true saved_enabled)
    saved_mode saved_opacity saved_enabled.

(** [createCanvasWidget]; [has_2d] tells whether [canvas.getContext("2d")]
    gives a context. *)
Definition createCanvasWidget (has_2d : bool) : JS unit :=
  function_body (
    cv <- gets (fun s => canvas (this s));;
    (if non_null cv then return_ else ret tt);;;
    modify_this (set_canvas (Some (mkCanvas 800 200)));;;
    modify_this (set_ctx has_2d);;;
    when has_2d (drawPlaceholder "请加载音频文件")).

(** The frame callback of [node.onResize]; [r] is the bounding rectangle of
    the canvas (of its container on an official node). *)
Definition onResize_frame (r : Q * Q) : JS unit :=
  cv <- gets (fun s => canvas (this s));;
  official <- gets (fun s => isOfficialNode (this s));;
  when (non_null cv && negb (Qle_bool (fst r) 0) && negb (Qle_bool (snd r) 0))
    (modify_this (set_canvas (Some
       (mkCanvas
          (to_dimension
             (Math_max (num 400)
                (num_sub (Fin (fst r)) (if official : bool then num 30 else num 20))) 300)
          (to_dimension
             (Math_max (num 200)
                (if official : bool
                 then num_sub (Fin (snd r)) (num 30)
                 else Math_min (num 300) (num_mul (Fin (snd r)) (Fin (3 # 10))))) 150))))).

(** ** The visualizer in its environment

    What can happen to a visualizer: the host calls a method, the browser runs
    one of the callbacks the visualizer registered, or the page, the player and
    the browser change what they own. *)

Inductive Event : Type :=
| CallCreateCanvasWidget (has_2d : bool)
| CallSetMode (m : Mode)
| CallSetEnabled (enabled : bool)
| CallSetBackgroundOpacity (value : JsValue)
| CallSetBackgroundImage (image : option Canvas)
| CallHandleAudioChange (audioValue : option string)
| CallConnectToAudioElement (target : option nat)
| CallLoadAudio (audioUrl : string)
| CallStartVisualization
| CallStopVisualization
| CallCleanup
| CallDestroy
| FftWidget (value : Z)
| PrimaryWidget (value : string)
| SecondaryWidget (value : string)
| BgWidget (value : string)
| FrameFires (id : Z)
| ResizeFrameFires (r : Q * Q)
| PlayFires (e : nat)
| PauseOrEndedFires
| LoadedDataFires (e : nat)
| ErrorFires (e : nat)
| TimerFires (t : Timer)
| PlayerSets (e : nat) (is_paused : bool) (ready : Z) (source_url : string) (time : Q)
| ElementAppears (is_paused : bool) (ready : Z) (source_url : string)
| ContextBecomes (c : nat) (st : ContextState)
| LayoutBecomes (r : Q * Q)
| AudioDataBecomes (time_data frequency_data : nat -> Z)
| AudioUIBecomes (e : option nat)
| ClockBecomes (now : Z)
| SupportBecomes (supported : bool) (st : ContextState)
| SrcAttributeBecomes (e : nat) (empty : bool).

Definition Timer_eqb (a b : Timer) : bool :=
  match a, b with
  | InitTimer x, InitTimer y | CheckSrcTimer x, CheckSrcTimer y => Nat.eqb x y
  | _, _ => false
  end.

Fixpoint remove_first {A : Type} (eqb : A -> A -> bool) (x : A) (l : list A) : list A :=
  match l with
  | [] => []
  | y :: l' => if eqb x y then l' else y :: remove_first eqb x l'
  end.

Definition timer_callback (t : Timer) : JS unit :=
  match t with
  | InitTimer e => initTimer_callback e
  | CheckSrcTimer e => checkSrc e
  end.

(** The [loadeddata] event on element [e]: the handler of [loadAudio], then
    the listeners of [connectToAudioElement], each run once and dropped. *)
Definition fire_loadeddata (e : nat) (s : State) : State :=
  match elements (world s) !! e with
  | None => s
  | Some el =>
      let s1 := exec (update_element e (set_loadeddataOnce 0)) s in
      let s2 := if onloadeddata el then exec (initAudioContext e) s1 else s1 in
      Nat.iter (loadeddataOnce el) (exec (initContext e)) s2
  end.

Definition platform (f : World -> World) (s : State) : State :=
  mkState (this s) (f (world s)).

Definition step (ev : Event) (s : State) : State :=
  match ev with
  | CallCreateCanvasWidget has_2d => exec (createCanvasWidget has_2d) s
  | CallSetMode m => exec (setMode m) s
  | CallSetEnabled enabled => exec (setEnabled enabled) s
  | CallSetBackgroundOpacity value => exec (setBackgroundOpacity value) s
  | CallSetBackgroundImage image => exec (setBackgroundImage image) s
  | CallHandleAudioChange audioValue => exec (handleAudioChange audioValue) s
  | CallConnectToAudioElement target => exec (connectToAudioElement target) s
  | CallLoadAudio audioUrl => exec (loadAudio audioUrl) s
  | CallStartVisualization => exec startVisualization s
  | CallStopVisualization => exec stopVisualization s
  | CallCleanup => exec cleanup s
  | CallDestroy => exec destroy s
  | FftWidget value => exec (fftWidget_callback value) s
  | PrimaryWidget value => exec (primaryWidget_callback value) s
  | SecondaryWidget value => exec (secondaryWidget_callback value) s
  | BgWidget value => exec (bgWidget_callback value) s
  | FrameFires id =>
      if existsb (Z.eqb id) (frames (world s))
      then exec draw (exec (cancelAnimationFrame id) s)
      else s
  | ResizeFrameFires r => exec (onResize_frame r) s
  | PlayFires e => exec (onPlay e) s
  | PauseOrEndedFires => exec onStop s
  | LoadedDataFires e => fire_loadeddata e s
  | ErrorFires e =>
      match elements (world s) !! e with
      | Some el => if onloadeddata el then exec (drawPlaceholder "音频加载失败") s else s
      | None => s
      end
  | TimerFires t =>
      if existsb (Timer_eqb t) (timers (world s))
      then exec (timer_callback t)
             (platform (fun w => set_timers (remove_first Timer_eqb t (timers w)) w) s)
      else s
  | PlayerSets e is_paused ready source_url time =>
      platform (fun w =>
        match elements w !! e with
        | Some el =>
            set_elements
              (<[e := mkAudioElement is_paused ready source_url time
                        (_audioVisualizerSource el) (mediaSource el) (createCalls el)
                        (loadeddataOnce el) (onloadeddata el)]> (elements w)) w
        | None => w
        end) s
  | ElementAppears is_paused ready source_url =>
      platform (fun w =>
        set_nextId (S (nextId w))
          (set_elements
             (<[nextId w := mkAudioElement is_paused ready source_url 0 None None 0 0 false]>
                (elements w)) w)) s
  | ContextBecomes c st =>
      platform (fun w =>
        match contexts w !! c with
        | Some old =>
            if is_closed old || is_closed st then w
            else set_contexts (<[c := st]> (contexts w)) w
        | None => w
        end) s
  | LayoutBecomes r =>
      platform (fun w =>
        mkWorld (elements w) (contexts w) (sources w) (nextId w) (audioSupported w)
          (newContextState w) (frames w) (frameCounter w) (timers w) r
          (timeDomain w) (frequency w) (drawn w) (audioUIWidget w) (app w) (Date_now w)
          (parsesColor w) (emptySrcAttribute w)) s
  | AudioDataBecomes time_data frequency_data =>
      platform (fun w =>
        mkWorld (elements w) (contexts w) (sources w) (nextId w) (audioSupported w)
          (newContextState w) (frames w) (frameCounter w) (timers w) (rect w)
          time_data frequency_data (drawn w) (audioUIWidget w) (app w) (Date_now w)
          (parsesColor w) (emptySrcAttribute w)) s
  | AudioUIBecomes e =>
      platform (fun w =>
        mkWorld (elements w) (contexts w) (sources w) (nextId w) (audioSupported w)
          (newContextState w) (frames w) (frameCounter w) (timers w) (rect w)
          (timeDomain w) (frequency w) (drawn w) e (app w) (Date_now w)
          (parsesColor w) (emptySrcAttribute w)) s
  | ClockBecomes now =>
      platform (fun w =>
        mkWorld (elements w) (contexts w) (sources w) (nextId w) (audioSupported w)
          (newContextState w) (frames w) (frameCounter w) (timers w) (rect w)
          (timeDomain w) (frequency w) (drawn w) (audioUIWidget w) (app w) now
          (parsesColor w) (emptySrcAttribute w)) s
  | SupportBecomes supported st =>
      platform (fun w =>
        mkWorld (elements w) (contexts w) (sources w) (nextId w) supported
          st (frames w) (frameCounter w) (timers w) (rect w)
          (timeDomain w) (frequency w) (drawn w) (audioUIWidget w) (app w) (Date_now w)
          (parsesColor w) (emptySrcAttribute w)) s
  | SrcAttributeBecomes e empty =>
      platform (fun w =>
        set_emptySrcAttribute
          (if empty then {[ e ]} ∪ emptySrcAttribute w else emptySrcAttribute w ∖ {[ e ]})
          w) s
  end.

(** A newly constructed visualizer in a page where nothing has been captured
    or scheduled yet. *)
Definition untouched (el : AudioElement) : Prop :=
  _audioVisualizerSource el = None /\ mediaSource el = None /\ createCalls el = 0%nat.

Definition initial (s : State) : Prop :=
  (exists official saved_mode saved_opacity saved_enabled,
      this s = constructor official saved_mode saved_opacity saved_enabled)
  /\ (forall e el, elements (world s) !! e = Some el -> untouched el /\ (e < nextId (world s))%nat)
  /\ frames (world s) = []
  /\ 0 <= frameCounter (world s).

Inductive reachable : State -> Prop :=
| reachable_initial s : initial s -> reachable s
| reachable_step s ev : reachable s -> reachable (step ev s).

(** ** Binary64 rounding

    Numbers are kept as exact rationals, which is how the visualizer's
    arithmetic is read everywhere but in the size of a background image: there
    [Math.round] turns a product into an integer, and the rounding of the two
    binary64 operations before it decides which.  [round64] is the rounding of
    a real number to the nearest binary64 number, ties to even. *)

Definition pow2 (e : Z) : Q := Qpower 2 e.

(** For [q > 0], the exponent [e] with [2^e <= q < 2^(e+1)]. *)
Definition floor_log2 (q : Q) : Z :=
  let k := Z.log2 (Qnum q) - Z.log2 (Z.pos (Qden q)) in
  if Qle_bool (pow2 k) q then k else k - 1.

(** The nearest integer, a half going to the even neighbour. *)
Definition round_half_even (q : Q) : Z :=
  let f := Qfloor q in
  match (q - inject_Z f ?= 1 # 2)%Q with
  | Lt => f
  | Gt => f + 1
  | Eq => if Z.even f then f else f + 1
  end.

(** A positive number rounded to 53 significant bits, with the exponent of
    the subnormal numbers as the least one. *)
Definition round64_positive (q : Q) : Q :=
  let e := Z.max (floor_log2 q - 52) (-1074) in
  (inject_Z (round_half_even (q / pow2 e)) * pow2 e)%Q.

Definition round64 (q : Q) : Number :=
  match Qsgn q with
  | Eq => num 0
  | Gt =>
      let r := round64_positive q in
      if Qle_bool (pow2 1024) r then Infinity else Fin (Qred r)
  | Lt =>
      let r := round64_positive (- q) in
      if Qle_bool (pow2 1024) r then NegInfinity else Fin (Qred (- r))
  end.

(** The result of an arithmetic operation, as binary64 arithmetic gives it. *)
Definition binary64 (a : Number) : Number :=
  match a with
  | Fin q => round64 q
  | _ => a
  end.

(** [Math.round]: the nearest integer, a half rounded up. *)
Definition Math_round (a : Number) : Number :=
  match a with
  | Fin q => num (Qfloor (q + (1 # 2)))
  | _ => a
  end.

(** ** Background images *)

(** [createImageCanvasFromDataUrl(dataUrl, maxSize)], once the image has
    loaded: the size of the canvas the image is drawn on.  [img_width] and
    [img_height] are [img.width] and [img.height]. *)
Definition image_scale (img_width img_height : Z) (maxSize : Number) : Number :=
  Math_min (num 1) (binary64 (num_div maxSize (Math_max (num img_width) (num img_height)))).

Definition createImageCanvasFromDataUrl (img_width img_height : Z) (maxSize : Number)
  : Canvas :=
  let scale := image_scale img_width img_height maxSize in
  mkCanvas
    (to_dimension
       (Math_max (num 1) (Math_round (binary64 (num_mul (num img_width) scale)))) 300)
    (to_dimension
       (Math_max (num 1) (Math_round (binary64 (num_mul (num img_height) scale)))) 150).

(** * Properties *)

(** ** Running computations *)

Lemma run_bind {A B : Type} (m : JS A) (f : A -> JS B) (s : State) :
  bind m f s =
  match m s with
  | (Normal a, s') => f a s'
  | (Return, s') => (Return, s')
  | (Throw e, s') => (Throw e, s')
  end.
Proof. reflexivity. Qed.

(** Stepping through a computation whose first call is known. *)
Lemma run_bind_gets {A B : Type} (f : State -> A) (k : A -> JS B) (s : State) :
  bind (gets f) k s = k (f s) s.
Proof. reflexivity. Qed.

Lemma run_bind_ret {A B : Type} (a : A) (k : A -> JS B) (s : State) :
  bind (ret a) k s = k a s.
Proof. reflexivity. Qed.

Lemma run_bind_modify_this {B : Type} (f : Visualizer -> Visualizer) (k : unit -> JS B)
    (s : State) :
  bind (modify_this f) k s = k tt (mkState (f (this s)) (world s)).
Proof. reflexivity. Qed.

Lemma run_bind_modify_world {B : Type} (f : World -> World) (k : unit -> JS B) (s : State) :
  bind (modify_world f) k s = k tt (mkState (this s) (f (world s))).
Proof. reflexivity. Qed.

Lemma run_bind_element {B : Type} (e : nat) (el : AudioElement) (k : AudioElement -> JS B)
    (s : State) :
  elements (world s) !! e = Some el -> bind (element e) k s = k el s.
Proof. intros He. unfold bind, element. now rewrite He. Qed.

Lemma run_bind_update_element {B : Type} (e : nat) (el : AudioElement)
    (f : AudioElement -> AudioElement) (k : unit -> JS B) (s : State) :
  elements (world s) !! e = Some el ->
  bind (update_element e f) k s
  = k tt (mkState (this s) (set_elements (<[e := f el]> (elements (world s))) (world s))).
Proof. intros He. unfold bind, update_element. now rewrite He. Qed.

Lemma run_bind_assoc {A B C : Type} (m : JS A) (k : A -> JS B) (h : B -> JS C) (s : State) :
  bind (bind m k) h s = bind m (fun a => bind (k a) h) s.
Proof. unfold bind. destruct (m s) as [[a| |e] s']; reflexivity. Qed.

(** The state [s] after further canvas calls. *)
Definition paint (ops : list CanvasOp) (s : State) : State :=
  mkState (this s) (set_drawn (drawn (world s) ++ ops) (world s)).

Lemma paint_nil (s : State) : paint [] s = s.
Proof.
  destruct s as [v w]; destruct w; unfold paint; simpl.
  now rewrite app_nil_r.
Qed.

Lemma paint_paint (a b : list CanvasOp) (s : State) :
  paint b (paint a s) = paint (a ++ b) s.
Proof. unfold paint; simpl. unfold set_drawn; simpl. now rewrite app_assoc. Qed.

Lemma this_paint (ops : list CanvasOp) (s : State) : this (paint ops s) = this s.
Proof. reflexivity. Qed.

Lemma drawn_paint (ops : list CanvasOp) (s : State) :
  drawn (world (paint ops s)) = drawn (world s) ++ ops.
Proof. reflexivity. Qed.

Lemma ctx_call_ok (op : CanvasOp) (s : State) :
  ctx (this s) = true -> ctx_call op s = (Normal tt, paint [op] s).
Proof. intros H. unfold ctx_call. now rewrite H. Qed.

Lemma ctx_calls_ok (ops : list CanvasOp) (s : State) :
  ctx (this s) = true -> ctx_calls ops s = (Normal tt, paint ops s).
Proof.
  revert s. induction ops as [|op ops IH]; intros s H; simpl.
  - now rewrite paint_nil.
  - rewrite run_bind, (ctx_call_ok op s H), IH by exact H.
    now rewrite paint_paint.
Qed.

(** A colour stop at one of the two ends of a gradient: the call fails only
    on a colour that cannot be parsed. *)
Lemma addColorStop_run (offset : Number) (c : Color) (g : Gradient) (s : State) :
  offset = num 0 \/ offset = num 1 ->
  addColorStop offset c g s
  = if color_parses (world s) c
    then (Normal (with_stop offset c g), s)
    else (Throw SyntaxError, s).
Proof. intros [-> | ->]; reflexivity. Qed.

Lemma color_parses_paint (ops : list CanvasOp) (c : Color) (s : State) :
  color_parses (world (paint ops s)) c = color_parses (world s) c.
Proof. destruct c; reflexivity. Qed.

(** ** Circular sampling *)

Lemma circular_step_bounds (bufferLength : Z) :
  0 <= bufferLength ->
  0 <= circular_step bufferLength /\ barsToDraw * circular_step bufferLength <= bufferLength.
Proof.
  intros H. unfold circular_step, barsToDraw. split.
  - apply Z.div_pos; lia.
  - apply Z.mul_div_le. lia.
Qed.

Lemma circular_index_in_range (bufferLength i : Z) :
  1 <= bufferLength -> 0 <= i < barsToDraw ->
  0 <= circular_index bufferLength i <= bufferLength - 1.
Proof.
  intros Hn Hi. unfold circular_index.
  destruct (circular_step_bounds bufferLength) as [H0 H1]; [lia|].
  unfold barsToDraw in *. nia.
Qed.


(** The rounds of the circular loop one after the other. *)
Fixpoint circular_bars (remaining : nat) (i : Z)
    (dataArray : list Z) (WIDTH HEIGHT centerX centerY radius : Number)
    (step : Z) (primary secondary : string) : list CanvasOp :=
  match remaining with
  | O => []
  | S remaining' =>
      drawCircular_bar i dataArray WIDTH HEIGHT centerX centerY radius step primary secondary
        ++ circular_bars remaining' (i + 1) dataArray WIDTH HEIGHT centerX centerY radius
             step primary secondary
  end.

Lemma drawCircular_loop_ok (remaining : nat) (i : Z) dataArray WIDTH HEIGHT cx cy radius
    step primary secondary (s : State) :
  ctx (this s) = true ->
  drawCircular_loop remaining i dataArray WIDTH HEIGHT cx cy radius step primary secondary s
  = (Normal tt,
     paint (circular_bars remaining i dataArray WIDTH HEIGHT cx cy radius step
              primary secondary) s).
Proof.
  revert i s. induction remaining as [|n IH]; intros i s H.
  - simpl. now rewrite paint_nil.
  - cbn [drawCircular_loop circular_bars].
    rewrite run_bind, ctx_calls_ok by exact H.
    rewrite IH by exact H. now rewrite paint_paint.
Qed.

(** The angles, in turns, of the outward lines among some canvas calls, and
    the indices [k] such that the angle is [k / 180]. *)
Fixpoint circular_rounds (remaining : nat) (i : Z) : list Z :=
  match remaining with
  | O => []
  | S remaining' => i :: circular_rounds remaining' (i + 1)
  end.





(** A page with one playing audio element and a visualizer on an official
    node whose canvas exists, used to instantiate the statements. *)
Definition example_element : AudioElement :=
  mkAudioElement false 4 "song.mp3" 0 None None 0 0 false.

(** A browser that parses the hexadecimal notations of a colour: three, four,
    six or eight digits after ["#"]. *)
Definition hex_notation (s : string) : bool :=
  match s with
  | String "#" digits =>
      existsb (Nat.eqb (String.length digits)) [3; 4; 6; 8]%nat
      && forallb (fun c => non_null (hex_value c)) (list_ascii_of_string digits)
  | _ => false
  end.

Definition example_world : World :=
  mkWorld {[ 0%nat := example_element ]} ∅ ∅ 1 true running [] 0 []
    (800 # 1, 200 # 1)%Q (fun _ => 0) (fun _ => 0) [] (Some 0%nat) (mkApp None None) 0
    hex_notation ∅.

Definition example_start : State :=
  mkState (constructor true None None None) example_world.

Definition example_state : State := step (CallCreateCanvasWidget true) example_start.


(** ** Background opacity *)

(** A stored opacity within [[0, 0.5]]. *)
Definition clamped_opacity (n : Number) : Prop :=
  exists q, n = Fin q /\ (0 <= q <= 1 # 2)%Q.

(** The inputs that are numbers (NaN and the infinities included), booleans,
    [undefined] or [null]. *)
Definition number_or_absent (value : JsValue) : Prop :=
  match value with
  | JObject => False
  | _ => True
  end.

Lemma setBackgroundOpacity_stores (value : JsValue) (s : State) :
  let s' := exec (setBackgroundOpacity value) s in
  backgroundOpacity (this s') = setBackgroundOpacity_value value
  /\ (isOfficialNode (this s) = true ->
      node_properties_opacity (this s') = Some (setBackgroundOpacity_value value)).
Proof.
  unfold exec, setBackgroundOpacity, bind, modify_this, gets, updateModeMenu, ret; simpl.
  destruct (isOfficialNode (this s)); simpl; split; intros; congruence.
Qed.

Lemma clamp_finite (q : Q) :
  exists r, Math_max (num 0) (Math_min (Fin (1 # 2)) (Fin q)) = Fin r
            /\ (0 <= r <= 1 # 2)%Q
            /\ ((1 # 2 < q)%Q -> r = (1 # 2)%Q)
            /\ ((q < 0)%Q -> r = inject_Z 0)
            /\ ((0 <= q <= 1 # 2)%Q -> (r == q)%Q).
Proof.
  unfold Math_min, Math_max; simpl.
  destruct (Qcompare_spec (1 # 2) q) as [E|L|G]; simpl.
  - exists (1 # 2)%Q.
    repeat split; intros; try reflexivity; try lra; exfalso; lra.
  - exists (1 # 2)%Q.
    repeat split; intros; try reflexivity; try lra; exfalso; lra.
  - destruct (Qcompare_spec (inject_Z 0) q) as [E0|L0|G0]; simpl;
      change (inject_Z 0) with 0%Q in *.
    + exists 0%Q.
      repeat split; intros; try reflexivity; try lra; exfalso; lra.
    + exists q.
      repeat split; intros; try reflexivity; try lra; exfalso; lra.
    + exists 0%Q.
      repeat split; intros; try reflexivity; try lra; exfalso; lra.
Qed.

Lemma clamp_zero : Math_max (num 0) (Math_min (Fin (1 # 2)) (num 0)) = num 0.
Proof. reflexivity. Qed.

Lemma setBackgroundOpacity_value_finite (q : Q) :
  setBackgroundOpacity_value (JNumber (Fin q))
  = if Qeq_bool q 0 then num 0
    else Math_max (num 0) (Math_min (Fin (1 # 2)) (Fin q)).
Proof.
  unfold setBackgroundOpacity_value, js_or; simpl.
  destruct (Qeq_bool q 0); reflexivity.
Qed.

Lemma num_zero_clamped : clamped_opacity (num 0).
Proof. exists 0%Q. split; [reflexivity|lra]. Qed.

Lemma half_clamped : clamped_opacity (Fin (1 # 2)).
Proof. exists (1 # 2)%Q. split; [reflexivity|lra]. Qed.

(** C4, as the code has it.  For every input that is a number (NaN and the
    infinities included), a boolean, [undefined] or [null],
    [setBackgroundOpacity] stores a value within [[0, 0.5]]: numbers above 0.5
    store 0.5, negative numbers store 0, NaN and absent inputs store 0, and a
    number within the interval is stored as it is; an official node records
    the same value in its properties. *)
Theorem setBackgroundOpacity_clamps (value : JsValue) (s : State)
    (Hvalue : number_or_absent value) :
  let s' := exec (setBackgroundOpacity value) s in
  let stored := backgroundOpacity (this s') in
  clamped_opacity stored
  /\ (forall n, value = JNumber n -> num_gt n (Fin (1 # 2)) = true -> stored = Fin (1 # 2))
  /\ (forall n, value = JNumber n -> num_lt n (num 0) = true -> stored = num 0)
  /\ (value = JNumber NaN \/ value = JUndefined \/ value = JNull -> stored = num 0)
  /\ (forall q, value = JNumber (Fin q) -> (0 <= q <= 1 # 2)%Q -> num_equiv stored (Fin q))
  /\ (isOfficialNode (this s) = true -> node_properties_opacity (this s') = Some stored).
Proof.
  cbv zeta.
  destruct (setBackgroundOpacity_stores value s) as [Hs Hp]. rewrite Hs.
  split; [|split; [|split; [|split; [|split]]]]; try exact Hp.
  - destruct value as [| |b|n|]; try contradiction.
    + apply num_zero_clamped.
    + apply num_zero_clamped.
    + destruct b; [apply half_clamped | apply num_zero_clamped].
    + destruct n as [| | |q].
      * apply num_zero_clamped.
      * apply num_zero_clamped.
      * apply half_clamped.
      * rewrite setBackgroundOpacity_value_finite.
        destruct (Qeq_bool q 0); [apply num_zero_clamped|].
        destruct (clamp_finite q) as (r & Hr & Hb & _).
        rewrite Hr. exists r. split; [reflexivity|exact Hb].
  - intros n -> Hgt.
    destruct n as [| | |q]; try discriminate Hgt; try reflexivity.
    unfold num_gt, num_lt in Hgt; simpl in Hgt.
    destruct (Qcompare_spec (1 # 2) q) as [E|L|G]; try discriminate.
    rewrite setBackgroundOpacity_value_finite.
    destruct (Qeq_bool q 0) eqn:Ez.
    + apply Qeq_bool_eq in Ez. exfalso. lra.
    + destruct (clamp_finite q) as (r & Hr & _ & Hhi & _).
      rewrite Hr. now rewrite (Hhi L).
  - intros n -> Hlt.
    destruct n as [| | |q]; try discriminate Hlt; try reflexivity.
    unfold num_lt in Hlt; simpl in Hlt.
    destruct (Qcompare_spec q (inject_Z 0)) as [E|L|G]; try discriminate.
    change (inject_Z 0) with 0%Q in L.
    rewrite setBackgroundOpacity_value_finite.
    destruct (Qeq_bool q 0) eqn:Ez; [reflexivity|].
    destruct (clamp_finite q) as (r & Hr & _ & _ & Hlo & _).
    rewrite Hr. now rewrite (Hlo L).
  - intros [-> | [-> | ->]]; reflexivity.
  - intros q -> Hq.
    rewrite setBackgroundOpacity_value_finite.
    destruct (Qeq_bool q 0) eqn:Ez.
    + apply Qeq_bool_eq in Ez. simpl. now rewrite Ez.
    + destruct (clamp_finite q) as (r & Hr & _ & _ & _ & Hin).
      rewrite Hr. simpl. now apply Hin.
Qed.

Lemma setBackgroundOpacity_clamps_witness :
  number_or_absent (JNumber (Fin (9 # 10)))
  /\ backgroundOpacity
       (this (exec (setBackgroundOpacity (JNumber (Fin (9 # 10)))) example_state))
     = Fin (1 # 2).
Proof.
  split; [exact I|].
  destruct (setBackgroundOpacity_clamps (JNumber (Fin (9 # 10))) example_state I)
    as (_ & Hhigh & _).
  apply (Hhigh (Fin (9 # 10))); reflexivity.
Defined.

(** C4, as stated, fails on an object: [setBackgroundOpacity({})] stores NaN,
    which is no value of [[0, 0.5]]. *)
Lemma setBackgroundOpacity_object_not_clamped :
  backgroundOpacity (this (exec (setBackgroundOpacity JObject) example_state)) = NaN
  /\ ~ clamped_opacity
         (backgroundOpacity (this (exec (setBackgroundOpacity JObject) example_state))).
Proof.
  assert (E : backgroundOpacity
                (this (exec (setBackgroundOpacity JObject) example_state)) = NaN)
    by (vm_compute; reflexivity).
  split; [exact E|]. rewrite E.
  intros (q & Hq & _). discriminate Hq.
Qed.

(** ** Background image overlay *)

Lemma renderBackground_image (WIDTH HEIGHT : Number) (img : Canvas) (s : State) :
  ctx (this s) = true ->
  backgroundImageCanvas (this s) = Some img ->
  renderBackground WIDTH HEIGHT s
  = (Normal tt,
     paint [ SetFillStyle (Solid (Css (backgroundColor (config (this s)))));
             FillRect (num 0) (num 0) WIDTH HEIGHT;
             Save;
             SetGlobalAlpha (image_overlay_alpha (backgroundOpacity (this s)));
             DrawImage (num 0) (num 0) WIDTH HEIGHT;
             Restore ] s).
Proof.
  intros Hctx Himg.
  unfold renderBackground.
  rewrite run_bind; unfold gets at 1; cbv beta iota.
  rewrite run_bind, ctx_call_ok by exact Hctx.
  rewrite run_bind, ctx_call_ok by exact Hctx.
  rewrite run_bind; unfold gets at 1; cbv beta iota.
  rewrite run_bind; unfold gets at 1; cbv beta iota.
  rewrite !this_paint, Himg.
  rewrite run_bind, ctx_call_ok by exact Hctx.
  rewrite run_bind, ctx_call_ok by exact Hctx.
  rewrite run_bind, ctx_call_ok by exact Hctx.
  rewrite ctx_call_ok by exact Hctx.
  now rewrite !paint_paint.
Qed.

Lemma image_overlay_alpha_finite (q : Q) :
  (0 <= q <= 1 # 2)%Q ->
  image_overlay_alpha (Fin q) = Fin (Qred (q + (1 # 20))).
Proof.
  intros Hq. unfold image_overlay_alpha, Math_min, Math_max. simpl.
  assert (Hr : (Qred (q + (1 # 20)) == q + (1 # 20))%Q) by apply Qred_correct.
  destruct (Qcompare_spec (inject_Z 1) (Qred (q + (1 # 20)))) as [E|L|G];
    change (inject_Z 1) with 1%Q in *; try (exfalso; lra).
  simpl.
  destruct (Qcompare_spec (inject_Z 0) (Qred (q + (1 # 20)))) as [E|L|G'];
    change (inject_Z 0) with 0%Q in *; try (exfalso; lra).
  reflexivity.
Qed.

(** The opacities set by [globalAlpha] among some canvas calls. *)
Definition alphas (ops : list CanvasOp) : list Number :=
  flat_map (fun op => match op with SetGlobalAlpha a => [a] | _ => [] end) ops.

(** The calls made since [s]. *)
Definition drawn_since (s s' : State) : list CanvasOp :=
  skipn (length (drawn (world s))) (drawn (world s')).

Lemma drawn_since_paint (ops : list CanvasOp) (s : State) :
  drawn_since s (paint ops s) = ops.
Proof.
  unfold drawn_since. rewrite drawn_paint.
  rewrite skipn_app, skipn_all, Nat.sub_diag. reflexivity.
Qed.

(** C9, as the code has it.  With a background image set, the background pass
    fills the canvas with the background colour and draws the image once, at
    the opacity [min(1, max(0, backgroundOpacity + 0.05))]; for a stored opacity
    [q] of [[0, 0.5]] that is [q + 0.05], never [q] itself. *)
Theorem renderBackground_image_alpha (WIDTH HEIGHT : Number) (img : Canvas) (s : State)
    (Hctx : ctx (this s) = true)
    (Himg : backgroundImageCanvas (this s) = Some img) :
  let s' := exec (renderBackground WIDTH HEIGHT) s in
  completion (renderBackground WIDTH HEIGHT) s = Normal tt
  /\ drawn_since s s' =
       [ SetFillStyle (Solid (Css (backgroundColor (config (this s)))));
         FillRect (num 0) (num 0) WIDTH HEIGHT;
         Save;
         SetGlobalAlpha (image_overlay_alpha (backgroundOpacity (this s)));
         DrawImage (num 0) (num 0) WIDTH HEIGHT;
         Restore ]
  /\ alphas (drawn_since s s') = [image_overlay_alpha (backgroundOpacity (this s))]
  /\ (forall q, backgroundOpacity (this s) = Fin q -> (0 <= q <= 1 # 2)%Q ->
        num_equiv (image_overlay_alpha (backgroundOpacity (this s))) (Fin (q + (1 # 20)))
        /\ ~ num_equiv (image_overlay_alpha (backgroundOpacity (this s)))
               (backgroundOpacity (this s))).
Proof.
  cbv zeta. unfold exec, completion.
  rewrite (renderBackground_image WIDTH HEIGHT img s Hctx Himg). cbn [fst snd].
  rewrite drawn_since_paint.
  split; [reflexivity|]. split; [reflexivity|]. split; [reflexivity|].
  intros q Hq Hrange. rewrite Hq, image_overlay_alpha_finite by exact Hrange.
  simpl. pose proof (Qred_correct (q + (1 # 20))) as Hr.
  split; [exact Hr|]. intros Heq. rewrite Hr in Heq. lra.
Qed.

(** The example visualizer with a background image and the default opacity. *)
Definition example_with_image : State :=
  exec (setBackgroundImage (Some (mkCanvas 512 256))) example_state.

Lemma renderBackground_image_alpha_witness :
  ctx (this example_with_image) = true
  /\ backgroundImageCanvas (this example_with_image) = Some (mkCanvas 512 256)
  /\ alphas (drawn_since example_with_image
               (exec (renderBackground (num 800) (num 200)) example_with_image))
     = [image_overlay_alpha (backgroundOpacity (this example_with_image))].
Proof.
  split; [reflexivity|]. split; [reflexivity|].
  destruct (renderBackground_image_alpha (num 800) (num 200) (mkCanvas 512 256)
              example_with_image eq_refl eq_refl) as (_ & _ & Halpha & _).
  exact Halpha.
Defined.

(** C9, as stated, fails: with the opacity 0.2 the image is drawn at 0.25. *)
Lemma renderBackground_image_not_at_opacity :
  backgroundImageCanvas (this example_with_image) = Some (mkCanvas 512 256)
  /\ backgroundOpacity (this example_with_image) = Fin (2 # 10)
  /\ alphas (drawn_since example_with_image
               (exec (renderBackground (num 800) (num 200)) example_with_image))
     = [Fin (1 # 4)]
  /\ ~ num_equiv (Fin (1 # 4)) (backgroundOpacity (this example_with_image)).
Proof.
  split; [reflexivity|]. split; [reflexivity|]. split; [vm_compute; reflexivity|].
  vm_compute. discriminate.
Qed.

(** ** Splitting an audio identifier *)

Fixpoint contains (c : ascii) (s : string) : bool :=
  match s with
  | EmptyString => false
  | String a s' => Ascii.eqb a c || contains c s'
  end.

Lemma lastIndexOf_from_absent (c : ascii) (s : string) (i found : Z) :
  contains c s = false -> lastIndexOf_from c s i found = found.
Proof.
  revert i found. induction s as [|a s IH]; intros i found H; simpl in *.
  - reflexivity.
  - apply orb_false_iff in H as [Ha Hs]. rewrite Ha. now apply IH.
Qed.

Lemma lastIndexOf_from_last (c : ascii) (a b : string) (i found : Z) :
  contains c b = false ->
  lastIndexOf_from c (a +:+ String c b) i found = i + Z.of_nat (String.length a).
Proof.
  intros Hb. revert i found. induction a as [|x a IH]; intros i found; simpl.
  - rewrite Ascii.eqb_refl, lastIndexOf_from_absent by exact Hb. lia.
  - rewrite IH. lia.
Qed.

Lemma contains_split_last (c : ascii) (s : string) :
  contains c s = true ->
  exists a b, s = a +:+ String c b /\ contains c b = false.
Proof.
  induction s as [|x s IH]; simpl; intros H; [discriminate|].
  destruct (contains c s) eqn:Hs.
  - destruct (IH eq_refl) as (a & b & -> & Hb).
    exists (String x a), b. split; [reflexivity|exact Hb].
  - rewrite orb_false_r in H. apply Ascii.eqb_eq in H. subst x.
    exists EmptyString, s. split; [reflexivity|exact Hs].
Qed.

Lemma substring_whole (s : string) : String.substring 0 (String.length s) s = s.
Proof. induction s as [|x s IH]; simpl; [reflexivity|now rewrite IH]. Qed.

Lemma substring_before (a x : string) :
  String.substring 0 (String.length a) (a +:+ x) = a.
Proof.
  induction a as [|c a IH]; simpl.
  - destruct x; reflexivity.
  - now rewrite IH.
Qed.

Lemma substring_after (a : string) (c : ascii) (b : string) :
  String.substring (S (String.length a)) (String.length b) (a +:+ String c b) = b.
Proof.
  induction a as [|x a IH]; simpl.
  - apply substring_whole.
  - exact IH.
Qed.

Lemma length_split (a : string) (c : ascii) (b : string) :
  String.length (a +:+ String c b) = (String.length a + S (String.length b))%nat.
Proof. induction a as [|x a IH]; simpl; [reflexivity|now rewrite IH]. Qed.

Lemma getAudioUrl_parts_last_slash (a b : string) :
  contains slash b = false ->
  getAudioUrl_parts (a +:+ String slash b) = (b, a).
Proof.
  intros Hb. unfold getAudioUrl_parts, lastIndexOf.
  rewrite lastIndexOf_from_last by exact Hb.
  destruct (Z.eqb_spec (0 + Z.of_nat (String.length a)) (-1)) as [E|_]; [lia|].
  unfold js_substring_from, js_substring. rewrite length_split.
  f_equal.
  - replace (Z.to_nat _) with (S (String.length a)) by lia.
    replace (Z.to_nat _) with (String.length b) by lia.
    apply substring_after.
  - replace (Z.to_nat _) with 0%nat by lia.
    replace (Z.to_nat _) with (String.length a) by lia.
    apply substring_before.
Qed.

Lemma getAudioUrl_parts_no_slash (s : string) :
  contains slash s = false -> getAudioUrl_parts s = (s, EmptyString).
Proof.
  intros H. unfold getAudioUrl_parts, lastIndexOf.
  now rewrite lastIndexOf_from_absent by exact H.
Qed.

(** The URL [getAudioUrl] builds from the two parts. *)
Definition audio_url (a : App) (now : Z) (filename subfolder : string) : string :=
  let resourceUrl :=
    "/view?" +:+ join_amp [
      "filename=" +:+ encodeURIComponent filename;
      "type=input";
      "subfolder=" +:+ encodeURIComponent subfolder;
      match getRandParam a with
      | Some r => js_substring_from r 1
      | None => "t=" +:+ DecimalString.NilZero.string_of_int (Z.to_int now)
      end ] in
  match apiURL a with
  | Some f => f resourceUrl
  | None => resourceUrl
  end.

Lemma getAudioUrl_from_parts (audioValue : string) (s : State) :
  getAudioUrl audioValue s
  = (Normal (Some (audio_url (app (world s)) (Date_now (world s))
                     (fst (getAudioUrl_parts audioValue))
                     (snd (getAudioUrl_parts audioValue)))), s).
Proof.
  unfold getAudioUrl, audio_url, try_catch.
  destruct (getAudioUrl_parts audioValue) as [filename subfolder].
  rewrite run_bind; unfold gets at 1; cbv beta iota.
  rewrite run_bind; unfold gets at 1; cbv beta iota.
  cbn [fst snd]. destruct (apiURL (app (world s))); reflexivity.
Qed.

(** C10. [getAudioUrl] splits its argument at the last ["/"]: when the
    argument has one, the subfolder is the text before the last ["/"] and the
    file name the text after it, so that subfolder, ["/"] and file name put
    together give the argument back; when it has none, the file name is the
    whole argument and the subfolder is empty.  The URL is built from these
    two parts. *)
Theorem getAudioUrl_splits_at_last_slash (audioValue : string) :
  (forall s : State,
      getAudioUrl audioValue s
      = (Normal (Some (audio_url (app (world s)) (Date_now (world s))
                         (fst (getAudioUrl_parts audioValue))
                         (snd (getAudioUrl_parts audioValue)))), s))
  /\ (contains slash audioValue = true ->
      exists subfolder filename,
        getAudioUrl_parts audioValue = (filename, subfolder)
        /\ audioValue = subfolder +:+ "/" +:+ filename
        /\ contains slash filename = false)
  /\ (contains slash audioValue = false ->
      getAudioUrl_parts audioValue = (audioValue, EmptyString))
  /\ (forall subfolder filename,
        audioValue = subfolder +:+ "/" +:+ filename ->
        contains slash filename = false ->
        getAudioUrl_parts audioValue = (filename, subfolder)).
Proof.
  split; [intros s; apply getAudioUrl_from_parts|].
  split; [|split].
  - intros H. destruct (contains_split_last slash audioValue H) as (a & b & -> & Hb).
    exists a, b. split; [now apply getAudioUrl_parts_last_slash|]. split; [reflexivity|exact Hb].
  - apply getAudioUrl_parts_no_slash.
  - intros subfolder filename -> Hf. now apply getAudioUrl_parts_last_slash.
Qed.

Lemma getAudioUrl_splits_at_last_slash_witness :
  contains slash "music/live/take 1.mp3" = true
  /\ getAudioUrl_parts "music/live/take 1.mp3" = ("take 1.mp3", "music/live")
  /\ getAudioUrl_parts "take 1.mp3" = ("take 1.mp3", EmptyString).
Proof.
  split; [reflexivity|]. split.
  - destruct (getAudioUrl_splits_at_last_slash "music/live/take 1.mp3")
      as (_ & _ & _ & Hsplit).
    apply (Hsplit "music/live" "take 1.mp3"); reflexivity.
  - destruct (getAudioUrl_splits_at_last_slash "take 1.mp3") as (_ & _ & Hnone & _).
    apply Hnone. reflexivity.
Defined.

(** ** Sample buffers *)

Lemma new_Uint8Array_length (n : Z) : length (new_Uint8Array n) = Z.to_nat n.
Proof. unfold new_Uint8Array. apply repeat_length. Qed.

Lemma fill_bytes_length (data : nat -> Z) (n : nat) (dataArray : list Z) :
  length (fill_bytes data n dataArray) = length dataArray.
Proof.
  unfold fill_bytes.
  rewrite length_app, length_map, length_seq, length_skipn. lia.
Qed.

Lemma fill_bytes_nth (data : nat -> Z) (n : nat) (dataArray : list Z) (i : nat) :
  (i < n)%nat -> (i < length dataArray)%nat ->
  nth_error (fill_bytes data n dataArray) i = Some (data i mod 256).
Proof.
  intros Hn Hl. unfold fill_bytes.
  rewrite nth_error_app1 by (rewrite length_map, length_seq; lia).
  rewrite nth_error_map, nth_error_seq.
  destruct (Nat.ltb_spec i (Nat.min n (length dataArray))); [reflexivity|lia].
Qed.

(** The sizes the specification calls valid. *)
Definition valid_fftSize (n : Z) : Prop :=
  is_power_of_two n = true /\ 128 <= n <= 32768.

(** C1, as the code has it.  For every valid [fftSize] set on the analyser,
    the array [draw] allocates holds [fftSize / 2] bytes, and both the
    frequency-domain read (Bars, Circular) and the time-domain read (Wave)
    return it filled with [fftSize / 2] bytes of the analyser's data: the Wave
    renderer gets the first half of the [fftSize] time-domain samples. *)
Theorem sample_buffer_lengths (n : Z) (a : AnalyserNode) (s : State)
    (Hvalid : valid_fftSize n)
    (Hsize : fftSize a = n)
    (Han : analyser (this s) = Some a) :
  Z.of_nat (length (draw_dataArray a)) = n / 2
  /\ (exists data,
        getByteFrequencyData (draw_dataArray a) s = (Normal data, s)
        /\ Z.of_nat (length data) = n / 2
        /\ forall i, (Z.of_nat i < n / 2) ->
             nth_error data i = Some (frequency (world s) i mod 256))
  /\ (exists data,
        getByteTimeDomainData (draw_dataArray a) s = (Normal data, s)
        /\ Z.of_nat (length data) = n / 2
        /\ forall i, (Z.of_nat i < n / 2) ->
             nth_error data i = Some (timeDomain (world s) i mod 256)).
Proof.
  destruct Hvalid as [_ Hrange].
  assert (Hhalf : 0 <= n / 2) by (apply Z.div_pos; lia).
  assert (Hle : n / 2 <= n) by (apply Z.div_le_upper_bound; lia).
  assert (Hlen : length (draw_dataArray a) = Z.to_nat (n / 2)).
  { unfold draw_dataArray, frequencyBinCount. rewrite new_Uint8Array_length. now rewrite Hsize. }
  split; [rewrite Hlen; lia|]. split.
  - eexists. unfold getByteFrequencyData. rewrite Han. split; [reflexivity|].
    rewrite fill_bytes_length, Hlen. split; [lia|].
    intros i Hi. apply fill_bytes_nth.
    + unfold frequencyBinCount. rewrite Hsize. lia.
    + rewrite Hlen. lia.
  - eexists. unfold getByteTimeDomainData. rewrite Han. split; [reflexivity|].
    rewrite fill_bytes_length, Hlen. split; [lia|].
    intros i Hi. apply fill_bytes_nth.
    + rewrite Hsize. lia.
    + rewrite Hlen. lia.
Qed.

(** The example visualizer once its audio element has started playing. *)
Definition example_playing : State := step (PlayFires 0%nat) example_state.

Definition example_analyser : AnalyserNode := mkAnalyserNode 2 1 2048 (85 # 100) true.

Lemma example_playing_analyser : analyser (this example_playing) = Some example_analyser.
Proof. vm_compute. reflexivity. Qed.

Lemma sample_buffer_lengths_witness :
  valid_fftSize 2048
  /\ fftSize example_analyser = 2048
  /\ analyser (this example_playing) = Some example_analyser
  /\ Z.of_nat (length (draw_dataArray example_analyser)) = 2048 / 2.
Proof.
  assert (Hvalid : valid_fftSize 2048) by (split; [reflexivity|lia]).
  split; [exact Hvalid|]. split; [reflexivity|].
  split; [exact example_playing_analyser|].
  destruct (sample_buffer_lengths 2048 example_analyser example_playing Hvalid eq_refl
              example_playing_analyser) as (Hlen & _).
  exact Hlen.
Defined.

(** C1, as stated, fails for the time-domain read: with [fftSize = 2048] the
    Wave renderer reads into the 1024-byte array of [draw], not into 2048
    bytes. *)
Lemma wave_read_is_not_fftSize_bytes :
  valid_fftSize (fftSize example_analyser)
  /\ analyser (this example_playing) = Some example_analyser
  /\ exists data,
       getByteTimeDomainData (draw_dataArray example_analyser) example_playing
       = (Normal data, example_playing)
       /\ length data = 1024%nat
       /\ Z.of_nat (length data) <> fftSize example_analyser.
Proof.
  split; [split; [reflexivity|simpl; lia]|].
  split; [exact example_playing_analyser|].
  eexists. unfold getByteTimeDomainData. rewrite example_playing_analyser.
  split; [reflexivity|].
  rewrite fill_bytes_length.
  assert (E : length (draw_dataArray example_analyser) = 1024%nat)
    by (vm_compute; reflexivity).
  rewrite E. split; [reflexivity|]. simpl. lia.
Qed.

(** ** Arithmetic on canvas sizes *)

Lemma Qred_inject_Z (z : Z) : Qred (inject_Z z) = inject_Z z.
Proof.
  unfold inject_Z, Qred.
  pose proof (Z.ggcd_gcd z 1) as Hg.
  pose proof (Z.ggcd_correct_divisors z 1) as Hd.
  destruct (Z.ggcd z 1) as [g [aa bb]]. simpl in *.
  rewrite Z.gcd_1_r in Hg. subst g. destruct Hd as [Ha Hb].
  f_equal; [lia|]. replace bb with 1 by lia. reflexivity.
Qed.

Lemma num_mul_zero_l (q : Q) : num_mul (num 0) (Fin q) = num 0.
Proof.
  reflexivity.
Qed.

Lemma num_mul_one_l (z : Z) : num_mul (num 1) (num z) = num z.
Proof.
  unfold num_mul, num. f_equal.
  rewrite (Qred_complete (inject_Z 1 * inject_Z z) (inject_Z z)).
  - apply Qred_inject_Z.
  - change (inject_Z 1) with 1%Q. ring.
Qed.

Lemma num_sub_zero_r (z : Z) : num_sub (num z) (num 0) = num z.
Proof.
  unfold num_sub, num_add, num_neg, num. f_equal.
  rewrite (Qred_complete (inject_Z z + Qred (- inject_Z 0)) (inject_Z z)).
  - apply Qred_inject_Z.
  - rewrite Qred_correct. change (inject_Z 0) with 0%Q. ring.
Qed.

Lemma num_add_zero_red (q : Q) : num_add (Fin (Qred q)) (num 0) = Fin (Qred q).
Proof.
  unfold num_add, num. f_equal. apply Qred_complete.
  rewrite Qred_correct. change (inject_Z 0) with 0%Q. ring.
Qed.

Lemma num_sub_zero_red (q : Q) : num_sub (Fin (Qred q)) (num 0) = Fin (Qred q).
Proof.
  unfold num_sub, num_add, num_neg, num. f_equal. apply Qred_complete.
  rewrite !Qred_correct. change (inject_Z 0) with 0%Q. ring.
Qed.

Lemma zero_over (z : Z) : 0 < z -> num_div (num 0) (num z) = num 0.
Proof.
  intros Hz.
  assert (HzQ : (0 < inject_Z z)%Q)
    by (change 0%Q with (inject_Z 0); rewrite <- Zlt_Qlt; exact Hz).
  unfold num_div, num, Qsgn.
  destruct (Qcompare_spec (inject_Z z) 0) as [E|L|G].
  - exfalso. lra.
  - exfalso. lra.
  - reflexivity.
Qed.

Lemma byte_at_fill (data : nat -> Z) (n : nat) (dataArray : list Z) (k : Z) :
  0 <= k -> (Z.to_nat k < n)%nat -> (Z.to_nat k < length dataArray)%nat ->
  byte_at (fill_bytes data n dataArray) k = num (data (Z.to_nat k) mod 256).
Proof.
  intros H0 Hn Hl. unfold byte_at.
  destruct (Z.ltb_spec k 0); [lia|].
  now rewrite fill_bytes_nth.
Qed.

(** ** Rendering silence *)

(** The height at which the Wave renderer plots a byte. *)
Definition wave_y (b : Z) (HEIGHT : Number) : Number :=
  num_div (num_mul (num_div (num b) (num 128)) HEIGHT) (num 2).

(** A run of points at one height: [moveTo] for index 0, [lineTo] after. *)
Fixpoint wave_points (remaining : nat) (i : Z) (x y dx : Number) (di : Z) : list CanvasOp :=
  match remaining with
  | O => []
  | S remaining' =>
      (if i =? 0 then MoveTo (Cart x y) else LineTo (Cart x y))
        :: wave_points remaining' (i + di) (num_add x dx) y dx di
  end.

(** What the Wave renderer draws when every point is at the height [y]. *)
Definition wave_trace (n : Z) (WIDTH HEIGHT y : Number) (primary secondary : string)
  : list CanvasOp :=
  let sliceWidth := num_div WIDTH (num n) in
  [SetLineWidth (num 2); SetStrokeStyle (Solid (Css primary)); BeginPath]
    ++ wave_points (rounds n 1) 0 (num 0) y sliceWidth 1
    ++ [LineTo (Cart WIDTH (num_div HEIGHT (num 2))); Stroke;
        SetLineWidth (num 1); SetStrokeStyle (Solid (Css secondary)); BeginPath]
    ++ wave_points (rounds n 5) 0 (num 0) (num_add y (num 5))
         (num_mul sliceWidth (num 5)) 5
    ++ [Stroke].

Lemma drawWave_main_flat (b : Z) (remaining : nat) (i : Z) (x : Number)
    (dataArray : list Z) (HEIGHT sliceWidth : Number) (s : State) :
  ctx (this s) = true ->
  (forall k, i <= k < i + Z.of_nat remaining -> byte_at dataArray k = num b) ->
  drawWave_main remaining i x dataArray HEIGHT sliceWidth s
  = (Normal tt, paint (wave_points remaining i x (wave_y b HEIGHT) sliceWidth 1) s).
Proof.
  revert i x s. induction remaining as [|n IH]; intros i x s Hctx Hdata.
  - simpl. now rewrite paint_nil.
  - cbn [drawWave_main wave_points]. rewrite run_bind.
    rewrite (Hdata i) by lia. fold (wave_y b HEIGHT).
    assert (Hstep : forall op, ctx_call op s = (Normal tt, paint [op] s))
      by (intros; now apply ctx_call_ok).
    destruct (i =? 0); rewrite Hstep, IH, paint_paint; try reflexivity; try exact Hctx;
      intros k Hk; apply Hdata; lia.
Qed.

Lemma drawWave_aux_flat (b : Z) (remaining : nat) (i : Z) (x : Number)
    (dataArray : list Z) (HEIGHT sliceWidth : Number) (s : State) :
  ctx (this s) = true ->
  (forall j, 0 <= j < Z.of_nat remaining -> byte_at dataArray (i + 5 * j) = num b) ->
  drawWave_aux remaining i x dataArray HEIGHT sliceWidth s
  = (Normal tt,
     paint (wave_points remaining i x (num_add (wave_y b HEIGHT) (num 5))
              (num_mul sliceWidth (num 5)) 5) s).
Proof.
  revert i x s. induction remaining as [|n IH]; intros i x s Hctx Hdata.
  - simpl. now rewrite paint_nil.
  - cbn [drawWave_aux wave_points]. rewrite run_bind.
    pose proof (Hdata 0) as H0. rewrite Z.mul_0_r, Z.add_0_r in H0.
    rewrite H0 by lia. fold (wave_y b HEIGHT).
    assert (Hstep : forall op, ctx_call op s = (Normal tt, paint [op] s))
      by (intros; now apply ctx_call_ok).
    destruct (i =? 0); rewrite Hstep, IH, paint_paint; try reflexivity; try exact Hctx;
      intros j Hj; replace (i + 5 + 5 * j) with (i + 5 * (j + 1)) by lia;
      apply Hdata; lia.
Qed.

Lemma rounds_one (n : Z) : rounds n 1 = Z.to_nat n.
Proof. unfold rounds. f_equal. rewrite Z.div_1_r. lia. Qed.

Lemma rounds_five (n : Z) (j : Z) :
  0 <= j < Z.of_nat (rounds n 5) -> 0 <= 5 * j < n.
Proof.
  unfold rounds. intros Hj.
  assert (Hpos : 0 < (n + 5 - 1) / 5) by lia.
  pose proof (Z.mul_div_le (n + 5 - 1) 5 ltac:(lia)) as Hle.
  rewrite Z2Nat.id in Hj by lia. lia.
Qed.

Lemma drawWave_flat (b : Z) (a : AnalyserNode) (WIDTH HEIGHT : Number) (s : State) :
  ctx (this s) = true ->
  analyser (this s) = Some a ->
  (forall i, timeDomain (world s) i mod 256 = b) ->
  drawWave (draw_dataArray a) WIDTH HEIGHT (frequencyBinCount a) s
  = (Normal tt,
     paint (wave_trace (frequencyBinCount a) WIDTH HEIGHT (wave_y b HEIGHT)
              (primaryColor (config (this s))) (secondaryColor (config (this s)))) s).
Proof.
  intros Hctx Han Hdata. unfold drawWave, wave_trace.
  set (n := frequencyBinCount a).
  rewrite run_bind. unfold getByteTimeDomainData at 1. rewrite Han.
  assert (Hbytes : forall k, 0 <= k < n ->
            byte_at (fill_bytes (timeDomain (world s)) (Z.to_nat (fftSize a))
                       (draw_dataArray a)) k = num b).
  { intros k Hk. rewrite byte_at_fill.
    - now rewrite Hdata.
    - lia.
    - subst n. unfold frequencyBinCount in Hk.
      pose proof (Z.mul_div_le (fftSize a) 2 ltac:(lia)). lia.
    - unfold draw_dataArray. rewrite new_Uint8Array_length. fold n. lia. }
  rewrite run_bind; unfold gets at 1; cbv beta iota.
  rewrite run_bind; unfold gets at 1; cbv beta iota.
  rewrite run_bind, ctx_call_ok by exact Hctx.
  rewrite run_bind, ctx_call_ok by exact Hctx.
  rewrite run_bind, ctx_call_ok by exact Hctx.
  rewrite run_bind, (drawWave_main_flat b).
  2: exact Hctx.
  2: { intros k Hk. apply Hbytes. rewrite rounds_one in Hk. lia. }
  rewrite run_bind, ctx_call_ok by exact Hctx.
  rewrite run_bind, ctx_call_ok by exact Hctx.
  rewrite run_bind, ctx_call_ok by exact Hctx.
  rewrite run_bind, ctx_call_ok by exact Hctx.
  rewrite run_bind, ctx_call_ok by exact Hctx.
  rewrite run_bind, (drawWave_aux_flat b).
  2: exact Hctx.
  2: { intros j Hj. apply Hbytes. apply rounds_five in Hj. lia. }
  rewrite ctx_call_ok by exact Hctx.
  rewrite !paint_paint. reflexivity.
Qed.

Lemma wave_y_zero (h : Z) : wave_y 0 (num h) = num 0.
Proof.
  reflexivity.
Qed.

Lemma wave_y_center (h : Z) : wave_y 128 (num h) = num_div (num h) (num 2).
Proof.
  unfold wave_y. replace (num_div (num 128) (num 128)) with (num 1) by reflexivity.
  now rewrite num_mul_one_l.
Qed.

(** The gradient of a bar whose tip is at [top]. *)
Definition bar_gradient (HEIGHT top : Number) (primary secondary : string) : Style :=
  Grad (with_stop (num 1) (Css primary)
          (with_stop (num 0) (Css secondary)
             (mkGradient [num 0; HEIGHT; num 0; top] []))).

(** What the Bars renderer draws when every bar has height 0. *)
Fixpoint flat_bars (remaining : nat) (x WIDTH HEIGHT barWidth : Number)
    (primary secondary : string) : list CanvasOp :=
  match remaining with
  | O => []
  | S remaining' =>
      [ SetFillStyle (bar_gradient HEIGHT HEIGHT primary secondary);
        FillRect x HEIGHT barWidth (num 0) ]
        ++ (let x' := num_add x (num_add barWidth (num 1)) in
            if num_gt x' WIDTH then []
            else flat_bars remaining' x' WIDTH HEIGHT barWidth primary secondary)
  end.

Definition zero_height (op : CanvasOp) : Prop :=
  match op with
  | FillRect _ _ _ h => h = num 0
  | _ => True
  end.

Lemma flat_bars_zero_height (remaining : nat) (x WIDTH HEIGHT barWidth : Number)
    (primary secondary : string) :
  Forall zero_height (flat_bars remaining x WIDTH HEIGHT barWidth primary secondary).
Proof.
  revert x. induction remaining as [|n IH]; intros x; simpl.
  - constructor.
  - constructor; [exact I|]. constructor; [reflexivity|].
    destruct (num_gt _ WIDTH); [constructor|apply IH].
Qed.

Lemma drawBars_loop_flat (remaining : nat) (i : Z) (x : Number) (dataArray : list Z)
    (WIDTH : Number) (h : Z) (barWidth : Number) (primary secondary : string) (s : State) :
  ctx (this s) = true ->
  color_parses (world s) (Css primary) = true ->
  color_parses (world s) (Css secondary) = true ->
  (forall k, i <= k < i + Z.of_nat remaining -> byte_at dataArray k = num 0) ->
  drawBars_loop remaining i x dataArray WIDTH (num h) barWidth primary secondary s
  = (Normal tt, paint (flat_bars remaining x WIDTH (num h) barWidth primary secondary) s).
Proof.
  revert i x s. induction remaining as [|n IH]; intros i x s Hctx Hp Hq Hdata.
  - simpl. now rewrite paint_nil.
  - cbn [drawBars_loop flat_bars]. rewrite (Hdata i) by lia.
    replace (num_mul (num_div (num 0) (num 255)) (num h)) with (num 0) by reflexivity.
    rewrite num_sub_zero_r.
    rewrite run_bind. unfold createLinearGradient at 1. rewrite Hctx. cbn [negb forallb is_finite num andb].
    cbv iota.
    rewrite run_bind, addColorStop_run, Hq by now left.
    rewrite run_bind, addColorStop_run, Hp by now right.
    rewrite run_bind, ctx_call_ok by exact Hctx.
    rewrite run_bind, ctx_call_ok by exact Hctx.
    destruct (num_gt (num_add x (num_add barWidth (num 1))) WIDTH).
    + unfold ret. rewrite paint_paint. reflexivity.
    + rewrite IH; [| exact Hctx | now rewrite color_parses_paint
                   | now rewrite color_parses_paint | intros k Hk; apply Hdata; lia].
      rewrite !paint_paint. reflexivity.
Qed.

Lemma drawBars_flat (a : AnalyserNode) (WIDTH : Number) (h : Z) (s : State) :
  ctx (this s) = true ->
  analyser (this s) = Some a ->
  color_parses (world s) (Css (primaryColor (config (this s)))) = true ->
  color_parses (world s) (Css (secondaryColor (config (this s)))) = true ->
  (forall i, frequency (world s) i = 0) ->
  drawBars (draw_dataArray a) WIDTH (num h) (frequencyBinCount a) s
  = (Normal tt,
     paint (flat_bars (rounds (frequencyBinCount a) 1) (num 0) WIDTH (num h)
              (num_mul (num_div WIDTH (num (frequencyBinCount a))) (Fin (5 # 2)))
              (primaryColor (config (this s))) (secondaryColor (config (this s)))) s).
Proof.
  intros Hctx Han Hp Hq Hdata. unfold drawBars.
  rewrite run_bind. unfold getByteFrequencyData at 1. rewrite Han.
  rewrite run_bind; unfold gets at 1; cbv beta iota.
  rewrite run_bind; unfold gets at 1; cbv beta iota.
  apply drawBars_loop_flat; [exact Hctx|exact Hp|exact Hq|].
  intros k Hk. rewrite rounds_one in Hk.
  rewrite byte_at_fill; try lia.
  - now rewrite Hdata.
  - unfold draw_dataArray. rewrite new_Uint8Array_length. lia.
Qed.

(** With a colour that the browser cannot parse, the Bars renderer fails on
    its first bar, at [addColorStop], before anything is drawn. *)
Lemma drawBars_unparsable (a : AnalyserNode) (WIDTH : Number) (h : Z) (s : State) :
  ctx (this s) = true ->
  analyser (this s) = Some a ->
  1 <= frequencyBinCount a ->
  color_parses (world s) (Css (primaryColor (config (this s))))
  && color_parses (world s) (Css (secondaryColor (config (this s)))) = false ->
  drawBars (draw_dataArray a) WIDTH (num h) (frequencyBinCount a) s
  = (Throw SyntaxError, s).
Proof.
  intros Hctx Han Hn Hcolors. unfold drawBars.
  rewrite run_bind. unfold getByteFrequencyData at 1. rewrite Han.
  rewrite run_bind; unfold gets at 1; cbv beta iota.
  rewrite run_bind; unfold gets at 1; cbv beta iota.
  rewrite rounds_one.
  destruct (Z.to_nat (frequencyBinCount a)) as [|k] eqn:Ek; [lia|].
  cbn [drawBars_loop].
  rewrite byte_at_fill; [|lia|lia|unfold draw_dataArray; rewrite new_Uint8Array_length; lia].
  rewrite run_bind. unfold createLinearGradient at 1. rewrite Hctx.
  match goal with
  | |- context [forallb is_finite ?l] => replace (forallb is_finite l) with true by reflexivity
  end.
  cbn [negb]. cbv iota.
  rewrite run_bind, addColorStop_run by now left.
  destruct (color_parses (world s) (Css (secondaryColor (config (this s))))); [|reflexivity].
  rewrite run_bind, addColorStop_run by now right.
  rewrite andb_true_r in Hcolors. rewrite Hcolors. reflexivity.
Qed.

(** What one round of the circular renderer draws for a bar of length 0:
    both lines start and end on the circle. *)
Definition flat_circular_bar (cx cy radius : Number) (primary secondary : string) (i : Z)
  : list CanvasOp :=
  let p := Polar cx cy (inject_Z i / inject_Z barsToDraw)%Q radius in
  [ SetStrokeStyle (Solid (Css primary)); SetLineWidth (num 2); BeginPath;
    MoveTo p; LineTo p; Stroke;
    SetStrokeStyle (Solid (Css secondary)); BeginPath;
    MoveTo p; LineTo p; Stroke ].

Lemma Math_min_num (w h : Z) : Math_min (num w) (num h) = num (Z.min w h).
Proof.
  unfold Math_min, num, num_compare.
  destruct (Qcompare_spec (inject_Z w) (inject_Z h)) as [E|L|G].
  - destruct (inject_Z_injective w h) as [Hinj _]. apply Hinj in E.
    subst. now rewrite Z.min_id.
  - rewrite <- Zlt_Qlt in L. now rewrite Z.min_l by lia.
  - rewrite <- Zlt_Qlt in G. now rewrite Z.min_r by lia.
Qed.

Lemma drawCircular_bar_flat (i : Z) (dataArray : list Z) (w h : Z) (cx cy : Number)
    (step : Z) (primary secondary : string) :
  byte_at dataArray (i * step) = num 0 ->
  drawCircular_bar i dataArray (num w) (num h) cx cy
    (num_div (Math_min (num w) (num h)) (num 4)) step primary secondary
  = flat_circular_bar cx cy (num_div (Math_min (num w) (num h)) (num 4))
      primary secondary i.
Proof.
  intros Hdata. unfold drawCircular_bar, flat_circular_bar. rewrite Hdata.
  rewrite Math_min_num.
  replace (num_div (num (Z.min w h)) (num 3))
    with (Fin (Qred (inject_Z (Z.min w h) / inject_Z 3))) by reflexivity.
  replace (num_div (num 0) (num 255)) with (num 0) by reflexivity.
  rewrite num_mul_zero_l.
  replace (num_mul (num 0) (Fin (3 # 10))) with (num 0) by reflexivity.
  replace (num_div (num (Z.min w h)) (num 4))
    with (Fin (Qred (inject_Z (Z.min w h) / inject_Z 4))) by reflexivity.
  now rewrite num_add_zero_red, num_sub_zero_red.
Qed.

Lemma circular_bars_flat (remaining : nat) (i : Z) (dataArray : list Z) (w h : Z)
    (cx cy : Number) (step : Z) (primary secondary : string) :
  (forall k, i <= k < i + Z.of_nat remaining -> byte_at dataArray (k * step) = num 0) ->
  circular_bars remaining i dataArray (num w) (num h) cx cy
    (num_div (Math_min (num w) (num h)) (num 4)) step primary secondary
  = flat_map (flat_circular_bar cx cy (num_div (Math_min (num w) (num h)) (num 4))
                primary secondary)
      (circular_rounds remaining i).
Proof.
  revert i. induction remaining as [|n IH]; intros i Hdata;
    cbn [circular_bars circular_rounds flat_map]; [reflexivity|].
  rewrite drawCircular_bar_flat by (apply Hdata; lia).
  rewrite IH by (intros k Hk; apply Hdata; lia).
  reflexivity.
Qed.

Lemma arc_radius_ok (w h : Z) :
  40 <= Z.min w h ->
  num_lt (num_sub (num_div (Math_min (num w) (num h)) (num 4)) (num 10)) (num 0) = false.
Proof.
  intros Hmin. rewrite Math_min_num.
  replace (num_div (num (Z.min w h)) (num 4))
    with (Fin (Qred (inject_Z (Z.min w h) / inject_Z 4))) by reflexivity.
  unfold num_sub, num_add, num_neg, num, num_lt, num_compare.
  assert (Hq : (40 <= inject_Z (Z.min w h))%Q)
    by (change 40%Q with (inject_Z 40); rewrite <- Zle_Qle; exact Hmin).
  destruct (Qcompare_spec
              (Qred (Qred (inject_Z (Z.min w h) / inject_Z 4) + Qred (- inject_Z 10)))
              (inject_Z 0)) as [E|L|G]; try reflexivity.
  exfalso. rewrite !Qred_correct in L.
  change (inject_Z 4) with 4%Q in L. change (inject_Z 10) with 10%Q in L.
  change (inject_Z 0) with 0%Q in L.
  assert (Hd : (inject_Z (Z.min w h) / 4 == inject_Z (Z.min w h) * (1 # 4))%Q)
    by (unfold Qdiv; reflexivity).
  rewrite Hd in L. lra.
Qed.

Lemma drawCircular_flat (a : AnalyserNode) (w h : Z) (s : State) :
  ctx (this s) = true ->
  analyser (this s) = Some a ->
  (forall i, frequency (world s) i = 0) ->
  1 <= frequencyBinCount a ->
  40 <= Z.min w h ->
  let radius := num_div (Math_min (num w) (num h)) (num 4) in
  let cx := num_div (num w) (num 2) in
  let cy := num_div (num h) (num 2) in
  drawCircular (draw_dataArray a) (num w) (num h) (frequencyBinCount a) s
  = (Normal tt,
     paint ([ BeginPath; Arc cx cy (num_sub radius (num 10)) 0 1;
              SetFillStyle (Solid (hexToRgba (secondaryColor (config (this s)))
                                     (Fin (2 # 10))));
              Fill ]
            ++ flat_map (flat_circular_bar cx cy radius
                           (primaryColor (config (this s)))
                           (secondaryColor (config (this s))))
                 (circular_rounds 180 0)) s).
Proof.
  intros Hctx Han Hdata Hn Hmin. cbv zeta. unfold drawCircular.
  rewrite run_bind. unfold getByteFrequencyData at 1. rewrite Han.
  rewrite run_bind; unfold gets at 1; cbv beta iota.
  rewrite run_bind; unfold gets at 1; cbv beta iota.
  rewrite run_bind, ctx_call_ok by exact Hctx.
  rewrite run_bind. unfold ctx_arc at 1. rewrite arc_radius_ok by exact Hmin.
  rewrite ctx_call_ok by exact Hctx.
  rewrite run_bind, ctx_call_ok by exact Hctx.
  rewrite run_bind, ctx_call_ok by exact Hctx.
  rewrite drawCircular_loop_ok by exact Hctx.
  change (rounds barsToDraw 1) with 180%nat.
  rewrite circular_bars_flat.
  - rewrite !paint_paint. reflexivity.
  - intros k Hk.
    assert (Hr : 0 <= circular_index (frequencyBinCount a) k <= frequencyBinCount a - 1)
      by (apply circular_index_in_range; unfold barsToDraw; lia).
    unfold circular_index in Hr.
    rewrite byte_at_fill; try lia.
    + now rewrite Hdata.
    + unfold draw_dataArray. rewrite new_Uint8Array_length. lia.
Qed.

(** C5, as the code has it.  On a canvas of [w] by [h] pixels, with the
    analyser's data all zero: the Bars renderer completes, and every bar it
    draws has height 0, when the browser can parse the two configured colours;
    when it cannot parse one of them, [addColorStop] throws a [SyntaxError] on
    the first bar, whatever the data.  The Circular renderer completes when
    [min(w, h) >= 40] (the radius of its disc is then not negative) and every
    radial line has length 0; the Wave renderer completes and plots its main
    line at [y = 0], the top edge, and its second line at [y = 5].  The flat
    line at the vertical centre, [y = h / 2], is what the Wave renderer plots
    for time-domain bytes that are all 128. *)
Theorem silence_rendering (a : AnalyserNode) (w h : Z) (s : State)
    (Hctx : ctx (this s) = true)
    (Han : analyser (this s) = Some a) :
  let n := frequencyBinCount a in
  let data := draw_dataArray a in
  let primary := primaryColor (config (this s)) in
  let secondary := secondaryColor (config (this s)) in
  let radius := num_div (Math_min (num w) (num h)) (num 4) in
  let cx := num_div (num w) (num 2) in
  let cy := num_div (num h) (num 2) in
  let bars :=
    flat_bars (rounds n 1) (num 0) (num w) (num h)
      (num_mul (num_div (num w) (num n)) (Fin (5 # 2))) primary secondary in
  ((forall i, frequency (world s) i = 0) ->
     color_parses (world s) (Css primary) = true ->
     color_parses (world s) (Css secondary) = true ->
     drawBars data (num w) (num h) n s = (Normal tt, paint bars s)
     /\ Forall zero_height bars)
  /\ (1 <= n ->
      color_parses (world s) (Css primary) && color_parses (world s) (Css secondary)
      = false ->
      drawBars data (num w) (num h) n s = (Throw SyntaxError, s))
  /\ ((forall i, frequency (world s) i = 0) -> 1 <= n -> 40 <= Z.min w h ->
      drawCircular data (num w) (num h) n s
      = (Normal tt,
         paint ([ BeginPath; Arc cx cy (num_sub radius (num 10)) 0 1;
                  SetFillStyle (Solid (hexToRgba secondary (Fin (2 # 10)))); Fill ]
                ++ flat_map (flat_circular_bar cx cy radius primary secondary)
                     (circular_rounds 180 0)) s))
  /\ ((forall i, timeDomain (world s) i = 0) ->
      drawWave data (num w) (num h) n s
      = (Normal tt, paint (wave_trace n (num w) (num h) (num 0) primary secondary) s))
  /\ ((forall i, timeDomain (world s) i = 128) ->
      drawWave data (num w) (num h) n s
      = (Normal tt,
         paint (wave_trace n (num w) (num h) (num_div (num h) (num 2))
                  primary secondary) s)).
Proof.
  cbv zeta. split; [|split; [|split; [|split]]].
  - intros Hzero Hp Hq. split.
    + now apply drawBars_flat.
    + apply flat_bars_zero_height.
  - intros Hn Hcolors. now apply drawBars_unparsable.
  - intros Hzero Hn Hmin. now apply drawCircular_flat.
  - intros Hzero. rewrite (drawWave_flat 0) by (try assumption; intros i; now rewrite Hzero).
    now rewrite wave_y_zero.
  - intros Hmid. rewrite (drawWave_flat 128) by (try assumption; intros i; now rewrite Hmid).
    now rewrite wave_y_center.
Qed.

Lemma example_playing_ctx : ctx (this example_playing) = true.
Proof. vm_compute. reflexivity. Qed.

Lemma silence_rendering_witness :
  ctx (this example_playing) = true
  /\ analyser (this example_playing) = Some example_analyser
  /\ (forall i, timeDomain (world example_playing) i = 0)
  /\ drawWave (draw_dataArray example_analyser) (num 800) (num 200) 1024 example_playing
     = (Normal tt,
        paint (wave_trace 1024 (num 800) (num 200) (num 0) "#8b5cf6" "#3b82f6")
          example_playing).
Proof.
  assert (Hzero : forall i, timeDomain (world example_playing) i = 0)
    by (intros i; reflexivity).
  split; [exact example_playing_ctx|]. split; [exact example_playing_analyser|].
  split; [exact Hzero|].
  destruct (silence_rendering example_analyser 800 200 example_playing
              example_playing_ctx example_playing_analyser) as (_ & _ & _ & Hwave & _).
  exact (Hwave Hzero).
Defined.

(** C5, as stated, fails twice over.  With all-zero data on a canvas of 800
    by 200 pixels the Wave renderer starts its line at [y = 0], not at the
    centre [y = 100]; and on a canvas 30 pixels wide the Circular renderer
    throws, whatever the data, because the radius of its disc is negative. *)
Lemma silence_is_not_a_centre_line :
  (forall i, timeDomain (world example_playing) i = 0)
  /\ nth_error
       (drawn_since example_playing
          (exec (drawWave (draw_dataArray example_analyser) (num 800) (num 200) 1024)
             example_playing)) 3
     = Some (MoveTo (Cart (num 0) (num 0)))
  /\ num_div (num 200) (num 2) = num 100
  /\ num 0 <> num 100
  /\ completion (drawCircular (draw_dataArray example_analyser) (num 30) (num 200) 1024)
       example_playing
     = Throw IndexSizeError.
Proof.
  split; [intros i; reflexivity|].
  split; [vm_compute; reflexivity|].
  split; [reflexivity|].
  split; [discriminate|].
  vm_compute. reflexivity.
Qed.

(** ** Relating the state before and after a computation *)

(** [rel R m]: whatever the state [s], and however [m] completes from it, the
    state it ends in is related to [s] by [R]. *)
Definition rel {A : Type} (R : State -> State -> Prop) (m : JS A) : Prop :=
  forall s, R s (exec m s).

Lemma exec_bind {A B : Type} (m : JS A) (f : A -> JS B) (s : State) :
  exec (bind m f) s =
  match m s with
  | (Normal a, s') => exec (f a) s'
  | (_, s') => s'
  end.
Proof. unfold exec, bind. destruct (m s) as [[a| |e] s']; reflexivity. Qed.

Section Rel.
Context (R : State -> State -> Prop) `{!PreOrder R}.

Lemma rel_ret {A : Type} (a : A) : rel R (ret a).
Proof. intros s. reflexivity. Qed.

Lemma rel_return {A : Type} : rel R (@return_ A).
Proof. intros s. reflexivity. Qed.

Lemma rel_throw {A : Type} (e : Exn) : rel R (@throw A e).
Proof. intros s. reflexivity. Qed.

Lemma rel_gets {A : Type} (f : State -> A) : rel R (gets f).
Proof. intros s. reflexivity. Qed.

Lemma rel_bind {A B : Type} (m : JS A) (f : A -> JS B) :
  rel R m -> (forall a, rel R (f a)) -> rel R (bind m f).
Proof.
  intros Hm Hf s. rewrite exec_bind. specialize (Hm s). unfold exec in Hm.
  destruct (m s) as [[a| |e] s']; simpl in Hm; try exact Hm.
  etransitivity; [exact Hm|apply Hf].
Qed.

Lemma rel_try_catch {A : Type} (body : JS A) (handler : Exn -> JS A) :
  rel R body -> (forall e, rel R (handler e)) -> rel R (try_catch body handler).
Proof.
  intros Hm Hh s. unfold exec, try_catch. specialize (Hm s). unfold exec in Hm.
  destruct (body s) as [[a| |e] s']; simpl in *; try exact Hm.
  etransitivity; [exact Hm|apply Hh].
Qed.

Lemma rel_function_body (m : JS unit) : rel R m -> rel R (function_body m).
Proof.
  intros Hm s. unfold exec, function_body. specialize (Hm s). unfold exec in Hm.
  destruct (m s) as [[a| |e] s']; exact Hm.
Qed.

Lemma rel_when (b : bool) (m : JS unit) : rel R m -> rel R (when b m).
Proof. intros Hm. destruct b; [exact Hm|apply rel_ret]. Qed.

Lemma rel_iter (n : nat) (m : JS unit) (s : State) :
  rel R m -> R s (Nat.iter n (exec m) s).
Proof.
  intros Hm. induction n as [|n IH]; simpl; [reflexivity|].
  etransitivity; [exact IH|apply Hm].
Qed.
End Rel.

Lemma rel_weaken {A : Type} (R R' : State -> State -> Prop) (m : JS A) :
  (forall s s', R s s' -> R' s s') -> rel R m -> rel R' m.
Proof. intros H Hm s. apply H, Hm. Qed.

(** Relations that canvas calls respect. *)
Class Painting (R : State -> State -> Prop) : Prop := {
  painting_preorder :: PreOrder R;
  painting_paint : forall ops s, R s (paint ops s)
}.

(** One step of a proof of [rel R m], by the shape of [m]. *)
Ltac rel_step :=
  lazymatch goal with
  | |- rel _ (bind _ _) => apply rel_bind; [try tc_solve| |intros ?]
  | |- rel _ (try_catch _ _) => apply rel_try_catch; [try tc_solve| |intros ?]
  | |- rel _ (function_body _) => apply rel_function_body
  | |- rel _ (ret _) => apply rel_ret; try tc_solve
  | |- rel _ return_ => apply rel_return; try tc_solve
  | |- rel _ (throw _) => apply rel_throw; try tc_solve
  | |- rel _ (gets _) => apply rel_gets; try tc_solve
  | |- rel _ (when _ _) => apply rel_when; [try tc_solve|]
  | |- rel _ (if ?b then _ else _) => destruct b
  | |- rel _ (match ?x with _ => _ end) => destruct x
  | |- rel _ (let _ := _ in _) => cbv zeta
  end.

Section Painters.
Context (R : State -> State -> Prop) `{!Painting R}.

Lemma rel_ctx_call (op : CanvasOp) : rel R (ctx_call op).
Proof.
  intros s. unfold exec, ctx_call. destruct (ctx (this s)); simpl.
  - apply painting_paint.
  - reflexivity.
Qed.

Lemma rel_ctx_calls (ops : list CanvasOp) : rel R (ctx_calls ops).
Proof.
  induction ops as [|op ops IH]; simpl.
  - apply rel_ret; tc_solve.
  - apply rel_bind; [tc_solve|apply rel_ctx_call|intros _; exact IH].
Qed.

Lemma rel_ctx_arc (x y r : Number) (f t : Q) : rel R (ctx_arc x y r f t).
Proof.
  unfold ctx_arc. destruct (num_lt r (num 0)); [|apply rel_ctx_call].
  intros s. unfold exec. destruct (ctx (this s)); reflexivity.
Qed.

Lemma rel_createLinearGradient (x0 y0 x1 y1 : Number) :
  rel R (createLinearGradient x0 y0 x1 y1).
Proof.
  intros s. unfold exec, createLinearGradient.
  destruct (negb (ctx (this s))); [reflexivity|].
  destruct (negb (forallb is_finite [x0; y0; x1; y1])); reflexivity.
Qed.

Lemma rel_createRadialGradient (x0 y0 r0 x1 y1 r1 : Number) :
  rel R (createRadialGradient x0 y0 r0 x1 y1 r1).
Proof.
  intros s. unfold exec, createRadialGradient.
  destruct (negb (ctx (this s))); [reflexivity|].
  destruct (negb (forallb is_finite [x0; y0; r0; x1; y1; r1])); [reflexivity|].
  destruct (num_lt r0 (num 0) || num_lt r1 (num 0)); reflexivity.
Qed.

Lemma rel_addColorStop (offset : Number) (c : Color) (g : Gradient) :
  rel R (addColorStop offset c g).
Proof.
  intros s. unfold exec, addColorStop.
  destruct (negb (is_finite offset)); [reflexivity|].
  destruct (num_lt offset (num 0) || num_gt offset (num 1)); [reflexivity|].
  destruct (color_parses (world s) c); reflexivity.
Qed.

Lemma rel_getByteTimeDomainData (d : list Z) : rel R (getByteTimeDomainData d).
Proof. intros s. unfold exec, getByteTimeDomainData. destruct (analyser (this s)); reflexivity. Qed.

Lemma rel_getByteFrequencyData (d : list Z) : rel R (getByteFrequencyData d).
Proof. intros s. unfold exec, getByteFrequencyData. destruct (analyser (this s)); reflexivity. Qed.

Hint Resolve rel_ctx_call rel_ctx_calls rel_ctx_arc rel_createLinearGradient
  rel_createRadialGradient rel_addColorStop rel_getByteTimeDomainData
  rel_getByteFrequencyData : core.

Lemma rel_renderBackground (WIDTH HEIGHT : Number) : rel R (renderBackground WIDTH HEIGHT).
Proof. unfold renderBackground. repeat rel_step; auto. Qed.

Lemma rel_drawWave_main (n : nat) (i : Z) (x : Number) (d : list Z) (H sw : Number) :
  rel R (drawWave_main n i x d H sw).
Proof.
  revert i x. induction n as [|n IH]; intros i x; simpl; repeat rel_step; auto.
Qed.

Lemma rel_drawWave_aux (n : nat) (i : Z) (x : Number) (d : list Z) (H sw : Number) :
  rel R (drawWave_aux n i x d H sw).
Proof.
  revert i x. induction n as [|n IH]; intros i x; simpl; repeat rel_step; auto.
Qed.

Lemma rel_drawBars_loop (n : nat) (i : Z) (x : Number) (d : list Z)
    (W H bw : Number) (p q : string) :
  rel R (drawBars_loop n i x d W H bw p q).
Proof.
  revert i x. induction n as [|n IH]; intros i x; simpl; repeat rel_step; auto.
Qed.

Lemma rel_drawCircular_loop (n : nat) (i : Z) (d : list Z)
    (W H cx cy r : Number) (step : Z) (p q : string) :
  rel R (drawCircular_loop n i d W H cx cy r step p q).
Proof.
  revert i. induction n as [|n IH]; intros i; cbn [drawCircular_loop];
    repeat rel_step; auto.
Qed.

Hint Resolve rel_drawWave_main rel_drawWave_aux rel_drawBars_loop
  rel_drawCircular_loop rel_renderBackground : core.

Lemma rel_drawWave (d : list Z) (W H : Number) (n : Z) : rel R (drawWave d W H n).
Proof. unfold drawWave. repeat rel_step; auto. Qed.

Lemma rel_drawBars (d : list Z) (W H : Number) (n : Z) : rel R (drawBars d W H n).
Proof. unfold drawBars. repeat rel_step; auto. Qed.

Lemma rel_drawCircular (d : list Z) (W H : Number) (n : Z) : rel R (drawCircular d W H n).
Proof. unfold drawCircular. repeat rel_step; auto. Qed.

Lemma rel_drawPlaceholder (text : string) : rel R (drawPlaceholder text).
Proof. unfold drawPlaceholder. repeat rel_step; auto. Qed.
End Painters.

(** ** A tick on a canvas without size *)

(** The canvas object and its context are kept, and canvas calls are only
    added. *)
Definition canvas_kept (s s' : State) : Prop :=
  canvas (this s') = canvas (this s)
  /\ ctx (this s') = ctx (this s)
  /\ exists ops, drawn (world s') = drawn (world s) ++ ops.

#[local] Instance canvas_kept_preorder : PreOrder canvas_kept.
Proof.
  split.
  - intros s. split; [reflexivity|]. split; [reflexivity|]. exists []. now rewrite app_nil_r.
  - intros s1 s2 s3 (Hc & Hx & ops & Hd) (Hc' & Hx' & ops' & Hd').
    split; [congruence|]. split; [congruence|].
    exists (ops ++ ops'). rewrite Hd', Hd. now rewrite app_assoc.
Qed.

#[local] Instance canvas_kept_painting : Painting canvas_kept.
Proof.
  split; [tc_solve|].
  intros ops s. split; [reflexivity|]. split; [reflexivity|]. now exists ops.
Qed.

Lemma canvas_kept_requestAnimationFrame : rel canvas_kept requestAnimationFrame.
Proof.
  intros s. split; [reflexivity|]. split; [reflexivity|].
  exists []. simpl. now rewrite app_nil_r.
Qed.

Lemma canvas_kept_set_animationFrameId (h : option Z) :
  rel canvas_kept (modify_this (set_animationFrameId h)).
Proof.
  intros s. split; [reflexivity|]. split; [reflexivity|].
  exists []. simpl. now rewrite app_nil_r.
Qed.

Lemma renderBackground_starts (WIDTH HEIGHT : Number) (s : State) :
  ctx (this s) = true ->
  canvas_kept (paint [ SetFillStyle (Solid (Css (backgroundColor (config (this s)))));
                       FillRect (num 0) (num 0) WIDTH HEIGHT ] s)
    (exec (renderBackground WIDTH HEIGHT) s).
Proof.
  intros Hctx. unfold exec, renderBackground.
  rewrite run_bind; unfold gets at 1; cbv beta iota.
  rewrite run_bind, ctx_call_ok by exact Hctx.
  rewrite run_bind, ctx_call_ok by exact Hctx.
  rewrite paint_paint.
  lazymatch goal with
  | |- canvas_kept _ (snd (?m _)) =>
      assert (Hrest : rel canvas_kept m)
  end.
  { repeat rel_step;
      auto using rel_ctx_call, rel_createRadialGradient, rel_createLinearGradient,
        rel_addColorStop with typeclass_instances. }
  apply Hrest.
Qed.

Lemma draw_frame_paints (a : AnalyserNode) (c : Canvas) (s : State) :
  ctx (this s) = true ->
  canvas_kept (paint [ SetFillStyle (Solid (Css (backgroundColor (config (this s)))));
                       FillRect (num 0) (num 0) (num (cv_width c)) (num (cv_height c)) ] s)
    (exec (function_body (draw_frame a c)) s).
Proof.
  intros Hctx. unfold exec, function_body, draw_frame. rewrite run_bind.
  pose proof (renderBackground_starts (num (cv_width c)) (num (cv_height c)) s Hctx) as Hbg.
  unfold exec in Hbg.
  destruct (renderBackground (num (cv_width c)) (num (cv_height c)) s) as [[[]| |e] s1];
    simpl in Hbg; try exact Hbg.
  lazymatch goal with
  | |- canvas_kept _ (snd (match ?m s1 with _ => _ end)) =>
      assert (Hrest : rel canvas_kept m)
  end.
  { repeat rel_step;
      auto using rel_drawWave, rel_drawBars, rel_drawCircular,
        canvas_kept_requestAnimationFrame, canvas_kept_set_animationFrameId
        with typeclass_instances. }
  specialize (Hrest s1). unfold exec in Hrest.
  lazymatch goal with
  | |- canvas_kept _ (snd (match ?m s1 with _ => _ end)) =>
      destruct (m s1) as [[[]| |e] s2]
  end; simpl in *; etransitivity; eauto.
Qed.

Lemma draw_without_resize (a : AnalyserNode) (c : Canvas) (s : State) :
  ctx (this s) = true ->
  analyser (this s) = Some a ->
  canvas (this s) = Some c ->
  Qle_bool (fst (rect (world s))) 0 || Qle_bool (snd (rect (world s))) 0 = true ->
  draw s = function_body (draw_frame a c) s.
Proof.
  intros Hctx Han Hcv Hrect. unfold draw, function_body.
  rewrite run_bind; unfold gets at 1; cbv beta iota.
  rewrite run_bind; unfold gets at 1; cbv beta iota.
  rewrite run_bind; unfold gets at 1; cbv beta iota.
  rewrite Han, Hcv, Hctx.
  rewrite run_bind. unfold ret at 1. cbv beta iota.
  rewrite run_bind; unfold gets at 1; cbv beta iota.
  rewrite run_bind.
  replace (negb (Qle_bool (fst (rect (world s))) 0) && negb (Qle_bool (snd (rect (world s))) 0))
    with false
    by (destruct (Qle_bool (fst (rect (world s))) 0), (Qle_bool (snd (rect (world s))) 0);
        simpl in *; congruence).
  reflexivity.
Qed.

Lemma draw_reaches_frame (a : AnalyserNode) (c : Canvas) (s : State) :
  ctx (this s) = true ->
  analyser (this s) = Some a ->
  canvas (this s) = Some c ->
  exists c1 s1,
    draw s = function_body (draw_frame a c1) s1
    /\ ctx (this s1) = true
    /\ canvas (this s1) = Some c1
    /\ drawn (world s1) = drawn (world s)
    /\ backgroundColor (config (this s1)) = backgroundColor (config (this s)).
Proof.
  intros Hctx Han Hcv. unfold draw, function_body.
  rewrite run_bind; unfold gets at 1; cbv beta iota.
  rewrite run_bind; unfold gets at 1; cbv beta iota.
  rewrite run_bind; unfold gets at 1; cbv beta iota.
  rewrite Han, Hcv, Hctx.
  rewrite run_bind. unfold ret at 1. cbv beta iota.
  rewrite run_bind; unfold gets at 1; cbv beta iota.
  rewrite run_bind.
  destruct (negb (Qle_bool (fst (rect (world s))) 0)
            && negb (Qle_bool (snd (rect (world s))) 0)).
  - destruct (negb (Qeq_bool (inject_Z (cv_width c)) (fst (rect (world s))))
              || negb (Qeq_bool (inject_Z (cv_height c)) (snd (rect (world s))))).
    + rewrite run_bind. unfold modify_this at 1, ret at 1. cbv beta iota.
      eexists _, _. split; [reflexivity|]. repeat split; try reflexivity; exact Hctx.
    + unfold ret at 1. cbv beta iota.
      exists c, s. repeat split; try reflexivity; assumption.
  - unfold ret at 1. cbv beta iota.
    exists c, s. repeat split; try reflexivity; assumption.
Qed.

(** The end of a tick: the next frame is requested and its handle kept. *)
Definition after_request (s : State) : State :=
  exec (id <- requestAnimationFrame;; modify_this (set_animationFrameId (Some id))) s.

(** The canvas calls of [renderBackground] when it completes. *)
Definition background_calls (s : State) (WIDTH HEIGHT : Number) : list CanvasOp :=
  let opacity := backgroundOpacity (this s) in
  let primary := primaryColor (config (this s)) in
  let secondary := secondaryColor (config (this s)) in
  [ SetFillStyle (Solid (Css (backgroundColor (config (this s)))));
    FillRect (num 0) (num 0) WIDTH HEIGHT ]
  ++ match backgroundImageCanvas (this s) with
     | Some _ =>
         [ Save; SetGlobalAlpha (image_overlay_alpha opacity);
           DrawImage (num 0) (num 0) WIDTH HEIGHT; Restore ]
     | None =>
         if num_gt opacity (num 0)
         then
           [ Save; SetGlobalAlpha opacity;
             SetFillStyle (Grad
               (with_stop (num 1) (Css "transparent")
                  (with_stop (num 0) (hexToRgba primary (Fin (35 # 100)))
                     (mkGradient
                        [ num_mul WIDTH (Fin (3 # 10)); num_mul HEIGHT (Fin (3 # 10)); num 0;
                          num_mul WIDTH (Fin (3 # 10)); num_mul HEIGHT (Fin (3 # 10));
                          Math_max WIDTH HEIGHT ] []))));
             FillRect (num 0) (num 0) WIDTH HEIGHT;
             SetFillStyle (Grad
               (with_stop (num 1) (Css "transparent")
                  (with_stop (num 0) (hexToRgba secondary (Fin (15 # 100)))
                     (mkGradient [num 0; num 0; WIDTH; HEIGHT] []))));
             FillRect (num 0) (num 0) WIDTH HEIGHT;
             Restore ]
         else []
     end.

(** Whether [renderBackground] can paint: with an image, or without overlay,
    or when [hexToRgba] turns the two configured colours into colours. *)
Definition background_paintable (s : State) : bool :=
  non_null (backgroundImageCanvas (this s))
  || negb (num_gt (backgroundOpacity (this s)) (num 0))
  || color_parses (world s) (hexToRgba (primaryColor (config (this s))) (Fin (35 # 100)))
     && color_parses (world s) (hexToRgba (secondaryColor (config (this s))) (Fin (15 # 100))).

Lemma num_lt_nonneg (z : Z) : 0 <= z -> num_lt (num z) (num 0) = false.
Proof.
  intros Hz. unfold num_lt, num, num_compare.
  destruct (Qcompare_spec (inject_Z z) (inject_Z 0)) as [E|L|G]; try reflexivity.
  rewrite <- Zlt_Qlt in L. lia.
Qed.

Lemma Math_max_num (w h : Z) : Math_max (num w) (num h) = num (Z.max w h).
Proof.
  unfold Math_max, num, num_compare.
  destruct (Qcompare_spec (inject_Z w) (inject_Z h)) as [E|L|G].
  - destruct (inject_Z_injective w h) as [Hinj _]. apply Hinj in E.
    subst. now rewrite Z.max_id.
  - rewrite <- Zlt_Qlt in L. now rewrite Z.max_r by lia.
  - rewrite <- Zlt_Qlt in G. now rewrite Z.max_l by lia.
Qed.

Lemma createRadialGradient_background (w h : Z) (s : State) :
  ctx (this s) = true -> 0 <= w -> 0 <= h ->
  createRadialGradient
    (num_mul (num w) (Fin (3 # 10))) (num_mul (num h) (Fin (3 # 10))) (num 0)
    (num_mul (num w) (Fin (3 # 10))) (num_mul (num h) (Fin (3 # 10)))
    (Math_max (num w) (num h)) s
  = (Normal (mkGradient
               [ num_mul (num w) (Fin (3 # 10)); num_mul (num h) (Fin (3 # 10)); num 0;
                 num_mul (num w) (Fin (3 # 10)); num_mul (num h) (Fin (3 # 10));
                 Math_max (num w) (num h) ] []), s).
Proof.
  intros Hctx Hw Hh. unfold createRadialGradient. rewrite Hctx. cbn [negb].
  rewrite Math_max_num.
  replace (forallb is_finite _) with true by reflexivity. cbn [negb].
  rewrite (num_lt_nonneg (Z.max w h)) by lia.
  replace (num_lt (num 0) (num 0)) with false by reflexivity.
  reflexivity.
Qed.

Lemma createLinearGradient_background (w h : Z) (s : State) :
  ctx (this s) = true ->
  createLinearGradient (num 0) (num 0) (num w) (num h) s
  = (Normal (mkGradient [num 0; num 0; num w; num h] []), s).
Proof. intros Hctx. unfold createLinearGradient. rewrite Hctx. reflexivity. Qed.

(** [renderBackground] on a canvas of [w] by [h] pixels: it completes when the
    background is paintable, and otherwise throws at [addColorStop], after the
    canvas has been filled with the background colour. *)
Lemma renderBackground_paints (w h : Z) (s : State) :
  ctx (this s) = true -> 0 <= w -> 0 <= h ->
  if background_paintable s
  then renderBackground (num w) (num h) s
       = (Normal tt, paint (background_calls s (num w) (num h)) s)
  else exists ops,
         renderBackground (num w) (num h) s
         = (Throw SyntaxError,
            paint ([ SetFillStyle (Solid (Css (backgroundColor (config (this s)))));
                     FillRect (num 0) (num 0) (num w) (num h) ] ++ ops) s).
Proof.
  intros Hctx Hw Hh. unfold background_paintable, background_calls, renderBackground.
  rewrite run_bind_gets, run_bind, ctx_call_ok by exact Hctx.
  rewrite run_bind, ctx_call_ok by exact Hctx.
  rewrite run_bind_gets, run_bind_gets, !this_paint.
  destruct (backgroundImageCanvas (this s)) as [img|]; cbn [non_null orb].
  - rewrite run_bind, ctx_call_ok by exact Hctx.
    rewrite run_bind, ctx_call_ok by exact Hctx.
    rewrite run_bind, ctx_call_ok by exact Hctx.
    rewrite ctx_call_ok by exact Hctx.
    now rewrite !paint_paint.
  - destruct (num_gt (backgroundOpacity (this s)) (num 0)); cbn [negb orb].
    2: { unfold ret. now rewrite !paint_paint. }
    rewrite run_bind, ctx_call_ok by exact Hctx.
    rewrite run_bind, ctx_call_ok by exact Hctx.
    rewrite run_bind_gets, run_bind_gets, !this_paint.
    rewrite run_bind, createRadialGradient_background by assumption.
    rewrite run_bind, addColorStop_run, !color_parses_paint by now left.
    destruct (color_parses (world s) (hexToRgba (primaryColor (config (this s))) _));
      cbn [andb].
    2: { eexists. rewrite !paint_paint. reflexivity. }
    rewrite run_bind, addColorStop_run by now right.
    replace (color_parses _ (Css "transparent")) with true by reflexivity.
    rewrite run_bind, ctx_call_ok by exact Hctx.
    rewrite run_bind, ctx_call_ok by exact Hctx.
    rewrite run_bind, createLinearGradient_background by exact Hctx.
    rewrite run_bind, addColorStop_run, !color_parses_paint by now left.
    destruct (color_parses (world s) (hexToRgba (secondaryColor (config (this s))) _)).
    2: { eexists. rewrite !paint_paint. reflexivity. }
    rewrite run_bind, addColorStop_run by now right.
    replace (color_parses _ (Css "transparent")) with true by reflexivity.
    rewrite run_bind, ctx_call_ok by exact Hctx.
    rewrite run_bind, ctx_call_ok by exact Hctx.
    rewrite ctx_call_ok by exact Hctx.
    now rewrite !paint_paint.
Qed.

(** The renderers on a drawing context: what makes them complete. *)
Lemma drawWave_main_completes (remaining : nat) (i : Z) (x : Number) (dataArray : list Z)
    (HEIGHT sliceWidth : Number) (s : State) :
  ctx (this s) = true ->
  exists ops,
    drawWave_main remaining i x dataArray HEIGHT sliceWidth s = (Normal tt, paint ops s).
Proof.
  revert i x s. induction remaining as [|n IH]; intros i x s Hctx.
  - exists []. simpl. now rewrite paint_nil.
  - cbn [drawWave_main]. rewrite run_bind.
    destruct (i =? 0); rewrite ctx_call_ok by exact Hctx;
      match goal with
      | |- context [drawWave_main n ?j ?y _ _ _ (paint ?op s)] =>
          destruct (IH j y (paint op s) Hctx) as [ops ->];
          exists (op ++ ops); now rewrite paint_paint
      end.
Qed.

Lemma drawWave_aux_completes (remaining : nat) (i : Z) (x : Number) (dataArray : list Z)
    (HEIGHT sliceWidth : Number) (s : State) :
  ctx (this s) = true ->
  exists ops,
    drawWave_aux remaining i x dataArray HEIGHT sliceWidth s = (Normal tt, paint ops s).
Proof.
  revert i x s. induction remaining as [|n IH]; intros i x s Hctx.
  - exists []. simpl. now rewrite paint_nil.
  - cbn [drawWave_aux]. rewrite run_bind.
    destruct (i =? 0); rewrite ctx_call_ok by exact Hctx;
      match goal with
      | |- context [drawWave_aux n ?j ?y _ _ _ (paint ?op s)] =>
          destruct (IH j y (paint op s) Hctx) as [ops ->];
          exists (op ++ ops); now rewrite paint_paint
      end.
Qed.

Lemma drawWave_completes (a : AnalyserNode) (d : list Z) (WIDTH HEIGHT : Number) (n : Z)
    (s : State) :
  ctx (this s) = true ->
  analyser (this s) = Some a ->
  exists ops, drawWave d WIDTH HEIGHT n s = (Normal tt, paint ops s).
Proof.
  intros Hctx Han. unfold drawWave.
  rewrite run_bind. unfold getByteTimeDomainData at 1. rewrite Han.
  rewrite run_bind_gets, run_bind_gets.
  rewrite run_bind, ctx_call_ok by exact Hctx.
  rewrite run_bind, ctx_call_ok by exact Hctx.
  rewrite run_bind, ctx_call_ok by exact Hctx.
  rewrite run_bind.
  match goal with
  | |- context [drawWave_main ?r ?i ?x ?dd ?H ?sw ?st] =>
      destruct (drawWave_main_completes r i x dd H sw st Hctx) as [ops1 ->]
  end.
  rewrite run_bind, ctx_call_ok by exact Hctx.
  rewrite run_bind, ctx_call_ok by exact Hctx.
  rewrite run_bind, ctx_call_ok by exact Hctx.
  rewrite run_bind, ctx_call_ok by exact Hctx.
  rewrite run_bind, ctx_call_ok by exact Hctx.
  rewrite run_bind.
  match goal with
  | |- context [drawWave_aux ?r ?i ?x ?dd ?H ?sw ?st] =>
      destruct (drawWave_aux_completes r i x dd H sw st Hctx) as [ops2 ->]
  end.
  rewrite ctx_call_ok by exact Hctx.
  eexists. rewrite !paint_paint. reflexivity.
Qed.

Lemma drawBars_loop_completes (remaining : nat) (i : Z) (x : Number) (dataArray : list Z)
    (WIDTH : Number) (h : Z) (barWidth : Number) (primary secondary : string) (s : State) :
  ctx (this s) = true ->
  color_parses (world s) (Css primary) = true ->
  color_parses (world s) (Css secondary) = true ->
  (forall k, i <= k < i + Z.of_nat remaining -> exists b, byte_at dataArray k = num b) ->
  exists ops,
    drawBars_loop remaining i x dataArray WIDTH (num h) barWidth primary secondary s
    = (Normal tt, paint ops s).
Proof.
  revert i x s. induction remaining as [|n IH]; intros i x s Hctx Hp Hq Hdata.
  - exists []. simpl. now rewrite paint_nil.
  - cbn [drawBars_loop]. destruct (Hdata i ltac:(lia)) as [b ->].
    rewrite run_bind. unfold createLinearGradient at 1. rewrite Hctx.
    replace (forallb is_finite _) with true by reflexivity. cbn [negb].
    rewrite run_bind, addColorStop_run, Hq by now left.
    rewrite run_bind, addColorStop_run, Hp by now right.
    rewrite run_bind, ctx_call_ok by exact Hctx.
    rewrite run_bind, ctx_call_ok by exact Hctx.
    destruct (num_gt _ WIDTH).
    + eexists. unfold ret. rewrite paint_paint. reflexivity.
    + match goal with
      | |- context [drawBars_loop n ?j ?y _ _ _ _ _ _ ?st] =>
          destruct (IH j y st) as [ops ->];
          [exact Hctx | now rewrite color_parses_paint | now rewrite color_parses_paint
          | intros k Hk; apply Hdata; lia | ]
      end.
      eexists. rewrite !paint_paint. reflexivity.
Qed.

Lemma drawBars_completes (a : AnalyserNode) (WIDTH : Number) (h : Z) (s : State) :
  ctx (this s) = true ->
  analyser (this s) = Some a ->
  frequencyBinCount a < 1
  \/ (color_parses (world s) (Css (primaryColor (config (this s)))) = true
      /\ color_parses (world s) (Css (secondaryColor (config (this s)))) = true) ->
  exists ops,
    drawBars (draw_dataArray a) WIDTH (num h) (frequencyBinCount a) s
    = (Normal tt, paint ops s).
Proof.
  intros Hctx Han Hcase. unfold drawBars.
  rewrite run_bind. unfold getByteFrequencyData at 1. rewrite Han.
  rewrite run_bind_gets, run_bind_gets, rounds_one.
  destruct Hcase as [Hn|[Hp Hq]].
  - replace (Z.to_nat (frequencyBinCount a)) with 0%nat by lia.
    exists []. simpl. now rewrite paint_nil.
  - apply drawBars_loop_completes; try assumption.
    intros k Hk. eexists. apply byte_at_fill; try lia.
    unfold draw_dataArray. rewrite new_Uint8Array_length. lia.
Qed.

Lemma arc_radius_negative (w h : Z) :
  Z.min w h < 40 ->
  num_lt (num_sub (num_div (Math_min (num w) (num h)) (num 4)) (num 10)) (num 0) = true.
Proof.
  intros Hmin. rewrite Math_min_num.
  replace (num_div (num (Z.min w h)) (num 4))
    with (Fin (Qred (inject_Z (Z.min w h) / inject_Z 4))) by reflexivity.
  unfold num_sub, num_add, num_neg, num, num_lt, num_compare.
  assert (Hq : (inject_Z (Z.min w h) < 40)%Q)
    by (change 40%Q with (inject_Z 40); rewrite <- Zlt_Qlt; exact Hmin).
  assert (Hd : (inject_Z (Z.min w h) / 4 == inject_Z (Z.min w h) * (1 # 4))%Q)
    by (unfold Qdiv; reflexivity).
  destruct (Qcompare_spec
              (Qred (Qred (inject_Z (Z.min w h) / inject_Z 4) + Qred (- inject_Z 10)))
              (inject_Z 0)) as [E|L|G]; try reflexivity; exfalso.
  - rewrite !Qred_correct in E.
    change (inject_Z 4) with 4%Q in E. change (inject_Z 10) with 10%Q in E.
    change (inject_Z 0) with 0%Q in E. rewrite Hd in E. lra.
  - rewrite !Qred_correct in G.
    change (inject_Z 4) with 4%Q in G. change (inject_Z 10) with 10%Q in G.
    change (inject_Z 0) with 0%Q in G. rewrite Hd in G. lra.
Qed.

Lemma drawCircular_completes (a : AnalyserNode) (w h : Z) (s : State) :
  ctx (this s) = true ->
  analyser (this s) = Some a ->
  40 <= Z.min w h ->
  exists ops,
    drawCircular (draw_dataArray a) (num w) (num h) (frequencyBinCount a) s
    = (Normal tt, paint ops s).
Proof.
  intros Hctx Han Hmin. eexists. unfold drawCircular.
  rewrite run_bind. unfold getByteFrequencyData at 1. rewrite Han.
  rewrite run_bind_gets, run_bind_gets. cbv zeta.
  rewrite run_bind, ctx_call_ok by exact Hctx.
  rewrite run_bind. unfold ctx_arc at 1. rewrite arc_radius_ok by exact Hmin.
  rewrite ctx_call_ok by exact Hctx.
  rewrite run_bind, ctx_call_ok by exact Hctx.
  rewrite run_bind, ctx_call_ok by exact Hctx.
  rewrite drawCircular_loop_ok by exact Hctx.
  rewrite !paint_paint. reflexivity.
Qed.

(** On a canvas less than 40 pixels wide or high the disc of the circular
    renderer has a negative radius, and [ctx.arc] throws. *)
Lemma drawCircular_throws (a : AnalyserNode) (w h : Z) (s : State) :
  ctx (this s) = true ->
  analyser (this s) = Some a ->
  Z.min w h < 40 ->
  drawCircular (draw_dataArray a) (num w) (num h) (frequencyBinCount a) s
  = (Throw IndexSizeError, paint [BeginPath] s).
Proof.
  intros Hctx Han Hmin. unfold drawCircular.
  rewrite run_bind. unfold getByteFrequencyData at 1. rewrite Han.
  rewrite run_bind_gets, run_bind_gets. cbv zeta.
  rewrite run_bind, ctx_call_ok by exact Hctx.
  rewrite run_bind. unfold ctx_arc at 1. rewrite arc_radius_negative by exact Hmin.
  rewrite this_paint, Hctx. reflexivity.
Qed.

Lemma after_request_frame (s : State) :
  frames (world (after_request s)) = frames (world s) ++ [frameCounter (world s) + 1]
  /\ animationFrameId (this (after_request s)) = Some (frameCounter (world s) + 1)
  /\ drawn (world (after_request s)) = drawn (world s).
Proof. repeat split. Qed.

Lemma run_request (s : State) :
  (id <- requestAnimationFrame;; modify_this (set_animationFrameId (Some id))) s
  = (Normal tt, after_request s).
Proof. reflexivity. Qed.

(** A tick, from the background on, on a canvas of the size [c]. *)
Lemma draw_frame_runs (a : AnalyserNode) (c : Canvas) (s : State) :
  ctx (this s) = true ->
  analyser (this s) = Some a ->
  0 <= cv_width c -> 0 <= cv_height c ->
  let WIDTH := num (cv_width c) in
  let HEIGHT := num (cv_height c) in
  let n := frequencyBinCount a in
  let data := draw_dataArray a in
  let primary := Css (primaryColor (config (this s))) in
  let secondary := Css (secondaryColor (config (this s))) in
  let m := mode (config (this s)) in
  let s1 := paint (background_calls s WIDTH HEIGHT) s in
  let tick := function_body (draw_frame a c) s in
  (background_paintable s = false ->
   exists ops,
     tick = (Throw SyntaxError,
             paint ([ SetFillStyle (Solid (Css (backgroundColor (config (this s)))));
                      FillRect (num 0) (num 0) WIDTH HEIGHT ] ++ ops) s))
  /\ (background_paintable s = true ->
      renderBackground WIDTH HEIGHT s = (Normal tt, s1)
      /\ (m = WAVE ->
          exists ops,
            drawWave data WIDTH HEIGHT n s1 = (Normal tt, paint ops s1)
            /\ tick = (Normal tt, after_request (paint ops s1)))
      /\ (m = BARS ->
          n < 1 \/ (color_parses (world s) primary = true
                    /\ color_parses (world s) secondary = true) ->
          exists ops,
            drawBars data WIDTH HEIGHT n s1 = (Normal tt, paint ops s1)
            /\ tick = (Normal tt, after_request (paint ops s1)))
      /\ (m = BARS -> 1 <= n ->
          color_parses (world s) primary && color_parses (world s) secondary = false ->
          tick = (Throw SyntaxError, s1))
      /\ (m = CIRCULAR -> 40 <= Z.min (cv_width c) (cv_height c) ->
          exists ops,
            drawCircular data WIDTH HEIGHT n s1 = (Normal tt, paint ops s1)
            /\ tick = (Normal tt, after_request (paint ops s1)))
      /\ (m = CIRCULAR -> Z.min (cv_width c) (cv_height c) < 40 ->
          tick = (Throw IndexSizeError, paint [BeginPath] s1))
      /\ (forall x, m = OtherMode x -> tick = (Normal tt, after_request s1))).
Proof.
  intros Hctx Han Hw Hh. cbv zeta.
  pose proof (renderBackground_paints (cv_width c) (cv_height c) s Hctx Hw Hh) as Hbg.
  unfold function_body, draw_frame. rewrite run_bind.
  destruct (background_paintable s).
  - split; [discriminate|]. intros _. rewrite Hbg.
    split; [reflexivity|].
    set (s1 := paint (background_calls s (num (cv_width c)) (num (cv_height c))) s).
    assert (Hctx1 : ctx (this s1) = true) by exact Hctx.
    assert (Han1 : analyser (this s1) = Some a) by exact Han.
    rewrite run_bind_gets.
    change (mode (config (this s1))) with (mode (config (this s))).
    split; [|split; [|split; [|split; [|split]]]].
    + intros ->. 
      destruct (drawWave_completes a (draw_dataArray a) (num (cv_width c))
                  (num (cv_height c)) (frequencyBinCount a) s1 Hctx1 Han1) as [ops Hops].
      exists ops. split; [exact Hops|].
      rewrite run_bind, Hops, run_request. reflexivity.
    + intros -> Hcase.
      destruct (drawBars_completes a (num (cv_width c)) (cv_height c) s1 Hctx1 Han1)
        as [ops Hops].
      { destruct Hcase as [Hn|[Hp Hq]]; [now left|right].
        unfold s1. rewrite !color_parses_paint. now split. }
      exists ops. split; [exact Hops|].
      rewrite run_bind, Hops, run_request. reflexivity.
    + intros -> Hn Hcolors.
      assert (Hcolors1 :
                color_parses (world s1) (Css (primaryColor (config (this s1))))
                && color_parses (world s1) (Css (secondaryColor (config (this s1))))
                = false)
        by (unfold s1; rewrite !color_parses_paint; exact Hcolors).
      rewrite run_bind,
        (drawBars_unparsable a (num (cv_width c)) (cv_height c) s1 Hctx1 Han1 Hn Hcolors1).
      reflexivity.
    + intros -> Hmin.
      destruct (drawCircular_completes a (cv_width c) (cv_height c) s1 Hctx1 Han1 Hmin)
        as [ops Hops].
      exists ops. split; [exact Hops|].
      rewrite run_bind, Hops, run_request. reflexivity.
    + intros -> Hmin.
      rewrite run_bind,
        (drawCircular_throws a (cv_width c) (cv_height c) s1 Hctx1 Han1 Hmin).
      reflexivity.
    + intros x ->. rewrite run_bind. unfold ret at 1. rewrite run_request. reflexivity.
  - split; [|discriminate]. intros _. destruct Hbg as [ops ->].
    exists ops. reflexivity.
Qed.

(** C8, as the code has it.  A tick that finds the drawing context, the
    analyser and the canvas always paints: the first canvas calls of the tick
    fill the whole canvas, at its size after the tick, with the background
    colour.  When the on-screen rectangle of the canvas has no width or no
    height, the tick skips the resize and nothing else: the canvas keeps its
    size, also a size of zero pixels, the background is painted over it and the
    renderer of the current mode is called.  The next frame is requested when
    both complete.  The background fails, with a [SyntaxError], only when it
    has to draw its gradient overlay from a colour that [hexToRgba] cannot
    read.  After the background, the Wave renderer and an unknown mode always
    complete; the Bars renderer completes when the browser can parse the two
    configured colours (or there is no bin to draw) and throws a [SyntaxError]
    otherwise; the Circular renderer completes on a canvas at least 40 pixels
    wide and high, and on a smaller one, a canvas of zero width included,
    [ctx.arc] throws an [IndexSizeError]: then no frame is requested and the
    loop ends. *)
Theorem draw_skips_only_the_resize (a : AnalyserNode) (c : Canvas) (s : State)
    (Hctx : ctx (this s) = true)
    (Han : analyser (this s) = Some a)
    (Hcv : canvas (this s) = Some c) :
  (exists c' ops,
      canvas (this (exec draw s)) = Some c'
      /\ drawn_since s (exec draw s)
         = [ SetFillStyle (Solid (Css (backgroundColor (config (this s)))));
             FillRect (num 0) (num 0) (num (cv_width c')) (num (cv_height c')) ] ++ ops)
  /\ (Qle_bool (fst (rect (world s))) 0 || Qle_bool (snd (rect (world s))) 0 = true ->
      0 <= cv_width c -> 0 <= cv_height c ->
      let WIDTH := num (cv_width c) in
      let HEIGHT := num (cv_height c) in
      let n := frequencyBinCount a in
      let data := draw_dataArray a in
      let primary := Css (primaryColor (config (this s))) in
      let secondary := Css (secondaryColor (config (this s))) in
      let m := mode (config (this s)) in
      let s1 := paint (background_calls s WIDTH HEIGHT) s in
      canvas (this (exec draw s)) = Some c
      /\ (background_paintable s = false ->
          exists ops,
            draw s
            = (Throw SyntaxError,
               paint ([ SetFillStyle (Solid (Css (backgroundColor (config (this s)))));
                        FillRect (num 0) (num 0) WIDTH HEIGHT ] ++ ops) s))
      /\ (background_paintable s = true ->
          renderBackground WIDTH HEIGHT s = (Normal tt, s1)
          /\ (m = WAVE ->
              exists ops,
                drawWave data WIDTH HEIGHT n s1 = (Normal tt, paint ops s1)
                /\ draw s = (Normal tt, after_request (paint ops s1)))
          /\ (m = BARS ->
              n < 1 \/ (color_parses (world s) primary = true
                        /\ color_parses (world s) secondary = true) ->
              exists ops,
                drawBars data WIDTH HEIGHT n s1 = (Normal tt, paint ops s1)
                /\ draw s = (Normal tt, after_request (paint ops s1)))
          /\ (m = BARS -> 1 <= n ->
              color_parses (world s) primary && color_parses (world s) secondary = false ->
              draw s = (Throw SyntaxError, s1))
          /\ (m = CIRCULAR -> 40 <= Z.min (cv_width c) (cv_height c) ->
              exists ops,
                drawCircular data WIDTH HEIGHT n s1 = (Normal tt, paint ops s1)
                /\ draw s = (Normal tt, after_request (paint ops s1)))
          /\ (m = CIRCULAR -> Z.min (cv_width c) (cv_height c) < 40 ->
              draw s = (Throw IndexSizeError, paint [BeginPath] s1))
          /\ (forall x, m = OtherMode x -> draw s = (Normal tt, after_request s1)))
      /\ (forall s',
            frames (world (after_request s'))
            = frames (world s') ++ [frameCounter (world s') + 1]
            /\ animationFrameId (this (after_request s'))
               = Some (frameCounter (world s') + 1))).
Proof.
  assert (Hframe : forall c1 s1,
            ctx (this s1) = true -> canvas (this s1) = Some c1 ->
            drawn (world s1) = drawn (world s) ->
            backgroundColor (config (this s1)) = backgroundColor (config (this s)) ->
            exists ops,
              canvas (this (exec (function_body (draw_frame a c1)) s1)) = Some c1
              /\ drawn_since s (exec (function_body (draw_frame a c1)) s1)
                 = [ SetFillStyle (Solid (Css (backgroundColor (config (this s)))));
                     FillRect (num 0) (num 0) (num (cv_width c1)) (num (cv_height c1)) ]
                     ++ ops).
  { intros c1 s1 Hctx1 Hcv1 Hd Hbg.
    destruct (draw_frame_paints a c1 s1 Hctx1) as (Hc & _ & ops & Hops).
    exists ops. split; [now rewrite Hc|].
    unfold drawn_since. rewrite Hops, drawn_paint, Hd, Hbg.
    rewrite <- app_assoc, skipn_app, skipn_all, Nat.sub_diag. reflexivity. }
  split.
  - destruct (draw_reaches_frame a c s Hctx Han Hcv) as (c1 & s1 & Hdraw & H1 & H2 & H3 & H4).
    destruct (Hframe c1 s1 H1 H2 H3 H4) as (ops & Hc1 & Hd1).
    exists c1, ops. unfold exec in *. rewrite Hdraw. split; [exact Hc1|exact Hd1].
  - intros Hrect Hw Hh. cbv zeta.
    split.
    { unfold exec. rewrite (draw_without_resize a c s) by assumption.
      destruct (draw_frame_paints a c s Hctx) as (Hc & _). unfold exec in Hc.
      now rewrite Hc. }
    rewrite (draw_without_resize a c s) by assumption.
    pose proof (draw_frame_runs a c s Hctx Han Hw Hh) as Hruns. cbv zeta in Hruns.
    destruct Hruns as [Hfails Hpaints].
    split; [exact Hfails|]. split; [exact Hpaints|].
    intros s'. destruct (after_request_frame s') as (Hf & Hh' & _). now split.
Qed.

(** The example visualizer after a tick that found its canvas half a pixel
    wide on screen: the canvas is now zero pixels wide. *)
Definition example_narrow : State :=
  step (FrameFires 1) (step (LayoutBecomes (1 # 2, 200 # 1)%Q) example_playing).

(** The narrow example after its canvas has lost its place on screen. *)
Definition example_hidden : State := step (LayoutBecomes (0, 0)%Q) example_narrow.

Lemma draw_skips_only_the_resize_witness :
  canvas (this example_hidden) = Some (mkCanvas 0 200)
  /\ mode (config (this example_hidden)) = BARS
  /\ canvas (this (exec draw example_hidden)) = Some (mkCanvas 0 200)
  /\ exists ops,
       draw example_hidden
       = (Normal tt,
          after_request
            (paint ops
               (paint (background_calls example_hidden (num 0) (num 200))
                  example_hidden))).
Proof.
  assert (Hctx : ctx (this example_hidden) = true) by (vm_compute; reflexivity).
  assert (Han : analyser (this example_hidden) = Some example_analyser)
    by (vm_compute; reflexivity).
  assert (Hcv : canvas (this example_hidden) = Some (mkCanvas 0 200))
    by (vm_compute; reflexivity).
  assert (Hrect : Qle_bool (fst (rect (world example_hidden))) 0
                  || Qle_bool (snd (rect (world example_hidden))) 0 = true)
    by (vm_compute; reflexivity).
  assert (Hmode : mode (config (this example_hidden)) = BARS) by (vm_compute; reflexivity).
  assert (Hpaintable : background_paintable example_hidden = true)
    by (vm_compute; reflexivity).
  assert (Hcolors : frequencyBinCount example_analyser < 1
                    \/ (color_parses (world example_hidden)
                          (Css (primaryColor (config (this example_hidden)))) = true
                        /\ color_parses (world example_hidden)
                             (Css (secondaryColor (config (this example_hidden)))) = true))
    by (right; split; vm_compute; reflexivity).
  split; [exact Hcv|]. split; [exact Hmode|].
  destruct (draw_skips_only_the_resize example_analyser (mkCanvas 0 200) example_hidden
              Hctx Han Hcv) as [_ Hzero].
  assert (Hw : 0 <= cv_width (mkCanvas 0 200)) by (simpl; lia).
  assert (Hh : 0 <= cv_height (mkCanvas 0 200)) by (simpl; lia).
  destruct (Hzero Hrect Hw Hh) as (Hkept & _ & Hpaints & _).
  split; [exact Hkept|].
  destruct (Hpaints Hpaintable) as (_ & _ & Hbars & _).
  destruct (Hbars Hmode Hcolors) as (ops & _ & Hdraw).
  exists ops. exact Hdraw.
Defined.

(** C8, as stated, fails: on a canvas that is zero pixels wide the tick
    still fills the background, paints the overlay and calls the Bars
    renderer (eleven canvas calls), and requests the next frame. *)
Lemma zero_width_canvas_is_drawn :
  canvas (this example_narrow) = Some (mkCanvas 0 200)
  /\ frames (world example_narrow) = [2]
  /\ firstn 2 (drawn_since example_narrow (step (FrameFires 2) example_narrow))
     = [ SetFillStyle (Solid (Css "#09090b"));
         FillRect (num 0) (num 0) (num 0) (num 200) ]
  /\ nth_error (drawn_since example_narrow (step (FrameFires 2) example_narrow)) 10
     = Some (FillRect (num 0) (num 200) (num 0) (num 0))
  /\ length (drawn_since example_narrow (step (FrameFires 2) example_narrow)) = 11%nat
  /\ canvas (this (step (FrameFires 2) example_narrow)) = Some (mkCanvas 0 200).
Proof. repeat split; vm_compute; reflexivity. Qed.

(** ** Teardown and the player *)

Lemma stopVisualization_handle (s : State) :
  handle_truthy (animationFrameId (this (exec stopVisualization s))) = false
  /\ world (exec stopVisualization s)
     = match animationFrameId (this s) with
       | Some id =>
           if negb (id =? 0)
           then set_frames (List.filter (fun j => negb (j =? id)) (frames (world s))) (world s)
           else world s
       | None => world s
       end
  /\ (forall v, this (exec stopVisualization s) = v ->
      set_animationFrameId None v = set_animationFrameId None (this s)).
Proof.
  unfold exec, stopVisualization, bind, gets, cancelAnimationFrame, modify_world,
    modify_this, ret.
  destruct (animationFrameId (this s)) as [id|] eqn:E; simpl.
  - destruct (id =? 0) eqn:Ez; simpl.
    + rewrite E. simpl. rewrite Ez. repeat split. intros v <-. reflexivity.
    + repeat split. intros v <-. reflexivity.
  - rewrite E. repeat split. intros v <-. reflexivity.
Qed.

(** C6, as the code has it.  On an official node (and on any node with no
    bound element) [cleanup] leaves every audio element as it is: it does not
    pause it, does not seek and does not change its source.  It cancels the
    pending frame, disconnects the source node, closes the audio context and
    clears its references. *)
Theorem cleanup_leaves_playback (s : State)
    (Hofficial : isOfficialNode (this s) = true \/ audioElement (this s) = None) :
  let s' := exec cleanup s in
  elements (world s') = elements (world s)
  /\ source (this s') = None
  /\ analyser (this s') = None
  /\ isInitialized (this s') = false
  /\ audioElement (this s') = None
  /\ handle_truthy (animationFrameId (this s')) = false
  /\ (forall c, audioContext (this s) = Some c ->
        default closed (contexts (world s') !! c) = closed)
  /\ (forall id n, source (this s) = Some id -> sources (world s) !! id = Some n ->
        sources (world s') !! id = Some (mkSourceNode (sn_context n) (sn_element n) [])).
Proof.
  cbv zeta. destruct s as [v w].
  destruct v as [cv cx ac an ae so af ini off cfg bo bi en pm po pe].
  simpl in Hofficial.
  assert (Hbranch : off = true \/ (off = false /\ ae = None)).
  { destruct off; [now left|right]. destruct Hofficial; [discriminate|now split]. }
  clear Hofficial.
  unfold exec, cleanup, stopVisualization, try_catch, source_disconnect, context_state,
    context_close, cancelAnimationFrame, bind, gets, modify_world, modify_this, ret.
  cbn [this world isOfficialNode audioElement source audioContext animationFrameId].
  destruct af as [id|]; [destruct (id =? 0) eqn:Ez|];
    (destruct so as [sid|]; [destruct (sources w !! sid) as [n0|] eqn:Esrc|]);
    (destruct ac as [c|]; [destruct (contexts w !! c) as [[| |]|] eqn:Ectx|]);
    destruct Hbranch as [-> | [-> ->]];
    do 4 (cbn -[lookup insert]; rewrite ?Esrc, ?Ectx, ?Ez).
  all: repeat split; try reflexivity; try discriminate.
  all: try (intros c0 Hc0; inversion Hc0; subst c0;
            rewrite ?lookup_insert_eq, ?Ectx; reflexivity).
  all: try (intros id0 n Hid Hn; inversion Hid; subst id0;
            rewrite ?lookup_insert_eq; congruence).
Qed.

Lemma cleanup_leaves_playback_witness :
  (isOfficialNode (this example_playing) = true \/ audioElement (this example_playing) = None)
  /\ elements (world (exec cleanup example_playing)) = elements (world example_playing)
  /\ audioElement (this (exec cleanup example_playing)) = None.
Proof.
  assert (H : isOfficialNode (this example_playing) = true
              \/ audioElement (this example_playing) = None)
    by (left; vm_compute; reflexivity).
  split; [exact H|].
  destruct (cleanup_leaves_playback example_playing H) as (He & _ & _ & _ & Ha & _).
  split; [exact He|exact Ha].
Defined.

(** A visualizer on a node that is not an official one, attached to the
    playing element of the node's player. *)
Definition custom_attached : State :=
  step (CallHandleAudioChange (Some "song.mp3"))
    (step (CallCreateCanvasWidget true)
       (mkState (constructor false None None None) example_world)).

(** C6, as stated, fails off the official nodes: there [cleanup] pauses the
    bound element and empties its source. *)
Lemma cleanup_pauses_custom_node_audio :
  isOfficialNode (this custom_attached) = false
  /\ audioElement (this custom_attached) = Some 0%nat
  /\ (paused <$> elements (world custom_attached) !! 0%nat) = Some false
  /\ (src <$> elements (world custom_attached) !! 0%nat) = Some "song.mp3"
  /\ (paused <$> elements (world (exec cleanup custom_attached)) !! 0%nat) = Some true
  /\ (src <$> elements (world (exec cleanup custom_attached)) !! 0%nat) = Some EmptyString.
Proof. repeat split; vm_compute; reflexivity. Qed.

(** ** The render loop *)

(** What the loop is made of: the pending frame requests, the counter of
    handles and the handle the visualizer remembers. *)
Definition loop_view (s : State) : list Z * Z * option Z :=
  (frames (world s), frameCounter (world s), animationFrameId (this s)).

(** At most one frame request is pending, and it is the one the visualizer
    remembers. *)
Definition one_loop (s : State) : Prop :=
  0 <= frameCounter (world s)
  /\ (frames (world s) = []
      \/ exists id, frames (world s) = [id]
                    /\ animationFrameId (this s) = Some id
                    /\ 0 < id <= frameCounter (world s)).

Definition loop_kept (s s' : State) : Prop := loop_view s' = loop_view s.

Definition loop_safe (s s' : State) : Prop := one_loop s -> one_loop s'.

#[local] Instance loop_kept_preorder : PreOrder loop_kept.
Proof.
  split.
  - intros s. reflexivity.
  - intros s1 s2 s3 H12 H23. unfold loop_kept in *. congruence.
Qed.

#[local] Instance loop_kept_painting : Painting loop_kept.
Proof. split; [tc_solve|]. intros ops s. reflexivity. Qed.

#[local] Instance loop_safe_preorder : PreOrder loop_safe.
Proof.
  split.
  - intros s H. exact H.
  - intros s1 s2 s3 H12 H23 H. auto.
Qed.

Lemma one_loop_view (s s' : State) : loop_view s' = loop_view s -> one_loop s -> one_loop s'.
Proof.
  unfold loop_view, one_loop. intros E. inversion E as [[Hf Hc Hh]].
  rewrite Hf, Hc, Hh. auto.
Qed.

Lemma loop_kept_safe (s s' : State) : loop_kept s s' -> loop_safe s s'.
Proof. intros E H. now apply (one_loop_view s s'). Qed.

#[local] Instance loop_safe_painting : Painting loop_safe.
Proof. split; [tc_solve|]. intros ops s. now apply loop_kept_safe. Qed.

Lemma loop_kept_modify_this (f : Visualizer -> Visualizer) :
  (forall v, animationFrameId (f v) = animationFrameId v) ->
  rel loop_kept (modify_this f).
Proof. intros H s. unfold loop_kept, loop_view, exec, modify_this. simpl. now rewrite H. Qed.

Lemma loop_kept_modify_world (f : World -> World) :
  (forall w, frames (f w) = frames w /\ frameCounter (f w) = frameCounter w) ->
  rel loop_kept (modify_world f).
Proof.
  intros H s. unfold loop_kept, loop_view, exec, modify_world. simpl.
  destruct (H (world s)) as [-> ->]. reflexivity.
Qed.

(** The browser calls that leave the loop alone. *)
Ltac loop_kept_call :=
  let s := fresh "s" in
  intros s; unfold loop_kept, loop_view, exec;
  repeat
    (first
       [ progress
           unfold element, update_element, context_state, context_close, context_resume,
             new_AudioContext, createAnalyser, analyser_set_fftSize,
             analyser_set_smoothingTimeConstant, createMediaElementSource,
             source_disconnect, source_connect_analyser, analyser_connect_destination,
             new_Audio, modify_this, modify_world, gets, bind, ret, throw, when
         | progress cbn [fst snd this world frames frameCounter animationFrameId]
         | match goal with
           | |- context [match ?x with _ => _ end] => destruct x
           | |- context [if ?b then _ else _] => destruct b
           end ]);
  try reflexivity.

Lemma loop_kept_element (e : nat) : rel loop_kept (element e).
Proof. loop_kept_call. Qed.

Lemma loop_kept_update_element (e : nat) (f : AudioElement -> AudioElement) :
  rel loop_kept (update_element e f).
Proof. loop_kept_call. Qed.

Lemma loop_kept_context_state (c : nat) : rel loop_kept (context_state c).
Proof. loop_kept_call. Qed.

Lemma loop_kept_context_close (c : nat) : rel loop_kept (context_close c).
Proof. loop_kept_call. Qed.

Lemma loop_kept_context_resume (c : nat) : rel loop_kept (context_resume c).
Proof. loop_kept_call. Qed.

Lemma loop_kept_new_AudioContext : rel loop_kept new_AudioContext.
Proof. loop_kept_call. Qed.

Lemma loop_kept_createAnalyser (c : nat) : rel loop_kept (createAnalyser c).
Proof. loop_kept_call. Qed.

Lemma loop_kept_analyser_set_fftSize (z : Z) : rel loop_kept (analyser_set_fftSize z).
Proof. loop_kept_call. Qed.

Lemma loop_kept_analyser_set_smoothing (q : Q) :
  rel loop_kept (analyser_set_smoothingTimeConstant q).
Proof. loop_kept_call. Qed.

(** A proof of [rel loop_kept m] for a computation built from such calls. *)
Ltac loop_kept_auto :=
  repeat rel_step;
  first
    [ apply loop_kept_modify_this; intros ?; reflexivity
    | apply loop_kept_modify_world; intros ?;
      repeat match goal with
             | |- context [match ?x with _ => _ end] => destruct x
             end; split; reflexivity
    | apply loop_kept_element
    | apply loop_kept_update_element
    | apply loop_kept_context_state
    | apply loop_kept_context_close
    | apply loop_kept_context_resume
    | apply loop_kept_new_AudioContext
    | apply loop_kept_createAnalyser
    | apply loop_kept_analyser_set_fftSize
    | apply loop_kept_analyser_set_smoothing
    | apply rel_drawPlaceholder; tc_solve
    | idtac ].

Lemma loop_kept_createMediaElementSource (e : nat) :
  rel loop_kept (createMediaElementSource e).
Proof. unfold createMediaElementSource. loop_kept_auto. Qed.

Lemma loop_kept_source_disconnect : rel loop_kept source_disconnect.
Proof. loop_kept_call. Qed.

Lemma loop_kept_source_connect_analyser : rel loop_kept source_connect_analyser.
Proof. loop_kept_call. Qed.

Lemma loop_kept_analyser_connect_destination : rel loop_kept analyser_connect_destination.
Proof. loop_kept_call. Qed.

Lemma loop_kept_new_Audio (url : string) : rel loop_kept (new_Audio url).
Proof. loop_kept_call. Qed.

Lemma loop_kept_getAudioUrl (v : string) : rel loop_kept (getAudioUrl v).
Proof. intros s. unfold exec. now rewrite getAudioUrl_from_parts. Qed.

Lemma stopVisualization_normal (s : State) :
  stopVisualization s = (Normal tt, exec stopVisualization s).
Proof.
  unfold exec, stopVisualization, bind, gets, cancelAnimationFrame, modify_world,
    modify_this, ret.
  destruct (animationFrameId (this s)) as [id|]; [|reflexivity].
  destruct (negb (id =? 0)); reflexivity.
Qed.

(** Stopping leaves no request pending. *)
Lemma stopVisualization_clears (s : State) :
  one_loop s ->
  one_loop (exec stopVisualization s)
  /\ frames (world (exec stopVisualization s)) = []
  /\ frameCounter (world (exec stopVisualization s)) = frameCounter (world s).
Proof.
  intros (Hc & Hf).
  unfold exec, stopVisualization, bind, gets, cancelAnimationFrame, modify_world,
    modify_this, ret, one_loop.
  destruct Hf as [Hf | (id & Hf & Hh & Hid)].
  - destruct (animationFrameId (this s)) as [id|]; [destruct (negb (id =? 0))|];
      simpl; rewrite ?Hf; simpl; auto.
  - rewrite Hh. destruct (Z.eqb_spec id 0) as [->|Hne]; [lia|]. simpl.
    rewrite Hf. simpl. rewrite Z.eqb_refl. simpl. auto.
Qed.

Lemma stopVisualization_safe : rel loop_safe stopVisualization.
Proof. intros s H. now apply stopVisualization_clears. Qed.

(** Stopping twice is stopping once. *)
Lemma stopVisualization_idempotent (s : State) :
  exec stopVisualization (exec stopVisualization s) = exec stopVisualization s.
Proof.
  unfold exec, stopVisualization, bind, gets, cancelAnimationFrame, modify_world,
    modify_this, ret.
  destruct (animationFrameId (this s)) as [id|] eqn:E.
  - destruct (id =? 0) eqn:Ez; simpl.
    + rewrite E. simpl. now rewrite Ez.
    + reflexivity.
  - simpl. now rewrite E.
Qed.

(** A frame request and its recording, taken together. *)
Definition loop_requested (s s' : State) : Prop :=
  loop_view s' = loop_view s
  \/ loop_view s'
     = (frames (world s) ++ [frameCounter (world s) + 1],
        frameCounter (world s) + 1,
        Some (frameCounter (world s) + 1)).

Lemma loop_requested_after_kept {A B : Type} (m : JS A) (k : A -> JS B) :
  rel loop_kept m -> (forall a, rel loop_requested (k a)) ->
  rel loop_requested (bind m k).
Proof.
  intros Hm Hk s. rewrite exec_bind. specialize (Hm s). unfold exec in Hm.
  destruct (m s) as [[a| |e] s1]; simpl in Hm; try (left; exact Hm).
  specialize (Hk a s1). unfold loop_kept, loop_view in Hm. inversion Hm as [[Hf Hc Hh]].
  destruct Hk as [Hk|Hk]; [left|right]; rewrite Hk; unfold loop_view; congruence.
Qed.

Lemma loop_requested_kept {A : Type} (m : JS A) : rel loop_kept m -> rel loop_requested m.
Proof. intros Hm s. left. apply Hm. Qed.

Lemma loop_requested_request :
  rel loop_requested
    (id <- requestAnimationFrame;; modify_this (set_animationFrameId (Some id))).
Proof. intros s. right. reflexivity. Qed.

Lemma draw_frame_requested (a : AnalyserNode) (c : Canvas) :
  rel loop_requested (draw_frame a c).
Proof.
  unfold draw_frame.
  apply loop_requested_after_kept; [apply rel_renderBackground; tc_solve|intros _].
  apply loop_requested_after_kept; [apply rel_gets; tc_solve|intros m].
  apply loop_requested_after_kept; [|intros _; apply loop_requested_request].
  destruct m;
    [ apply rel_drawWave | apply rel_drawBars | apply rel_drawCircular | apply rel_ret ];
    tc_solve.
Qed.

Lemma draw_requested : rel loop_requested draw.
Proof.
  unfold draw. intros s. unfold exec, function_body.
  assert (H : rel loop_requested
    (has_ctx <- gets (fun s => ctx (this s));;
     an <- gets (fun s => analyser (this s));;
     cv <- gets (fun s => canvas (this s));;
     match an, cv with
     | Some a, Some c =>
         (if has_ctx : bool then ret tt else return_);;;
         r <- gets (fun s => rect (world s));;
         c' <- (if negb (Qle_bool (fst r) 0) && negb (Qle_bool (snd r) 0)
                then
                  if negb (Qeq_bool (inject_Z (cv_width c)) (fst r))
                     || negb (Qeq_bool (inject_Z (cv_height c)) (snd r))
                  then
                    let resized :=
                      mkCanvas (to_dimension (Fin (fst r)) 300)
                        (to_dimension (Math_max (num 200) (Fin (snd r))) 150) in
                    modify_this (set_canvas (Some resized));;;
                    ret resized
                  else ret c
                else ret c);;
         draw_frame a c'
     | _, _ => return_
     end)).
  { apply loop_requested_after_kept; [apply rel_gets; tc_solve|intros has_ctx].
    apply loop_requested_after_kept; [apply rel_gets; tc_solve|intros an].
    apply loop_requested_after_kept; [apply rel_gets; tc_solve|intros cv].
    destruct an as [a|]; [destruct cv as [c|]|];
      try (apply loop_requested_kept, rel_return; tc_solve).
    apply loop_requested_after_kept;
      [destruct has_ctx; [apply rel_ret|apply rel_return]; tc_solve|intros _].
    apply loop_requested_after_kept; [apply rel_gets; tc_solve|intros r].
    apply loop_requested_after_kept; [|intros c'; apply draw_frame_requested].
    loop_kept_auto. }
  specialize (H s). unfold exec in H.
  match goal with
  | H : loop_requested s (snd (?m s)) |- loop_requested s (snd (match ?m' s with _ => _ end)) =>
      change m' with m; destruct (m s) as [[[]| |e] s1]; exact H
  end.
Qed.

(** A tick that starts with no request pending leaves at most its own. *)
Lemma draw_one_loop (s : State) :
  one_loop s -> frames (world s) = [] -> one_loop (exec draw s).
Proof.
  intros Hl Hf. destruct (draw_requested s) as [E|E].
  - now apply (one_loop_view s).
  - unfold loop_view in E. inversion E as [[Ef Ec Eh]].
    destruct Hl as (Hc & _). unfold one_loop. rewrite Ef, Ec, Eh, Hf.
    split; [lia|]. right. exists (frameCounter (world s) + 1). simpl.
    repeat split; try reflexivity; first [lia | congruence].
Qed.

Lemma startVisualization_safe : rel loop_safe startVisualization.
Proof.
  intros s Hl. unfold exec, startVisualization, function_body.
  rewrite run_bind; unfold gets at 1; cbv beta iota.
  rewrite run_bind; unfold gets at 1; cbv beta iota.
  rewrite run_bind; unfold gets at 1; cbv beta iota.
  rewrite run_bind.
  destruct (negb (isInitialized (this s)) || negb (non_null (analyser (this s)))
            || negb (ctx (this s))); [exact Hl|].
  unfold ret at 1. cbv beta iota.
  rewrite run_bind, stopVisualization_normal.
  destruct (stopVisualization_clears s Hl) as (Hl1 & Hf1 & _).
  pose proof (draw_one_loop _ Hl1 Hf1) as Hd. unfold exec at 1 in Hd.
  destruct (draw (exec stopVisualization s)) as [[[]| |e] s2]; exact Hd.
Qed.

(** Starting cancels the request that was pending. *)
Lemma startVisualization_cancels (s : State) (id : Z) :
  one_loop s ->
  In id (frames (world s)) ->
  isInitialized (this s) = true -> analyser (this s) <> None -> ctx (this s) = true ->
  ~ In id (frames (world (exec startVisualization s))).
Proof.
  intros Hl Hin Hinit Han Hctx.
  unfold exec, startVisualization, function_body.
  rewrite run_bind; unfold gets at 1; cbv beta iota.
  rewrite run_bind; unfold gets at 1; cbv beta iota.
  rewrite run_bind; unfold gets at 1; cbv beta iota.
  rewrite run_bind, Hinit, Hctx.
  destruct (analyser (this s)) as [a|]; [|congruence]. simpl.
  rewrite run_bind, stopVisualization_normal.
  destruct (stopVisualization_clears s Hl) as (Hl1 & Hf1 & Hc1).
  destruct (draw_requested (exec stopVisualization s)) as [E|E];
    unfold exec at 1 in E;
    destruct (draw (exec stopVisualization s)) as [[[]| |e] s2];
    simpl in *; unfold loop_view in E; inversion E as [[Ef Ec Eh]];
    rewrite Ef, Hf1; simpl; try tauto.
  all: destruct Hl as (Hc & [Hf|(id0 & Hf & _ & Hid)]); rewrite Hf in Hin; simpl in Hin;
    try tauto; destruct Hin as [<-|[]]; rewrite Hc1; lia.
Qed.

(** A proof of [rel loop_safe m]: the calls that leave the loop alone, and the
    methods already shown safe. *)
Ltac loop_safe_leaf :=
  first
    [ apply stopVisualization_safe
    | apply startVisualization_safe
    | apply rel_drawPlaceholder; tc_solve
    | apply (rel_weaken loop_kept loop_safe); [exact loop_kept_safe|];
      first
        [ apply loop_kept_modify_this; intros ?; reflexivity
        | apply loop_kept_modify_world; intros ?;
          repeat match goal with
                 | |- context [match ?x with _ => _ end] => destruct x
                 end; split; reflexivity
        | apply loop_kept_element
        | apply loop_kept_update_element
        | apply loop_kept_context_state
        | apply loop_kept_context_close
        | apply loop_kept_context_resume
        | apply loop_kept_new_AudioContext
        | apply loop_kept_createAnalyser
        | apply loop_kept_analyser_set_fftSize
        | apply loop_kept_analyser_set_smoothing
        | apply loop_kept_createMediaElementSource
        | apply loop_kept_source_disconnect
        | apply loop_kept_source_connect_analyser
        | apply loop_kept_analyser_connect_destination
        | apply loop_kept_new_Audio
        | apply loop_kept_getAudioUrl ] ].

Ltac loop_safe_auto := repeat rel_step; try loop_safe_leaf.

Lemma cleanup_safe : rel loop_safe cleanup.
Proof. unfold cleanup, element_set_src. loop_safe_auto. Qed.

Lemma initContext_safe (target : nat) : rel loop_safe (initContext target).
Proof. unfold initContext. loop_safe_auto. Qed.

Lemma connectToAudioElement_safe (target : option nat) :
  rel loop_safe (connectToAudioElement target).
Proof.
  unfold connectToAudioElement. loop_safe_auto;
    first [apply cleanup_safe | apply initContext_safe].
Qed.

Lemma initTimer_callback_safe (e : nat) : rel loop_safe (initTimer_callback e).
Proof. unfold initTimer_callback. loop_safe_auto; apply initContext_safe. Qed.

Lemma setMode_safe (m : Mode) : rel loop_safe (setMode m).
Proof. unfold setMode, updateModeMenu. loop_safe_auto. Qed.

Lemma setEnabled_safe (enabled : bool) : rel loop_safe (setEnabled enabled).
Proof.
  unfold setEnabled, updateModeMenu. loop_safe_auto;
    first [apply cleanup_safe | apply connectToAudioElement_safe].
Qed.

Lemma setBackgroundOpacity_safe (value : JsValue) : rel loop_safe (setBackgroundOpacity value).
Proof. unfold setBackgroundOpacity, updateModeMenu. loop_safe_auto. Qed.

Lemma setBackgroundImage_safe (image : option Canvas) :
  rel loop_safe (setBackgroundImage image).
Proof. unfold setBackgroundImage, updateModeMenu. loop_safe_auto. Qed.

Lemma fftWidget_callback_safe (value : Z) : rel loop_safe (fftWidget_callback value).
Proof. unfold fftWidget_callback. loop_safe_auto. Qed.

Lemma primaryWidget_callback_safe (value : string) :
  rel loop_safe (primaryWidget_callback value).
Proof. unfold primaryWidget_callback. loop_safe_auto. Qed.

Lemma secondaryWidget_callback_safe (value : string) :
  rel loop_safe (secondaryWidget_callback value).
Proof. unfold secondaryWidget_callback. loop_safe_auto. Qed.

Lemma bgWidget_callback_safe (value : string) : rel loop_safe (bgWidget_callback value).
Proof. unfold bgWidget_callback. loop_safe_auto. Qed.

Lemma onPlay_safe (e : nat) : rel loop_safe (onPlay e).
Proof. unfold onPlay. loop_safe_auto; apply connectToAudioElement_safe. Qed.

Lemma onStop_safe : rel loop_safe onStop.
Proof. unfold onStop. loop_safe_auto. Qed.

Lemma loadAudio_safe (url : string) : rel loop_safe (loadAudio url).
Proof.
  unfold loadAudio. loop_safe_auto;
    first [apply cleanup_safe | apply connectToAudioElement_safe].
Qed.

Lemma checkSrc_safe (e : nat) : rel loop_safe (checkSrc e).
Proof. unfold checkSrc. loop_safe_auto; apply connectToAudioElement_safe. Qed.

Lemma handleAudioChange_safe (v : option string) : rel loop_safe (handleAudioChange v).
Proof.
  unfold handleAudioChange. loop_safe_auto;
    first [apply cleanup_safe | apply checkSrc_safe | apply loadAudio_safe].
Qed.

Lemma createCanvasWidget_safe (has_2d : bool) : rel loop_safe (createCanvasWidget has_2d).
Proof. unfold createCanvasWidget. loop_safe_auto. Qed.

Lemma onResize_frame_safe (r : Q * Q) : rel loop_safe (onResize_frame r).
Proof. unfold onResize_frame. loop_safe_auto. Qed.

Lemma platform_safe (f : World -> World) (s : State) :
  (forall w, frames (f w) = frames w /\ frameCounter (f w) = frameCounter w) ->
  loop_safe s (platform f s).
Proof.
  intros H. apply loop_kept_safe. unfold loop_kept, loop_view, platform. simpl.
  destruct (H (world s)) as [-> ->]. reflexivity.
Qed.

Lemma frame_fires_safe (id : Z) (s : State) :
  one_loop s -> existsb (Z.eqb id) (frames (world s)) = true ->
  one_loop (exec draw (exec (cancelAnimationFrame id) s)).
Proof.
  intros (Hc & Hf) Hin. apply existsb_exists in Hin as (j & Hj & Ej).
  apply Z.eqb_eq in Ej. subst j.
  destruct Hf as [Hf | (id0 & Hf & Hh & Hid)]; rewrite Hf in Hj; simpl in Hj; [tauto|].
  destruct Hj as [<-|[]].
  apply draw_one_loop.
  - unfold one_loop, exec, cancelAnimationFrame, modify_world. simpl.
    rewrite Hf. simpl. rewrite Z.eqb_refl. simpl. auto.
  - unfold exec, cancelAnimationFrame, modify_world. simpl.
    rewrite Hf. simpl. now rewrite Z.eqb_refl.
Qed.

Lemma step_one_loop (ev : Event) (s : State) : one_loop s -> one_loop (step ev s).
Proof.
  intros H. destruct ev; cbn [step].
  - now apply createCanvasWidget_safe.
  - now apply setMode_safe.
  - now apply setEnabled_safe.
  - now apply setBackgroundOpacity_safe.
  - now apply setBackgroundImage_safe.
  - now apply handleAudioChange_safe.
  - now apply connectToAudioElement_safe.
  - now apply loadAudio_safe.
  - now apply startVisualization_safe.
  - now apply stopVisualization_safe.
  - now apply cleanup_safe.
  - now apply cleanup_safe.
  - now apply fftWidget_callback_safe.
  - now apply primaryWidget_callback_safe.
  - now apply secondaryWidget_callback_safe.
  - now apply bgWidget_callback_safe.
  - destruct (existsb (Z.eqb id) (frames (world s))) eqn:E; [|exact H].
    now apply frame_fires_safe.
  - now apply onResize_frame_safe.
  - now apply onPlay_safe.
  - now apply onStop_safe.
  - unfold fire_loadeddata.
    destruct (elements (world s) !! e) as [el|]; [|exact H].
    apply (rel_iter loop_safe); [apply initContext_safe|].
    destruct (onloadeddata el).
    + apply connectToAudioElement_safe.
      apply (rel_weaken loop_kept loop_safe _ loop_kept_safe (loop_kept_update_element _ _)).
      exact H.
    + apply (rel_weaken loop_kept loop_safe _ loop_kept_safe (loop_kept_update_element _ _)).
      exact H.
  - destruct (elements (world s) !! e) as [el|]; [|exact H].
    destruct (onloadeddata el); [|exact H].
    now apply (rel_drawPlaceholder loop_safe).
  - destruct (existsb (Timer_eqb t) (timers (world s))); [|exact H].
    assert (H1 : one_loop
              (platform (fun w => set_timers (remove_first Timer_eqb t (timers w)) w) s))
      by (apply platform_safe; [intros w; split; reflexivity|exact H]).
    destruct t; cbn [timer_callback];
      [now apply initTimer_callback_safe | now apply checkSrc_safe].
  - apply platform_safe; [|exact H].
    intros w. destruct (elements w !! e); split; reflexivity.
  - apply platform_safe; [|exact H]. intros w. split; reflexivity.
  - apply platform_safe; [|exact H].
    intros w. destruct (contexts w !! c) as [old|]; [|split; reflexivity].
    destruct (is_closed old || is_closed st); split; reflexivity.
  - apply platform_safe; [|exact H]. intros w. split; reflexivity.
  - apply platform_safe; [|exact H]. intros w. split; reflexivity.
  - apply platform_safe; [|exact H]. intros w. split; reflexivity.
  - apply platform_safe; [|exact H]. intros w. split; reflexivity.
  - apply platform_safe; [|exact H]. intros w. split; reflexivity.
  - apply platform_safe; [|exact H]. intros w. destruct empty; split; reflexivity.
Qed.

Lemma reachable_one_loop (s : State) : reachable s -> one_loop s.
Proof.
  induction 1 as [s (_ & _ & Hf & Hc)|s ev _ IH].
  - split; [exact Hc|now left].
  - now apply step_one_loop.
Qed.

Lemma one_loop_length (s : State) :
  one_loop s ->
  (length (frames (world s)) <= 1)%nat
  /\ forall id, In id (frames (world s)) -> animationFrameId (this s) = Some id.
Proof.
  intros (_ & [Hf | (id0 & Hf & Hh & _)]); rewrite Hf; simpl.
  - split; [lia|tauto].
  - split; [lia|]. intros id [<-|[]]. exact Hh.
Qed.

(** C7. In every state the visualizer can reach, at most one frame request
    of the render loop is pending, and it is the one recorded in
    [animationFrameId].  Starting the visualization while a request is pending
    cancels that request before the new tick, so that again at most one is
    pending; stopping leaves none pending and clears the handle; stopping a
    second time changes nothing. *)
Theorem one_animation_frame_loop (s : State) (Hreach : reachable s) :
  (length (frames (world s)) <= 1)%nat
  /\ (forall id, In id (frames (world s)) -> animationFrameId (this s) = Some id)
  /\ (forall id,
        In id (frames (world s)) ->
        isInitialized (this s) = true -> analyser (this s) <> None -> ctx (this s) = true ->
        ~ In id (frames (world (exec startVisualization s)))
        /\ (length (frames (world (exec startVisualization s))) <= 1)%nat)
  /\ frames (world (exec stopVisualization s)) = []
  /\ handle_truthy (animationFrameId (this (exec stopVisualization s))) = false
  /\ exec stopVisualization (exec stopVisualization s) = exec stopVisualization s.
Proof.
  pose proof (reachable_one_loop s Hreach) as Hl.
  destruct (one_loop_length s Hl) as [Hlen Hrec].
  split; [exact Hlen|]. split; [exact Hrec|]. split; [|split; [|split]].
  - intros id Hin Hinit Han Hctx. split.
    + now apply startVisualization_cancels.
    + apply one_loop_length. now apply startVisualization_safe.
  - now apply stopVisualization_clears.
  - apply stopVisualization_handle.
  - apply stopVisualization_idempotent.
Qed.

Lemma example_start_initial : initial example_start.
Proof.
  split; [now exists true, None, None, None|].
  split; [|split; [reflexivity|simpl; lia]].
  intros e el He. change (elements (world example_start)) with
    ({[ 0%nat := example_element ]} : gmap nat AudioElement) in He.
  apply lookup_singleton_Some in He as [<- <-].
  split; [repeat split|simpl; lia].
Qed.

Lemma example_state_reachable : reachable example_state.
Proof.
  unfold example_state. apply reachable_step, reachable_initial, example_start_initial.
Qed.

Lemma example_playing_reachable : reachable example_playing.
Proof. unfold example_playing. apply reachable_step, example_state_reachable. Qed.

Lemma one_animation_frame_loop_witness :
  reachable example_playing
  /\ frames (world example_playing) = [1]
  /\ (length (frames (world example_playing)) <= 1)%nat
  /\ frames (world (exec stopVisualization example_playing)) = [].
Proof.
  split; [exact example_playing_reachable|]. split; [vm_compute; reflexivity|].
  destruct (one_animation_frame_loop example_playing example_playing_reachable)
    as (Hlen & _ & _ & Hstop & _).
  split; [exact Hlen|exact Hstop].
Defined.

(** ** One source node per audio element *)

(** What the visualizer keeps true of an element: its mark is the source
    node the browser made for it, and [createMediaElementSource] was called on
    it once if it is marked, never if it is not. *)
Definition recorded (e : nat) (el : AudioElement) (w : World) : Prop :=
  (e < nextId w)%nat
  /\ _audioVisualizerSource el = mediaSource el
  /\ createCalls el = (if non_null (_audioVisualizerSource el) then 1 else 0)%nat.

Definition spliced_once (s : State) : Prop :=
  forall e el, elements (world s) !! e = Some el -> recorded e el (world s).

(** A mark, once set, stays. *)
Definition marker_kept (s s' : State) : Prop :=
  forall e el id,
    elements (world s) !! e = Some el -> _audioVisualizerSource el = Some id ->
    exists el', elements (world s') !! e = Some el' /\ _audioVisualizerSource el' = Some id.

Definition splice_step (s s' : State) : Prop :=
  spliced_once s -> spliced_once s' /\ marker_kept s s'.

(** The elements are the same objects in the same state. *)
Definition splice_unchanged (s s' : State) : Prop :=
  elements (world s') = elements (world s) /\ (nextId (world s) <= nextId (world s'))%nat.

#[local] Instance splice_unchanged_preorder : PreOrder splice_unchanged.
Proof.
  split.
  - intros s. split; [reflexivity|lia].
  - intros s1 s2 s3 [He Hn] [He' Hn']. split; [congruence|lia].
Qed.

#[local] Instance splice_unchanged_painting : Painting splice_unchanged.
Proof. split; [tc_solve|]. intros ops s. split; [reflexivity|simpl; lia]. Qed.

Lemma marker_kept_refl (s : State) : marker_kept s s.
Proof. intros e el id He Hm. now exists el. Qed.

Lemma marker_kept_trans (s1 s2 s3 : State) :
  marker_kept s1 s2 -> marker_kept s2 s3 -> marker_kept s1 s3.
Proof.
  intros H12 H23 e el id He Hm.
  destruct (H12 e el id He Hm) as (el2 & He2 & Hm2).
  exact (H23 e el2 id He2 Hm2).
Qed.

#[local] Instance splice_step_preorder : PreOrder splice_step.
Proof.
  split.
  - intros s H. split; [exact H|apply marker_kept_refl].
  - intros s1 s2 s3 H12 H23 H1.
    destruct (H12 H1) as [H2 M12]. destruct (H23 H2) as [H3 M23].
    split; [exact H3|now apply (marker_kept_trans s1 s2 s3)].
Qed.

Lemma splice_unchanged_step (s s' : State) : splice_unchanged s s' -> splice_step s s'.
Proof.
  intros [He Hn] H. split.
  - intros e el Hl. rewrite He in Hl. destruct (H e el Hl) as (Hlt & Hrest).
    split; [lia|exact Hrest].
  - intros e el id Hl Hm. exists el. now rewrite He.
Qed.

#[local] Instance splice_step_painting : Painting splice_step.
Proof.
  split; [tc_solve|]. intros ops s.
  apply splice_unchanged_step. split; [reflexivity|simpl; lia].
Qed.

Lemma splice_unchanged_modify_this (f : Visualizer -> Visualizer) :
  rel splice_unchanged (modify_this f).
Proof. intros s. split; [reflexivity|simpl; lia]. Qed.

Lemma splice_unchanged_modify_world (f : World -> World) :
  (forall w, elements (f w) = elements w /\ (nextId w <= nextId (f w))%nat) ->
  rel splice_unchanged (modify_world f).
Proof. intros H s. unfold splice_unchanged, exec, modify_world. simpl. apply H. Qed.

Ltac splice_unchanged_call :=
  let s := fresh "s" in
  intros s; unfold splice_unchanged, exec;
  repeat
    (first
       [ progress
           unfold element, context_state, context_close, context_resume,
             new_AudioContext, createAnalyser, analyser_set_fftSize,
             analyser_set_smoothingTimeConstant,
             source_disconnect, source_connect_analyser, analyser_connect_destination,
             requestAnimationFrame, cancelAnimationFrame,
             modify_this, modify_world, gets, bind, ret, throw, when
         | progress cbn [fst snd this world elements nextId set_nextId set_contexts
                           set_sources set_frames set_frameCounter]
         | match goal with
           | |- context [match ?x with _ => _ end] => destruct x
           | |- context [if ?b then _ else _] => destruct b
           end ]);
  try (split; [reflexivity|lia]).

Lemma splice_unchanged_element (e : nat) : rel splice_unchanged (element e).
Proof. splice_unchanged_call. Qed.

Lemma splice_unchanged_context_state (c : nat) : rel splice_unchanged (context_state c).
Proof. splice_unchanged_call. Qed.

Lemma splice_unchanged_context_close (c : nat) : rel splice_unchanged (context_close c).
Proof. splice_unchanged_call. Qed.

Lemma splice_unchanged_context_resume (c : nat) : rel splice_unchanged (context_resume c).
Proof. splice_unchanged_call. Qed.

Lemma splice_unchanged_new_AudioContext : rel splice_unchanged new_AudioContext.
Proof. splice_unchanged_call. Qed.

Lemma splice_unchanged_createAnalyser (c : nat) : rel splice_unchanged (createAnalyser c).
Proof. splice_unchanged_call. Qed.

Lemma splice_unchanged_analyser_set_fftSize (z : Z) :
  rel splice_unchanged (analyser_set_fftSize z).
Proof. splice_unchanged_call. Qed.

Lemma splice_unchanged_analyser_set_smoothing (q : Q) :
  rel splice_unchanged (analyser_set_smoothingTimeConstant q).
Proof. splice_unchanged_call. Qed.

Lemma splice_unchanged_source_disconnect : rel splice_unchanged source_disconnect.
Proof. splice_unchanged_call. Qed.

Lemma splice_unchanged_source_connect_analyser : rel splice_unchanged source_connect_analyser.
Proof. splice_unchanged_call. Qed.

Lemma splice_unchanged_analyser_connect_destination :
  rel splice_unchanged analyser_connect_destination.
Proof. splice_unchanged_call. Qed.

Lemma splice_unchanged_requestAnimationFrame : rel splice_unchanged requestAnimationFrame.
Proof. splice_unchanged_call. Qed.

Lemma splice_unchanged_cancelAnimationFrame (id : Z) :
  rel splice_unchanged (cancelAnimationFrame id).
Proof. splice_unchanged_call. Qed.

Lemma splice_unchanged_getAudioUrl (v : string) : rel splice_unchanged (getAudioUrl v).
Proof. intros s. unfold exec. rewrite getAudioUrl_from_parts. split; [reflexivity|simpl; lia]. Qed.

Ltac splice_unchanged_leaf :=
  first
    [ apply splice_unchanged_modify_this
    | apply splice_unchanged_modify_world; intros ?;
      repeat match goal with
             | |- context [match ?x with _ => _ end] => destruct x
             end; split; [reflexivity|simpl; lia]
    | apply splice_unchanged_element
    | apply splice_unchanged_context_state
    | apply splice_unchanged_context_close
    | apply splice_unchanged_context_resume
    | apply splice_unchanged_new_AudioContext
    | apply splice_unchanged_createAnalyser
    | apply splice_unchanged_analyser_set_fftSize
    | apply splice_unchanged_analyser_set_smoothing
    | apply splice_unchanged_source_disconnect
    | apply splice_unchanged_source_connect_analyser
    | apply splice_unchanged_analyser_connect_destination
    | apply splice_unchanged_requestAnimationFrame
    | apply splice_unchanged_cancelAnimationFrame
    | apply splice_unchanged_getAudioUrl
    | apply rel_renderBackground; tc_solve
    | apply rel_drawWave; tc_solve
    | apply rel_drawBars; tc_solve
    | apply rel_drawCircular; tc_solve
    | apply rel_drawPlaceholder; tc_solve ].

Lemma splice_unchanged_stopVisualization : rel splice_unchanged stopVisualization.
Proof. unfold stopVisualization. repeat rel_step; splice_unchanged_leaf. Qed.

Lemma splice_unchanged_draw : rel splice_unchanged draw.
Proof. unfold draw, draw_frame. repeat rel_step; splice_unchanged_leaf. Qed.

Lemma splice_unchanged_startVisualization : rel splice_unchanged startVisualization.
Proof.
  unfold startVisualization. repeat rel_step;
    first [ apply splice_unchanged_stopVisualization | apply splice_unchanged_draw
          | splice_unchanged_leaf ].
Qed.

Lemma splice_step_update_element (e : nat) (f : AudioElement -> AudioElement) :
  (forall el, _audioVisualizerSource (f el) = _audioVisualizerSource el
              /\ mediaSource (f el) = mediaSource el
              /\ createCalls (f el) = createCalls el) ->
  rel splice_step (update_element e f).
Proof.
  intros Hf s Hinv. unfold exec, update_element.
  destruct (elements (world s) !! e) as [el|] eqn:He; cbn [snd];
    [|split; [exact Hinv|apply marker_kept_refl]].
  destruct (Hf el) as (Hm & Hs & Hc).
  split.
  - intros e0 el0 Hl. cbn [world elements set_elements] in Hl.
    destruct (decide (e = e0)) as [<-|Hne].
    + rewrite lookup_insert_eq in Hl. inversion Hl; subst el0.
      destruct (Hinv e el He) as (Hlt & Hrec & Hcalls).
      split; [exact Hlt|]. split; [congruence|]. now rewrite Hc, Hm.
    + rewrite lookup_insert_ne in Hl by exact Hne. exact (Hinv e0 el0 Hl).
  - intros e0 el0 id Hl Hmark. cbn [world elements set_elements].
    destruct (decide (e = e0)) as [<-|Hne].
    + rewrite lookup_insert_eq. exists (f el). split; [reflexivity|].
      rewrite He in Hl. inversion Hl; subst el0. congruence.
    + rewrite lookup_insert_ne by exact Hne. now exists el0.
Qed.

Lemma splice_step_new_Audio (url : string) : rel splice_step (new_Audio url).
Proof.
  intros s Hinv. unfold exec, new_Audio. cbn [snd]. split.
  - intros e0 el0 Hl. cbn [world elements set_elements set_nextId nextId with_src_attribute
           set_emptySrcAttribute] in *.
    destruct (decide (nextId (world s) = e0)) as [<-|Hne].
    + rewrite lookup_insert_eq in Hl. inversion Hl; subst el0.
      split; [simpl; lia|]. split; reflexivity.
    + rewrite lookup_insert_ne in Hl by exact Hne.
      destruct (Hinv e0 el0 Hl) as (Hlt & Hrest). split; [simpl; lia|exact Hrest].
  - intros e0 el0 id Hl Hmark. cbn [world elements set_elements set_nextId with_src_attribute
           set_emptySrcAttribute].
    destruct (Hinv e0 el0 Hl) as (Hlt & _).
    rewrite lookup_insert_ne by lia. now exists el0.
Qed.

(** The first call of [createMediaElementSource] on an element, with the
    assignments that record its result, followed by anything safe. *)
Lemma mark_new_source {B C : Type} (target : nat) (el : AudioElement) (rest : JS B)
    (after : B -> JS C) (s : State) :
  rel splice_step rest ->
  (forall b, rel splice_step (after b)) ->
  elements (world s) !! target = Some el ->
  _audioVisualizerSource el = None ->
  splice_step s
    (exec (bind (id <- createMediaElementSource target;;
                 modify_this (set_source (Some id));;;
                 update_element target (set_audioVisualizerSource (Some id));;;
                 rest) after) s).
Proof.
  intros Hrest Hafter He Hm Hinv.
  destruct (Hinv target el He) as (Hlt & Hrec & Hcalls).
  rewrite Hm in Hrec, Hcalls. simpl in Hcalls.
  unfold exec, createMediaElementSource.
  rewrite ?run_bind_assoc, run_bind_gets.
  destruct (audioContext (this s)) as [c|];
    [|split; [exact Hinv|apply marker_kept_refl]].
  rewrite ?run_bind_assoc, (run_bind_element target el) by exact He.
  rewrite ?run_bind_assoc, (run_bind_update_element target el) by exact He.
  rewrite <- Hrec.
  rewrite ?run_bind_assoc, run_bind_gets.
  rewrite ?run_bind_assoc, run_bind_modify_world.
  rewrite ?run_bind_assoc.
  erewrite run_bind_update_element
    by (cbn [this world elements set_elements set_nextId set_sources];
        apply lookup_insert_eq).
  rewrite ?run_bind_assoc, run_bind_ret.
  rewrite ?run_bind_assoc, run_bind_modify_this.
  rewrite ?run_bind_assoc.
  erewrite run_bind_update_element
    by (cbn [this world elements set_elements set_nextId set_sources];
        apply lookup_insert_eq).
  cbn [this world elements set_elements set_nextId set_sources nextId].
  rewrite !insert_insert_eq.
  match goal with
  | |- _ /\ marker_kept s (snd (bind rest after ?s3)) =>
      assert (H3 : spliced_once s3 /\ marker_kept s s3)
  end.
  { split.
    - intros e0 el0 Hl. cbn [world elements set_elements set_nextId nextId] in *.
      destruct (decide (target = e0)) as [<-|Hne].
      + rewrite lookup_insert_eq in Hl. inversion Hl; subst el0.
        split; [simpl; lia|]. split; [reflexivity|]. simpl. now rewrite Hcalls.
      + rewrite lookup_insert_ne in Hl by exact Hne.
        destruct (Hinv e0 el0 Hl) as (Hlt0 & Hrest0). split; [simpl; lia|exact Hrest0].
    - intros e0 el0 id Hl Hmark. cbn [world elements set_elements set_nextId].
      destruct (decide (target = e0)) as [<-|Hne].
      + rewrite He in Hl. inversion Hl; subst el0. congruence.
      + rewrite lookup_insert_ne by exact Hne. now exists el0. }
  destruct H3 as [Hinv3 Hkept3].
  assert (Hboth : rel splice_step (bind rest after))
    by (apply rel_bind; [tc_solve|exact Hrest|exact Hafter]).
  destruct (Hboth _ Hinv3) as [Hinv4 Hkept4].
  split; [exact Hinv4|]. eapply marker_kept_trans; eassumption.
Qed.

Ltac splice_step_leaf :=
  first
    [ apply (rel_weaken splice_unchanged splice_step); [exact splice_unchanged_step|];
      first
        [ apply splice_unchanged_stopVisualization
        | apply splice_unchanged_startVisualization
        | apply splice_unchanged_draw
        | splice_unchanged_leaf ]
    | apply splice_step_update_element; intros ?; repeat split; reflexivity
    | apply splice_step_new_Audio
    | apply rel_drawPlaceholder; tc_solve ].

Ltac splice_step_auto := repeat rel_step; try splice_step_leaf.

(** The [try] block of [initContext] that creates or reuses the source. *)
Lemma attach_block_safe (target c : nat) :
  rel splice_step
    (el <- element target;;
     (match _audioVisualizerSource el with
      | None =>
          id <- createMediaElementSource target;;
          modify_this (set_source (Some id));;;
          update_element target (set_audioVisualizerSource (Some id));;;
          source_connect_analyser;;;
          analyser_connect_destination
      | Some id =>
          modify_this (set_source (Some id));;;
          try_catch source_disconnect (fun _ => ret tt);;;
          source_connect_analyser;;;
          analyser_connect_destination
      end);;;
     st <- context_state c;;
     when (is_suspended st) (context_resume c)).
Proof.
  intros s Hinv. unfold exec.
  destruct (elements (world s) !! target) as [el|] eqn:He.
  - rewrite (run_bind_element target el) by exact He.
    destruct (_audioVisualizerSource el) as [id|] eqn:Hm.
    + match goal with
      | |- _ /\ marker_kept s (snd (?m s)) => assert (Hm' : rel splice_step m)
      end.
      { splice_step_auto. }
      exact (Hm' s Hinv).
    + apply (mark_new_source target el); try assumption.
      * splice_step_auto.
      * intros _. splice_step_auto.
  - unfold bind, element. rewrite He. split; [exact Hinv|apply marker_kept_refl].
Qed.

Lemma initContext_splice (target : nat) : rel splice_step (initContext target).
Proof.
  unfold initContext.
  repeat first [ apply attach_block_safe | rel_step ]; try splice_step_leaf.
Qed.

Lemma cleanup_splice : rel splice_step cleanup.
Proof.
  unfold cleanup, element_set_src. splice_step_auto.
Qed.

Lemma connectToAudioElement_splice (target : option nat) :
  rel splice_step (connectToAudioElement target).
Proof.
  unfold connectToAudioElement. splice_step_auto;
    first [apply cleanup_splice | apply initContext_splice].
Qed.

Lemma initTimer_callback_splice (e : nat) : rel splice_step (initTimer_callback e).
Proof. unfold initTimer_callback. splice_step_auto; apply initContext_splice. Qed.

Lemma setMode_splice (m : Mode) : rel splice_step (setMode m).
Proof. unfold setMode, updateModeMenu. splice_step_auto. Qed.

Lemma setEnabled_splice (enabled : bool) : rel splice_step (setEnabled enabled).
Proof.
  unfold setEnabled, updateModeMenu. splice_step_auto;
    first [apply cleanup_splice | apply connectToAudioElement_splice].
Qed.

Lemma setBackgroundOpacity_splice (value : JsValue) :
  rel splice_step (setBackgroundOpacity value).
Proof. unfold setBackgroundOpacity, updateModeMenu. splice_step_auto. Qed.

Lemma setBackgroundImage_splice (image : option Canvas) :
  rel splice_step (setBackgroundImage image).
Proof. unfold setBackgroundImage, updateModeMenu. splice_step_auto. Qed.

Lemma fftWidget_callback_splice (value : Z) : rel splice_step (fftWidget_callback value).
Proof. unfold fftWidget_callback. splice_step_auto. Qed.

Lemma primaryWidget_callback_splice (value : string) :
  rel splice_step (primaryWidget_callback value).
Proof. unfold primaryWidget_callback. splice_step_auto. Qed.

Lemma secondaryWidget_callback_splice (value : string) :
  rel splice_step (secondaryWidget_callback value).
Proof. unfold secondaryWidget_callback. splice_step_auto. Qed.

Lemma bgWidget_callback_splice (value : string) : rel splice_step (bgWidget_callback value).
Proof. unfold bgWidget_callback. splice_step_auto. Qed.

Lemma onPlay_splice (e : nat) : rel splice_step (onPlay e).
Proof. unfold onPlay. splice_step_auto; apply connectToAudioElement_splice. Qed.

Lemma onStop_splice : rel splice_step onStop.
Proof. unfold onStop. splice_step_auto. Qed.

Lemma loadAudio_splice (url : string) : rel splice_step (loadAudio url).
Proof.
  unfold loadAudio. splice_step_auto;
    first [apply cleanup_splice | apply connectToAudioElement_splice].
Qed.

Lemma checkSrc_splice (e : nat) : rel splice_step (checkSrc e).
Proof. unfold checkSrc. splice_step_auto; apply connectToAudioElement_splice. Qed.

Lemma handleAudioChange_splice (v : option string) : rel splice_step (handleAudioChange v).
Proof.
  unfold handleAudioChange. splice_step_auto;
    first [apply cleanup_splice | apply checkSrc_splice | apply loadAudio_splice].
Qed.

Lemma createCanvasWidget_splice (has_2d : bool) : rel splice_step (createCanvasWidget has_2d).
Proof. unfold createCanvasWidget. splice_step_auto. Qed.

Lemma onResize_frame_splice (r : Q * Q) : rel splice_step (onResize_frame r).
Proof. unfold onResize_frame. splice_step_auto. Qed.

Lemma platform_splice (f : World -> World) (s : State) :
  (forall w, elements (f w) = elements w /\ (nextId w <= nextId (f w))%nat) ->
  splice_step s (platform f s).
Proof. intros H. apply splice_unchanged_step. unfold splice_unchanged, platform. simpl. apply H. Qed.

Lemma step_splice (ev : Event) (s : State) : splice_step s (step ev s).
Proof.
  destruct ev; cbn [step].
  - apply createCanvasWidget_splice.
  - apply setMode_splice.
  - apply setEnabled_splice.
  - apply setBackgroundOpacity_splice.
  - apply setBackgroundImage_splice.
  - apply handleAudioChange_splice.
  - apply connectToAudioElement_splice.
  - apply loadAudio_splice.
  - apply splice_unchanged_step, splice_unchanged_startVisualization.
  - apply splice_unchanged_step, splice_unchanged_stopVisualization.
  - apply cleanup_splice.
  - apply cleanup_splice.
  - apply fftWidget_callback_splice.
  - apply primaryWidget_callback_splice.
  - apply secondaryWidget_callback_splice.
  - apply bgWidget_callback_splice.
  - destruct (existsb (Z.eqb id) (frames (world s))); [|reflexivity].
    apply splice_unchanged_step. etransitivity.
    + apply splice_unchanged_cancelAnimationFrame.
    + apply splice_unchanged_draw.
  - apply onResize_frame_splice.
  - apply onPlay_splice.
  - apply onStop_splice.
  - unfold fire_loadeddata.
    destruct (elements (world s) !! e) as [el|]; [|reflexivity].
    etransitivity; [|apply (rel_iter splice_step); apply initContext_splice].
    etransitivity.
    + apply (splice_step_update_element e (set_loadeddataOnce 0)).
      intros ?; repeat split; reflexivity.
    + destruct (onloadeddata el); [apply connectToAudioElement_splice|reflexivity].
  - destruct (elements (world s) !! e) as [el|]; [|reflexivity].
    destruct (onloadeddata el); [|reflexivity].
    apply (rel_drawPlaceholder splice_step).
  - destruct (existsb (Timer_eqb t) (timers (world s))); [|reflexivity].
    etransitivity.
    + apply (platform_splice (fun w => set_timers (remove_first Timer_eqb t (timers w)) w)).
      intros w; split; [reflexivity|simpl; lia].
    + destruct t; cbn [timer_callback];
        [apply initTimer_callback_splice | apply checkSrc_splice].
  - intros Hinv. unfold platform. cbn [this world].
    destruct (elements (world s) !! e) as [el|] eqn:He;
      [|split; [destruct s; exact Hinv|destruct s; apply marker_kept_refl]].
    split.
    + intros e0 el0 Hl. cbn [world elements set_elements nextId] in *.
      destruct (decide (e = e0)) as [<-|Hne].
      * rewrite lookup_insert_eq in Hl. inversion Hl; subst el0.
        exact (Hinv e el He).
      * rewrite lookup_insert_ne in Hl by exact Hne. exact (Hinv e0 el0 Hl).
    + intros e0 el0 id Hl Hmark. cbn [world elements set_elements].
      destruct (decide (e = e0)) as [<-|Hne].
      * rewrite lookup_insert_eq. eexists. split; [reflexivity|].
        rewrite He in Hl. inversion Hl; subst el0. exact Hmark.
      * rewrite lookup_insert_ne by exact Hne. now exists el0.
  - intros Hinv. unfold platform. cbn [this world]. split.
    + intros e0 el0 Hl. cbn [world elements set_elements set_nextId nextId] in *.
      destruct (decide (nextId (world s) = e0)) as [<-|Hne].
      * rewrite lookup_insert_eq in Hl. inversion Hl; subst el0.
        split; [simpl; lia|]. split; reflexivity.
      * rewrite lookup_insert_ne in Hl by exact Hne.
        destruct (Hinv e0 el0 Hl) as (Hlt & Hrest). split; [simpl; lia|exact Hrest].
    + intros e0 el0 id Hl Hmark. cbn [world elements set_elements set_nextId].
      destruct (Hinv e0 el0 Hl) as (Hlt & _).
      rewrite lookup_insert_ne by lia. now exists el0.
  - apply platform_splice. intros w.
    destruct (contexts w !! c) as [old|]; [|split; [reflexivity|lia]].
    destruct (is_closed old || is_closed st); split; try reflexivity; simpl; lia.
  - apply platform_splice. intros w. split; [reflexivity|simpl; lia].
  - apply platform_splice. intros w. split; [reflexivity|simpl; lia].
  - apply platform_splice. intros w. split; [reflexivity|simpl; lia].
  - apply platform_splice. intros w. split; [reflexivity|simpl; lia].
  - apply platform_splice. intros w. split; [reflexivity|simpl; lia].
  - apply platform_splice. intros w. destruct empty; split; try reflexivity; simpl; lia.
Qed.

Lemma reachable_spliced_once (s : State) : reachable s -> spliced_once s.
Proof.
  induction 1 as [s (_ & Hel & _)|s ev _ IH].
  - intros e el He. destruct (Hel e el He) as ((Hm & Hs & Hc) & Hlt).
    split; [exact Hlt|]. split; [congruence|]. now rewrite Hc, Hm.
  - now apply step_splice.
Qed.

(** The second attach: on the element the visualizer is initialised on,
    [connectToAudioElement] does nothing, or restarts the render loop when no
    frame is recorded. *)
Lemma connectToAudioElement_again (e : nat) (s : State) :
  visualizerEnabled (this s) = true ->
  audioElement (this s) = Some e ->
  isInitialized (this s) = true ->
  exec (connectToAudioElement (Some e)) s
  = if handle_truthy (animationFrameId (this s)) then s else exec startVisualization s.
Proof.
  intros Hen Hel Hinit. unfold exec, connectToAudioElement, function_body.
  rewrite run_bind_gets, Hen, run_bind_ret.
  rewrite run_bind_gets, run_bind_gets, Hel, Hinit.
  unfold same_element. rewrite Nat.eqb_refl. cbn [andb].
  rewrite ?run_bind_assoc, run_bind_gets.
  destruct (handle_truthy (animationFrameId (this s))); cbn [negb when].
  - reflexivity.
  - rewrite ?run_bind_assoc, run_bind.
    destruct (startVisualization s) as [[[]| |ex] s1]; reflexivity.
Qed.

Lemma recorded_once (e : nat) (el : AudioElement) (w : World) :
  recorded e el w ->
  (createCalls el <= 1)%nat
  /\ _audioVisualizerSource el = mediaSource el
  /\ (createCalls el = 1%nat <-> _audioVisualizerSource el <> None).
Proof.
  intros (_ & Hrec & Hcalls). split; [|split; [exact Hrec|]].
  - rewrite Hcalls. destruct (_audioVisualizerSource el); simpl; lia.
  - rewrite Hcalls. destruct (_audioVisualizerSource el); simpl; split; intros H;
      try congruence; try discriminate; lia.
Qed.

(** C2, as the code has it.  In every state the visualizer can reach, each
    audio element has had at most one call of [createMediaElementSource]: the
    element is marked exactly when the call was made, and its mark is the
    source node the browser made for it.  Whatever happens next, a marked
    element keeps its mark and its single call (a later attach reuses the
    node).  When the visualizer is enabled, bound to an element and initialised
    (the state a completed attach leaves), attaching that element again changes
    nothing, or, when no frame is recorded, only restarts the render loop; in
    both cases every audio element stays as it is. *)
Theorem one_splice_per_element (s : State) (Hreach : reachable s) :
  (forall e el, elements (world s) !! e = Some el ->
      (createCalls el <= 1)%nat
      /\ _audioVisualizerSource el = mediaSource el
      /\ (createCalls el = 1%nat <-> _audioVisualizerSource el <> None))
  /\ (forall ev e el id,
        elements (world s) !! e = Some el -> _audioVisualizerSource el = Some id ->
        exists el', elements (world (step ev s)) !! e = Some el'
                    /\ _audioVisualizerSource el' = Some id
                    /\ createCalls el' = 1%nat)
  /\ (forall e,
        visualizerEnabled (this s) = true ->
        audioElement (this s) = Some e ->
        isInitialized (this s) = true ->
        exec (connectToAudioElement (Some e)) s
        = (if handle_truthy (animationFrameId (this s))
           then s else exec startVisualization s)
        /\ elements (world (exec (connectToAudioElement (Some e)) s))
           = elements (world s)).
Proof.
  pose proof (reachable_spliced_once s Hreach) as Hinv.
  split; [|split].
  - intros e el He. exact (recorded_once e el _ (Hinv e el He)).
  - intros ev e el id He Hm.
    destruct (step_splice ev s Hinv) as [Hinv' Hkept].
    destruct (Hkept e el id He Hm) as (el' & He' & Hm').
    exists el'. split; [exact He'|]. split; [exact Hm'|].
    destruct (recorded_once e el' _ (Hinv' e el' He')) as (_ & _ & Hiff).
    apply Hiff. congruence.
  - intros e Hen Hel Hinit.
    rewrite (connectToAudioElement_again e s Hen Hel Hinit).
    split; [reflexivity|].
    destruct (handle_truthy (animationFrameId (this s))); [reflexivity|].
    apply splice_unchanged_startVisualization.
Qed.

Lemma one_splice_per_element_witness :
  reachable example_playing
  /\ visualizerEnabled (this example_playing) = true
  /\ audioElement (this example_playing) = Some 0%nat
  /\ isInitialized (this example_playing) = true
  /\ exec (connectToAudioElement (Some 0%nat)) example_playing
     = (if handle_truthy (animationFrameId (this example_playing))
        then example_playing else exec startVisualization example_playing).
Proof.
  assert (Hen : visualizerEnabled (this example_playing) = true)
    by (vm_compute; reflexivity).
  assert (Hel : audioElement (this example_playing) = Some 0%nat)
    by (vm_compute; reflexivity).
  assert (Hinit : isInitialized (this example_playing) = true)
    by (vm_compute; reflexivity).
  split; [exact example_playing_reachable|].
  split; [exact Hen|]. split; [exact Hel|]. split; [exact Hinit|].
  destruct (one_splice_per_element example_playing example_playing_reachable)
    as (_ & _ & Hagain).
  destruct (Hagain 0%nat Hen Hel Hinit) as [Hsame _].
  exact Hsame.
Defined.

(** A page whose audio element has not loaded anything yet, and the
    visualizer after a first attach to it. *)
Definition unloaded_world : World :=
  mkWorld {[ 0%nat := mkAudioElement true 0 "song.mp3" 0 None None 0 0 false ]} ∅ ∅ 1
    true running [] 0 [] (800 # 1, 200 # 1)%Q (fun _ => 0) (fun _ => 0) []
    (Some 0%nat) (mkApp None None) 0 hex_notation ∅.

Definition unloaded_attached : State :=
  step (CallConnectToAudioElement (Some 0%nat))
    (step (CallCreateCanvasWidget true)
       (mkState (constructor true None None None) unloaded_world)).

(** C2, as stated, fails for a second attach that comes before the first one
    has initialised the visualizer: the element is bound but its data has not
    loaded, and the second attach registers a second [loadeddata] listener,
    which is neither no change nor a restart of the render loop. *)
Lemma second_attach_before_load_registers_again :
  visualizerEnabled (this unloaded_attached) = true
  /\ audioElement (this unloaded_attached) = Some 0%nat
  /\ isInitialized (this unloaded_attached) = false
  /\ (loadeddataOnce <$> elements (world unloaded_attached) !! 0%nat) = Some 1%nat
  /\ (loadeddataOnce
        <$> elements (world (exec (connectToAudioElement (Some 0%nat)) unloaded_attached))
            !! 0%nat) = Some 2%nat
  /\ exec (connectToAudioElement (Some 0%nat)) unloaded_attached <> unloaded_attached
  /\ exec (connectToAudioElement (Some 0%nat)) unloaded_attached
     <> exec startVisualization unloaded_attached.
Proof.
  assert (H1 : (loadeddataOnce <$> elements (world unloaded_attached) !! 0%nat)
               = Some 1%nat) by (vm_compute; reflexivity).
  assert (H2 : (loadeddataOnce
                  <$> elements (world (exec (connectToAudioElement (Some 0%nat))
                                         unloaded_attached)) !! 0%nat)
               = Some 2%nat) by (vm_compute; reflexivity).
  assert (H3 : (loadeddataOnce
                  <$> elements (world (exec startVisualization unloaded_attached))
                      !! 0%nat)
               = Some 1%nat) by (vm_compute; reflexivity).
  split; [vm_compute; reflexivity|]. split; [vm_compute; reflexivity|].
  split; [vm_compute; reflexivity|]. split; [exact H1|]. split; [exact H2|].
  split; intros E; rewrite E in H2; congruence.
Qed.

(** * Further properties of the code *)

(** ** Rounding to binary64 *)

Lemma pow2_pos (e : Z) : (0 < pow2 e)%Q.
Proof. apply Qpower_0_lt. reflexivity. Qed.

Lemma pow2_add (a b : Z) : (pow2 (a + b) == pow2 a * pow2 b)%Q.
Proof. apply Qpower_plus. discriminate. Qed.

Lemma pow2_le (a b : Z) : a <= b -> (pow2 a <= pow2 b)%Q.
Proof. intros H. apply Qpower_le_compat_l; [exact H|discriminate]. Qed.

Lemma pow2_lt (a b : Z) : a < b -> (pow2 a < pow2 b)%Q.
Proof. intros H. apply Qpower_lt_compat_l; [exact H|reflexivity]. Qed.

Lemma pow2_lt_inv (a b : Z) : (pow2 a < pow2 b)%Q -> a < b.
Proof. intros H. apply (Qpower_lt_compat_l_inv 2); [exact H|reflexivity]. Qed.

Lemma pow2_Z (n : Z) : 0 <= n -> (inject_Z (2 ^ n) == pow2 n)%Q.
Proof. intros H. apply (Zpower_Qpower 2 n H). Qed.

Lemma floor_log2_spec (q : Q) :
  (0 < q)%Q -> (pow2 (floor_log2 q) <= q)%Q /\ (q < pow2 (floor_log2 q + 1))%Q.
Proof.
  intros Hq. unfold floor_log2.
  destruct q as [n d]. cbn [Qnum Qden].
  assert (Hn : 0 < n) by (unfold Qlt in Hq; simpl in Hq; lia).
  set (a := Z.log2 n). set (b := Z.log2 (Z.pos d)).
  assert (Ha : 0 <= a) by apply Z.log2_nonneg.
  assert (Hb : 0 <= b) by apply Z.log2_nonneg.
  destruct (Z.log2_spec n Hn) as [Hn1 Hn2]. fold a in Hn1, Hn2.
  destruct (Z.log2_spec (Z.pos d) ltac:(lia)) as [Hd1 Hd2]. fold b in Hd1, Hd2.
  assert (Hq' : (n # d == inject_Z n / inject_Z (Z.pos d))%Q) by apply Qmake_Qdiv.
  assert (HdQ : (0 < inject_Z (Z.pos d))%Q) by reflexivity.
  assert (Hup : (n # d < pow2 (a - b + 1))%Q).
  { rewrite Hq'. apply Qlt_shift_div_r; [exact HdQ|].
    apply Qlt_le_trans with (pow2 (a + 1)).
    - rewrite <- pow2_Z by lia. rewrite <- Zlt_Qlt.
      replace (a + 1) with (Z.succ a) by lia. exact Hn2.
    - replace (a + 1) with ((a - b + 1) + b) by lia. rewrite pow2_add.
      apply Qmult_le_l; [apply pow2_pos|].
      rewrite <- pow2_Z by lia. rewrite <- Zle_Qle. exact Hd1. }
  assert (Hlow : (pow2 (a - b - 1) < n # d)%Q).
  { rewrite Hq'. apply Qlt_shift_div_l; [exact HdQ|].
    apply Qlt_le_trans with (pow2 a).
    - replace a with ((a - b - 1) + (b + 1)) at 2 by lia. rewrite pow2_add.
      apply Qmult_lt_l; [apply pow2_pos|].
      rewrite <- pow2_Z by lia. rewrite <- Zlt_Qlt.
      replace (b + 1) with (Z.succ b) by lia. exact Hd2.
    - rewrite <- pow2_Z by lia. rewrite <- Zle_Qle. exact Hn1. }
  destruct (Qle_bool (pow2 (a - b)) (n # d)) eqn:E.
  - apply Qle_bool_iff in E. split; [exact E|exact Hup].
  - split.
    + apply Qlt_le_weak. exact Hlow.
    + replace (a - b - 1 + 1) with (a - b) by lia.
      apply Qnot_le_lt. intros H. apply Qle_bool_iff in H. congruence.
Qed.

Lemma round_half_even_near (q : Q) :
  (q - (1 # 2) <= inject_Z (round_half_even q) <= q + (1 # 2))%Q.
Proof.
  unfold round_half_even.
  pose proof (Qfloor_le q) as Hlo. pose proof (Qlt_floor q) as Hhi.
  rewrite inject_Z_plus in Hhi. change (inject_Z 1) with 1%Q in Hhi.
  destruct (Qcompare_spec (q - inject_Z (Qfloor q)) (1 # 2)) as [E|L|G].
  - destruct (Z.even (Qfloor q)).
    + split; lra.
    + rewrite inject_Z_plus. change (inject_Z 1) with 1%Q. split; lra.
  - split; lra.
  - rewrite inject_Z_plus. change (inject_Z 1) with 1%Q. split; lra.
Qed.

Lemma round_half_even_Z (q : Q) (z : Z) : (q == inject_Z z)%Q -> round_half_even q = z.
Proof.
  intros E. unfold round_half_even.
  rewrite (Qfloor_comp q (inject_Z z) E), Qfloor_Z.
  destruct (Qcompare_spec (q - inject_Z z) (1 # 2)) as [H|H|H];
    rewrite E in H; try reflexivity; exfalso; lra.
Qed.

Lemma round_half_even_between (q : Q) (lo hi : Z) :
  (inject_Z lo <= q <= inject_Z hi)%Q -> lo <= round_half_even q <= hi.
Proof.
  intros [Hlo Hhi].
  assert (Hf : lo <= Qfloor q).
  { rewrite <- (Qfloor_Z lo). apply Qfloor_resp_le. exact Hlo. }
  destruct (Qeq_dec q (inject_Z hi)) as [E|N].
  - rewrite (round_half_even_Z q hi E). split; [|lia].
    rewrite Zle_Qle. rewrite <- E. exact Hlo.
  - assert (Hlt : (q < inject_Z hi)%Q) by (apply Qle_lteq in Hhi; tauto).
    assert (Hf2 : Qfloor q < hi).
    { rewrite Zlt_Qlt. apply Qle_lt_trans with q; [apply Qfloor_le|exact Hlt]. }
    unfold round_half_even.
    destruct (q - inject_Z (Qfloor q) ?= 1 # 2)%Q; [destruct (Z.even (Qfloor q))| |]; lia.
Qed.

(** A positive number within the range of the normal numbers rounds to a
    number at most half a unit in the last place away, and within the same
    binade. *)
Lemma round64_positive_near (q : Q) :
  (pow2 (-1022) <= q)%Q -> (q < pow2 1024)%Q ->
  let r := round64_positive q in
  let e := floor_log2 q in
  (Qabs (r - q) <= q * pow2 (-53))%Q
  /\ (pow2 e <= r <= pow2 (e + 1))%Q.
Proof.
  intros Hlo Hhi. cbv zeta.
  assert (Hq : (0 < q)%Q) by (apply Qlt_le_trans with (pow2 (-1022)); [apply pow2_pos|exact Hlo]).
  destruct (floor_log2_spec q Hq) as [H1 H2].
  set (L := floor_log2 q) in *.
  assert (HL : -1022 <= L).
  { assert (-1022 < L + 1); [|lia].
    apply pow2_lt_inv. apply Qle_lt_trans with q; assumption. }
  unfold round64_positive. fold L.
  rewrite Z.max_l by lia.
  set (e := L - 52).
  set (x := (q / pow2 e)%Q).
  pose proof (pow2_pos e) as He.
  assert (Hx : (q == x * pow2 e)%Q).
  { unfold x. field. intros H0. rewrite H0 in He. discriminate He. }
  assert (Hx1 : (pow2 52 <= x)%Q).
  { unfold x. apply Qle_shift_div_l; [exact He|].
    rewrite <- pow2_add. replace (52 + e) with L by (unfold e; lia). exact H1. }
  assert (Hx2 : (x <= pow2 53)%Q).
  { unfold x. apply Qle_shift_div_r; [exact He|].
    rewrite <- pow2_add. replace (53 + e) with (L + 1) by (unfold e; lia).
    apply Qlt_le_weak. exact H2. }
  pose proof (round_half_even_near x) as [Hn1 Hn2].
  assert (Hk : 2 ^ 52 <= round_half_even x <= 2 ^ 53).
  { apply round_half_even_between. rewrite !pow2_Z by lia. split; assumption. }
  set (k := round_half_even x) in *.
  assert (Hk1 : (pow2 52 <= inject_Z k)%Q)
    by (rewrite <- pow2_Z by lia; rewrite <- Zle_Qle; lia).
  assert (Hk2 : (inject_Z k <= pow2 53)%Q)
    by (rewrite <- pow2_Z by lia; rewrite <- Zle_Qle; lia).
  split.
  - apply Qabs_Qle_condition.
    assert (Hhalf : (pow2 e * (1 # 2) <= q * pow2 (-53))%Q).
    { apply Qle_trans with (pow2 L * pow2 (-53))%Q.
      - rewrite <- pow2_add. replace (L + -53) with (e + -1) by (unfold e; lia).
        rewrite pow2_add. apply Qle_lteq. right. reflexivity.
      - apply Qmult_le_compat_r; [exact H1|apply Qlt_le_weak, pow2_pos]. }
    assert (Hd1 : (inject_Z k * pow2 e - q == (inject_Z k - x) * pow2 e)%Q)
      by (rewrite Hx; ring).
    rewrite Hd1.
    assert (Hb1 : ((inject_Z k - x) * pow2 e <= (1 # 2) * pow2 e)%Q)
      by (apply Qmult_le_compat_r; [lra|apply Qlt_le_weak; exact He]).
    assert (Hb2 : (- (1 # 2) * pow2 e <= (inject_Z k - x) * pow2 e)%Q)
      by (apply Qmult_le_compat_r; [lra|apply Qlt_le_weak; exact He]).
    split; lra.
  - split.
    + replace L with (52 + e) by (unfold e; lia). rewrite pow2_add.
      apply Qmult_le_compat_r; [exact Hk1|apply Qlt_le_weak; exact He].
    + replace (L + 1) with (53 + e) by (unfold e; lia). rewrite pow2_add.
      apply Qmult_le_compat_r; [exact Hk2|apply Qlt_le_weak; exact He].
Qed.

Lemma Qsgn_pos (q : Q) : (0 < q)%Q -> Qsgn q = Gt.
Proof.
  intros H. unfold Qsgn. destruct (Qcompare_spec q 0) as [E|L|G]; try reflexivity; exfalso; lra.
Qed.

Lemma Qle_bool_false (a b : Q) : (b < a)%Q -> Qle_bool a b = false.
Proof.
  intros H. destruct (Qle_bool a b) eqn:E; [|reflexivity].
  apply Qle_bool_iff in E. exfalso. lra.
Qed.

Lemma round64_normal (q : Q) :
  (pow2 (-1022) <= q)%Q -> (q < pow2 1023)%Q ->
  exists r, round64 q = Fin r
    /\ (Qabs (r - q) <= q * pow2 (-53))%Q
    /\ (pow2 (floor_log2 q) <= r <= pow2 (floor_log2 q + 1))%Q.
Proof.
  intros Hlo Hhi.
  assert (Hq : (0 < q)%Q) by (apply Qlt_le_trans with (pow2 (-1022)); [apply pow2_pos|exact Hlo]).
  assert (Hhi' : (q < pow2 1024)%Q)
    by (apply Qlt_trans with (pow2 1023); [exact Hhi|now apply pow2_lt]).
  destruct (round64_positive_near q Hlo Hhi') as (Hnear & Hr1 & Hr2).
  destruct (floor_log2_spec q Hq) as [H1 H2].
  assert (HL : floor_log2 q < 1023).
  { apply pow2_lt_inv. apply Qle_lt_trans with q; assumption. }
  exists (Qred (round64_positive q)). unfold round64. rewrite (Qsgn_pos q Hq).
  rewrite Qle_bool_false.
  - split; [reflexivity|]. rewrite !Qred_correct. repeat split; assumption.
  - apply Qle_lt_trans with (pow2 (floor_log2 q + 1)); [exact Hr2|].
    apply pow2_lt. lia.
Qed.

(** An integer below 2^53 is a binary64 number. *)
Lemma round64_inject_Z (z : Z) : 0 <= z < 2 ^ 53 -> round64 (inject_Z z) = num z.
Proof.
  intros Hz. destruct (Z.eq_dec z 0) as [->|Hne]; [reflexivity|].
  assert (Hq : (0 < inject_Z z)%Q)
    by (change 0%Q with (inject_Z 0); rewrite <- Zlt_Qlt; lia).
  destruct (floor_log2_spec _ Hq) as [H1 H2].
  set (L := floor_log2 (inject_Z z)) in *.
  assert (HL1 : 0 <= L).
  { assert (0 < L + 1); [|lia]. apply pow2_lt_inv.
    apply Qle_lt_trans with (inject_Z z); [|exact H2].
    change (pow2 0) with (inject_Z 1). rewrite <- Zle_Qle. lia. }
  assert (HL2 : L < 53).
  { apply pow2_lt_inv. apply Qle_lt_trans with (inject_Z z); [exact H1|].
    rewrite <- pow2_Z by lia. rewrite <- Zlt_Qlt. lia. }
  pose proof (pow2_pos (L - 52)) as He.
  assert (Hx : (inject_Z z / pow2 (L - 52) == inject_Z (z * 2 ^ (52 - L)))%Q).
  { rewrite inject_Z_mult, pow2_Z by lia.
    apply Qmult_inj_r with (pow2 (L - 52)).
    - intros H0. rewrite H0 in He. discriminate He.
    - rewrite <- Qmult_assoc, <- pow2_add.
      replace (52 - L + (L - 52)) with 0 by lia. change (pow2 0) with 1%Q.
      field. intros H0. rewrite H0 in He. discriminate He. }
  assert (Hr : (round64_positive (inject_Z z) == inject_Z z)%Q).
  { unfold round64_positive. fold L. rewrite Z.max_l by lia.
    rewrite (round_half_even_Z _ _ Hx), inject_Z_mult, pow2_Z by lia.
    rewrite <- Qmult_assoc, <- pow2_add.
    replace (52 - L + (L - 52)) with 0 by lia. change (pow2 0) with 1%Q. ring. }
  unfold round64. rewrite (Qsgn_pos _ Hq), Qle_bool_false.
  - unfold num. f_equal. rewrite (Qred_complete _ _ Hr). apply Qred_inject_Z.
  - rewrite Hr. apply Qlt_trans with (pow2 53); [|now apply pow2_lt].
    rewrite <- pow2_Z by lia. rewrite <- Zlt_Qlt. lia.
Qed.

Lemma Qfloor_unique (q : Q) (z : Z) :
  (inject_Z z <= q)%Q -> (q < inject_Z (z + 1))%Q -> Qfloor q = z.
Proof.
  intros H1 H2.
  assert (z <= Qfloor q) by (rewrite <- (Qfloor_Z z); now apply Qfloor_resp_le).
  assert (Qfloor q < z + 1).
  { rewrite Zlt_Qlt. apply Qle_lt_trans with q; [apply Qfloor_le|exact H2]. }
  lia.
Qed.


Lemma binary64_num (z : Z) : 0 <= z < 2 ^ 53 -> binary64 (num z) = num z.
Proof. apply round64_inject_Z. Qed.

(** ** Scaling a background image *)

Lemma to_dimension_num (z default : Z) :
  0 <= z <= 2147483647 -> to_dimension (num z) default = z.
Proof.
  intros Hz. unfold to_dimension, num.
  assert (Hle : Qle_bool 0 (inject_Z z) = true).
  { apply Qle_bool_iff. change 0%Q with (inject_Z 0). rewrite <- Zle_Qle. lia. }
  rewrite Hle, Qfloor_Z, Z.mod_small by lia.
  destruct (Z.leb_spec z 2147483647); [reflexivity|lia].
Qed.

Lemma num_div_num (a b : Z) :
  0 < b -> num_div (num a) (num b) = Fin (Qred (inject_Z a / inject_Z b)).
Proof.
  intros Hb.
  assert (HbQ : (0 < inject_Z b)%Q)
    by (change 0%Q with (inject_Z 0); rewrite <- Zlt_Qlt; exact Hb).
  unfold num_div, num, Qsgn.
  destruct (Qcompare_spec (inject_Z b) 0) as [E|L|G]; try reflexivity; exfalso; lra.
Qed.

Lemma num_mul_one_r (z : Z) : num_mul (num z) (num 1) = num z.
Proof.
  unfold num_mul, num. f_equal.
  rewrite (Qred_complete (inject_Z z * inject_Z 1) (inject_Z z)).
  - apply Qred_inject_Z.
  - change (inject_Z 1) with 1%Q. ring.
Qed.

Lemma inject_Z_pos (z : Z) : 0 < z -> (0 < inject_Z z)%Q.
Proof. intros H. change 0%Q with (inject_Z 0). now rewrite <- Zlt_Qlt. Qed.

Lemma inject_Z_nonneg (z : Z) : 0 <= z -> (0 <= inject_Z z)%Q.
Proof. intros H. change 0%Q with (inject_Z 0). now rewrite <- Zle_Qle. Qed.

Lemma Math_round_Fin (q : Q) : Math_round (Fin q) = num (Qfloor (q + (1 # 2))).
Proof. reflexivity. Qed.

Lemma Math_round_num (z : Z) : Math_round (num z) = num z.
Proof.
  unfold Math_round, num. f_equal. f_equal. apply Qfloor_unique.
  - lra.
  - rewrite inject_Z_plus. change (inject_Z 1) with 1%Q. lra.
Qed.

(** The quotient [maxSize / Math.max(img.width, img.height)] of an image
    that fits. *)
Lemma image_scale_small (w h M : Z) :
  0 <= w -> 0 <= h -> 1 <= M <= 2147483647 -> Z.max w h <= M ->
  image_scale w h (num M) = num 1.
Proof.
  intros Hw Hh HM Hm. unfold image_scale. rewrite Math_max_num.
  destruct (Z.eq_dec (Z.max w h) 0) as [E0|Hne].
  - rewrite E0. unfold num_div, num, Qsgn.
    change (inject_Z 0 ?= 0)%Q with Eq. cbv iota.
    pose proof (inject_Z_pos M ltac:(lia)) as HMQ.
    destruct (Qcompare_spec (inject_Z M) 0) as [E|L|G]; try reflexivity; exfalso; lra.
  - rewrite num_div_num by lia. cbn [binary64].
    pose proof (inject_Z_pos (Z.max w h) ltac:(lia)) as HmQ.
    assert (Hq : (1 <= Qred (inject_Z M / inject_Z (Z.max w h)))%Q).
    { rewrite Qred_correct. apply Qle_shift_div_l; [exact HmQ|].
      rewrite Qmult_1_l, <- Zle_Qle. exact Hm. }
    assert (Hq2 : (Qred (inject_Z M / inject_Z (Z.max w h)) < pow2 1023)%Q).
    { apply Qle_lt_trans with (inject_Z 2147483647).
      - rewrite Qred_correct. apply Qle_shift_div_r; [exact HmQ|].
        rewrite <- inject_Z_mult, <- Zle_Qle. nia.
      - apply Qlt_trans with (pow2 31); [reflexivity|now apply pow2_lt]. }
    destruct (round64_normal (Qred (inject_Z M / inject_Z (Z.max w h))))
      as (r & -> & _ & Hr & _); [|exact Hq2|].
    { apply Qle_trans with 1%Q; [|exact Hq]. change 1%Q with (pow2 0). now apply pow2_le. }
    assert (H1 : (1 <= r)%Q).
    { apply Qle_trans with (pow2 (floor_log2 (Qred (inject_Z M / inject_Z (Z.max w h)))));
        [|exact Hr].
      change 1%Q with (pow2 0). apply pow2_le.
      assert (0 < floor_log2 (Qred (inject_Z M / inject_Z (Z.max w h))) + 1); [|lia].
      apply pow2_lt_inv. apply Qle_lt_trans with (Qred (inject_Z M / inject_Z (Z.max w h))).
      - exact Hq.
      - apply floor_log2_spec. lra. }
    unfold Math_min, num, num_compare. change (inject_Z 1) with 1%Q.
    destruct (Qcompare_spec 1 r) as [E|L|G]; try reflexivity. exfalso. lra.
Qed.

(** The scale of an image that does not fit: the quotient, half a unit in
    the last place away at most. *)
Lemma image_scale_large (w h M : Z) :
  1 <= M -> M < Z.max w h -> Z.max w h < 4294967296 ->
  exists s, image_scale w h (num M) = Fin s
    /\ (Qabs (s - inject_Z M / inject_Z (Z.max w h))
        <= inject_Z M / inject_Z (Z.max w h) * pow2 (-53))%Q.
Proof.
  intros HM Hm H32. unfold image_scale. rewrite Math_max_num, num_div_num by lia.
  cbn [binary64].
  pose proof (inject_Z_pos (Z.max w h) ltac:(lia)) as HmQ.
  set (q := (inject_Z M / inject_Z (Z.max w h))%Q).
  assert (Hq1 : (pow2 (-32) <= q)%Q).
  { unfold q. apply Qle_shift_div_l; [exact HmQ|].
    assert (inject_Z (Z.max w h) <= inject_Z 4294967296)%Q by (rewrite <- Zle_Qle; lia).
    assert (inject_Z 1 <= inject_Z M)%Q by (rewrite <- Zle_Qle; lia).
    change (inject_Z 4294967296) with (4294967296 # 1)%Q in *.
    change (inject_Z 1) with 1%Q in *.
    change (pow2 (-32)) with (1 # 4294967296)%Q. lra. }
  assert (Hq2 : (q < 1)%Q).
  { unfold q. apply Qlt_shift_div_r; [exact HmQ|].
    rewrite Qmult_1_l, <- Zlt_Qlt. exact Hm. }
  destruct (round64_normal (Qred q)) as (r & -> & Hnear & Hr1 & Hr2).
  { rewrite Qred_correct. apply Qle_trans with (pow2 (-32)); [now apply pow2_le|exact Hq1]. }
  { rewrite Qred_correct. apply Qlt_trans with 1%Q; [exact Hq2|].
    change 1%Q with (pow2 0). now apply pow2_lt. }
  rewrite Qred_correct in Hnear.
  assert (Hr : (r < 1)%Q).
  { apply Qabs_Qle_condition in Hnear. destruct Hnear as [_ Hup].
    assert (Hq3 : (q <= 1 - pow2 (-32))%Q).
    { unfold q. apply Qle_shift_div_r; [exact HmQ|].
      assert (E : ((1 - pow2 (-32)) * inject_Z (Z.max w h)
                   == inject_Z (Z.max w h) - inject_Z (Z.max w h) * pow2 (-32))%Q) by ring.
      rewrite E.
      assert (Hm1 : (inject_Z M <= inject_Z (Z.max w h) - 1)%Q).
      { change 1%Q with (inject_Z 1). unfold Qminus. rewrite <- inject_Z_opp, <- inject_Z_plus.
        rewrite <- Zle_Qle. lia. }
      assert (Hm2 : (inject_Z (Z.max w h) * pow2 (-32) <= 1)%Q).
      { change (pow2 (-32)) with (1 # 4294967296)%Q.
        assert (inject_Z (Z.max w h) <= inject_Z 4294967296)%Q by (rewrite <- Zle_Qle; lia).
        change (inject_Z 4294967296) with (4294967296 # 1)%Q in *. lra. }
      lra. }
    change (pow2 (-53)) with (1 # 9007199254740992)%Q in Hup.
    change (pow2 (-32)) with (1 # 4294967296)%Q in Hq3. lra. }
  exists r. split; [|exact Hnear].
  unfold Math_min, num, num_compare. change (inject_Z 1) with 1%Q.
  destruct (Qcompare_spec 1 r) as [E|L|G]; try reflexivity; exfalso; lra.
Qed.

(** One side [x] of an image whose longer side [m] exceeds [maxSize]:
    [Math.round(x * scale)], where [scale] is the rounded quotient. *)
Lemma scaled_side (x m M : Z) (s : Q) :
  0 <= x <= m -> 1 <= M <= 2147483647 -> M < m -> m < 4294967296 ->
  (Qabs (s - inject_Z M / inject_Z m) <= inject_Z M / inject_Z m * pow2 (-53))%Q ->
  exists r, Math_round (binary64 (num_mul (num x) (Fin s))) = num r
    /\ 0 <= r <= M
    /\ (x = m -> r = M)
    /\ (Qabs (inject_Z r - inject_Z (x * M) / inject_Z m) <= (1 # 2) + pow2 (-20))%Q
    /\ (M * m <= 2 ^ 50 -> (2 * x * M + m) mod (2 * m) <> 0 ->
        r = (2 * x * M + m) / (2 * m)).
Proof.
  intros Hx HM Hm H32 Hs.
  pose proof (inject_Z_pos m ltac:(lia)) as HmQ.
  assert (Hm0 : ~ (inject_Z m == 0)%Q) by lra.
  destruct (Z.eq_dec x 0) as [->|Hx0].
  { exists 0. split; [|split; [lia|split; [lia|split]]].
    - unfold num_mul, num.
      rewrite (Qred_complete (inject_Z 0 * s) 0) by (change (inject_Z 0) with 0%Q; ring).
      reflexivity.
    - rewrite Z.mul_0_l. apply Qabs_Qle_condition.
      change (pow2 (-20)) with (1 # 1048576)%Q. change (inject_Z 0) with 0%Q.
      assert (E : (0 - 0 / inject_Z m == 0)%Q) by (field; exact Hm0).
      rewrite E. split; lra.
    - intros _ _. rewrite Z.mul_0_r, Z.mul_0_l, Z.add_0_l.
      symmetry. apply Z.div_small. lia. }
  set (X := inject_Z x) in *. set (Mq := inject_Z M) in *. set (mq := inject_Z m) in *.
  set (q := (Mq / mq)%Q) in *. set (y := (X * q)%Q).
  assert (HX1 : (1 <= X)%Q) by (change 1%Q with (inject_Z 1); unfold X; rewrite <- Zle_Qle; lia).
  assert (HX2 : (X <= mq)%Q) by (unfold X, mq; rewrite <- Zle_Qle; lia).
  assert (HM1 : (1 <= Mq)%Q) by (change 1%Q with (inject_Z 1); unfold Mq; rewrite <- Zle_Qle; lia).
  assert (HM2 : (Mq <= 2147483647 # 1)%Q)
    by (change (2147483647 # 1)%Q with (inject_Z 2147483647); unfold Mq; rewrite <- Zle_Qle; lia).
  assert (Hm32 : (mq <= 4294967296 # 1)%Q)
    by (change (4294967296 # 1)%Q with (inject_Z 4294967296); unfold mq; rewrite <- Zle_Qle; lia).
  assert (Hq0 : (1 # 4294967296 <= q)%Q).
  { unfold q. apply Qle_shift_div_l; [exact HmQ|]. lra. }
  assert (Hq1 : (q < 1)%Q).
  { unfold q. apply Qlt_shift_div_r; [exact HmQ|].
    rewrite Qmult_1_l. unfold Mq, mq. rewrite <- Zlt_Qlt. exact Hm. }
  assert (Hy1 : (q <= y)%Q).
  { assert (H : (0 <= (X - 1) * q)%Q) by (apply Qmult_le_0_compat; lra).
    assert (E : ((X - 1) * q == y - q)%Q) by (unfold y; ring).
    rewrite E in H. lra. }
  assert (Hy2 : (y <= Mq)%Q).
  { assert (H : (0 <= (mq - X) * q)%Q) by (apply Qmult_le_0_compat; lra).
    assert (E : ((mq - X) * q == Mq - y)%Q) by (unfold y, q; field; exact Hm0).
    rewrite E in H. lra. }
  assert (Hyx : (inject_Z (x * M) / mq == y)%Q).
  { rewrite inject_Z_mult. unfold y, q, X, Mq. field. exact Hm0. }
  apply Qabs_Qle_condition in Hs. change (pow2 (-53)) with (1 # 9007199254740992)%Q in Hs.
  destruct Hs as [Hs1 Hs2].
  set (P := (X * s)%Q).
  assert (HP1 : (P - y <= y * (1 # 9007199254740992))%Q).
  { assert (H : (0 <= X * (q * (1 # 9007199254740992) - (s - q)))%Q)
      by (apply Qmult_le_0_compat; lra).
    assert (E : (X * (q * (1 # 9007199254740992) - (s - q))
                 == y * (1 # 9007199254740992) - (P - y))%Q) by (unfold y, P; ring).
    rewrite E in H. lra. }
  assert (HP2 : (- (y * (1 # 9007199254740992)) <= P - y)%Q).
  { assert (H : (0 <= X * ((s - q) + q * (1 # 9007199254740992)))%Q)
      by (apply Qmult_le_0_compat; lra).
    assert (E : (X * ((s - q) + q * (1 # 9007199254740992))
                 == (P - y) + y * (1 # 9007199254740992))%Q) by (unfold y, P; ring).
    rewrite E in H. lra. }
  assert (Hp : (Qred (X * s) == P)%Q) by apply Qred_correct.
  destruct (round64_normal (Qred (X * s))) as (t & Ht & Hnear & _).
  { rewrite Hp. apply Qle_trans with (pow2 (-40)); [now apply pow2_le|].
    change (pow2 (-40)) with (1 # 1099511627776)%Q. lra. }
  { rewrite Hp. apply Qlt_trans with (pow2 40); [|now apply pow2_lt].
    change (pow2 40) with (1099511627776 # 1)%Q. lra. }
  rewrite Hp in Hnear. apply Qabs_Qle_condition in Hnear.
  change (pow2 (-53)) with (1 # 9007199254740992)%Q in Hnear.
  destruct Hnear as [Ht1 Ht2].
  pose proof (Qfloor_le (t + (1 # 2))) as Hr1.
  pose proof (Qlt_floor (t + (1 # 2))) as Hr2.
  rewrite inject_Z_plus in Hr2. change (inject_Z 1) with 1%Q in Hr2.
  exists (Qfloor (t + (1 # 2))).
  split; [|split; [|split; [|split]]].
  - unfold num_mul, num. fold X. cbn [binary64]. rewrite Ht. reflexivity.
  - split.
    + rewrite <- (Qfloor_Z 0). apply Qfloor_resp_le. change (inject_Z 0) with 0%Q. lra.
    + apply Z.lt_succ_r. rewrite Zlt_Qlt. unfold Z.succ. rewrite inject_Z_plus.
      fold Mq. change (inject_Z 1) with 1%Q. lra.
  - intros ->. apply Qfloor_unique.
    + assert (E : (y == Mq)%Q) by (unfold y, q, X; fold mq; field; exact Hm0).
      fold Mq. lra.
    + assert (E : (y == Mq)%Q) by (unfold y, q, X; fold mq; field; exact Hm0).
      rewrite inject_Z_plus. fold Mq. change (inject_Z 1) with 1%Q. lra.
  - rewrite Hyx. apply Qabs_Qle_condition.
    change (pow2 (-20)) with (1 # 1048576)%Q. split; lra.
  - intros H50 Htie.
    set (N := 2 * x * M + m) in *. set (D := 2 * m) in *.
    pose proof (Z.div_mod N D ltac:(lia)) as Hdiv.
    pose proof (Z.mod_pos_bound N D ltac:(lia)) as Hrem.
    set (k := N / D) in *. set (rho := N mod D) in *.
    assert (Hrho1 : (1 <= inject_Z rho)%Q)
      by (change 1%Q with (inject_Z 1); rewrite <- Zle_Qle; lia).
    assert (Hrho2 : (inject_Z rho <= 2 * mq - 1)%Q).
    { assert (H : (inject_Z rho <= inject_Z (D - 1))%Q) by (rewrite <- Zle_Qle; lia).
      unfold D in H. unfold Z.sub in H.
      rewrite inject_Z_plus, inject_Z_mult in H. fold mq in H.
      change (inject_Z 2) with 2%Q in H. change (inject_Z (- (1))) with (- (1))%Q in H. lra. }
    assert (HN : (2 * X * Mq + mq == 2 * mq * inject_Z k + inject_Z rho)%Q).
    { assert (H : inject_Z N = inject_Z (D * k + rho)) by (f_equal; exact Hdiv).
      unfold N, D in H. rewrite !inject_Z_plus, !inject_Z_mult in H.
      fold X Mq mq in H. change (inject_Z 2) with 2%Q in H. rewrite H. reflexivity. }
    set (u := (1 / (2 * mq))%Q).
    assert (Hu : (0 < u)%Q) by (unfold u; apply Qlt_shift_div_l; lra).
    assert (Hy : (y + (1 # 2) == inject_Z k + inject_Z rho * u)%Q).
    { assert (E : (y + (1 # 2) == (2 * X * Mq + mq) * u)%Q)
        by (unfold y, q, u; field; exact Hm0).
      rewrite E, HN. unfold u. field. exact Hm0. }
    set (ru := (inject_Z rho * u)%Q) in *.
    assert (Hru1 : (u <= ru)%Q).
    { assert (H : (0 <= (inject_Z rho - 1) * u)%Q) by (apply Qmult_le_0_compat; lra).
      assert (E : ((inject_Z rho - 1) * u == ru - u)%Q) by (unfold ru; ring).
      rewrite E in H. lra. }
    assert (Hru2 : (ru <= 1 - u)%Q).
    { assert (H : (0 <= (2 * mq - 1 - inject_Z rho) * u)%Q) by (apply Qmult_le_0_compat; lra).
      assert (E : ((2 * mq - 1 - inject_Z rho) * u == 1 - u - ru)%Q)
        by (unfold ru, u; field; exact Hm0).
      rewrite E in H. lra. }
    assert (Hdelta : (Mq * (3 # 9007199254740992) < u)%Q).
    { unfold u. apply Qlt_shift_div_l; [lra|].
      assert (HW : (Mq * mq <= 1125899906842624 # 1)%Q).
      { unfold Mq, mq. rewrite <- inject_Z_mult.
        change (1125899906842624 # 1)%Q with (inject_Z (2 ^ 50)). rewrite <- Zle_Qle. exact H50. }
      set (W := (Mq * mq)%Q) in *.
      assert (E : (Mq * (3 # 9007199254740992) * (2 * mq) == W * (6 # 9007199254740992))%Q)
        by (unfold W; ring).
      rewrite E. lra. }
    apply Qfloor_unique.
    + lra.
    + rewrite inject_Z_plus. change (inject_Z 1) with 1%Q. lra.
Qed.

(** X1. The canvas that holds a background image is never larger than
    [maxSize] on either side and never smaller than one pixel.  An image whose
    sides are both at most [maxSize] keeps its size (an empty side becomes one
    pixel).  A larger image is scaled so that its longer side is exactly
    [maxSize]; each side is [side * maxSize / longer] rounded to an integer
    next to it, and is that quotient rounded to the nearest integer whenever
    the quotient is not half-way between two integers and
    [maxSize * longer <= 2^50].  Half-way, the rounding of the scale to
    binary64 decides between the two neighbours. *)
Theorem background_image_fits (w h M : Z)
    (Hw : 0 <= w < 4294967296) (Hh : 0 <= h < 4294967296) (HM : 1 <= M <= 2147483647) :
  let c := createImageCanvasFromDataUrl w h (num M) in
  let m := Z.max w h in
  1 <= cv_width c <= M
  /\ 1 <= cv_height c <= M
  /\ (m <= M -> c = mkCanvas (Z.max 1 w) (Z.max 1 h))
  /\ (M < m ->
      Z.max (cv_width c) (cv_height c) = M
      /\ exists rw rh,
           c = mkCanvas (Z.max 1 rw) (Z.max 1 rh)
           /\ (Qabs (inject_Z rw - inject_Z (w * M) / inject_Z m) <= (1 # 2) + pow2 (-20))%Q
           /\ (Qabs (inject_Z rh - inject_Z (h * M) / inject_Z m) <= (1 # 2) + pow2 (-20))%Q
           /\ (M * m <= 2 ^ 50 -> (2 * w * M + m) mod (2 * m) <> 0 ->
               rw = (2 * w * M + m) / (2 * m))
           /\ (M * m <= 2 ^ 50 -> (2 * h * M + m) mod (2 * m) <> 0 ->
               rh = (2 * h * M + m) / (2 * m))).
Proof.
  cbv zeta.
  destruct (Z_le_gt_dec (Z.max w h) M) as [Hsmall|Hlarge].
  - assert (E : createImageCanvasFromDataUrl w h (num M)
                = mkCanvas (Z.max 1 w) (Z.max 1 h)).
    { unfold createImageCanvasFromDataUrl. rewrite image_scale_small by lia.
      rewrite !num_mul_one_r, !binary64_num by lia.
      rewrite !Math_round_num, !Math_max_num.
      now rewrite !to_dimension_num by lia. }
    rewrite E. cbn [cv_width cv_height]. repeat split; try lia.
  - destruct (image_scale_large w h M) as (s & Es & Hs); try lia.
    destruct (scaled_side w (Z.max w h) M s) as (rw & Ew & Hrw & Hmw & Hnw & Htw);
      try lia; try exact Hs.
    destruct (scaled_side h (Z.max w h) M s) as (rh & Eh & Hrh & Hmh & Hnh & Hth);
      try lia; try exact Hs.
    assert (E : createImageCanvasFromDataUrl w h (num M)
                = mkCanvas (Z.max 1 rw) (Z.max 1 rh)).
    { unfold createImageCanvasFromDataUrl. rewrite Es, Ew, Eh, !Math_max_num.
      now rewrite !to_dimension_num by lia. }
    rewrite E. cbn [cv_width cv_height].
    split; [lia|]. split; [lia|]. split; [lia|]. intros _. split.
    + destruct (Z.max_spec w h) as [[_ Em]|[_ Em]].
      * rewrite (Hmh (eq_sym Em)). lia.
      * rewrite (Hmw (eq_sym Em)). lia.
    + exists rw, rh. repeat split; assumption.
Qed.

Lemma background_image_fits_witness :
  createImageCanvasFromDataUrl 1920 1080 (num 512) = mkCanvas 512 288
  /\ createImageCanvasFromDataUrl 300 0 (num 512) = mkCanvas 300 1.
Proof.
  split.
  - destruct (background_image_fits 1920 1080 512) as (_ & _ & _ & Hlarge); try lia.
    assert (Hlt : 512 < Z.max 1920 1080) by reflexivity.
    destruct (Hlarge Hlt) as (_ & rw & rh & E & _ & _ & Ew & Eh).
    rewrite E, Ew, Eh; [reflexivity| | | |]; vm_compute; congruence.
  - destruct (background_image_fits 300 0 512) as (_ & _ & Hsmall & _); try lia.
    apply Hsmall. simpl. lia.
Defined.

(** An image of 50176 by 147 pixels scaled to 512: the height
    [147 * 512 / 50176] is 1.5 exactly, the rounded scale makes it a little
    less, and the canvas is one pixel high. *)
Example background_image_half_way :
  (2 * 147 * 512 + 50176) mod (2 * 50176) = 0
  /\ createImageCanvasFromDataUrl 50176 147 (num 512) = mkCanvas 512 1.
Proof. split; vm_compute; reflexivity. Qed.

(** ** The channels of a colour *)

Lemma hex_value_range (c : ascii) (v : Z) : hex_value c = Some v -> 0 <= v <= 15.
Proof.
  unfold hex_value. intros H.
  destruct (Z.leb_spec 48 (Z.of_N (N_of_ascii c))), (Z.leb_spec (Z.of_N (N_of_ascii c)) 57);
    cbn [andb] in H; try (inversion H; lia);
    destruct (Z.leb_spec 97 (Z.of_N (N_of_ascii c))),
             (Z.leb_spec (Z.of_N (N_of_ascii c)) 102);
    cbn [andb] in H; try (inversion H; lia);
    destruct (Z.leb_spec 65 (Z.of_N (N_of_ascii c))),
             (Z.leb_spec (Z.of_N (N_of_ascii c)) 70);
    cbn [andb] in H; try (inversion H; lia); discriminate.
Qed.

(** A digit is no white space, no sign and not the ["x"] of a prefix. *)
Lemma hex_value_plain (c : ascii) (v : Z) :
  hex_value c = Some v ->
  is_white_space c = false /\ c <> "-"%char /\ c <> "+"%char
  /\ c <> "x"%char /\ c <> "X"%char.
Proof.
  intros H.
  destruct c as [[] [] [] [] [] [] [] []]; vm_compute in H; try discriminate H;
    repeat split; try reflexivity; discriminate.
Qed.

(** On text that starts with neither white space, a sign nor a prefix,
    [parseInt] reads the digits. *)
Lemma parseInt_16_plain (a : ascii) (r : string) :
  is_white_space a = false -> a <> "-"%char -> a <> "+"%char ->
  (forall b r', r = String b r' -> b <> "x"%char /\ b <> "X"%char) ->
  parseInt_16 (String a r)
  = match parse_hex_digits (String a r) None with
    | Some n => num (1 * n)
    | None => NaN
    end.
Proof.
  intros Hw Hm Hp Hx. unfold parseInt_16. cbn [trim_start]. rewrite Hw.
  destruct a as [[] [] [] [] [] [] [] []]; try congruence; try reflexivity.
  destruct r as [|b r']; [reflexivity|].
  destruct (Hx b r' eq_refl) as [Hb HB].
  destruct b as [[] [] [] [] [] [] [] []]; try congruence; reflexivity.
Qed.

Lemma parseInt_16_pair (a b : ascii) (x y : Z) :
  hex_value a = Some x -> hex_value b = Some y ->
  parseInt_16 (String a (String b EmptyString)) = num (16 * x + y).
Proof.
  intros Ha Hb.
  destruct (hex_value_plain a x Ha) as (Hw & Hm & Hp & _).
  destruct (hex_value_plain b y Hb) as (_ & _ & _ & Hx & HX).
  rewrite parseInt_16_plain; try assumption.
  - cbn [parse_hex_digits]. rewrite Ha, Hb. cbv [default from_option id]. f_equal. lia.
  - intros b0 r' E. inversion E; subst. now split.
Qed.

Lemma parseInt_16_single (a : ascii) (x : Z) :
  hex_value a = Some x -> parseInt_16 (String a EmptyString) = num x.
Proof.
  intros Ha.
  destruct (hex_value_plain a x Ha) as (Hw & Hm & Hp & _).
  rewrite parseInt_16_plain; try assumption.
  - cbn [parse_hex_digits]. rewrite Ha. cbv [default from_option id]. f_equal. lia.
  - intros b0 r' E. discriminate E.
Qed.

Lemma parseInt_16_empty : parseInt_16 EmptyString = NaN.
Proof. reflexivity. Qed.

(** X2. For a colour written as any first character (the ["#"]) followed by
    six hexadecimal digits, in either case, the channels [hexToRgba] writes
    are the three bytes the digits spell, each between 0 and 255; whatever
    follows the sixth digit is ignored.  The short form, three digits after
    the first character, is not expanded: its first two digits are read as
    red, the third alone as green, and blue is NaN. *)
Theorem hexToRgba_reads_six_digits (c0 d1 d2 d3 d4 d5 d6 : ascii) (v1 v2 v3 v4 v5 v6 : Z)
    (rest : string)
    (H1 : hex_value d1 = Some v1) (H2 : hex_value d2 = Some v2)
    (H3 : hex_value d3 = Some v3) (H4 : hex_value d4 = Some v4)
    (H5 : hex_value d5 = Some v5) (H6 : hex_value d6 = Some v6) :
  let long :=
    String c0 (String d1 (String d2 (String d3 (String d4 (String d5 (String d6 rest)))))) in
  let short := String c0 (String d1 (String d2 (String d3 EmptyString))) in
  hexToRgba_channels long = (num (16 * v1 + v2), num (16 * v3 + v4), num (16 * v5 + v6))
  /\ 0 <= 16 * v1 + v2 <= 255 /\ 0 <= 16 * v3 + v4 <= 255 /\ 0 <= 16 * v5 + v6 <= 255
  /\ hexToRgba_channels short = (num (16 * v1 + v2), num v3, NaN).
Proof.
  cbv zeta.
  pose proof (hex_value_range _ _ H1). pose proof (hex_value_range _ _ H2).
  pose proof (hex_value_range _ _ H3). pose proof (hex_value_range _ _ H4).
  pose proof (hex_value_range _ _ H5). pose proof (hex_value_range _ _ H6).
  assert (Hlen : forall n : nat,
            Z.min 7 (Z.of_nat (S (S (S (S (S (S (S n)))))))) = 7
            /\ Z.min 5 (Z.of_nat (S (S (S (S (S (S (S n)))))))) = 5
            /\ Z.min 3 (Z.of_nat (S (S (S (S (S (S (S n)))))))) = 3
            /\ Z.min 1 (Z.of_nat (S (S (S (S (S (S (S n)))))))) = 1) by (intros; lia).
  split; [|split; [lia|split; [lia|split; [lia|]]]].
  - unfold hexToRgba_channels, js_slice, slice_index. cbn [String.length].
    destruct (Hlen (String.length rest)) as (-> & -> & -> & ->).
    destruct rest; lazy -[parseInt_16 Z.mul num].
    all: 
    rewrite (parseInt_16_pair d1 d2 v1 v2), (parseInt_16_pair d3 d4 v3 v4),
      (parseInt_16_pair d5 d6 v5 v6) by assumption.
    all: reflexivity.
  - unfold hexToRgba_channels, js_slice, slice_index.
    lazy -[parseInt_16 Z.mul num].
    rewrite (parseInt_16_pair d1 d2 v1 v2), (parseInt_16_single d3 v3) by assumption.
    reflexivity.
Qed.

Lemma hexToRgba_reads_six_digits_witness :
  hexToRgba_channels "#8b5cf6" = (num 139, num 92, num 246)
  /\ hexToRgba_channels "#fff" = (num 255, num 15, NaN).
Proof.
  destruct (hexToRgba_reads_six_digits "#" "8" "b" "5" "c" "f" "6" 8 11 5 12 15 6
              EmptyString eq_refl eq_refl eq_refl eq_refl eq_refl eq_refl)
    as (Hlong & _).
  destruct (hexToRgba_reads_six_digits "#" "f" "f" "f" "f" "f" "f" 15 15 15 15 15 15
              EmptyString eq_refl eq_refl eq_refl eq_refl eq_refl eq_refl)
    as (_ & _ & _ & _ & Hshort).
  split; [exact Hlong|exact Hshort].
Defined.

(** ** The size of the canvas after a resize *)








(** ** The bars of the spectrum *)

(** The rounds of a loop that counts up from [i]. *)
Fixpoint count_from (rounds_left : nat) (i : Z) : list Z :=
  match rounds_left with
  | O => []
  | S rounds_left' => i :: count_from rounds_left' (i + 1)
  end.

Lemma count_from_range (rounds_left : nat) (i k : Z) :
  In k (count_from rounds_left i) <-> i <= k < i + Z.of_nat rounds_left.
Proof.
  revert i. induction rounds_left as [|n IH]; intros i; cbn [count_from In].
  - lia.
  - rewrite IH. lia.
Qed.

Lemma count_from_length (rounds_left : nat) (i : Z) :
  length (count_from rounds_left i) = rounds_left.
Proof.
  revert i. induction rounds_left as [|n IH]; intros i; cbn [count_from length];
    [reflexivity|now rewrite IH].
Qed.

(** Bar [j] as the Bars renderer draws it: its left edge is [j] times the
    pitch [barWidth + 1]. *)
Definition bar_calls (dataArray : list Z) (HEIGHT barWidth : Number)
    (primary secondary : string) (j : Z) : list CanvasOp :=
  let barHeight := num_mul (num_div (byte_at dataArray j) (num 255)) HEIGHT in
  [ SetFillStyle (bar_gradient HEIGHT (num_sub HEIGHT barHeight) primary secondary);
    FillRect (num_mul (num j) (num_add barWidth (num 1))) (num_sub HEIGHT barHeight)
      barWidth barHeight ].

(** The index of the last bar drawn from [n] bins on a canvas [w] pixels
    wide. *)
Definition last_bar (w n : Z) : Z := 2 * n * w / (5 * w + 2 * n).

Lemma last_bar_bounds (w n : Z) :
  1 <= n -> 0 <= w ->
  0 <= last_bar w n < n /\ 5 * last_bar w n < 2 * n
  /\ last_bar w n * (5 * w + 2 * n) <= 2 * n * w
  /\ 2 * n * w < (last_bar w n + 1) * (5 * w + 2 * n).
Proof.
  intros Hn Hw. unfold last_bar.
  assert (Hd : 0 < 5 * w + 2 * n) by lia.
  pose proof (Z.mul_div_le (2 * n * w) _ Hd) as Hlo.
  pose proof (Z.mul_succ_div_gt (2 * n * w) _ Hd) as Hhi.
  assert (H0 : 0 <= 2 * n * w / (5 * w + 2 * n)) by (apply Z.div_pos; nia).
  repeat split; try nia.
Qed.

(** The pitch of the bars, [barWidth + 1], as a fraction. *)
Lemma bar_pitch (w n : Z) :
  0 < n ->
  exists pitch,
    num_add (num_mul (num_div (num w) (num n)) (Fin (5 # 2))) (num 1) = Fin pitch
    /\ (pitch == (5 * w + 2 * n) # Z.to_pos (2 * n))%Q.
Proof.
  intros Hn. rewrite num_div_num by exact Hn.
  eexists. split; [reflexivity|].
  rewrite !Qred_correct. unfold Qeq, Qdiv, Qmult, Qplus, Qinv, inject_Z. simpl.
  destruct n as [|p|p]; try lia. simpl. lia.
Qed.

Lemma bar_next_x (j : Z) (pitch : Q) :
  num_add (num_mul (num j) (Fin pitch)) (Fin pitch) = num_mul (num (j + 1)) (Fin pitch).
Proof.
  unfold num_add, num_mul, num. f_equal. apply Qred_complete.
  rewrite Qred_correct, inject_Z_plus. change (inject_Z 1) with 1%Q. ring.
Qed.

(** The test [x > WIDTH] that ends the loop, at the left edge of bar [j]. *)
Lemma bar_beyond (j w n : Z) (pitch : Q) :
  0 < n ->
  (pitch == (5 * w + 2 * n) # Z.to_pos (2 * n))%Q ->
  num_gt (num_mul (num j) (Fin pitch)) (num w)
  = negb (j * (5 * w + 2 * n) <=? 2 * n * w).
Proof.
  intros Hn Hp. unfold num_gt, num_lt, num_mul, num, num_compare.
  assert (E : (Qred (inject_Z j * pitch) == (j * (5 * w + 2 * n)) # Z.to_pos (2 * n))%Q).
  { rewrite Qred_correct, Hp. unfold Qeq, Qmult, inject_Z. simpl. lia. }
  destruct (Qcompare_spec (inject_Z w) (Qred (inject_Z j * pitch))) as [H|H|H];
    rewrite E in H; unfold Qeq, Qlt, inject_Z in H; simpl in H;
    rewrite Z2Pos.id in H by lia;
    destruct (Z.leb_spec (j * (5 * w + 2 * n)) (2 * n * w)); simpl; try reflexivity; lia.
Qed.

Lemma bar_gradient_finite (h b : Z) :
  forallb is_finite
    [num 0; num h; num 0;
     num_sub (num h) (num_mul (num_div (num b) (num 255)) (num h))] = true.
Proof. reflexivity. Qed.

Lemma drawBars_loop_trace (remaining : nat) (j : Z) (dataArray : list Z) (w h n : Z)
    (pitch : Q) (primary secondary : string) (s : State) :
  ctx (this s) = true ->
  color_parses (world s) (Css primary) = true ->
  color_parses (world s) (Css secondary) = true ->
  1 <= n -> 0 <= w -> 0 <= j <= last_bar w n ->
  (forall k, j <= k < j + Z.of_nat remaining -> exists b, byte_at dataArray k = num b) ->
  let barWidth := num_mul (num_div (num w) (num n)) (Fin (5 # 2)) in
  num_add barWidth (num 1) = Fin pitch ->
  (pitch == (5 * w + 2 * n) # Z.to_pos (2 * n))%Q ->
  drawBars_loop remaining j (num_mul (num j) (Fin pitch)) dataArray (num w) (num h)
    barWidth primary secondary s
  = (Normal tt,
     paint (flat_map (bar_calls dataArray (num h) barWidth primary secondary)
              (count_from (Nat.min remaining (Z.to_nat (last_bar w n - j + 1))) j)) s).
Proof.
  intros Hctx Hprimary Hsecondary Hn Hw. revert j s Hctx Hprimary Hsecondary.
  induction remaining as [|r IH];
    intros j s Hctx Hprimary Hsecondary Hj Hdata barWidth Hpitch Hp.
  - simpl. now rewrite paint_nil.
  - destruct (last_bar_bounds w n Hn Hw) as (_ & _ & Hlo & Hhi).
    cbn [drawBars_loop]. destruct (Hdata j ltac:(lia)) as [b Hb].
    rewrite run_bind. unfold createLinearGradient at 1. rewrite Hctx, Hb.
    rewrite bar_gradient_finite. cbn [negb].
    rewrite run_bind, addColorStop_run, Hsecondary by now left.
    rewrite run_bind, addColorStop_run, Hprimary by now right.
    rewrite run_bind, ctx_call_ok by exact Hctx.
    rewrite run_bind, ctx_call_ok by exact Hctx.
    fold barWidth. rewrite Hpitch, bar_next_x, (bar_beyond (j + 1) w n) by (lia || exact Hp).
    replace (Nat.min (S r) (Z.to_nat (last_bar w n - j + 1)))
      with (S (Nat.min r (Z.to_nat (last_bar w n - (j + 1) + 1)))) by lia.
    cbn [count_from flat_map].
    assert (Hbar : bar_calls dataArray (num h) barWidth primary secondary j
                   = [ SetFillStyle
                         (Grad (with_stop (num 1) (Css primary)
                                  (with_stop (num 0) (Css secondary)
                                     (mkGradient
                                        [num 0; num h; num 0;
                                         num_sub (num h)
                                           (num_mul (num_div (num b) (num 255)) (num h))]
                                        []))));
                       FillRect (num_mul (num j) (Fin pitch))
                         (num_sub (num h) (num_mul (num_div (num b) (num 255)) (num h)))
                         barWidth (num_mul (num_div (num b) (num 255)) (num h)) ]).
    { unfold bar_calls, bar_gradient. rewrite Hb, Hpitch. reflexivity. }
    destruct (Z.leb_spec ((j + 1) * (5 * w + 2 * n)) (2 * n * w)) as [Hin|Hout]; cbn [negb].
    + assert (Hj1 : j + 1 <= last_bar w n) by nia.
      rewrite IH; try assumption; try lia; try (now rewrite color_parses_paint).
      * rewrite !paint_paint, Hbar. reflexivity.
      * intros k Hk. apply Hdata. lia.
    + assert (Hj1 : last_bar w n < j + 1) by nia.
      replace (Z.to_nat (last_bar w n - (j + 1) + 1)) with 0%nat by lia.
      rewrite Nat.min_0_r. cbn [count_from app]. rewrite app_nil_r.
      unfold ret. rewrite paint_paint, Hbar. reflexivity.
Qed.

(** X4. When the browser can parse the two configured colours, the Bars
    renderer completes and draws the bins [0] to [last] and no other, where
    [last = floor(2 n w / (5 w + 2 n))] for [n] bins on a canvas [w] pixels
    wide: the loop ends as soon as the next left edge is beyond the canvas.
    Bar [j] is one [fillRect] whose left edge is [j * (barWidth + 1)], within
    the canvas, and whose height is the byte of bin [j] over 255 times the
    canvas height.  Since [5 * last < 2 * n], fewer than two fifths of the
    bins (plus one) are ever drawn: on a canvas 800 wide, 271 of 1024. *)
Theorem bars_cover_the_low_bins (a : AnalyserNode) (w h : Z) (s : State)
    (Hctx : ctx (this s) = true)
    (Han : analyser (this s) = Some a)
    (Hn : 1 <= frequencyBinCount a)
    (Hw : 0 <= w)
    (Hprimary : color_parses (world s) (Css (primaryColor (config (this s)))) = true)
    (Hsecondary : color_parses (world s) (Css (secondaryColor (config (this s)))) = true) :
  let n := frequencyBinCount a in
  let barWidth := num_mul (num_div (num w) (num n)) (Fin (5 # 2)) in
  let data := fill_bytes (frequency (world s)) (Z.to_nat n) (draw_dataArray a) in
  let last := last_bar w n in
  drawBars (draw_dataArray a) (num w) (num h) n s
  = (Normal tt,
     paint (flat_map (bar_calls data (num h) barWidth
                        (primaryColor (config (this s)))
                        (secondaryColor (config (this s))))
              (count_from (Z.to_nat (last + 1)) 0)) s)
  /\ 0 <= last < n
  /\ 5 * last < 2 * n
  /\ (forall j, 0 <= j <= last ->
        byte_at data j = num (frequency (world s) (Z.to_nat j) mod 256)
        /\ num_gt (num_mul (num j) (num_add barWidth (num 1))) (num w) = false)
  /\ last_bar 800 1024 = 270.
Proof.
  cbv zeta. set (n := frequencyBinCount a).
  destruct (last_bar_bounds w n Hn Hw) as (Hlast & Hfifth & Hlo & Hhi).
  destruct (bar_pitch w n ltac:(lia)) as (pitch & Hpitch & Hp).
  assert (Hbytes : forall k, 0 <= k < n ->
            byte_at (fill_bytes (frequency (world s)) (Z.to_nat n) (draw_dataArray a)) k
            = num (frequency (world s) (Z.to_nat k) mod 256)).
  { intros k Hk. apply byte_at_fill; try lia.
    unfold draw_dataArray. rewrite new_Uint8Array_length. fold n. lia. }
  split; [|split; [exact Hlast|split; [exact Hfifth|split; [|reflexivity]]]].
  - unfold drawBars. rewrite run_bind. unfold getByteFrequencyData at 1. rewrite Han.
    fold n. rewrite run_bind_gets, run_bind_gets.
    rewrite <- (num_mul_zero_l pitch).
    rewrite (drawBars_loop_trace _ 0 _ w h n pitch); try assumption; try lia.
    + rewrite rounds_one.
      replace (Nat.min (Z.to_nat n) (Z.to_nat (last_bar w n - 0 + 1)))
        with (Z.to_nat (last_bar w n + 1)) by lia.
      reflexivity.
    + intros k Hk. eexists. apply Hbytes. rewrite rounds_one in Hk. lia.
  - intros j Hj. split; [apply Hbytes; lia|].
    rewrite Hpitch, (bar_beyond j w n pitch) by (lia || exact Hp).
    destruct (Z.leb_spec (j * (5 * w + 2 * n)) (2 * n * w)); [reflexivity|nia].
Qed.

Lemma bars_cover_the_low_bins_witness :
  ctx (this example_playing) = true
  /\ analyser (this example_playing) = Some example_analyser
  /\ last_bar 800 (frequencyBinCount example_analyser) = 270
  /\ 5 * last_bar 800 (frequencyBinCount example_analyser)
     < 2 * frequencyBinCount example_analyser.
Proof.
  split; [exact example_playing_ctx|]. split; [exact example_playing_analyser|].
  split; [reflexivity|].
  assert (Hn : 1 <= frequencyBinCount example_analyser) by (vm_compute; discriminate).
  assert (Hw : 0 <= 800) by lia.
  assert (Hprimary : color_parses (world example_playing)
                       (Css (primaryColor (config (this example_playing)))) = true)
    by (vm_compute; reflexivity).
  assert (Hsecondary : color_parses (world example_playing)
                         (Css (secondaryColor (config (this example_playing)))) = true)
    by (vm_compute; reflexivity).
  destruct (bars_cover_the_low_bins example_analyser 800 200 example_playing
              example_playing_ctx example_playing_analyser Hn Hw Hprimary Hsecondary)
    as (_ & _ & Hfifth & _).
  exact Hfifth.
Defined.

(** ** The line of the waveform *)

(** Point [i] of the main line and point [k] of the second line, which reads
    every fifth sample: [moveTo] for the first point, [lineTo] after. *)
Definition wave_point (dataArray : list Z) (HEIGHT sliceWidth : Number) (i : Z) : CanvasOp :=
  let v := num_div (byte_at dataArray i) (num 128) in
  let p := Cart (num_mul (num i) sliceWidth) (num_div (num_mul v HEIGHT) (num 2)) in
  if i =? 0 then MoveTo p else LineTo p.

Definition wave_aux_point (dataArray : list Z) (HEIGHT sliceWidth : Number) (k : Z)
  : CanvasOp :=
  let v := num_div (byte_at dataArray (5 * k)) (num 128) in
  let p := Cart (num_mul (num k) (num_mul sliceWidth (num 5)))
             (num_add (num_div (num_mul v HEIGHT) (num 2)) (num 5)) in
  if k =? 0 then MoveTo p else LineTo p.

Lemma drawWave_main_trace (remaining : nat) (i : Z) (dataArray : list Z)
    (HEIGHT : Number) (q : Q) (s : State) :
  ctx (this s) = true ->
  drawWave_main remaining i (num_mul (num i) (Fin q)) dataArray HEIGHT (Fin q) s
  = (Normal tt, paint (List.map (wave_point dataArray HEIGHT (Fin q))
                         (count_from remaining i)) s).
Proof.
  revert i s. induction remaining as [|r IH]; intros i s Hctx.
  - simpl. now rewrite paint_nil.
  - cbn [drawWave_main count_from List.map]. rewrite run_bind.
    assert (Hstep : forall op, ctx_call op s = (Normal tt, paint [op] s))
      by (intros; now apply ctx_call_ok).
    unfold wave_point at 1.
    destruct (i =? 0); rewrite Hstep, bar_next_x, IH, paint_paint by exact Hctx;
      reflexivity.
Qed.

Lemma drawWave_aux_trace (remaining : nat) (k : Z) (dataArray : list Z)
    (HEIGHT : Number) (q : Q) (s : State) :
  ctx (this s) = true ->
  drawWave_aux remaining (5 * k) (num_mul (num k) (num_mul (Fin q) (num 5)))
    dataArray HEIGHT (Fin q) s
  = (Normal tt, paint (List.map (wave_aux_point dataArray HEIGHT (Fin q))
                         (count_from remaining k)) s).
Proof.
  revert k s. induction remaining as [|r IH]; intros k s Hctx.
  - simpl. now rewrite paint_nil.
  - cbn [drawWave_aux count_from List.map]. rewrite run_bind.
    assert (Hstep : forall op, ctx_call op s = (Normal tt, paint [op] s))
      by (intros; now apply ctx_call_ok).
    unfold wave_aux_point at 1.
    replace (5 * k =? 0) with (k =? 0)
      by (destruct (Z.eqb_spec k 0), (Z.eqb_spec (5 * k) 0); try reflexivity; lia).
    replace (5 * k + 5) with (5 * (k + 1)) by lia.
    change (num_mul (Fin q) (num 5)) with (Fin (Qred (q * inject_Z 5))).
    destruct (k =? 0); rewrite Hstep, bar_next_x, IH, paint_paint by exact Hctx;
      reflexivity.
Qed.

(** Where the main line plots a byte: [b / 128 * h / 2], that is
    [b * h / 256]. *)
Lemma wave_height (b h : Z) :
  exists y,
    num_div (num_mul (num_div (num b) (num 128)) (num h)) (num 2) = Fin y
    /\ (y == inject_Z (b * h) / 256)%Q.
Proof.
  eexists. split; [reflexivity|].
  rewrite !Qred_correct. rewrite inject_Z_mult.
  change (inject_Z 128) with 128%Q. change (inject_Z 2) with 2%Q. field.
Qed.

Lemma wave_abscissa (i w n : Z) :
  0 < n ->
  exists x,
    num_mul (num i) (num_div (num w) (num n)) = Fin x
    /\ (x == inject_Z (i * w) / inject_Z n)%Q.
Proof.
  intros Hn. rewrite num_div_num by exact Hn.
  eexists. split; [reflexivity|].
  assert (HnQ : ~ (inject_Z n == 0)%Q).
  { intros E. change 0%Q with (inject_Z 0) in E.
    destruct (inject_Z_injective n 0) as [Hinj _]. apply Hinj in E. lia. }
  rewrite !Qred_correct, inject_Z_mult. field. exact HnQ.
Qed.

(** X5. The Wave renderer plots one point of its main line per byte of the
    array, point [i] at [x = i * WIDTH / n] and [y = b * HEIGHT / 256] for the
    byte [b] read at [i], then closes the line at the middle of the right edge;
    its second line has one point for every fifth byte, five pixels lower.
    Every point of the main line lies within the canvas, and the byte 128 is
    plotted at exactly half the height. *)
Theorem wave_follows_the_samples (a : AnalyserNode) (w h : Z) (s : State)
    (Hctx : ctx (this s) = true)
    (Han : analyser (this s) = Some a)
    (Hn : 1 <= frequencyBinCount a)
    (Hw : 0 <= w) (Hh : 0 <= h) :
  let n := frequencyBinCount a in
  let sliceWidth := num_div (num w) (num n) in
  let data := fill_bytes (timeDomain (world s)) (Z.to_nat (fftSize a)) (draw_dataArray a) in
  drawWave (draw_dataArray a) (num w) (num h) n s
  = (Normal tt,
     paint ([ SetLineWidth (num 2);
              SetStrokeStyle (Solid (Css (primaryColor (config (this s))))); BeginPath ]
            ++ List.map (wave_point data (num h) sliceWidth) (count_from (Z.to_nat n) 0)
            ++ [ LineTo (Cart (num w) (num_div (num h) (num 2))); Stroke;
                 SetLineWidth (num 1);
                 SetStrokeStyle (Solid (Css (secondaryColor (config (this s))))); BeginPath ]
            ++ List.map (wave_aux_point data (num h) sliceWidth)
                 (count_from (rounds n 5) 0)
            ++ [ Stroke ]) s)
  /\ (forall i, 0 <= i < n ->
        let b := timeDomain (world s) (Z.to_nat i) mod 256 in
        exists x y,
          wave_point data (num h) sliceWidth i
          = (if i =? 0 then MoveTo (Cart (Fin x) (Fin y)) else LineTo (Cart (Fin x) (Fin y)))
          /\ (x == inject_Z (i * w) / inject_Z n)%Q
          /\ (y == inject_Z (b * h) / 256)%Q
          /\ (0 <= x <= inject_Z w)%Q /\ (0 <= y <= inject_Z h)%Q
          /\ (b = 128 -> (y == inject_Z h / 2)%Q)).
Proof.
  cbv zeta. set (n := frequencyBinCount a).
  assert (Hsw : num_div (num w) (num n) = Fin (Qred (inject_Z w / inject_Z n)))
    by (apply num_div_num; lia).
  assert (Hbytes : forall k, 0 <= k < n ->
            byte_at (fill_bytes (timeDomain (world s)) (Z.to_nat (fftSize a))
                       (draw_dataArray a)) k
            = num (timeDomain (world s) (Z.to_nat k) mod 256)).
  { intros k Hk. apply byte_at_fill; try lia.
    - subst n. unfold frequencyBinCount in Hk.
      pose proof (Z.mul_div_le (fftSize a) 2 ltac:(lia)). lia.
    - unfold draw_dataArray. rewrite new_Uint8Array_length. fold n. lia. }
  split.
  - unfold drawWave. rewrite run_bind. unfold getByteTimeDomainData at 1. rewrite Han.
    fold n. rewrite run_bind_gets, run_bind_gets.
    rewrite run_bind, ctx_call_ok by exact Hctx.
    rewrite run_bind, ctx_call_ok by exact Hctx.
    rewrite run_bind, ctx_call_ok by exact Hctx.
    rewrite Hsw.
    rewrite <- (num_mul_zero_l (Qred (inject_Z w / inject_Z n))) at 1.
    rewrite run_bind, drawWave_main_trace by exact Hctx.
    rewrite run_bind, ctx_call_ok by exact Hctx.
    rewrite run_bind, ctx_call_ok by exact Hctx.
    rewrite run_bind, ctx_call_ok by exact Hctx.
    rewrite run_bind, ctx_call_ok by exact Hctx.
    rewrite run_bind, ctx_call_ok by exact Hctx.
    change (num 0) with (num_mul (num 0) (num_mul (Fin (Qred (inject_Z w / inject_Z n)))
                                           (num 5))) at 1.
    change 0 with (5 * 0) at 1.
    rewrite run_bind, drawWave_aux_trace by exact Hctx.
    rewrite ctx_call_ok by exact Hctx.
    rewrite !paint_paint, rounds_one. reflexivity.
  - intros i Hi.
    set (b := timeDomain (world s) (Z.to_nat i) mod 256).
    assert (Hb : 0 <= b < 256) by (apply Z.mod_pos_bound; lia).
    destruct (wave_abscissa i w n ltac:(lia)) as (x & Ex & Hx).
    destruct (wave_height b h) as (y & Ey & Hy).
    exists x, y. unfold wave_point. rewrite Hbytes by exact Hi. fold b.
    rewrite Ex, Ey. split; [reflexivity|].
    split; [exact Hx|]. split; [exact Hy|].
    assert (HnQ : (0 < inject_Z n)%Q)
      by (change 0%Q with (inject_Z 0); rewrite <- Zlt_Qlt; lia).
    assert (Hiw : (0 <= inject_Z (i * w) <= inject_Z w * inject_Z n)%Q).
    { rewrite <- inject_Z_mult. change 0%Q with (inject_Z 0).
      rewrite <- !Zle_Qle. nia. }
    assert (Hbh : (0 <= inject_Z (b * h) <= inject_Z h * 256)%Q).
    { change 256%Q with (inject_Z 256). rewrite <- inject_Z_mult.
      change 0%Q with (inject_Z 0). rewrite <- !Zle_Qle. nia. }
    split; [|split].
    + rewrite Hx. split.
      * apply Qle_shift_div_l; [exact HnQ|]. lra.
      * apply Qle_shift_div_r; [exact HnQ|]. lra.
    + rewrite Hy. split.
      * apply Qle_shift_div_l; [reflexivity|]. lra.
      * apply Qle_shift_div_r; [reflexivity|]. lra.
    + intros E. rewrite Hy, E, inject_Z_mult. change (inject_Z 128) with 128%Q. field.
Qed.

Lemma wave_follows_the_samples_witness :
  ctx (this example_playing) = true
  /\ analyser (this example_playing) = Some example_analyser
  /\ 1 <= frequencyBinCount example_analyser
  /\ exists x y,
       wave_point
         (fill_bytes (timeDomain (world example_playing))
            (Z.to_nat (fftSize example_analyser)) (draw_dataArray example_analyser))
         (num 200) (num_div (num 800) (num (frequencyBinCount example_analyser))) 3
       = LineTo (Cart (Fin x) (Fin y))
       /\ (0 <= x <= inject_Z 800)%Q /\ (0 <= y <= inject_Z 200)%Q.
Proof.
  assert (Hn : 1 <= frequencyBinCount example_analyser) by (vm_compute; discriminate).
  split; [exact example_playing_ctx|]. split; [exact example_playing_analyser|].
  split; [exact Hn|].
  assert (Hw : 0 <= 800) by lia. assert (Hh : 0 <= 200) by lia.
  destruct (wave_follows_the_samples example_analyser 800 200 example_playing
              example_playing_ctx example_playing_analyser Hn Hw Hh)
    as (_ & Hpoints).
  assert (Hi : 0 <= 3 < frequencyBinCount example_analyser) by (vm_compute; split; congruence).
  destruct (Hpoints 3 Hi) as (x & y & Hp & _ & _ & Hx & Hy & _).
  exists x, y. split; [exact Hp|]. split; [exact Hx|exact Hy].
Defined.

(** ** The rays of the circular spectrum *)

(** X6. One round of the circular renderer draws a ray outwards from the
    circle of radius [min(w, h) / 4] and a shorter one inwards.  For a byte
    [b] between 0 and 255 the outer ray ends at
    [min / 4 + b * min / 765], at most seven twelfths of [min], and the inner
    ray ends at [min / 4 - b * min / 2550], never less than three twentieths
    of [min]: it does not reach the centre.  The outer end stays within half
    of [min], the distance from the centre to the nearest canvas edge, exactly
    when [b <= 191]; louder bins reach beyond that edge. *)
Theorem circular_ray_extent (i b w h : Z) (dataArray : list Z) (cx cy : Number)
    (step : Z) (primary secondary : string)
    (Hdata : byte_at dataArray (i * step) = num b)
    (Hb : 0 <= b <= 255) (Hw : 0 <= w) (Hh : 0 <= h) :
  let m := inject_Z (Z.min w h) in
  let angle := (inject_Z i / inject_Z barsToDraw)%Q in
  exists r1 r2 r3,
    drawCircular_bar i dataArray (num w) (num h) cx cy
      (num_div (Math_min (num w) (num h)) (num 4)) step primary secondary
    = [ SetStrokeStyle (Solid (Css primary)); SetLineWidth (num 2); BeginPath;
        MoveTo (Polar cx cy angle (Fin r1)); LineTo (Polar cx cy angle (Fin r2)); Stroke;
        SetStrokeStyle (Solid (Css secondary)); BeginPath;
        MoveTo (Polar cx cy angle (Fin r1)); LineTo (Polar cx cy angle (Fin r3)); Stroke ]
    /\ (r1 == m / 4)%Q
    /\ (r2 == m / 4 + inject_Z b * m / 765)%Q
    /\ (r3 == m / 4 - inject_Z b * m / 2550)%Q
    /\ (m * (3 # 20) <= r3 <= r1)%Q
    /\ (r1 <= r2 <= m * (7 # 12))%Q
    /\ (0 < Z.min w h -> ((r2 <= m / 2)%Q <-> b <= 191)).
Proof.
  cbv zeta. unfold drawCircular_bar. rewrite Hdata, Math_min_num.
  set (mz := Z.min w h).
  assert (Hm : 0 <= mz) by (subst mz; lia).
  eexists _, _, _. split; [reflexivity|].
  assert (HmQ : (0 <= inject_Z mz)%Q)
    by (change 0%Q with (inject_Z 0); rewrite <- Zle_Qle; exact Hm).
  assert (HbQ : (0 <= inject_Z b <= 255)%Q).
  { change 0%Q with (inject_Z 0). change 255%Q with (inject_Z 255).
    rewrite <- !Zle_Qle. exact Hb. }
  assert (Hprod : (0 <= inject_Z b * inject_Z mz <= 255 * inject_Z mz)%Q) by nra.
  assert (E1 : (Qred (inject_Z mz / inject_Z 4) == inject_Z mz / 4)%Q)
    by (rewrite Qred_correct; reflexivity).
  assert (Ebh : (Qred (Qred (inject_Z b / inject_Z 255) * Qred (inject_Z mz / inject_Z 3))
                 == inject_Z b * inject_Z mz / 765)%Q).
  { rewrite !Qred_correct. change (inject_Z 255) with 255%Q.
    change (inject_Z 3) with 3%Q. field. }
  assert (E2 : (Qred (Qred (inject_Z mz / inject_Z 4)
                      + Qred (Qred (inject_Z b / inject_Z 255)
                              * Qred (inject_Z mz / inject_Z 3)))
                == inject_Z mz / 4 + inject_Z b * inject_Z mz / 765)%Q).
  { rewrite Qred_correct, E1, Ebh. reflexivity. }
  assert (E3 : (Qred (Qred (inject_Z mz / inject_Z 4)
                      + Qred (- Qred (Qred (Qred (inject_Z b / inject_Z 255)
                                            * Qred (inject_Z mz / inject_Z 3))
                                      * (3 # 10))))
                == inject_Z mz / 4 - inject_Z b * inject_Z mz / 2550)%Q).
  { rewrite Qred_correct, E1. rewrite (Qred_correct (- _)).
    rewrite (Qred_correct (_ * (3 # 10))), Ebh. field. }
  split; [exact E1|]. split; [exact E2|]. split; [exact E3|].
  clear Hdata.
  assert (Ht : (inject_Z b * inject_Z mz == inject_Z (b * mz))%Q)
    by (now rewrite inject_Z_mult).
  revert HmQ Hprod E1 E2 E3 Ht.
  generalize (inject_Z b * inject_Z mz)%Q as t.
  intros t HmQ Hprod E1 E2 E3 Ht.
  split; [|split].
  - rewrite E3, E1. clear E1 E2 E3 Ebh. unfold Qdiv.
    change (/ 4)%Q with (1 # 4)%Q. change (/ 2550)%Q with (1 # 2550)%Q. split; lra.
  - rewrite E2, E1. clear E1 E2 E3 Ebh. unfold Qdiv.
    change (/ 4)%Q with (1 # 4)%Q. change (/ 765)%Q with (1 # 765)%Q. split; lra.
  - intros Hpos. rewrite E2. clear E1 E2 E3 Ebh. unfold Qdiv.
    change (/ 4)%Q with (1 # 4)%Q. change (/ 765)%Q with (1 # 765)%Q.
    change (/ 2)%Q with (1 # 2)%Q.
    split.
    + intros Hle.
      assert (H4 : (inject_Z 4 * inject_Z (b * mz) <= inject_Z 765 * inject_Z mz)%Q).
      { change (inject_Z 4) with 4%Q. change (inject_Z 765) with 765%Q. lra. }
      rewrite <- !inject_Z_mult, <- Zle_Qle in H4. nia.
    + intros Hle.
      assert (H4 : (inject_Z 4 * inject_Z (b * mz) <= inject_Z 764 * inject_Z mz)%Q).
      { rewrite <- !inject_Z_mult, <- Zle_Qle. nia. }
      change (inject_Z 4) with 4%Q in H4. change (inject_Z 764) with 764%Q in H4. lra.
Qed.

Lemma circular_ray_extent_witness :
  byte_at [200] (0 * 5) = num 200
  /\ exists r2,
       (r2 == inject_Z (Z.min 800 200) / 4
              + inject_Z 200 * inject_Z (Z.min 800 200) / 765)%Q
       /\ ~ (r2 <= inject_Z (Z.min 800 200) / 2)%Q.
Proof.
  assert (Hdata : byte_at [200] (0 * 5) = num 200) by reflexivity.
  assert (Hb : 0 <= 200 <= 255) by lia.
  assert (Hw : 0 <= 800) by lia.
  assert (Hh : 0 <= 200) by lia.
  split; [exact Hdata|].
  destruct (circular_ray_extent 0 200 800 200 [200] (num 400) (num 100) 5
              "#8b5cf6" "#3b82f6" Hdata Hb Hw Hh)
    as (r1 & r2 & r3 & _ & _ & H2 & _ & _ & _ & Hedge).
  exists r2. split; [exact H2|].
  intros Hle. assert (Hpos : 0 < Z.min 800 200) by reflexivity.
  apply (Hedge Hpos) in Hle. lia.
Defined.

(** ** Tearing down twice *)

(** The state [cleanup] leaves: nothing is scheduled or connected, and the
    audio context, if still referenced, is closed. *)
Definition torn_down (s : State) : Prop :=
  handle_truthy (animationFrameId (this s)) = false
  /\ source (this s) = None
  /\ analyser (this s) = None
  /\ isInitialized (this s) = false
  /\ (forall c, audioContext (this s) = Some c ->
        default closed (contexts (world s) !! c) = closed)
  /\ (forall e, audioElement (this s) = Some e ->
        isOfficialNode (this s) = false /\ elements (world s) !! e = None).

(** The second step of [cleanup]: the source node. *)
Lemma cleanup_source (s : State) :
  exists s',
    (src <- gets (fun s => source (this s));;
     match src with
     | Some _ =>
         try_catch source_disconnect (fun _ => ret tt);;;
         modify_this (set_source None)
     | None => ret tt
     end) s = (Normal tt, s')
    /\ source (this s') = None
    /\ set_source None (this s') = set_source None (this s)
    /\ contexts (world s') = contexts (world s)
    /\ elements (world s') = elements (world s)
    /\ frames (world s') = frames (world s).
Proof.
  rewrite run_bind_gets.
  destruct (source (this s)) as [sid|] eqn:E.
  - unfold try_catch, source_disconnect, bind, gets, modify_world, modify_this. rewrite E.
    cbn [fst snd this world].
    eexists. split; [reflexivity|]. cbn [this world].
    destruct (sources (world s) !! sid); repeat split; try reflexivity.
  - exists s. unfold ret. repeat split; try reflexivity. exact E.
Qed.

(** The third step: the audio context. *)
Lemma cleanup_context (s : State) :
  exists s',
    (ac <- gets (fun s => audioContext (this s));;
     match ac with
     | Some c =>
         st <- context_state c;;
         if negb (is_closed st)
         then context_close c;;; modify_this (set_audioContext None)
         else ret tt
     | None => ret tt
     end) s = (Normal tt, s')
    /\ (forall c, audioContext (this s') = Some c ->
          default closed (contexts (world s') !! c) = closed)
    /\ set_audioContext None (this s') = set_audioContext None (this s)
    /\ elements (world s') = elements (world s)
    /\ frames (world s') = frames (world s).
Proof.
  rewrite run_bind_gets.
  destruct (audioContext (this s)) as [c|] eqn:E.
  - unfold context_state. rewrite run_bind_gets.
    destruct (default closed (contexts (world s) !! c)) eqn:Est; cbn [negb is_closed].
    + eexists. split; [reflexivity|]. cbn. repeat split; try reflexivity. discriminate.
    + eexists. split; [reflexivity|]. cbn. repeat split; try reflexivity. discriminate.
    + exists s. unfold ret. repeat split; try reflexivity.
      intros c0 Hc0. rewrite E in Hc0. inversion Hc0; subst. exact Est.
  - exists s. unfold ret. repeat split; try reflexivity. intros c0 Hc0. congruence.
Qed.

(** The last step: the audio element. *)
Lemma cleanup_element (s : State) :
  let s' := exec
    (official <- gets (fun s => isOfficialNode (this s));;
     if official : bool
     then modify_this (set_audioElement None)
     else
       cur <- gets (fun s => audioElement (this s));;
       match cur with
       | Some e =>
           try_catch (update_element e (set_paused true)) (fun _ => ret tt);;;
           element_set_src e "";;;
           modify_this (set_audioElement None)
       | None => ret tt
       end) s in
  (forall e, audioElement (this s') = Some e ->
     isOfficialNode (this s') = false /\ elements (world s') !! e = None)
  /\ set_audioElement None (this s') = set_audioElement None (this s)
  /\ contexts (world s') = contexts (world s)
  /\ frames (world s') = frames (world s).
Proof.
  cbv zeta. unfold exec. rewrite run_bind_gets.
  destruct (isOfficialNode (this s)) eqn:Eoff.
  - cbn. split; [intros e He; discriminate He|]. repeat split; reflexivity.
  - rewrite run_bind_gets.
    destruct (audioElement (this s)) as [e|] eqn:Eel.
    + unfold try_catch, element_set_src, update_element, bind, modify_this, modify_world.
      destruct (elements (world s) !! e) as [el|] eqn:El; cbn [fst snd this world].
      * cbn -[lookup insert union singleton]. rewrite lookup_insert_eq.
        cbn -[lookup insert union singleton].
        split; [intros e0 He0; discriminate He0|]. repeat split; reflexivity.
      * unfold ret. cbn -[lookup insert union singleton]. rewrite El.
        cbn -[lookup insert union singleton].
        split; [|repeat split; reflexivity].
        intros e0 He0. rewrite Eel in He0. inversion He0; subst.
        split; [exact Eoff|exact El].
    + unfold ret. cbn. split; [|repeat split; reflexivity].
      intros e0 He0. congruence.
Qed.

Lemma cleanup_torn_down (s : State) :
  torn_down (exec cleanup s) /\ frames (world (exec cleanup s))
    = frames (world (exec stopVisualization s)).
Proof.
  unfold exec at 1 2, cleanup.
  rewrite run_bind, stopVisualization_normal.
  pose proof (stopVisualization_handle s) as (H1 & _).
  set (s1 := exec stopVisualization s) in *.
  rewrite <- run_bind_assoc, run_bind.
  destruct (cleanup_source s1) as (s2 & -> & Hsrc & F2 & _ & _ & Fr2).
  rewrite <- run_bind_assoc, run_bind.
  destruct (cleanup_context s2) as (s3 & -> & Hctx & F3 & _ & Fr3).
  rewrite run_bind_modify_this, run_bind_modify_this.
  match goal with
  | |- torn_down (snd (?m ?s5)) /\ _ =>
      pose proof (cleanup_element s5) as Hel; cbv zeta in Hel; unfold exec in Hel;
      destruct Hel as (Hel & F6 & Fc6 & Fr6);
      set (s6 := snd (m s5)) in *
  end.
  cbn [this world] in *.
  assert (Ff : forall (A : Type) (f : Visualizer -> A),
            (forall v x, f (set_audioElement x v) = f v) ->
            f (this s6) = f (set_isInitialized false (set_analyser None (this s3)))).
  { intros A f Hf. rewrite <- (Hf (this s6) None), F6. apply Hf. }
  assert (F3' : forall (A : Type) (f : Visualizer -> A),
            (forall v x, f (set_audioContext x v) = f v) ->
            f (this s3) = f (this s2)).
  { intros A f Hf. rewrite <- (Hf (this s3) None), F3. apply Hf. }
  assert (F2' : forall (A : Type) (f : Visualizer -> A),
            (forall v x, f (set_source x v) = f v) ->
            f (this s2) = f (this s1)).
  { intros A f Hf. rewrite <- (Hf (this s2) None), F2. apply Hf. }
  split.
  - split; [|split; [|split; [|split; [|split]]]].
    + rewrite (Ff _ (fun v => handle_truthy (animationFrameId v))) by reflexivity.
      cbn [set_isInitialized set_analyser animationFrameId].
      rewrite (F3' _ (fun v => handle_truthy (animationFrameId v))) by reflexivity.
      rewrite (F2' _ (fun v => handle_truthy (animationFrameId v))) by reflexivity.
      exact H1.
    + rewrite (Ff _ source) by reflexivity. cbn [set_isInitialized set_analyser source].
      rewrite (F3' _ source) by reflexivity. exact Hsrc.
    + now rewrite (Ff _ analyser) by reflexivity.
    + now rewrite (Ff _ isInitialized) by reflexivity.
    + intros c Hc. rewrite Fc6. cbn [world]. apply Hctx.
      rewrite (Ff _ audioContext) in Hc by reflexivity. exact Hc.
    + exact Hel.
  - rewrite Fr6. cbn [world frames]. now rewrite Fr3, Fr2.
Qed.

Ltac cleanup_fixed_step :=
  cbn [fst snd this world canvas ctx audioContext analyser audioElement source
       animationFrameId isInitialized isOfficialNode set_analyser set_isInitialized
       set_audioElement negb is_closed].

(** On a state that is torn down, [cleanup] changes nothing. *)
Lemma cleanup_fixed (s : State) : torn_down s -> exec cleanup s = s.
Proof.
  destruct s as [v w].
  destruct v as [cv cx ac an ae so af ini off cfg bo bi en pm po pe].
  intros (Haf & Hso & Han & Hini & Hctx & Hel). cbn [this world] in *.
  cbn in Hso, Han, Hini. subst so an ini.
  unfold exec, cleanup, stopVisualization, try_catch, context_state,
    context_close, cancelAnimationFrame, element_set_src, update_element, bind, gets,
    modify_world, modify_this, ret.
  cbn [this world isOfficialNode audioElement source audioContext animationFrameId].
  assert (Estop : match af with
                  | Some id => negb (id =? 0)
                  | None => false
                  end = false) by exact Haf.
  assert (Hclosed : forall c, ac = Some c -> default closed (contexts w !! c) = closed)
    by exact Hctx.
  assert (Hgone : forall e, ae = Some e -> off = false /\ elements w !! e = None)
    by exact Hel.
  clear Hctx Hel Haf.
  destruct af as [id|]; [rewrite Estop|]; cleanup_fixed_step;
    (destruct ac as [c|]; cleanup_fixed_step; [rewrite (Hclosed c eq_refl)|]);
    cleanup_fixed_step;
    (destruct ae as [e|];
     [destruct (Hgone e eq_refl) as [-> He]; do 3 (cleanup_fixed_step; rewrite ?He)
     |destruct off]);
    reflexivity.
Qed.

(** X7. [cleanup] is idempotent, on every kind of node: after one teardown
    no frame is recorded, no source node or analyser is referenced, the
    visualizer is not initialised and the audio context it may still
    reference is closed; a second teardown (as when [destroy] follows
    [setEnabled(false)]) then leaves the visualizer and the page exactly as
    they are. *)
Theorem cleanup_idempotent (s : State) :
  let s' := exec cleanup s in
  exec cleanup s' = s'
  /\ handle_truthy (animationFrameId (this s')) = false
  /\ source (this s') = None
  /\ analyser (this s') = None
  /\ isInitialized (this s') = false
  /\ (forall c, audioContext (this s') = Some c ->
        default closed (contexts (world s') !! c) = closed)
  /\ frames (world s') = frames (world (exec stopVisualization s)).
Proof.
  cbv zeta. destruct (cleanup_torn_down s) as [Ht Hf].
  split; [now apply cleanup_fixed|].
  destruct Ht as (H1 & H2 & H3 & H4 & H5 & _).
  repeat split; assumption.
Qed.

(** ** What a computation leaves as it is *)

(** [same f]: the view [f] of the state is the same before and after. *)
Definition same {A : Type} (f : State -> A) (s s' : State) : Prop := f s' = f s.

#[local] Instance same_preorder {A : Type} (f : State -> A) : PreOrder (same f).
Proof.
  split.
  - intros s. reflexivity.
  - intros s1 s2 s3 H12 H23. unfold same in *. congruence.
Qed.

Lemma same_painting {A : Type} (f : State -> A) :
  (forall ops s, f (paint ops s) = f s) -> Painting (same f).
Proof. intros H. split; [tc_solve|]. intros ops s. apply H. Qed.

#[local] Hint Extern 1 (Painting (same _)) =>
  (apply same_painting; intros; reflexivity) : typeclass_instances.

(** A call that does not touch the view: every branch of the call ends in a
    state with the same view. *)
Ltac same_call :=
  let s := fresh "s" in
  intros s; unfold same, exec;
  repeat
    (first
       [ progress
           unfold element, element_set_src, update_element, context_state, context_close, context_resume,
             new_AudioContext, createAnalyser, analyser_set_fftSize,
             analyser_set_smoothingTimeConstant, createMediaElementSource,
             source_disconnect, source_connect_analyser, analyser_connect_destination,
             new_Audio, requestAnimationFrame, cancelAnimationFrame,
             modify_this, modify_world, gets, bind, ret, throw, when
         | progress cbn [fst snd this world]
         | match goal with
           | |- context [match ?x with _ => _ end] => destruct x
           | |- context [if ?b then _ else _] => destruct b
           end ]);
  try reflexivity.

Ltac same_leaf :=
  first
    [ apply rel_renderBackground; tc_solve
    | apply rel_drawWave; tc_solve
    | apply rel_drawBars; tc_solve
    | apply rel_drawCircular; tc_solve
    | apply rel_drawPlaceholder; tc_solve
    | match goal with
      | |- rel (same _) (getAudioUrl _) =>
          let s := fresh "s" in
          intros s; unfold same, exec; rewrite getAudioUrl_from_parts; reflexivity
      end
    | solve [same_call] ].

(** A proof of [rel (same f) m] for a method [m] built from such calls and
    from other methods. *)
Ltac same_auto :=
  repeat
    first
      [ rel_step
      | progress
          unfold stopVisualization, startVisualization, draw, draw_frame, cleanup, destroy,
            initContext, connectToAudioElement, initTimer_callback, initAudioContext,
            setMode, setEnabled, setBackgroundOpacity, setBackgroundImage, updateModeMenu,
            fftWidget_callback, primaryWidget_callback, secondaryWidget_callback,
            bgWidget_callback, onPlay, onStop, loadAudio, checkSrc, handleAudioChange,
            createCanvasWidget, onResize_frame, createMediaElementSource,
            element_set_src,
            source_connect_analyser, analyser_connect_destination, source_disconnect,
            analyser_set_fftSize, analyser_set_smoothingTimeConstant
      | same_leaf ].

Lemma exec_function_body (m : JS unit) (s : State) : exec (function_body m) s = exec m s.
Proof. unfold exec, function_body. destruct (m s) as [[[]| |e] s']; reflexivity. Qed.

Lemma run_bind_return {A B : Type} (k : A -> JS B) (s : State) :
  bind return_ k s = (Return, s).
Proof. reflexivity. Qed.

Lemma same_exec {A B : Type} (f : State -> A) (m : JS B) (s : State) :
  rel (same f) m -> f (snd (m s)) = f s.
Proof. intros H. exact (H s). Qed.

(** ** Attaching to an element for the first time *)

(** The audio graph and the references to it. *)
Definition audio_graph (s : State) :=
  (isInitialized (this s), audioContext (this s), analyser (this s), source (this s),
   contexts (world s), sources (world s), elements (world s)).

Lemma startVisualization_keeps_graph : rel (same audio_graph) startVisualization.
Proof. same_auto. Qed.

Ltac attach_step :=
  cbn [fst snd this world canvas ctx audioContext analyser audioElement source
       animationFrameId isInitialized isOfficialNode config cfg_fftSize
       elements contexts sources nextId audioSupported newContextState
       set_analyser set_isInitialized set_audioContext set_source
       set_elements set_contexts set_sources set_nextId
       set_createCalls set_mediaSource set_audioVisualizerSource
       paused readyState src currentTime _audioVisualizerSource mediaSource createCalls
       loadeddataOnce onloadeddata
       an_id an_context fftSize smoothingTimeConstant an_toDestination
       sn_context sn_element sn_outputs
       negb is_closed is_suspended when default from_option id
       ret throw gets bind modify_this modify_world];
  rewrite ?lookup_insert_eq, ?Nat.eqb_refl.

Lemma initContext_first_attach (target : nat) (el : AudioElement) (s : State) :
  audioSupported (world s) = true ->
  analyser_accepts (cfg_fftSize (config (this s))) = true ->
  elements (world s) !! target = Some el ->
  _audioVisualizerSource el = None ->
  mediaSource el = None ->
  let c := nextId (world s) in
  audio_graph (exec (initContext target) s)
  = (true, Some c,
     Some (mkAnalyserNode (S c) c (cfg_fftSize (config (this s))) (85 # 100) true),
     Some (S (S c)),
     <[c := newContextState (world s)]>
       (match audioContext (this s) with
        | Some c0 =>
            if is_closed (default closed (contexts (world s) !! c0))
            then contexts (world s)
            else <[c0 := closed]> (contexts (world s))
        | None => contexts (world s)
        end),
     <[S (S c) := mkSourceNode c target [S c]]> (sources (world s)),
     <[target := mkAudioElement (paused el) (readyState el) (src el) (currentTime el)
                   (Some (S (S c))) (Some (S (S c))) (S (createCalls el))
                   (loadeddataOnce el) (onloadeddata el)]> (elements (world s))).
Proof.
  destruct s as [v w].
  destruct v as [cv cx ac an ae so af ini off cfg bo bi en pm po pe].
  destruct w as [els ctxs srcs nid sup ncs frs fc tms rc td fq dr ui ap now].
  destruct el as [p rs sr ct mk ms cc lo ol].
  cbn [this world audioSupported config elements _audioVisualizerSource mediaSource].
  intros -> Hsize Hel -> ->. cbv zeta.
  unfold exec, initContext, function_body, try_catch, context_state, context_close,
    context_resume, new_AudioContext, createAnalyser, analyser_set_fftSize,
    analyser_set_smoothingTimeConstant, createMediaElementSource, element, update_element,
    source_connect_analyser, analyser_connect_destination, bind, gets, modify_this,
    modify_world, ret, throw.
  attach_step.
  destruct ac as [c0|]; attach_step;
    [destruct (ctxs !! c0) as [[| |]|]; attach_step|];
    (destruct ncs; attach_step);
    rewrite Hsize; repeat progress (attach_step; rewrite ?Hel).
  all:
    match goal with
    | |- context [when (negb ?p) startVisualization ?st] =>
        set (s7 := st);
        match goal with
        | |- _ = ?g =>
            assert (H7 : audio_graph s7 = g)
              by (subst s7; unfold audio_graph; attach_step; rewrite ?insert_insert_eq;
                  reflexivity);
            rewrite <- H7; clear H7
        end;
        clearbody s7;
        pose proof (startVisualization_keeps_graph s7) as Hk;
        unfold same, exec in Hk;
        destruct p; cbn [negb when ret fst snd]; [reflexivity|];
        destruct (startVisualization s7) as [[[]| |ex] s8]; cbn [fst snd] in *;
        try exact Hk;
        match goal with
        | |- context [drawPlaceholder ?text s8] =>
            let Hp := fresh "Hp" in
            pose proof (rel_drawPlaceholder (same audio_graph) text s8) as Hp;
            unfold same, exec in Hp;
            destruct (drawPlaceholder text s8) as [[[]| |ex'] s9];
            cbn [fst snd] in *; congruence
        end
    end.
Qed.

(** X8. The first attach to an audio element, when the browser provides an
    AudioContext and accepts the configured FFT size: [initContext] ends with
    the visualizer initialised on a new context; the element is captured by
    one new source node, recorded both by the browser and by the mark the
    visualizer leaves on the element; the source feeds the new analyser, which
    has the configured FFT size and the smoothing constant 0.85 and is
    connected to the destination of the context, so that the sound of the
    element still reaches the output.  The playback state of the element
    (paused, position, source, ready state) is not touched, and a context the
    visualizer referenced before is closed unless it already was.  All this
    holds whether or not the element is playing, that is whether or not the
    render loop is started at the end. *)
Theorem initContext_builds_the_chain (target : nat) (el : AudioElement) (s : State)
    (Hsupported : audioSupported (world s) = true)
    (Hsize : analyser_accepts (cfg_fftSize (config (this s))) = true)
    (Hel : elements (world s) !! target = Some el)
    (Hunmarked : _audioVisualizerSource el = None)
    (Hfree : mediaSource el = None) :
  let s' := exec (initContext target) s in
  let c := nextId (world s) in
  let a := mkAnalyserNode (S c) c (cfg_fftSize (config (this s))) (85 # 100) true in
  let id := S (S c) in
  isInitialized (this s') = true
  /\ audioContext (this s') = Some c
  /\ contexts (world s') !! c = Some (newContextState (world s))
  /\ analyser (this s') = Some a
  /\ source (this s') = Some id
  /\ sources (world s') !! id = Some (mkSourceNode c target [an_id a])
  /\ elements (world s') !! target
     = Some (mkAudioElement (paused el) (readyState el) (src el) (currentTime el)
               (Some id) (Some id) (S (createCalls el))
               (loadeddataOnce el) (onloadeddata el))
  /\ (forall e, e <> target -> elements (world s') !! e = elements (world s) !! e)
  /\ (forall c0, audioContext (this s) = Some c0 -> c0 <> c ->
        default closed (contexts (world s') !! c0) = closed).
Proof.
  cbv zeta.
  pose proof (initContext_first_attach target el s Hsupported Hsize Hel Hunmarked Hfree)
    as Hg.
  cbv zeta in Hg. unfold audio_graph in Hg.
  injection Hg as Hinit Hac Han Hso Hcs Hsrcs Hels.
  rewrite Hcs, Hsrcs, Hels.
  split; [exact Hinit|]. split; [exact Hac|]. split; [apply lookup_insert_eq|].
  split; [exact Han|]. split; [exact Hso|]. split; [apply lookup_insert_eq|].
  split; [apply lookup_insert_eq|]. split.
  - intros e He. now rewrite lookup_insert_ne by congruence.
  - intros c0 Hc0 Hne. rewrite lookup_insert_ne by congruence. rewrite Hc0.
    destruct (default closed (contexts (world s) !! c0)) eqn:E; cbn [is_closed].
    + now rewrite lookup_insert_eq.
    + now rewrite lookup_insert_eq.
    + exact E.
Qed.

Lemma initContext_builds_the_chain_witness :
  elements (world example_state) !! 0%nat = Some example_element
  /\ isInitialized (this (exec (initContext 0%nat) example_state)) = true
  /\ sources (world (exec (initContext 0%nat) example_state)) !! 3%nat
     = Some (mkSourceNode 1 0 [2%nat]).
Proof.
  assert (Hsupported : audioSupported (world example_state) = true)
    by (vm_compute; reflexivity).
  assert (Hsize : analyser_accepts (cfg_fftSize (config (this example_state))) = true)
    by (vm_compute; reflexivity).
  assert (Hel : elements (world example_state) !! 0%nat = Some example_element)
    by (vm_compute; reflexivity).
  assert (Hunmarked : _audioVisualizerSource example_element = None) by reflexivity.
  assert (Hfree : mediaSource example_element = None) by reflexivity.
  split; [exact Hel|].
  destruct (initContext_builds_the_chain 0%nat example_element example_state
              Hsupported Hsize Hel Hunmarked Hfree)
    as (Hinit & _ & _ & _ & _ & Hsrc & _).
  split; [exact Hinit|exact Hsrc].
Defined.

(** ** Attaching again to an element that was captured before *)

Lemma initContext_stale_source (target id : nat) (el : AudioElement) (n : SourceNode)
    (s : State) :
  audioSupported (world s) = true ->
  analyser_accepts (cfg_fftSize (config (this s))) = true ->
  elements (world s) !! target = Some el ->
  _audioVisualizerSource el = Some id ->
  sources (world s) !! id = Some n ->
  sn_context n <> nextId (world s) ->
  let c := nextId (world s) in
  audio_graph (exec (initContext target) s)
  = (isInitialized (this s), Some c,
     Some (mkAnalyserNode (S c) c (cfg_fftSize (config (this s))) (85 # 100) false),
     Some id,
     <[c := newContextState (world s)]>
       (match audioContext (this s) with
        | Some c0 =>
            if is_closed (default closed (contexts (world s) !! c0))
            then contexts (world s)
            else <[c0 := closed]> (contexts (world s))
        | None => contexts (world s)
        end),
     <[id := mkSourceNode (sn_context n) (sn_element n) []]> (sources (world s)),
     elements (world s)).
Proof.
  destruct s as [v w].
  destruct v as [cv cx ac an ae so af ini off cfg bo bi en pm po pe].
  destruct w as [els ctxs srcs nid sup ncs frs fc tms rc td fq dr ui ap now].
  destruct el as [p rs sr ct mk ms cc lo ol].
  destruct n as [nc ne no].
  cbn [this world audioSupported config elements sources nextId _audioVisualizerSource
       sn_context].
  intros -> Hsize Hel -> Hsrc Hctx. cbv zeta.
  assert (Hneq : Nat.eqb nc nid = false) by (now apply Nat.eqb_neq).
  unfold exec, initContext, function_body, try_catch, context_state, context_close,
    context_resume, new_AudioContext, createAnalyser, analyser_set_fftSize,
    analyser_set_smoothingTimeConstant, element, source_disconnect,
    source_connect_analyser, analyser_connect_destination, bind, gets, modify_this,
    modify_world, ret, throw, return_.
  attach_step.
  destruct ac as [c0|]; attach_step;
    [destruct (ctxs !! c0) as [[| |]|]; attach_step|];
    (destruct ncs; attach_step);
    rewrite Hsize;
    repeat progress (attach_step; rewrite ?Hel, ?Hsrc, ?Hneq).
  all:
    match goal with
    | |- context [drawPlaceholder ?text ?st] =>
        set (s7 := st);
        match goal with
        | |- _ = ?g =>
            assert (H7 : audio_graph s7 = g)
              by (subst s7; unfold audio_graph; attach_step; rewrite ?insert_insert_eq;
                  reflexivity);
            rewrite <- H7; clear H7
        end;
        clearbody s7;
        let Hp := fresh "Hp" in
        pose proof (rel_drawPlaceholder (same audio_graph) text s7) as Hp;
        unfold same, exec in Hp;
        destruct (drawPlaceholder text s7) as [[[]| |ex'] s9];
        cbn [fst snd] in *; try exact Hp;
        match goal with
        | |- context [drawPlaceholder ?text' s9] =>
            let Hq := fresh "Hq" in
            pose proof (rel_drawPlaceholder (same audio_graph) text' s9) as Hq;
            unfold same, exec in Hq;
            destruct (drawPlaceholder text' s9) as [[[]| |ex''] s10];
            cbn [fst snd] in *; congruence
        end
    end.
Qed.

(** X9. An element that carries the mark of an earlier attach cannot be
    attached again.  [initContext] always builds a new AudioContext, while the
    source node recorded on the element belongs to the context of the earlier
    attach; connecting it to the new analyser is refused by the browser, in the
    first attempt and in the fallback alike.  So the visualizer is not
    initialised by the call, the new analyser is connected to nothing, and the
    source node of the element is left with no output at all: the element is
    still captured, but its sound is routed nowhere. *)
Theorem reattach_cannot_reuse_the_source (target id : nat) (el : AudioElement)
    (n : SourceNode) (s : State)
    (Hsupported : audioSupported (world s) = true)
    (Hsize : analyser_accepts (cfg_fftSize (config (this s))) = true)
    (Hel : elements (world s) !! target = Some el)
    (Hmarked : _audioVisualizerSource el = Some id)
    (Hnode : sources (world s) !! id = Some n)
    (Holder : (sn_context n < nextId (world s))%nat) :
  let s' := exec (initContext target) s in
  isInitialized (this s') = isInitialized (this s)
  /\ source (this s') = Some id
  /\ sources (world s') !! id = Some (mkSourceNode (sn_context n) (sn_element n) [])
  /\ elements (world s') = elements (world s)
  /\ audioContext (this s') = Some (nextId (world s))
  /\ exists a, analyser (this s') = Some a
               /\ an_context a = nextId (world s)
               /\ an_toDestination a = false.
Proof.
  cbv zeta.
  assert (Hne : sn_context n <> nextId (world s)) by lia.
  pose proof (initContext_stale_source target id el n s Hsupported Hsize Hel Hmarked
                Hnode Hne) as Hg.
  cbv zeta in Hg. unfold audio_graph in Hg.
  injection Hg as Hinit Hac Han Hso Hcs Hsrcs Hels.
  rewrite Hsrcs.
  split; [exact Hinit|]. split; [exact Hso|].
  split; [apply lookup_insert_eq|]. split; [exact Hels|]. split; [exact Hac|].
  eexists. split; [exact Han|]. split; reflexivity.
Qed.

(** The example visualizer after a teardown: the element keeps its mark. *)
Definition example_detached : State := step CallCleanup example_playing.

Lemma reattach_cannot_reuse_the_source_witness :
  isInitialized (this example_detached) = false
  /\ elements (world example_detached) !! 0%nat
     = Some (mkAudioElement false 4 "song.mp3" 0 (Some 3%nat) (Some 3%nat) 1 0 false)
  /\ sources (world example_detached) !! 3%nat = Some (mkSourceNode 1 0 [])
  /\ isInitialized (this (exec (initContext 0%nat) example_detached)) = false.
Proof.
  assert (Hinit : isInitialized (this example_detached) = false)
    by (vm_compute; reflexivity).
  assert (Hsupported : audioSupported (world example_detached) = true)
    by (vm_compute; reflexivity).
  assert (Hsize : analyser_accepts (cfg_fftSize (config (this example_detached))) = true)
    by (vm_compute; reflexivity).
  assert (Hel : elements (world example_detached) !! 0%nat
                = Some (mkAudioElement false 4 "song.mp3" 0 (Some 3%nat) (Some 3%nat)
                          1 0 false))
    by (vm_compute; reflexivity).
  assert (Hnode : sources (world example_detached) !! 3%nat = Some (mkSourceNode 1 0 []))
    by (vm_compute; reflexivity).
  assert (Holder : (sn_context (mkSourceNode 1 0 []) < nextId (world example_detached))%nat)
    by (vm_compute; lia).
  split; [exact Hinit|]. split; [exact Hel|]. split; [exact Hnode|].
  destruct (reattach_cannot_reuse_the_source 0%nat 3%nat _ _ example_detached
              Hsupported Hsize Hel eq_refl Hnode Holder) as (Hsame & _).
  rewrite Hsame. exact Hinit.
Defined.

(** ** When the analysis chain cannot be built *)




(** ** Settings and what is saved with the node *)

(** The settings of a visualizer and their saved copies in [node.properties]. *)
Definition settings_view (s : State) :=
  let v := this s in
  (isOfficialNode v, mode (config v), backgroundOpacity v, visualizerEnabled v,
   node_properties_mode v, node_properties_opacity v, node_properties_enabled v).

(** The saved copies give the settings back to a visualizer constructed on the
    same official node; the empty mode string alone is read back as the bars. *)
Definition restores (view : bool * Mode * Number * bool
                            * option Mode * option Number * option bool) : Prop :=
  let '(official, m, opacity, enabled, saved_mode, saved_opacity, saved_enabled) := view in
  official = true ->
  let v' := constructor true saved_mode saved_opacity saved_enabled in
  backgroundOpacity v' = opacity
  /\ visualizerEnabled v' = enabled
  /\ (mode (config v') = m \/ (m = OtherMode "" /\ mode (config v') = BARS)).

Definition is_setter (ev : Event) : bool :=
  match ev with
  | CallSetMode _ | CallSetEnabled _ | CallSetBackgroundOpacity _ => true
  | _ => false
  end.

Lemma startVisualization_settings : rel (same settings_view) startVisualization.
Proof. same_auto. Qed.

Lemma cleanup_settings : rel (same settings_view) cleanup.
Proof. same_auto. Qed.

Lemma initContext_settings (e : nat) : rel (same settings_view) (initContext e).
Proof. same_auto. Qed.

Lemma connectToAudioElement_settings (e : option nat) :
  rel (same settings_view) (connectToAudioElement e).
Proof.
  unfold connectToAudioElement.
  repeat first [apply cleanup_settings | apply initContext_settings
               | apply startVisualization_settings | rel_step | same_leaf].
Qed.

Ltac settings_auto :=
  repeat first [ apply cleanup_settings | apply initContext_settings
               | apply startVisualization_settings | apply connectToAudioElement_settings
               | rel_step
               | progress
                   unfold stopVisualization, draw, draw_frame, destroy,
                     initTimer_callback, initAudioContext, setBackgroundImage, updateModeMenu,
                     fftWidget_callback, primaryWidget_callback, secondaryWidget_callback,
                     bgWidget_callback, onPlay, onStop, loadAudio, checkSrc, handleAudioChange,
                     createCanvasWidget, onResize_frame, analyser_set_fftSize
               | same_leaf ].

Lemma step_keeps_settings (ev : Event) (s : State) :
  is_setter ev = false -> settings_view (step ev s) = settings_view s.
Proof.
  intros Hev. destruct ev; try discriminate Hev; cbn [step];
    try reflexivity;
    try (match goal with |- settings_view (exec ?m s) = _ =>
           assert (Hm : rel (same settings_view) m) by settings_auto; exact (Hm s) end).
  - destruct (existsb (Z.eqb id) (frames (world s))); [|reflexivity].
    assert (Hd : rel (same settings_view) draw) by settings_auto.
    assert (Hc : rel (same settings_view) (cancelAnimationFrame id)) by settings_auto.
    rewrite (Hd _). exact (Hc s).
  - unfold fire_loadeddata.
    destruct (elements (world s) !! e) as [el|]; [|reflexivity].
    assert (Hu : rel (same settings_view) (update_element e (set_loadeddataOnce 0)))
      by settings_auto.
    etransitivity; [apply (rel_iter (same settings_view)); apply initContext_settings|].
    destruct (onloadeddata el); [|exact (Hu s)].
    etransitivity; [apply connectToAudioElement_settings|exact (Hu s)].
  - destruct (elements (world s) !! e) as [el|]; [|reflexivity].
    destruct (onloadeddata el); [|reflexivity].
    apply (rel_drawPlaceholder (same settings_view)).
  - destruct (existsb (Timer_eqb t) (timers (world s))); [|reflexivity].
    assert (Hm : rel (same settings_view) (timer_callback t))
      by (destruct t; cbn [timer_callback]; settings_auto).
    rewrite (Hm _). reflexivity.
Qed.

Lemma setMode_restores (m : Mode) (s : State) :
  restores (settings_view s) -> restores (settings_view (exec (setMode m) s)).
Proof.
  intros H. unfold setMode. rewrite exec_function_body. unfold exec.
  rewrite run_bind_gets.
  destruct (Mode_eqb (mode (config (this s))) m); [rewrite run_bind_return; exact H|].
  rewrite run_bind_ret, run_bind_modify_this, run_bind_gets.
  cbn [this world].
  destruct s as [v w]. cbn [this world] in *.
  destruct (isOfficialNode (set_config (set_mode m (config v)) v)) eqn:Eo.
  - rewrite run_bind_assoc, run_bind_modify_this. unfold updateModeMenu.
    rewrite run_bind_ret, run_bind_gets.
    rewrite (same_exec settings_view _ _
               (rel_when _ _ _ startVisualization_settings)).
    destruct v. unfold settings_view, restores in *. cbn in *. intros _.
    destruct (H Eo) as (Ho & He & _). split; [exact Ho|]. split; [exact He|].
    destruct m as [| | |[|a x]]; auto.
  - rewrite run_bind_ret, run_bind_gets.
    rewrite (same_exec settings_view _ _
               (rel_when _ _ _ startVisualization_settings)).
    destruct v. unfold settings_view, restores in *. cbn in *. intros Ht. congruence.
Qed.

Lemma setBackgroundOpacity_restores (value : JsValue) (s : State) :
  restores (settings_view s) -> restores (settings_view (exec (setBackgroundOpacity value) s)).
Proof.
  intros H. destruct s as [v w].
  destruct v as [cv cx ac an ae so af ini off cfg bo bi en pm po pe].
  unfold setBackgroundOpacity, exec, updateModeMenu, bind, modify_this, gets, ret,
    settings_view, restores in *.
  cbn in *. destruct off; cbn; intros Ht; [|discriminate Ht].
  destruct (H eq_refl) as (_ & He & Hm). auto.
Qed.

Lemma setEnabled_restores (enabled : bool) (s : State) :
  restores (settings_view s) -> restores (settings_view (exec (setEnabled enabled) s)).
Proof.
  intros H. unfold setEnabled, exec.
  rewrite run_bind_modify_this, run_bind_gets. cbn [this world].
  destruct s as [v w]. cbn [this world] in *.
  assert (Htail : forall official, rel (same settings_view)
            (if negb enabled then cleanup
             else if official : bool
                  then ui <- gets (fun s => audioUIWidget (world s));;
                       match ui with
                       | Some e =>
                           el <- element e;;
                           when (negb (paused el)) (connectToAudioElement (Some e))
                       | None => ret tt
                       end
                  else ret tt))
    by (intros official; settings_auto).
  destruct (isOfficialNode (set_visualizerEnabled enabled v)) eqn:Eo.
  - rewrite run_bind_modify_this. unfold updateModeMenu. rewrite run_bind_ret.
    rewrite (same_exec settings_view _ _ (Htail true)).
    destruct v. unfold settings_view, restores in *. cbn in *. intros _.
    destruct (H Eo) as (Ho & _ & Hm). auto.
  - rewrite run_bind_ret. unfold updateModeMenu. rewrite run_bind_ret.
    rewrite (same_exec settings_view _ _ (Htail false)).
    destruct v. unfold settings_view, restores in *. cbn in *. intros Ht. congruence.
Qed.

Lemma reachable_restores (s : State) : reachable s -> restores (settings_view s).
Proof.
  induction 1 as [s ((official & sm & so & se & Hthis) & _)|s ev _ IH].
  - unfold settings_view. rewrite Hthis. unfold restores. cbn. intros ->. auto.
  - destruct (is_setter ev) eqn:Hev.
    + destruct ev; try discriminate Hev; cbn [step].
      * now apply setMode_restores.
      * now apply setEnabled_restores.
      * now apply setBackgroundOpacity_restores.
    + now rewrite step_keeps_settings.
Qed.

(** X11. On an official node the saved properties always hold the current
    settings: after any sequence of calls and events, a visualizer constructed
    anew from [node.properties] has the same background opacity and the same
    enabled flag, and the same mode unless the mode is the empty string, which
    a new visualizer reads as the bars. *)
Theorem settings_survive_reload (s : State)
    (Hreach : reachable s) (Hofficial : isOfficialNode (this s) = true) :
  let v := this s in
  let v' := constructor true (node_properties_mode v) (node_properties_opacity v)
              (node_properties_enabled v) in
  backgroundOpacity v' = backgroundOpacity v
  /\ visualizerEnabled v' = visualizerEnabled v
  /\ (mode (config v) <> OtherMode "" -> mode (config v') = mode (config v))
  /\ (mode (config v) = OtherMode "" -> mode (config v') = BARS).
Proof.
  cbv zeta. pose proof (reachable_restores s Hreach) as H.
  unfold settings_view, restores in H. cbv zeta in H.
  destruct (H Hofficial) as (Ho & He & Hm).
  split; [exact Ho|]. split; [exact He|]. split.
  - intros Hne. destruct Hm as [Hm|[Hm _]]; [exact Hm|contradiction].
  - intros Hempty. destruct Hm as [Hm|[_ Hm]]; [|exact Hm].
    exfalso. rewrite Hempty in Hm. revert Hm. unfold constructor. cbn.
    destruct (node_properties_mode (this s)) as [[| | |[|a x]]|]; discriminate.
Qed.

Definition example_settings : State :=
  step (CallSetMode CIRCULAR)
    (step (CallSetBackgroundOpacity (JNumber (Fin (3 # 10)))) example_state).

Lemma settings_survive_reload_witness :
  mode (config (constructor true (node_properties_mode (this example_settings))
                  (node_properties_opacity (this example_settings))
                  (node_properties_enabled (this example_settings)))) = CIRCULAR
  /\ backgroundOpacity (constructor true (node_properties_mode (this example_settings))
                          (node_properties_opacity (this example_settings))
                          (node_properties_enabled (this example_settings))) = Fin (3 # 10).
Proof.
  assert (Hreach : reachable example_settings)
    by (do 2 apply reachable_step; exact example_state_reachable).
  assert (Hofficial : isOfficialNode (this example_settings) = true)
    by (vm_compute; reflexivity).
  pose proof (settings_survive_reload example_settings Hreach Hofficial) as H.
  cbv zeta in H. destruct H as (Ho & _ & Hm & _).
  split.
  - rewrite Hm; [vm_compute; reflexivity|vm_compute; discriminate].
  - rewrite Ho. vm_compute. reflexivity.
Defined.

(** ** Playback belongs to the player *)

(** What the player owns of an audio element. *)
Definition playback (el : AudioElement) : bool * Z * string * Q :=
  (paused el, readyState el, src el, currentTime el).

Definition playback_view (s : State) : gmap nat (bool * Z * string * Q) :=
  playback <$> elements (world s).

(** [hands_off s s']: the node is of the same kind in [s'] as in [s], and on
    an official node every audio element plays in [s'] as it did in [s]. *)
Definition hands_off (s s' : State) : Prop :=
  isOfficialNode (this s') = isOfficialNode (this s)
  /\ (isOfficialNode (this s) = true -> playback_view s' = playback_view s).

(** The events that are the player's or the page's own doing. *)
Definition by_the_player (ev : Event) : bool :=
  match ev with
  | PlayerSets _ _ _ _ _ | ElementAppears _ _ _ | SrcAttributeBecomes _ _ => true
  | _ => false
  end.

#[local] Instance hands_off_preorder : PreOrder hands_off.
Proof.
  split.
  - intros s. split; [reflexivity|intros _; reflexivity].
  - intros s1 s2 s3 (Ho12 & Hp12) (Ho23 & Hp23). split; [congruence|].
    intros H1. rewrite Hp23 by congruence. now apply Hp12.
Qed.

#[local] Instance hands_off_painting : Painting hands_off.
Proof. split; [tc_solve|]. intros ops s. split; [reflexivity|intros _; reflexivity]. Qed.

Lemma same_hands_off (s s' : State) :
  same (fun s => (isOfficialNode (this s), playback_view s)) s s' -> hands_off s s'.
Proof.
  unfold same. intros H. injection H as Ho Hp. split; [exact Ho|intros _; exact Hp].
Qed.

Lemma playback_insert (e : nat) (el : AudioElement) (f : AudioElement -> AudioElement)
    (els : gmap nat AudioElement) :
  els !! e = Some el -> playback (f el) = playback el ->
  playback <$> <[e := f el]> els = playback <$> els.
Proof.
  intros He Hf. rewrite fmap_insert, Hf. apply insert_id.
  now rewrite lookup_fmap, He.
Qed.

Lemma hands_off_update_element (e : nat) (f : AudioElement -> AudioElement) :
  (forall el, playback (f el) = playback el) -> rel hands_off (update_element e f).
Proof.
  intros Hf s. unfold exec, update_element.
  destruct (elements (world s) !! e) as [el|] eqn:He; [|reflexivity].
  split; [reflexivity|]. intros _. unfold playback_view. cbn.
  now apply playback_insert.
Qed.

(** A call that touches neither the kind of the node nor an audio element. *)
Ltac hands_off_call :=
  apply (rel_weaken _ _ _ same_hands_off); same_call.

Ltac hands_off_leaf :=
  first
    [ apply rel_renderBackground; tc_solve
    | apply rel_drawWave; tc_solve
    | apply rel_drawBars; tc_solve
    | apply rel_drawCircular; tc_solve
    | apply rel_drawPlaceholder; tc_solve
    | apply hands_off_update_element; intros []; reflexivity
    | match goal with
      | |- rel hands_off (getAudioUrl _) =>
          let s := fresh "s" in
          intros s; unfold exec; rewrite getAudioUrl_from_parts; reflexivity
      end
    | solve [hands_off_call] ].

(** The end of [cleanup]: the element is let go, and paused and emptied only
    on a node that is not official. *)
Lemma hands_off_release :
  rel hands_off
    (official <- gets (fun s => isOfficialNode (this s));;
     if official : bool
     then modify_this (set_audioElement None)
     else
       cur <- gets (fun s => audioElement (this s));;
       match cur with
       | Some e =>
           try_catch (update_element e (set_paused true)) (fun _ => ret tt);;;
           element_set_src e "";;;
           modify_this (set_audioElement None)
       | None => ret tt
       end).
Proof.
  intros s. unfold exec. rewrite run_bind_gets.
  destruct (isOfficialNode (this s)) eqn:Eo.
  - split; [reflexivity|intros _; reflexivity].
  - split; [|rewrite Eo; discriminate].
    match goal with |- _ (this (snd (?m s))) = _ =>
      assert (Hm : rel (same (fun s => isOfficialNode (this s))) m) by same_auto;
      exact (Hm s)
    end.
Qed.

Ltac hands_off_auto :=
  repeat
    first
      [ apply hands_off_release
      | rel_step
      | progress
          unfold stopVisualization, startVisualization, draw, draw_frame, initContext,
            updateModeMenu, createMediaElementSource, source_connect_analyser,
            analyser_connect_destination, source_disconnect, analyser_set_fftSize,
            analyser_set_smoothingTimeConstant
      | hands_off_leaf ].

Lemma hands_off_cleanup : rel hands_off cleanup.
Proof. unfold cleanup. hands_off_auto. Qed.

Lemma hands_off_startVisualization : rel hands_off startVisualization.
Proof. hands_off_auto. Qed.

Lemma hands_off_initContext (e : nat) : rel hands_off (initContext e).
Proof. hands_off_auto. Qed.

Lemma hands_off_connectToAudioElement (e : option nat) :
  rel hands_off (connectToAudioElement e).
Proof.
  unfold connectToAudioElement.
  repeat first [ apply hands_off_cleanup | apply hands_off_initContext
               | apply hands_off_startVisualization | rel_step | hands_off_leaf ].
Qed.

(** [loadAudio] returns at once on an official node; the audio element it
    makes otherwise is the visualizer's own. *)
Lemma hands_off_loadAudio (audioUrl : string) : rel hands_off (loadAudio audioUrl).
Proof.
  intros s. unfold loadAudio. rewrite exec_function_body. unfold exec.
  rewrite run_bind_gets.
  destruct (isOfficialNode (this s)) eqn:Eo.
  - rewrite run_bind_return. reflexivity.
  - split; [|rewrite Eo; discriminate].
    match goal with |- _ (this (snd (?m s))) = _ =>
      assert (Hm : rel (same (fun s => isOfficialNode (this s))) m) by same_auto;
      exact (Hm s)
    end.
Qed.

Ltac hands_off_method :=
  repeat
    first
      [ apply hands_off_cleanup | apply hands_off_initContext
      | apply hands_off_startVisualization | apply hands_off_connectToAudioElement
      | apply hands_off_loadAudio
      | rel_step
      | progress
          unfold stopVisualization, draw, draw_frame, destroy, initTimer_callback,
            initAudioContext, setMode, setEnabled, setBackgroundOpacity, setBackgroundImage,
            updateModeMenu, fftWidget_callback, primaryWidget_callback,
            secondaryWidget_callback, bgWidget_callback, onPlay, onStop, checkSrc,
            handleAudioChange, createCanvasWidget, onResize_frame, analyser_set_fftSize
      | hands_off_leaf ].

Lemma hands_off_platform (f : World -> World) (s : State) :
  (forall w, elements (f w) = elements w) -> hands_off s (platform f s).
Proof.
  intros H. split; [reflexivity|]. intros _.
  unfold playback_view, platform. cbn. now rewrite H.
Qed.

Lemma hands_off_step (ev : Event) (s : State) :
  by_the_player ev = false -> hands_off s (step ev s).
Proof.
  intros Hev. destruct ev; try discriminate Hev; cbn [step];
    try (match goal with |- hands_off s (exec ?m s) =>
           assert (Hm : rel hands_off m) by hands_off_method; exact (Hm s) end).
  - destruct (existsb (Z.eqb id) (frames (world s))); [|reflexivity].
    assert (Hd : rel hands_off draw) by hands_off_method.
    assert (Hc : rel hands_off (cancelAnimationFrame id)) by hands_off_method.
    etransitivity; [exact (Hc s)|apply Hd].
  - unfold fire_loadeddata.
    destruct (elements (world s) !! e) as [el|]; [|reflexivity].
    assert (Hu : rel hands_off (update_element e (set_loadeddataOnce 0)))
      by hands_off_method.
    etransitivity; [|apply (rel_iter hands_off); apply hands_off_initContext].
    destruct (onloadeddata el); [|exact (Hu s)].
    etransitivity; [exact (Hu s)|apply hands_off_connectToAudioElement].
  - destruct (elements (world s) !! e) as [el|]; [|reflexivity].
    destruct (onloadeddata el); [|reflexivity].
    apply (rel_drawPlaceholder hands_off).
  - destruct (existsb (Timer_eqb t) (timers (world s))); [|reflexivity].
    assert (Hm : rel hands_off (timer_callback t))
      by (destruct t; cbn [timer_callback]; hands_off_method).
    etransitivity; [|apply Hm].
    apply hands_off_platform. reflexivity.
  - apply hands_off_platform. intros w.
    destruct (contexts w !! c) as [old|]; [|reflexivity].
    destruct (is_closed old || is_closed st); reflexivity.
  - apply hands_off_platform. reflexivity.
  - apply hands_off_platform. reflexivity.
  - apply hands_off_platform. reflexivity.
  - apply hands_off_platform. reflexivity.
  - apply hands_off_platform. reflexivity.
Qed.

(** X12. On an official node the visualizer never touches playback: whatever
    method is called and whatever callback of the visualizer runs, every audio
    element is still there afterwards with the same paused flag, ready state,
    source URL and position, and the node is still official.  Only the player
    and the page themselves change these. *)
Theorem official_node_leaves_playback (ev : Event) (s : State)
    (Hofficial : isOfficialNode (this s) = true) (Hev : by_the_player ev = false) :
  isOfficialNode (this (step ev s)) = true
  /\ forall e el,
       elements (world s) !! e = Some el ->
       exists el',
         elements (world (step ev s)) !! e = Some el'
         /\ paused el' = paused el /\ readyState el' = readyState el
         /\ src el' = src el /\ currentTime el' = currentTime el.
Proof.
  destruct (hands_off_step ev s Hev) as (Ho & Hp). split; [congruence|].
  intros e el He. specialize (Hp Hofficial).
  assert (Hl : playback_view (step ev s) !! e = Some (playback el))
    by (rewrite Hp; unfold playback_view; now rewrite lookup_fmap, He).
  unfold playback_view in Hl. rewrite lookup_fmap in Hl.
  destruct (elements (world (step ev s)) !! e) as [el'|]; [|discriminate Hl].
  exists el'. split; [reflexivity|].
  cbn in Hl. injection Hl as Hpa Hr Hs Hc. auto.
Qed.

Lemma official_node_leaves_playback_witness :
  isOfficialNode (this example_playing) = true
  /\ by_the_player (CallSetEnabled false) = false
  /\ exists el',
       elements (world (step (CallSetEnabled false) example_playing)) !! 0%nat = Some el'
       /\ paused el' = false.
Proof.
  assert (Ho : isOfficialNode (this example_playing) = true) by (vm_compute; reflexivity).
  split; [exact Ho|]. split; [reflexivity|].
  destruct (official_node_leaves_playback (CallSetEnabled false) example_playing Ho eq_refl)
    as (_ & H).
  assert (He : exists el,
             elements (world example_playing) !! 0%nat = Some el /\ paused el = false)
    by (eexists; split; [vm_compute; reflexivity|reflexivity]).
  destruct He as (el & He & Hp).
  destruct (H 0%nat el He) as (el' & He' & Hpa & _).
  exists el'. split; [exact He'|congruence].
Defined.

(** ** Choosing a mode, switching off *)

Lemma Mode_eqb_refl (m : Mode) : Mode_eqb m m = true.
Proof. destruct m; try reflexivity. apply String.eqb_refl. Qed.

Lemma Mode_eqb_eq (a b : Mode) : Mode_eqb a b = true -> a = b.
Proof.
  destruct a, b; try discriminate; try reflexivity.
  cbn. intros H. apply String.eqb_eq in H. now subst.
Qed.

Lemma setMode_same_mode (m : Mode) (s : State) :
  mode (config (this s)) = m -> setMode m s = (Normal tt, s).
Proof.
  intros H. unfold setMode, function_body.
  rewrite run_bind_gets, H, Mode_eqb_refl, run_bind_return. reflexivity.
Qed.

Lemma startVisualization_mode : rel (same (fun s => mode (config (this s)))) startVisualization.
Proof. same_auto. Qed.

Lemma cleanup_enabled : rel (same (fun s => visualizerEnabled (this s))) cleanup.
Proof. same_auto. Qed.

(** X13. [setMode] is idempotent: after [setMode(m)] the mode is [m], whether
    or not the loop was restarted on the way, and a second [setMode(m)]
    returns at once: it changes nothing, saves nothing and does not restart
    the render loop. *)
Theorem setMode_settles (m : Mode) (s : State) :
  let s' := exec (setMode m) s in
  mode (config (this s')) = m /\ setMode m s' = (Normal tt, s').
Proof.
  cbv zeta.
  assert (Hmode : mode (config (this (exec (setMode m) s))) = m).
  { unfold setMode. rewrite exec_function_body. unfold exec.
    rewrite run_bind_gets.
    destruct (Mode_eqb (mode (config (this s))) m) eqn:E.
    - rewrite run_bind_return. now apply Mode_eqb_eq.
    - rewrite run_bind_ret, run_bind_modify_this, run_bind_gets.
      destruct s as [v w]. cbn [this world].
      destruct (isOfficialNode (set_config (set_mode m (config v)) v)).
      + rewrite run_bind_assoc, run_bind_modify_this. unfold updateModeMenu.
        rewrite run_bind_ret, run_bind_gets.
        rewrite (same_exec (fun s => mode (config (this s))) _ _
                   (rel_when _ _ _ startVisualization_mode)).
        destruct v. reflexivity.
      + rewrite run_bind_ret, run_bind_gets.
        rewrite (same_exec (fun s => mode (config (this s))) _ _
                   (rel_when _ _ _ startVisualization_mode)).
        destruct v. reflexivity. }
  split; [exact Hmode|]. now apply setMode_same_mode.
Qed.

(** X14. Switching the visualizer off stops it for good: in any state the
    visualizer can be in, after [setEnabled(false)] no animation frame is
    pending, no source node or analyser is referenced and the visualizer is not
    initialised; and while it is off, the [play], [pause] and [ended] listeners
    and [connectToAudioElement] return without changing anything. *)
Theorem disabling_stops_the_visualizer (s : State) (Hreach : reachable s) :
  let s' := exec (setEnabled false) s in
  visualizerEnabled (this s') = false
  /\ frames (world s') = []
  /\ handle_truthy (animationFrameId (this s')) = false
  /\ source (this s') = None
  /\ analyser (this s') = None
  /\ isInitialized (this s') = false
  /\ (forall e, onPlay e s' = (Normal tt, s'))
  /\ onStop s' = (Normal tt, s')
  /\ (forall target, connectToAudioElement target s' = (Normal tt, s')).
Proof.
  cbv zeta.
  assert (Hs : exists s0,
             exec (setEnabled false) s = exec cleanup s0
             /\ visualizerEnabled (this s0) = false
             /\ loop_view s0 = loop_view s).
  { unfold setEnabled, exec.
    rewrite run_bind_modify_this, run_bind_gets. cbn [this world].
    destruct s as [v w]. cbn [this world].
    destruct (isOfficialNode (set_visualizerEnabled false v)).
    - rewrite run_bind_modify_this. unfold updateModeMenu. rewrite run_bind_ret.
      cbn [negb]. eexists. split; [reflexivity|]. destruct v. split; reflexivity.
    - rewrite run_bind_ret. unfold updateModeMenu. rewrite run_bind_ret.
      cbn [negb]. eexists. split; [reflexivity|]. destruct v. split; reflexivity. }
  destruct Hs as (s0 & -> & Hoff & Hview).
  assert (Hloop : one_loop s0)
    by (apply (one_loop_view s); [exact Hview|now apply reachable_one_loop]).
  destruct (cleanup_torn_down s0) as [(Hh & Hso & Han & Hinit & _) Hf].
  destruct (stopVisualization_clears s0 Hloop) as (_ & Hnil & _).
  assert (Hen : visualizerEnabled (this (exec cleanup s0)) = false)
    by (rewrite (cleanup_enabled s0); exact Hoff).
  split; [exact Hen|]. split; [congruence|].
  split; [exact Hh|]. split; [exact Hso|]. split; [exact Han|]. split; [exact Hinit|].
  split; [|split].
  - intros e. unfold onPlay, function_body.
    rewrite run_bind_gets, Hen, run_bind_return. reflexivity.
  - unfold onStop, function_body.
    rewrite run_bind_gets, Hen, run_bind_return. reflexivity.
  - intros target. unfold connectToAudioElement, function_body.
    rewrite run_bind_gets, Hen, run_bind_return. reflexivity.
Qed.

Lemma disabling_stops_the_visualizer_witness :
  frames (world example_playing) <> []
  /\ frames (world (exec (setEnabled false) example_playing)) = []
  /\ onPlay 0%nat (exec (setEnabled false) example_playing)
     = (Normal tt, exec (setEnabled false) example_playing).
Proof.
  split; [vm_compute; discriminate|].
  destruct (disabling_stops_the_visualizer example_playing example_playing_reachable)
    as (_ & Hf & _ & _ & _ & _ & Hplay & _).
  split; [exact Hf|exact (Hplay 0%nat)].
Defined.

(** ** The parameters of an audio URL *)

Fixpoint count_char (c : ascii) (s : string) : nat :=
  match s with
  | EmptyString => 0
  | String a s' => ((if Ascii.eqb a c then 1 else 0) + count_char c s')%nat
  end.

Lemma count_char_app (c : ascii) (a b : string) :
  count_char c (a +:+ b) = (count_char c a + count_char c b)%nat.
Proof. induction a as [|x a IH]; simpl; [reflexivity|rewrite IH; lia]. Qed.

Lemma hex_digit_unreserved (n : N) : uri_unreserved (hex_digit n) = true.
Proof.
  destruct n as [|p]; [reflexivity|].
  do 4 (try (destruct p as [p|p|]; try reflexivity)).
Qed.

Lemma count_char_encoded (c : ascii) (s : string) :
  uri_unreserved c = false -> Ascii.eqb "%" c = false ->
  count_char c (encodeURIComponent s) = 0%nat.
Proof.
  intros Hc Hp. induction s as [|a s IH]; cbn [encodeURIComponent count_char]; [reflexivity|].
  assert (Hne : forall x, uri_unreserved x = true -> Ascii.eqb x c = false).
  { intros x Hx. destruct (Ascii.eqb_spec x c) as [->|]; congruence. }
  destruct (uri_unreserved a) eqn:Ha; cbn [count_char].
  - now rewrite (Hne a Ha), IH.
  - now rewrite Hp, !(Hne _ (hex_digit_unreserved _)), IH.
Qed.

Definition is_digit_or_minus (c : ascii) : bool :=
  existsb (Ascii.eqb c) ["0"; "1"; "2"; "3"; "4"; "5"; "6"; "7"; "8"; "9"; "-"]%char.

Lemma not_digit_or_minus (c x : ascii) :
  is_digit_or_minus c = false ->
  In x ["0"; "1"; "2"; "3"; "4"; "5"; "6"; "7"; "8"; "9"; "-"]%char ->
  Ascii.eqb x c = false.
Proof.
  intros H Hx. destruct (Ascii.eqb_spec x c) as [->|]; [|reflexivity].
  exfalso. unfold is_digit_or_minus in H.
  assert (Ht : existsb (Ascii.eqb c)
                 ["0"; "1"; "2"; "3"; "4"; "5"; "6"; "7"; "8"; "9"; "-"]%char = true)
    by (apply existsb_exists; exists c; split; [exact Hx|apply Ascii.eqb_refl]).
  congruence.
Qed.

Lemma count_char_uint (c : ascii) (d : Decimal.uint) :
  is_digit_or_minus c = false -> count_char c (DecimalString.NilEmpty.string_of_uint d) = 0%nat.
Proof.
  intros H.
  induction d as [|d IH|d IH|d IH|d IH|d IH|d IH|d IH|d IH|d IH|d IH];
    cbn [DecimalString.NilEmpty.string_of_uint count_char]; [reflexivity|..];
    rewrite IH, (not_digit_or_minus c _ H) by (simpl; tauto); reflexivity.
Qed.

Lemma count_char_int (c : ascii) (z : Z) :
  is_digit_or_minus c = false ->
  count_char c (DecimalString.NilZero.string_of_int (Z.to_int z)) = 0%nat.
Proof.
  intros H. unfold DecimalString.NilZero.string_of_int, DecimalString.NilZero.string_of_uint.
  destruct (Z.to_int z) as [d|d]; destruct d eqn:Ed;
    cbn [count_char];
    rewrite ?(not_digit_or_minus c "-" H), ?(not_digit_or_minus c "0" H) by (simpl; tauto);
    try reflexivity;
    rewrite <- ?Ed; cbn [Nat.add]; apply count_char_uint; exact H.
Qed.

(** X15. Without the host's [api.apiURL] and [app.getRandParam],
    [getAudioUrl] always returns a URL, never null, and whatever the audio
    identifier is, the URL has one query with exactly the four parameters
    filename, type, subfolder and t: the file name and the subfolder are
    percent-encoded, so that a name with [&], [=], [?], [#], a slash or a space
    in it cannot add, end or change a parameter. *)
Theorem audio_url_has_four_parameters (audioValue : string) (s : State)
    (Hapi : apiURL (app (world s)) = None)
    (Hrand : getRandParam (app (world s)) = None) :
  exists url,
    getAudioUrl audioValue s = (Normal (Some url), s)
    /\ url = "/view?filename=" +:+ encodeURIComponent (fst (getAudioUrl_parts audioValue))
             +:+ "&type=input&subfolder="
             +:+ encodeURIComponent (snd (getAudioUrl_parts audioValue))
             +:+ "&t=" +:+ DecimalString.NilZero.string_of_int (Z.to_int (Date_now (world s)))
    /\ count_char "?" url = 1%nat
    /\ count_char "&" url = 3%nat
    /\ count_char "=" url = 4%nat
    /\ count_char "/" url = 1%nat
    /\ count_char "#" url = 0%nat
    /\ count_char " " url = 0%nat.
Proof.
  eexists. split; [apply getAudioUrl_from_parts|].
  unfold audio_url, join_amp. rewrite Hapi, Hrand. cbn [String.concat].
  set (F := encodeURIComponent (fst (getAudioUrl_parts audioValue))).
  set (S' := encodeURIComponent (snd (getAudioUrl_parts audioValue))).
  set (T := DecimalString.NilZero.string_of_int (Z.to_int (Date_now (world s)))).
  assert (HF : forall c, uri_unreserved c = false -> Ascii.eqb "%" c = false ->
                         count_char c F = 0%nat)
    by (intros c; apply count_char_encoded).
  assert (HS : forall c, uri_unreserved c = false -> Ascii.eqb "%" c = false ->
                         count_char c S' = 0%nat)
    by (intros c; apply count_char_encoded).
  assert (HT : forall c, is_digit_or_minus c = false -> count_char c T = 0%nat)
    by (intros c; apply count_char_int).
  clearbody F S' T.
  split; [reflexivity|].
  repeat split;
    repeat (progress (simpl; rewrite ?count_char_app));
    rewrite ?HF, ?HS, ?HT by reflexivity; reflexivity.
Qed.

Lemma audio_url_has_four_parameters_witness :
  exists url,
    getAudioUrl "a&b/c d.wav" example_state = (Normal (Some url), example_state)
    /\ url = "/view?filename=c%20d.wav&type=input&subfolder=a%26b&t=0"
    /\ count_char "&" url = 3%nat.
Proof.
  destruct (audio_url_has_four_parameters "a&b/c d.wav" example_state eq_refl eq_refl)
    as (url & Hrun & Hurl & _ & Hamp & _).
  exists url. split; [exact Hrun|]. split; [|exact Hamp].
  rewrite Hurl. vm_compute. reflexivity.
Defined.

(** ** The audio element of a custom node *)

(** What [cleanup] does to the element it is bound to. *)
Definition silenced (el : AudioElement) : AudioElement := set_src "" (set_paused true el).

(** What [loadAudio] reads after the teardown. *)
Definition page_view (s : State) :=
  (isOfficialNode (this s), audioUIWidget (world s), nextId (world s)).

Lemma cleanup_page : rel (same page_view) cleanup.
Proof. same_auto. Qed.

(** The audio elements after [cleanup] on a node that is not official. *)
Definition released (s : State) : gmap nat AudioElement :=
  match audioElement (this s) with
  | Some e =>
      match elements (world s) !! e with
      | Some el => <[e := silenced el]> (elements (world s))
      | None => elements (world s)
      end
  | None => elements (world s)
  end.

(** [cleanup] on a node that is not official, bound to nothing or to an
    element of the page: it completes, and the element is paused and emptied. *)
Lemma cleanup_custom (s : State) :
  isOfficialNode (this s) = false ->
  (forall e, audioElement (this s) = Some e -> elements (world s) !! e <> None) ->
  exists s',
    cleanup s = (Normal tt, s')
    /\ audioElement (this s') = None
    /\ elements (world s') = released s.
Proof.
  intros Hoff Hbound. unfold cleanup, released.
  rewrite run_bind, stopVisualization_normal.
  pose proof (stopVisualization_handle s) as (_ & Hw1 & Hv1).
  specialize (Hv1 _ eq_refl).
  set (s1 := exec stopVisualization s) in *.
  assert (He1 : elements (world s1) = elements (world s)).
  { rewrite Hw1. destruct (animationFrameId (this s)) as [id|]; [|reflexivity].
    destruct (negb (id =? 0)); reflexivity. }
  rewrite <- run_bind_assoc, run_bind.
  destruct (cleanup_source s1) as (s2 & -> & _ & F2 & _ & He2 & _).
  rewrite <- run_bind_assoc, run_bind.
  destruct (cleanup_context s2) as (s3 & -> & _ & F3 & He3 & _).
  rewrite run_bind_modify_this, run_bind_modify_this.
  assert (F : forall (A : Type) (f : Visualizer -> A),
            (forall v x, f (set_audioContext x v) = f v) ->
            (forall v x, f (set_source x v) = f v) ->
            (forall v x, f (set_animationFrameId x v) = f v) ->
            f (this s3) = f (this s)).
  { intros A f Hc Hs Ha.
    rewrite <- (Hc (this s3) None), F3, Hc.
    rewrite <- (Hs (this s2) None), F2, Hs.
    rewrite <- (Ha (this s1) None), Hv1. apply Ha. }
  pose proof (F _ isOfficialNode (fun _ _ => eq_refl) (fun _ _ => eq_refl)
                (fun _ _ => eq_refl)) as Hoff3.
  pose proof (F _ audioElement (fun _ _ => eq_refl) (fun _ _ => eq_refl)
                (fun _ _ => eq_refl)) as Hcur3.
  rewrite Hoff in Hoff3.
  assert (He3' : elements (world s3) = elements (world s)) by (rewrite He3, He2; exact He1).
  rewrite run_bind_gets. cbn [this world isOfficialNode set_isInitialized set_analyser].
  rewrite Hoff3. rewrite run_bind_gets.
  cbn [this world audioElement set_isInitialized set_analyser]. rewrite Hcur3.
  destruct (audioElement (this s)) as [e|] eqn:Hcur.
  - destruct (elements (world s) !! e) as [el|] eqn:He;
      [|exfalso; exact (Hbound e eq_refl He)].
    unfold try_catch, element_set_src, update_element, bind, modify_this, modify_world.
    cbn [this world]. rewrite He3', He. cbn [fst snd this world elements set_elements].
    rewrite lookup_insert_eq. cbn [fst snd this world elements set_elements].
    eexists. split; [reflexivity|].
    cbn [this world elements set_elements with_src_attribute set_emptySrcAttribute].
    split; [reflexivity|].
    rewrite insert_insert_eq. reflexivity.
  - eexists. split; [reflexivity|]. cbn [this world audioElement].
    split; [|exact He3'].
    rewrite <- Hcur3. reflexivity.
Qed.

(** X16. On a node that is not official, [cleanup] silences the element the
    visualizer is bound to: it ends normally, the element is paused and its
    source URL is the empty string, the visualizer lets go of it, and no other
    audio element of the page is changed. *)
Theorem cleanup_silences_own_element (s : State) (e : nat) (el : AudioElement)
    (Hcustom : isOfficialNode (this s) = false)
    (Hcur : audioElement (this s) = Some e)
    (He : elements (world s) !! e = Some el) :
  let s' := exec cleanup s in
  cleanup s = (Normal tt, s')
  /\ audioElement (this s') = None
  /\ (exists el', elements (world s') !! e = Some el' /\ paused el' = true /\ src el' = "")
  /\ (forall e', e' <> e -> elements (world s') !! e' = elements (world s) !! e').
Proof.
  cbv zeta.
  assert (Hbound : forall e0, audioElement (this s) = Some e0 ->
                              elements (world s) !! e0 <> None) by congruence.
  destruct (cleanup_custom s Hcustom Hbound) as (s' & Hrun & Ha & Hels).
  unfold released in Hels. rewrite Hcur, He in Hels.
  unfold exec. rewrite Hrun. cbn [snd].
  split; [reflexivity|]. split; [exact Ha|]. split.
  - exists (silenced el). rewrite Hels, lookup_insert_eq. repeat split.
  - intros e' Hne. rewrite Hels. now apply lookup_insert_ne.
Qed.

(** A visualizer on a node that is not official, bound to the playing element
    of the node's player. *)
Definition example_custom : State :=
  step (CallHandleAudioChange (Some "song.mp3"))
    (step (CallCreateCanvasWidget true)
       (mkState (constructor false None None None) example_world)).

Lemma cleanup_silences_own_element_witness :
  (paused <$> elements (world example_custom) !! 0%nat) = Some false
  /\ exists el',
       elements (world (exec cleanup example_custom)) !! 0%nat = Some el'
       /\ paused el' = true /\ src el' = "".
Proof.
  split; [vm_compute; reflexivity|].
  assert (He : exists el, elements (world example_custom) !! 0%nat = Some el)
    by (eexists; vm_compute; reflexivity).
  destruct He as (el & He).
  assert (Hcustom : isOfficialNode (this example_custom) = false)
    by (vm_compute; reflexivity).
  assert (Hcur : audioElement (this example_custom) = Some 0%nat)
    by (vm_compute; reflexivity).
  destruct (cleanup_silences_own_element example_custom 0%nat el Hcustom Hcur He)
    as (_ & _ & H & _).
  exact H.
Defined.

(** X17. [loadAudio] does nothing at all on an official node.  On a node
    that is not official and has no player of its own, it first tears the
    visualizer down, which pauses and empties the element bound before, and then
    binds a new, paused audio element for the URL, with the [loadeddata]
    handler set; the visualizer is left not initialised until that element has
    loaded. *)
Theorem loadAudio_replaces_the_element (audioUrl : string) (s : State) :
  (isOfficialNode (this s) = true -> loadAudio audioUrl s = (Normal tt, s))
  /\ (isOfficialNode (this s) = false ->
      audioUIWidget (world s) = None ->
      (forall e, audioElement (this s) = Some e ->
                 elements (world s) !! e <> None /\ e <> nextId (world s)) ->
      let s' := exec (loadAudio audioUrl) s in
      let new := nextId (world s) in
      loadAudio audioUrl s = (Normal tt, s')
      /\ audioElement (this s') = Some new
      /\ elements (world s') !! new
         = Some (mkAudioElement true 0 audioUrl 0 None None 0 0 true)
      /\ (forall e, audioElement (this s) = Some e ->
            exists el', elements (world s') !! e = Some el'
                        /\ paused el' = true /\ src el' = "")
      /\ isInitialized (this s') = false
      /\ analyser (this s') = None
      /\ source (this s') = None).
Proof.
  split.
  - intros Ho. unfold loadAudio, function_body.
    rewrite run_bind_gets, Ho, run_bind_return. reflexivity.
  - intros Hoff Hui Hbound. cbv zeta.
    assert (Hb : forall e, audioElement (this s) = Some e ->
                           elements (world s) !! e <> None)
      by (intros e He; apply (Hbound e He)).
    destruct (cleanup_custom s Hoff Hb) as (s1 & Hrun & Ha & Hels).
    pose proof (cleanup_page s) as Hpage. unfold same, exec in Hpage.
    rewrite Hrun in Hpage. cbn [snd] in Hpage.
    unfold page_view in Hpage. injection Hpage as _ Hui1 Hid1.
    destruct (cleanup_torn_down s) as [(_ & Hso & Han & Hinit & _) _].
    unfold exec in Hso, Han, Hinit. rewrite Hrun in Hso, Han, Hinit.
    cbn [snd] in Hso, Han, Hinit.
    unfold exec, loadAudio, function_body.
    rewrite run_bind_gets, Hoff, run_bind_ret, run_bind, Hrun, run_bind_gets.
    rewrite Hui1, Hui.
    unfold new_Audio, bind, modify_this. cbn [fst snd this world].
    rewrite Hid1.
    split; [reflexivity|]. split; [reflexivity|].
    destruct s1 as [v1 w1]. destruct v1, w1. cbn in Hso, Han, Hinit, Hels, Hid1 |- *.
    subst.
    split; [now rewrite lookup_insert_eq|]. split; [|auto].
    intros e He. destruct (Hbound e He) as [Hin Hne].
    unfold released. rewrite He.
    destruct (elements (world s) !! e) as [el|] eqn:Hel; [|contradiction].
    exists (silenced el).
    rewrite lookup_insert_ne by congruence. rewrite lookup_insert_eq. repeat split.
Qed.

Lemma loadAudio_replaces_the_element_witness :
  exists el',
    elements (world (exec (loadAudio "next.mp3")
                       (step (AudioUIBecomes None) example_custom))) !! 0%nat = Some el'
    /\ paused el' = true /\ src el' = "".
Proof.
  destruct (loadAudio_replaces_the_element "next.mp3"
              (step (AudioUIBecomes None) example_custom)) as (_ & H).
  assert (He : exists el,
             elements (world (step (AudioUIBecomes None) example_custom)) !! 0%nat = Some el)
    by (eexists; vm_compute; reflexivity).
  destruct He as (el & He).
  assert (Hoff : isOfficialNode (this (step (AudioUIBecomes None) example_custom)) = false)
    by (vm_compute; reflexivity).
  assert (Hui : audioUIWidget (world (step (AudioUIBecomes None) example_custom)) = None)
    by (vm_compute; reflexivity).
  assert (Hcur : audioElement (this (step (AudioUIBecomes None) example_custom)) = Some 0%nat)
    by (vm_compute; reflexivity).
  assert (Hbound : forall e,
             audioElement (this (step (AudioUIBecomes None) example_custom)) = Some e ->
             elements (world (step (AudioUIBecomes None) example_custom)) !! e <> None
             /\ e <> nextId (world (step (AudioUIBecomes None) example_custom))).
  { intros e Hc. rewrite Hcur in Hc. injection Hc as <-.
    split; [rewrite He; discriminate|vm_compute; discriminate]. }
  destruct (H Hoff Hui Hbound) as (_ & _ & _ & Hold & _).
  exact (Hold 0%nat Hcur).
Defined.
